(* ===== verification/_CoqProject ===== *)
-Q . S2P
Prelude.v
CString.v
Acsm.v
AcsmSpec.v
AcsmTrie.v
AcsmBuild.v
AcsmSearch.v
AcsmConf.v
AcsmLoad.v
Md5.v
VideoReg.v
StoreKey.v
StoreKeyUrl.v
Heap.v
DList.v
ReplLru.v
Filemap.v
Event.v
CacheDigest.v
HttpRange.v
Stmem.v
Base64.v
Rfc1738.v
Splay.v
Hash.v
SwapMeta.v
ArrayStack.v
HtmlQuote.v
Rfc1035.v
CbData.v
Store.v
StoreProof.v
StoreSafe.v
StoreProtocol.v
