(* ===== verification/Prelude.v ===== *)
(** * Squid 2.7 with the video cache: a verification library

    ** The program

    The repository is Squid 2.7.STABLE9, a caching HTTP proxy, with a patch that
    lets copies of the same video under different URLs share one cache entry.
    Paths below are relative to src/squid-2.7.STABLE9-new/ unless they start with
    libvideoreg. A request's URL is searched for keywords (src/acsmDFA.c); when
    one is found its flag selects a handler (libvideoreg/src/videoreg.c) that cuts
    a video identifier out of the URL, and the identifier is digested into the
    cache key in place of the URL (src/store_key_md5.c, lib/md5.c). The key
    addresses the entry in a hash table (lib/hash.c). The store manager (src/store.c,
    src/store_swapout.c, src/store_client.c) keeps the entries with their locks,
    keys and memory objects from creation to release. The object's bytes are held
    in pages while they arrive (src/stmem.c), its metadata is packed in front of
    the bytes on disk (src/store_swapmeta.c), under a file number from a bitmap
    (src/filemap.c); a replacement policy (src/repl/lru, on the lists of
    src/tools.c) chooses what to evict, the other policies use a heap
    (lib/heap.c). Keys are summarised for other caches in a digest
    (src/CacheDigest.c). Timed work goes through an event queue (src/event.c), whose
    callbacks hold reference-counted data (src/cbdata.c).
    Clients ask for parts of objects by range headers (src/HttpHdrRange.c,
    src/HttpHdrContRange.c). Host names are resolved with the message code of
    lib/rfc1035.c. Access lists search splay trees (lib/splay.c).
    lib/Array.c, lib/Stack.c, lib/base64.c, lib/rfc1738.c and lib/html_quote.c
    are shared helpers.

    ** Conventions

    A definition has the name of the C function it translates and its guards,
    early returns and calls in the same order. A machine integer is a [Z] wrapped
    by [u8], [u32], [u64], [i32] or [i64] where C converts or can overflow; the
    model is of an LP64 little-endian host. Arrays are lists read and written by
    [zget] and [zset], strings are lists of bytes without their terminator, and
    linked structures are stores from addresses to records, 0 the null pointer.
    A result in [option] is [None] when C would read or write outside an object,
    follow a pointer that is not valid or fail an assertion; so a theorem that
    ends in [Some] shows that none of this happens. Error results of the code
    itself are ordinary values.

    A loop that is not structural takes fuel and is [None] when it runs out. The
    theorems are stated for the fuel the definitions choose and conclude [Some],
    so it is enough: the size of the table or store for a walk along a chain
    (which has no repeated node), the length of the buffer for a parser (every
    turn moves forward), the number of nodes of a tree for a descent.

    ** The files

    - [Prelude]: integers, arrays, bits, tactics ([zbool], [bind_inv]) and the
      hint database [squid]. [CString]: the C library on strings.
    - Keyword automaton, src/acsmDFA.c. [Acsm]: patterns, queue, trie, failure
      links, transition rows, search. [AcsmSpec]: what a search should return.
      [AcsmTrie], [AcsmBuild], [AcsmSearch]: the trie holds the keywords, the
      failure links are the longest suffixes, and a search returns the flag of
      the keyword met first, 0 exactly when none occurs, on ASCII text, and stays
      in bounds on any bytes. The allocation cuts the size of the state table to
      32 bits: compiling stays in bounds exactly when the table is smaller.
      [AcsmConf], [AcsmLoad]: the keyword file; loading and searching agree with the file, a three-digit flag is
      read past its array, on a line without a blank the scan leaves the buffer.
    - [Md5], lib/md5.c: streaming equals RFC 1321.
    - [VideoReg], libvideoreg: what the handlers extract and when they overrun the
      caller's array.
    - [StoreKey], [StoreKeyUrl], src/store_key_md5.c: text form, order and hash of
      keys; the keys by URL and by request agree, two URLs of
      a video have one key, long URLs overrun. The two use the
      automaton through the class [Matcher] that [StoreKeyUrl] states and the
      theorems on the automaton discharge.
    - [Heap], lib/heap.c: every operation keeps the heap order and
      the node ids, and changes exactly the node it should. Keys are
      any type of the class [HeapKey].
    - [DList], [ReplLru], src/tools.c and src/repl/lru: the policy is a list in
      order of last use, a purge returns the oldest unlocked entry.
    - [Filemap], src/filemap.c: setting and allocating numbers. [Event],
      src/event.c: the order of the queue and what a run calls, for any callbacks.
      [CacheDigest], src/CacheDigest.c: membership without false negatives.
    - [HttpRange]: round trips, what canonization
      keeps, a dash borrowed from the next item.
    - [Stmem], src/stmem.c: the pages hold the appended stream
      and their accounting balances, whatever fresh pages contain.
    - [Base64], [Rfc1738]: round trips inside the static buffers.
    - [Splay], lib/splay.c: a search finds an element that is there,
      insertion keeps the order for comparisons of class [SplayOrder].
    - [Hash], lib/hash.c: a table is the list of its links and
      a walk meets each once, for functions of class [HashFns], which
      strings with [hash_string] or [hash4] implement.
    - [Rfc1035], lib/rfc1035.c: no reply makes the unpacker leave
      its buffers or loop, and a reply to a query, whatever address records it
      carries, is recognised and unpacked.
    - [SwapMeta], src/store_swapmeta.c: round trip, and the read past the end of
      a truncated header.
    - [ArrayStack], lib/Array.c and lib/Stack.c: an array is the list of its
      items. [HtmlQuote], lib/html_quote.c: quoted text holds no markup.
    - [CbData], src/cbdata.c: operations, owners and callbacks interleaved in any
      order; no assertion fails, no callback gets freed data, and everything can
      be released.
    - [Store], src/store.c, src/store_swapout.c and src/store_client.c: entries,
      their locks, keys and memory objects. [StoreProof]: the invariant, and that
      freeing entries, which may free others, ends and keeps it (the fuel
      [depth] is enough, as every level frees a memory object). [StoreSafe]: the
      other operations. [StoreProtocol]: all of them in any order, with the locks
      their callers hold: the books are right in every store that can be reached
      and no assertion fails; an entry that is made public takes its key over.
      The keys are any of the class [StoreKeysOk], in which no two digests
      collide.

    ** What is not modelled

    Functions that only release memory, print reports or keep statistics. The
    network, disk and process side of the proxy: client and server connections,
    the storage directories, reading objects back from disk, the DNS client, helper
    processes, the protocols between caches, authentication, the configuration
    parser. Of the store, what the handlers of its clients do and the index of
    variants are events. The HTTP headers other than ranges, URLs, access lists,
    refresh rules, delay pools and the heap replacement policies (whose keys are
    doubles) are left out. Time and randomness are arguments; 64-bit sizes, offsets
    and times are taken not to reach 2^63 where a file says so. Vendored code
    (regex, malloc, snprintf) is left out. *)
From stdpp Require Export base tactics numbers list gmap option strings fin_maps sets sorting.
From Stdlib Require Export ZArith Lia.
#[export] Set Default Proof Using "Type".

(** Notations of the development live in their own scope. *)
Declare Scope squid_scope.
Delimit Scope squid_scope with squid.

(** * Machine integers

    An unsigned [w]-bit value is a [Z] kept in [0, 2^w); [u32], [u64] are the
    conversions C performs on assignment, [i32] and [i64] the two's complement
    readings gcc gives to an out-of-range conversion to a signed type. *)
Definition u8 (x : Z) : Z := (x mod 256)%Z.
Definition u32 (x : Z) : Z := (x mod 4294967296)%Z.
Definition u64 (x : Z) : Z := (x mod 18446744073709551616)%Z.

Definition i32 (x : Z) : Z :=
  (let y := u32 x in if y <? 2147483648 then y else y - 4294967296)%Z.
Definition i64 (x : Z) : Z :=
  (let y := u64 x in
   if y <? 9223372036854775808 then y else y - 18446744073709551616)%Z.

Definition INT_MAX : Z := 2147483647%Z.
Definition INT_MIN : Z := (-2147483648)%Z.

(** A byte of memory. *)
Definition is_byte (b : Z) : Prop := (0 <= b < 256)%Z.
#[export] Instance is_byte_dec b : Decision (is_byte b).
Proof. unfold is_byte. apply _. Defined.

(** * Arrays addressed by C integers

    [zget l i] reads element [i] of an array and is [None] when [i] is outside
    it; [zset] writes and fails in the same way, so a definition that returns
    [Some] has made no access outside its arrays. *)
Definition zget {A} (l : list A) (i : Z) : option A :=
  if (0 <=? i)%Z then l !! Z.to_nat i else None.

Definition zset {A} (l : list A) (i : Z) (x : A) : option (list A) :=
  if decide (0 <= i < Z.of_nat (length l))%Z then Some (<[Z.to_nat i := x]> l)
  else None.

Abbreviation zlen l := (Z.of_nat (length l)).

Notation "l .[ i ]" := (zget l i)
  (at level 1, left associativity, format "l .[ i ]") : squid_scope.
Open Scope squid_scope.
Open Scope Z_scope.

Section arrays.
Context {A : Type}.
Implicit Types (l : list A) (i j : Z) (x : A).

Lemma zget_Some_range l i x : zget l i = Some x → 0 <= i < zlen l.
Proof.
  unfold zget. destruct (Z.leb_spec 0 i); [|done]. intros Hl.
  apply lookup_lt_Some in Hl. lia.
Qed.

Lemma zget_is_Some l i : 0 <= i < zlen l → is_Some (zget l i).
Proof.
  intros Hi. unfold zget. destruct (Z.leb_spec 0 i); [|lia].
  apply lookup_lt_is_Some. lia.
Qed.

Lemma zget_nat l (n : nat) : zget l (Z.of_nat n) = l !! n.
Proof. unfold zget. destruct (Z.leb_spec 0 (Z.of_nat n)); [|lia]. by rewrite Nat2Z.id. Qed.

Lemma zget_pos l i : 0 <= i → zget l i = l !! Z.to_nat i.
Proof. intros. unfold zget. destruct (Z.leb_spec 0 i); [done|lia]. Qed.

Lemma zget_neg l i : i < 0 → zget l i = None.
Proof. intros. unfold zget. destruct (Z.leb_spec 0 i); [lia|done]. Qed.

Lemma zget_ge l i : zlen l <= i → zget l i = None.
Proof. intros. rewrite zget_pos by lia. apply lookup_ge_None. lia. Qed.

Lemma zset_Some l i x :
  0 <= i < zlen l → zset l i x = Some (<[Z.to_nat i := x]> l).
Proof. intros. unfold zset. by rewrite decide_True. Qed.

Lemma zset_is_Some l i x : 0 <= i < zlen l → is_Some (zset l i x).
Proof. intros. rewrite zset_Some by done. eauto. Qed.

Lemma zset_inv l i x l' :
  zset l i x = Some l' → 0 <= i < zlen l ∧ l' = <[Z.to_nat i := x]> l.
Proof. unfold zset. case_decide; naive_solver. Qed.

Lemma zset_length l i x l' : zset l i x = Some l' → length l' = length l.
Proof. intros [_ ->]%zset_inv. by rewrite length_insert. Qed.

Lemma zget_zset l i x l' j :
  zset l i x = Some l' → zget l' j = if decide (j = i) then Some x else zget l j.
Proof.
  intros [Hi ->]%zset_inv. case_decide; subst.
  - rewrite zget_pos by lia. apply list_lookup_insert_eq. lia.
  - destruct (Z.ltb_spec j 0).
    { by rewrite !zget_neg by lia. }
    rewrite !zget_pos by lia. apply list_lookup_insert_ne. lia.
Qed.

Lemma zget_zset_eq l i x l' : zset l i x = Some l' → zget l' i = Some x.
Proof. intros H. rewrite (zget_zset _ _ _ _ _ H). by rewrite decide_True. Qed.

Lemma zget_zset_ne l i x l' j :
  j ≠ i → zset l i x = Some l' → zget l' j = zget l j.
Proof. intros Hj H. rewrite (zget_zset _ _ _ _ _ H). by rewrite decide_False. Qed.

Lemma zget_replicate (n : nat) x i :
  0 <= i < Z.of_nat n → zget (replicate n x) i = Some x.
Proof. intros. rewrite zget_pos by lia. apply lookup_replicate_2. lia. Qed.

Lemma zget_app_l l1 l2 i : i < zlen l1 → zget (l1 ++ l2) i = zget l1 i.
Proof.
  intros. unfold zget. destruct (Z.leb_spec 0 i); [|done].
  apply lookup_app_l. lia.
Qed.

Lemma zget_app_r l1 l2 i :
  zlen l1 <= i → zget (l1 ++ l2) i = zget l2 (i - zlen l1).
Proof.
  intros. rewrite !zget_pos by lia. rewrite lookup_app_r by lia. f_equal. lia.
Qed.
End arrays.

(** * Automation

    [squid] holds the facts that close the common side conditions; [sq_simpl]
    destructs the [match]es of the option monad in hypotheses, [zbool] turns
    the boolean comparisons of the code into propositions. *)
Create HintDb squid discriminated.
#[export] Hint Resolve zget_is_Some zget_zset_eq : squid.

Ltac zbool_step :=
  match goal with
  | |- context [ Z.ltb ?a ?b ] => destruct (Z.ltb_spec a b)
  | |- context [ Z.leb ?a ?b ] => destruct (Z.leb_spec a b)
  | |- context [ Z.eqb ?a ?b ] => destruct (Z.eqb_spec a b)
  | |- context [ Z.gtb ?a ?b ] => rewrite (Z.gtb_ltb a b)
  | |- context [ Z.geb ?a ?b ] => rewrite (Z.geb_leb a b)
  | H : context [ Z.ltb ?a ?b ] |- _ => destruct (Z.ltb_spec a b)
  | H : context [ Z.leb ?a ?b ] |- _ => destruct (Z.leb_spec a b)
  | H : context [ Z.eqb ?a ?b ] |- _ => destruct (Z.eqb_spec a b)
  | H : context [ Z.gtb ?a ?b ] |- _ => rewrite (Z.gtb_ltb a b) in H
  | H : context [ Z.geb ?a ?b ] |- _ => rewrite (Z.geb_leb a b) in H
  end.
Ltac zbool := repeat (zbool_step; try lia).

(** Inverts [x ← e; k = Some y] hypotheses. *)
Ltac bind_inv :=
  repeat match goal with
  | H : mbind _ ?e = Some _ |- _ =>
      let E := fresh "E" in
      destruct e eqn:E; cbn [mbind option_bind] in H; [|discriminate H]
  | H : Some _ = Some _ |- _ => injection H as H
  | H : None = Some _ |- _ => discriminate H
  end.

(** * Machine-integer lemmas *)
Lemma u32_small x : 0 <= x < 4294967296 → u32 x = x.
Proof. intros. unfold u32. by apply Z.mod_small. Qed.

Lemma u32_range x : 0 <= u32 x < 4294967296.
Proof. unfold u32. apply Z.mod_pos_bound. lia. Qed.

Lemma u8_small x : 0 <= x < 256 → u8 x = x.
Proof. intros. unfold u8. by apply Z.mod_small. Qed.

Lemma u64_small x : 0 <= x < 18446744073709551616 → u64 x = x.
Proof. intros. unfold u64. by apply Z.mod_small. Qed.

Lemma u32_i32 x y : u32 (i32 x + y) = u32 (x + y).
Proof.
  unfold i32, u32. destruct (Z.ltb_spec (x mod 4294967296) 2147483648); [by rewrite Zplus_mod_idemp_l|].
  replace (x mod 4294967296 - 4294967296 + y) with (x mod 4294967296 + y + (-1) * 4294967296) by lia. by rewrite Z_mod_plus_full, Zplus_mod_idemp_l.
Qed.
Lemma i32_add_l x y : i32 (i32 x + y) = i32 (x + y).
Proof. unfold i32 at 1 3. by rewrite u32_i32. Qed.
Lemma i32_idem x : i32 (i32 x) = i32 x.
Proof. pose proof (i32_add_l x 0) as H. by rewrite !Z.add_0_r in H. Qed.
Lemma i32_small x : -2147483648 <= x <= 2147483647 → i32 x = x.
Proof.
  intros. unfold i32, u32. destruct (decide (0 <= x)).
  - rewrite Z.mod_small by lia. zbool.
  - rewrite <- (Z.mod_unique x 4294967296 (-1) (x + 4294967296)) by lia. zbool.
Qed.

Lemma i64_small x :
  -9223372036854775808 <= x <= 9223372036854775807 → i64 x = x.
Proof.
  intros. unfold i64, u64. destruct (decide (0 <= x)).
  - rewrite Z.mod_small by lia. zbool.
  - rewrite <- (Z.mod_unique x 18446744073709551616 (-1) (x + 18446744073709551616))
      by lia. zbool.
Qed.

Lemma u32_add_r a b : u32 (a + u32 b) = u32 (a + b).
Proof. unfold u32. apply Zplus_mod_idemp_r. Qed.

(** * Bits *)

Lemma testbit_one_bit j k : 0 <= j → 0 <= k → Z.testbit (Z.shiftl 1 j) k = (k =? j).
Proof. intros. rewrite Z.shiftl_1_l, Z.pow2_bits_eqb by lia. apply Z.eqb_sym. Qed.

(** Testing a word against a one-bit mask. *)
Lemma land_one_bit w j : 0 <= j → negb (Z.land w (Z.shiftl 1 j) =? 0) = Z.testbit w j.
Proof.
  intros Hj. destruct (Z.eqb_spec (Z.land w (Z.shiftl 1 j)) 0) as [E|E]; cbn.
  - symmetry. assert (G : Z.testbit (Z.land w (Z.shiftl 1 j)) j = false) by by rewrite E, Z.bits_0.
    rewrite Z.land_spec, testbit_one_bit, Z.eqb_refl, andb_true_r in G by lia. done.
  - destruct (Z.testbit w j) eqn:T; [done|]. exfalso. apply E. apply Z.bits_inj'. intros k Hk.
    rewrite Z.land_spec, Z.bits_0, testbit_one_bit by done.
    destruct (Z.eqb_spec k j) as [->|]; [by rewrite T|apply andb_false_r].
Qed.

(** A value below [2^n] fills the low bits of a multiple of [2^n]. *)
Lemma lor_low_bits n m r : 0 <= n → 0 <= r < 2 ^ n → Z.lor (m * 2 ^ n) r = m * 2 ^ n + r.
Proof.
  intros Hn Hr. assert (Hl : Z.land (m * 2 ^ n) r = 0).
  { apply Z.bits_inj'. intros k Hk. rewrite Z.land_spec, Z.bits_0.
    destruct (Z.ltb_spec k n); [by rewrite Z.mul_pow2_bits_low|].
    destruct (decide (r = 0)) as [->|]; [rewrite Z.bits_0; apply andb_false_r|].
    rewrite (Z.bits_above_log2 r k), andb_false_r; [done|lia|].
    apply Z.log2_lt_pow2; [lia|]. apply Z.lt_le_trans with (2 ^ n); [lia|].
    apply Z.pow_le_mono_r; lia. }
  rewrite <- Z.lxor_lor by done. symmetry. by apply Z.add_nocarry_lxor.
Qed.

(** * Filtering *)
Section filtering.
Context {A : Type} (P Q : A → Prop) `{∀ x, Decision (Q x)}.
Implicit Types l : list A.

Lemma Forall_filter_keep l : Forall P l → Forall P (filter Q l).
Proof. rewrite !Forall_forall. intros Hl x [_ Hx]%list_elem_of_filter. by apply Hl. Qed.

Lemma filter_all l : Forall Q l → filter Q l = l.
Proof. induction 1 as [|x l Hx _ IH]; [done|]. rewrite filter_cons, decide_True by done. by rewrite IH. Qed.

Lemma filter_none l : Forall (λ x, ¬ Q x) l → filter Q l = [].
Proof. induction 1 as [|x l Hx _ IH]; [done|]. by rewrite filter_cons, decide_False. Qed.
End filtering.

(** One occurrence taken out of a list. *)
Fixpoint take_out {A} `{EqDecision A} (x : A) (l : list A) : option (list A) :=
  match l with [] => None | y :: l => if decide (y = x) then Some l else cons y <$> take_out x l end.

Lemma take_out_perm {A} `{EqDecision A} (x : A) l k : take_out x l = Some k → l ≡ₚ x :: k.
Proof.
  revert k. induction l as [|y l IH]; intros k; cbn; [done|]. destruct (decide (y = x)) as [->|]; [by intros [= ->]|].
  destruct (take_out x l); cbn; [|done]. intros [= <-]. rewrite (IH _ eq_refl). solve_Permutation.
Qed.
Lemma take_out_in {A} `{EqDecision A} (x : A) l : x ∈ l → ∃ k, take_out x l = Some k ∧ l ≡ₚ x :: k.
Proof.
  intros Hx. assert (is_Some (take_out x l)) as [k Hk]; [|exists k; split; [done|by apply take_out_perm]].
  induction l as [|y l IH]; [by apply not_elem_of_nil in Hx|]. cbn. destruct (decide (y = x)); [by eexists|].
  apply elem_of_cons in Hx as [->|Hx]; [done|]. destruct (IH Hx) as [k ->]. by eexists.
Qed.

(** ** Operations that may fail: that one does not, and what its result satisfies *)

Definition post {A} (o : option A) (P : A → Prop) : Prop := match o with Some a => P a | None => False end.
Lemma post_bind {A B} (o : option A) (f : A → option B) P Q : post o P → (∀ a, P a → post (f a) Q) → post (o ≫= f) Q.
Proof. destruct o; cbn; auto. Qed.
Lemma post_mono {A} (o : option A) (P Q : A → Prop) : post o P → (∀ a, P a → Q a) → post o Q.
Proof. destruct o; cbn; auto. Qed.

(** ** How often a number is in a list *)

Section occ.
Open Scope Z_scope.
Definition occ (i : Z) (l : list Z) : Z := Z.of_nat (length (filter (λ j, j = i) l)).
Lemma occ_cons i j l : occ i (j :: l) = (if decide (j = i) then 1 else 0) + occ i l.
Proof. unfold occ. rewrite filter_cons. destruct (decide (j = i)); cbn [length]; lia. Qed.
Lemma occ_none i l : occ i l = 0 → i ∉ l.
Proof. induction l as [|j l IH]; [intros _; by apply not_elem_of_nil|]. rewrite occ_cons. unfold occ in *. destruct (decide (j = i)); intros H; [lia|]. apply not_elem_of_cons. split; [done|apply IH; lia]. Qed.
Lemma occ_absent i l : i ∉ l → occ i l = 0.
Proof. induction l as [|j l IH]; [done|]. intros [Hj Hl]%not_elem_of_cons. rewrite occ_cons, decide_False by done. by rewrite IH. Qed.
Lemma occ_length i l : 0 <= occ i l <= Z.of_nat (length l).
Proof. unfold occ. pose proof (length_filter (λ j, j = i) l). lia. Qed.
Lemma occ_app i l k : occ i (l ++ k) = occ i l + occ i k.
Proof. unfold occ. rewrite filter_app, length_app. lia. Qed.
#[global] Instance occ_perm i : Proper (Permutation ==> eq) (occ i).
Proof. intros l k P. unfold occ. by rewrite P. Qed.
End occ.
