(* ===== verification/CString.v ===== *)
(** C strings and the parts of the C library the modelled code calls.

    A C string is the list of its bytes before the terminating NUL; a character
    array is the list of all its bytes, and [cstr] reads the string it holds.
    Pointers into a string are offsets. *)
From S2P Require Import Prelude.

(** The C locale's [toupper], [tolower] and [isdigit] on [0, 256). *)
Definition toupper (c : Z) : Z := if (97 <=? c) && (c <=? 122) then c - 32 else c.
Definition tolower (c : Z) : Z := if (65 <=? c) && (c <=? 90) then c + 32 else c.
Definition isdigit (c : Z) : bool := (48 <=? c) && (c <=? 57).
(** [isspace]: space, \t, \n, \v, \f, \r. *)
Definition isspace (c : Z) : bool := (c =? 32) || ((9 <=? c) && (c <=? 13)).

(** The string stored in a character array: its bytes up to the first NUL. *)
Fixpoint cstr (buf : list Z) : list Z :=
  match buf with
  | [] => []
  | c :: rest => if c =? 0 then [] else c :: cstr rest
  end.

(** [strlen] of an array; [None] when the array holds no NUL. *)
Fixpoint strlen_opt (buf : list Z) : option Z :=
  match buf with
  | [] => None
  | c :: rest => if c =? 0 then Some 0 else Z.succ <$> strlen_opt rest
  end.

(** [strcmp]: the sign of the first difference. *)
Fixpoint strcmp (a b : list Z) : Z :=
  match a, b with
  | [], [] => 0
  | [], _ :: _ => -1
  | _ :: _, [] => 1
  | x :: a', y :: b' => if x =? y then strcmp a' b' else if x <? y then -1 else 1
  end.

Fixpoint is_prefix (p s : list Z) : bool :=
  match p, s with
  | [], _ => true
  | _ :: _, [] => false
  | x :: p', y :: s' => (x =? y) && is_prefix p' s'
  end.

(** [strstr]: the offset of the first occurrence of [p] in [s]. *)
Fixpoint strstr (s p : list Z) : option Z :=
  if is_prefix p s then Some 0
  else match s with
       | [] => None
       | _ :: s' => Z.succ <$> strstr s' p
       end.

(** [strchr] for a character other than NUL. *)
Fixpoint strchr (s : list Z) (c : Z) : option Z :=
  match s with
  | [] => None
  | x :: s' => if x =? c then Some 0 else Z.succ <$> strchr s' c
  end.

(** [strncpy(d, s, n)]: [n] bytes are written, those of [s] and then NULs. [None]
    when a byte falls outside [d]. *)
Definition strncpy (d s : list Z) (n : Z) : option (list Z) :=
  if decide (0 <= n <= zlen d)
  then let k := Z.to_nat n in
       Some (take k (s ++ replicate k 0) ++ drop k d)
  else None.

(** The leading decimal digits of a string, as [atoi] and [strtol] read them
    once leading white space and the sign have been consumed. *)
Fixpoint digits_val (acc : Z) (s : list Z) : Z :=
  match s with
  | [] => acc
  | c :: s' => if isdigit c then digits_val (10 * acc + (c - 48)) s' else acc
  end.

Fixpoint skip_space (s : list Z) : list Z :=
  match s with
  | c :: s' => if isspace c then skip_space s' else s
  | [] => []
  end.

Definition atoi (s : list Z) : Z :=
  match skip_space s with
  | 45 :: s' => - digits_val 0 s'
  | 43 :: s' => digits_val 0 s'
  | s' => digits_val 0 s'
  end.

(** Decimal digits of a natural number, as [printf("%d")] writes them. *)
Fixpoint dec_digits_fuel (fuel : nat) (n : Z) (acc : list Z) : list Z :=
  match fuel with
  | O => acc
  | S fuel' =>
      let acc' := (48 + n mod 10) :: acc in
      if n <? 10 then acc' else dec_digits_fuel fuel' (n / 10) acc'
  end.

Definition dec_digits (n : Z) : list Z :=
  dec_digits_fuel (S (Z.to_nat (Z.log2 n))) n [].

(** Bytes of a string literal. *)
Fixpoint bytes_of (s : string) : list Z :=
  match s with
  | EmptyString => []
  | String a s' => Z.of_N (Ascii.N_of_ascii a) :: bytes_of s'
  end.

(** A string free of NUL, with bytes in range. *)
Definition is_cstring (s : list Z) : Prop := Forall (λ b, 0 < b < 256) s.
#[export] Instance is_cstring_dec s : Decision (is_cstring s).
Proof. unfold is_cstring. apply _. Defined.

(** * Lemmas *)

Lemma cstr_cons_0 l : cstr (0 :: l) = [].
Proof. done. Qed.

Lemma cstr_app s l : is_cstring s → cstr (s ++ l) = s ++ cstr l.
Proof.
  induction 1 as [|c s Hc _ IH]; [done|]. cbn. zbool. by rewrite IH.
Qed.

Lemma cstr_app_nul s l : is_cstring s → cstr (s ++ 0 :: l) = s.
Proof. intros. rewrite cstr_app by done. by rewrite cstr_cons_0, app_nil_r. Qed.

Lemma cstr_id s : is_cstring s → cstr s = s.
Proof. intros. rewrite <- (app_nil_r s) at 1. rewrite cstr_app by done. by rewrite app_nil_r. Qed.

Lemma strcmp_eq a : ∀ b, strcmp a b = 0 ↔ a = b.
Proof.
  induction a as [|x a IH]; intros [|y b]; cbn; try (split; [lia|congruence]); [done|].
  destruct (Z.eqb_spec x y) as [->|Hne].
  - rewrite IH. naive_solver.
  - zbool; naive_solver.
Qed.

Lemma strlen_opt_app s l : is_cstring s → strlen_opt (s ++ 0 :: l) = Some (zlen s).
Proof.
  induction 1 as [|c s Hc _ IH]; [done|]. cbn [app strlen_opt length]. zbool.
  rewrite IH. cbn. f_equal. lia.
Qed.

Lemma strlen_opt_None s : is_cstring s → strlen_opt s = None.
Proof. induction 1 as [|c s Hc _ IH]; [done|]. cbn. zbool. by rewrite IH. Qed.

Lemma is_prefix_spec p : ∀ s, is_prefix p s = true ↔ ∃ r, s = p ++ r.
Proof.
  induction p as [|x p IH]; intros s; cbn.
  - split; [eauto|done].
  - destruct s as [|y s]; cbn; [naive_solver|].
    rewrite andb_true_iff, Z.eqb_eq, IH. naive_solver.
Qed.

Lemma strstr_Some s p k :
  strstr s p = Some k → ∃ a r, s = a ++ p ++ r ∧ k = zlen a.
Proof.
  revert k. induction s as [|c s IH]; intros k; cbn [strstr];
    destruct (is_prefix p _) eqn:Hp.
  - apply is_prefix_spec in Hp as [r ->]. intros [= <-]. by exists [], r.
  - done.
  - apply is_prefix_spec in Hp as [r Hr]. intros [= <-]. by exists [], r.
  - intros (k' & Hk & ->)%fmap_Some. apply IH in Hk as (a & r & -> & ->).
    exists (c :: a), r. split; [done|]. cbn [length]. lia.
Qed.

Lemma strstr_range s p k : strstr s p = Some k → 0 <= k ∧ k + zlen p <= zlen s.
Proof.
  intros (a & r & -> & ->)%strstr_Some. rewrite !length_app. lia.
Qed.

Lemma strstr_None s p : strstr s p = None ↔ ∀ a r, s ≠ a ++ p ++ r.
Proof.
  induction s as [|c s IH]; cbn [strstr]; destruct (is_prefix p _) eqn:Hp.
  - split; [done|]. intros H. apply is_prefix_spec in Hp as [r Hr]. by destruct (H [] r).
  - split; [|done]. intros _ [|x a] r Ha; [|done]. cbn in Ha.
    enough (is_prefix p [] = true) by congruence. apply is_prefix_spec. eauto.
  - split; [done|]. intros H. apply is_prefix_spec in Hp as [r Hr]. by destruct (H [] r).
  - rewrite fmap_None, IH. split; intros H a r Ha.
    + destruct a as [|x a]; cbn in Ha.
      * enough (is_prefix p (c :: s) = true) by congruence. apply is_prefix_spec. eauto.
      * simplify_eq. by eapply H.
    + apply (H (c :: a) r). cbn. by rewrite Ha.
Qed.

Lemma toupper_range c : 0 <= c < 256 → 0 <= toupper c < 256.
Proof. unfold toupper. intros. zbool; cbn; lia. Qed.

Lemma toupper_nonzero c : 0 < c < 256 → 0 < toupper c < 256.
Proof. unfold toupper. intros. zbool; cbn; lia. Qed.

Lemma is_cstring_toupper s : is_cstring s → is_cstring (toupper <$> s).
Proof. unfold is_cstring. intros H. apply Forall_fmap. eapply Forall_impl; [done|].
  intros c Hc. by apply toupper_nonzero. Qed.

Lemma strncpy_Some d s n :
  0 <= n <= zlen d →
  strncpy d s n = Some (take (Z.to_nat n) (s ++ replicate (Z.to_nat n) 0) ++ drop (Z.to_nat n) d).
Proof. intros. unfold strncpy. by rewrite decide_True. Qed.

(** [memcpy(d + off, s, |s|)]; [None] when a byte falls outside [d]. *)
Definition memcpy (d : list Z) (off : Z) (s : list Z) : option (list Z) :=
  if decide (0 <= off ∧ off + zlen s <= zlen d)
  then Some (take (Z.to_nat off) d ++ s ++ drop (Z.to_nat off + length s) d)
  else None.

(** [memset(d + off, c, n)]. *)
Definition memset (d : list Z) (off c n : Z) : option (list Z) :=
  if decide (0 <= n) then memcpy d off (replicate (Z.to_nat n) c) else None.

Lemma memcpy_app a b c s :
  length s = length b → memcpy (a ++ b ++ c) (zlen a) s = Some (a ++ s ++ c).
Proof.
  intros Hl. unfold memcpy. rewrite decide_True by (rewrite !length_app; lia).
  rewrite Nat2Z.id, take_app_length. do 3 f_equal.
  by rewrite drop_app, Hl, drop_ge, Nat.add_comm, Nat.add_sub, drop_app_length by lia.
Qed.

Lemma memcpy_length d off s d' : memcpy d off s = Some d' → length d' = length d.
Proof.
  unfold memcpy. case_decide; [|done]. intros [= <-].
  rewrite !length_app, length_take, length_drop. lia.
Qed.

(** ** Decimal digits *)

Lemma atoi_digit c s : isdigit c = true → atoi (c :: s) = digits_val 0 (c :: s).
Proof.
  intros Hc. unfold atoi. cbn [skip_space]. assert (isspace c = false) as -> by (unfold isdigit, isspace in *; lia).
  destruct c as [|p|p]; [done| |done]. repeat (destruct p as [p|p|]; try reflexivity; try (by cbn in Hc)).
Qed.

Lemma digits_val_dec_fuel fuel : ∀ n l, 0 <= n < 10 ^ Z.of_nat fuel →
  (0 < fuel)%nat → digits_val 0 (dec_digits_fuel fuel n l) = digits_val n l.
Proof.
  induction fuel as [|fuel IH]; intros n l Hn Hf; [lia|]. cbn [dec_digits_fuel].
  pose proof (Z.div_mod n 10 ltac:(lia)) as Hdm. pose proof (Z.mod_pos_bound n 10 ltac:(lia)) as Hm.
  assert (Hd : ∀ a l, digits_val a ((48 + n mod 10) :: l) = digits_val (10 * a + n mod 10) l).
  { intros a k. cbn [digits_val]. assert (isdigit (48 + n mod 10) = true) as -> by (unfold isdigit; lia).
    f_equal. lia. }
  destruct (Z.ltb_spec n 10).
  - rewrite Hd. f_equal. rewrite Z.mod_small; lia.
  - rewrite Nat2Z.inj_succ, Z.pow_succ_r in Hn by lia.
    destruct (decide (fuel = O)) as [->|]; [cbn in Hn; lia|].
    rewrite IH by (split; [apply Z.div_pos; lia|apply Z.div_lt_upper_bound; lia] || lia).
    rewrite Hd. f_equal. lia.
Qed.

Lemma dec_digits_bound n : 0 <= n → 0 <= n < 10 ^ Z.of_nat (S (Z.to_nat (Z.log2 n))).
Proof.
  intros Hn. split; [done|]. rewrite Nat2Z.inj_succ, Z2Nat.id by apply Z.log2_nonneg.
  destruct (decide (n = 0)) as [->|]; [done|]. pose proof (Z.log2_spec n ltac:(lia)) as [_ Hlt].
  eapply Z.lt_le_trans; [exact Hlt|]. apply Z.pow_le_mono_l. lia.
Qed.

(** Reading back a printed number. *)
Lemma digits_val_dec n l : 0 <= n → digits_val 0 (dec_digits n ++ l) = digits_val n l.
Proof.
  intros Hn. assert (Happ : ∀ fuel m k, dec_digits_fuel fuel m k ++ l = dec_digits_fuel fuel m (k ++ l)).
  { induction fuel as [|fuel IH]; intros m k; cbn [dec_digits_fuel]; [done|].
    destruct (m <? 10); [done|]. by rewrite IH. }
  unfold dec_digits. rewrite Happ. cbn [app]. apply digits_val_dec_fuel; [by apply dec_digits_bound|lia].
Qed.

Lemma dec_digits_digits n : 0 <= n → Forall (λ c, isdigit c = true) (dec_digits n) ∧ dec_digits n ≠ [].
Proof.
  intros Hn. assert (G : ∀ fuel m k, 0 <= m → Forall (λ c, isdigit c = true) k →
    Forall (λ c, isdigit c = true) (dec_digits_fuel fuel m k) ∧ ((0 < fuel)%nat → dec_digits_fuel fuel m k ≠ [])).
  { induction fuel as [|fuel IH]; intros m k Hm Hk; cbn [dec_digits_fuel]; [split; [done|lia]|].
    pose proof (Z.mod_pos_bound m 10 ltac:(lia)).
    assert (Hk' : Forall (λ c, isdigit c = true) ((48 + m mod 10) :: k)).
    { constructor; [unfold isdigit; lia|done]. }
    destruct (m <? 10); [by split|]. destruct (IH (m / 10) _ ltac:(apply Z.div_pos; lia) Hk') as [I1 I2].
    split; [done|]. intros _. destruct fuel; [done|]. apply I2. lia. }
  unfold dec_digits. destruct (G (S (Z.to_nat (Z.log2 n))) n [] Hn ltac:(constructor)) as [G1 G2].
  split; [done|]. apply G2. lia.
Qed.

(** The string does not go on with a digit. *)
Definition ends_number (l : list Z) : Prop := match l with c :: _ => isdigit c = false | [] => True end.

Lemma digits_val_end n l : ends_number l → digits_val n l = n.
Proof. destruct l as [|c l]; [done|]. cbn. by intros ->. Qed.

Lemma strchr_split s c i : strchr s c = Some i → ∃ a b, s = a ++ c :: b ∧ i = zlen a ∧ Forall (λ x, x ≠ c) a.
Proof.
  revert i. induction s as [|x s IH]; intros i; cbn [strchr]; [done|]. destruct (Z.eqb_spec x c) as [->|Hx].
  - intros [= <-]. by exists [], s.
  - destruct (strchr s c) as [j|]; cbn; [|done]. intros [= <-]. destruct (IH j eq_refl) as (a & b & -> & -> & Ha).
    exists (x :: a), b. split; [done|]. split; [cbn; lia|]. by constructor.
Qed.

Lemma cstr_prefix s : ∃ t, s = cstr s ++ t.
Proof. induction s as [|x s [t IH]]; [by exists []|]. cbn [cstr]. destruct (x =? 0); [by exists (x :: s)|]. exists t. cbn. by f_equal. Qed.

(** [strchr] on a buffer stops at the first NUL. *)
Lemma strchr_cstr s c i : strchr (cstr s) c = Some i → ∃ a b, s = a ++ c :: b ∧ i = zlen a ∧ Forall (λ x, x ≠ c) a.
Proof.
  intros (a & b & E & Hi & Ha)%strchr_split. destruct (cstr_prefix s) as [t Ht]. exists a, (b ++ t). split; [|done].
  rewrite Ht, E at 1. by rewrite <- app_assoc.
Qed.
