(* ===== verification/Acsm.v ===== *)
(** The keyword automaton (src/acsmDFA.c): pattern list, construction of the
    state table, and the search of a URL.

    The state table is the array [acsmStateTable]; every access goes through
    [zget]/[zset], so [None] is an access outside an array. Loops whose bound is
    not syntactic take fuel; [AcsmBuild] and [AcsmSearch] shows the fuel passed is enough. *)
From S2P Require Import Prelude CString.

Module Acsm.

Definition ALPHABET_SIZE : Z := 256.
(** [#define ACSM_FAIL_STATE -1], compared with and stored in [unsigned]. *)
Definition ACSM_FAIL_STATE : Z := 4294967295.
Definition SOLID_STATE : Z := 0.
Definition VIRTUAL_STATE1 : Z := 1.

(** [ACSM_PATTERN]: [patrn_cap] is the allocated array of [n_cap + 1] bytes.
    The [next] link is the order of the lists that hold the records. *)
Record ACSM_PATTERN := mkPattern {
  patrn_cap : list Z;
  n_cap : Z;
  nmatch : Z;
  urlflag : Z }.

Record ACSM_STATETABLE := mkState {
  flag : Z;
  NextState : list Z;
  FailState : Z;
  MatchList : list ACSM_PATTERN }.

Record ACSM_STRUCT := mkAcsm {
  acsmMaxState : Z;
  acsmNumState : Z;
  acsmPatterns : list ACSM_PATTERN;
  acsmStateTable : list ACSM_STATETABLE }.

Definition set_table (a : ACSM_STRUCT) (t : list ACSM_STATETABLE) : ACSM_STRUCT :=
  mkAcsm (acsmMaxState a) (acsmNumState a) (acsmPatterns a) t.

(** The string [patrn_cap] points to. *)
Definition pat_str (p : ACSM_PATTERN) : list Z := cstr (patrn_cap p).

(** ** Case table and patterns *)

(** [init_xlatcase]: the table of [toupper]. *)
Definition init_xlatcase : list Z := toupper <$> seqZ 0 256.

(** [ConvertCaseEX(d, s, m)]: [d[i] = xlatcase[s[i]]] for [i < m]; [i] counts up
    from the first argument. *)
Fixpoint ConvertCaseEX_from (i : Z) (k : nat) (xlatcase d s : list Z) : option (list Z) :=
  match k with
  | O => Some d
  | S k' =>
      c ← s.[i]; u ← xlatcase.[c]; d' ← zset d i u;
      ConvertCaseEX_from (i + 1) k' xlatcase d' s
  end.

Definition ConvertCaseEX (xlatcase d s : list Z) (m : Z) : option (list Z) :=
  ConvertCaseEX_from 0 (Z.to_nat m) xlatcase d s.

(** [acsmAddPattern(p, pat, n, urlflag)]: the new node goes to the head of the
    list. [AC_MALLOC(uint32_t n)] is given [n + 1], cut to 32 bits. All bytes of the
    fresh array are written, so its initial contents do not matter. *)
Definition acsmAddPattern (xlatcase : list Z) (p : ACSM_STRUCT) (pat : list Z) (n uflag : Z)
  : option ACSM_STRUCT :=
  buf ← zset (replicate (Z.to_nat (u32 (n + 1))) 0) n 0;
  cap ← ConvertCaseEX xlatcase buf pat n;
  let plist := mkPattern cap n 0 uflag in
  Some (mkAcsm (acsmMaxState p) (acsmNumState p) (plist :: acsmPatterns p)
               (acsmStateTable p)).

(** [acsmNew]: a zeroed structure (the allocation is assumed to succeed). *)
Definition acsmNew : ACSM_STRUCT := mkAcsm 0 0 [] [].

(** ** Queue of states

    The singly linked queue is the list of its nodes from [head] to [tail]. *)
Record QUEUE := mkQueue { q_nodes : list Z; q_count : Z }.

Definition queue_init : QUEUE := mkQueue [] 0.

Definition queue_add (q : QUEUE) (state : Z) : QUEUE :=
  mkQueue (q_nodes q ++ [state]) (u32 (q_count q + 1)).

Definition queue_remove (q : QUEUE) : Z * QUEUE :=
  match q_nodes q with
  | [] => (0, q)
  | s :: rest =>
      (s, mkQueue rest (match rest with [] => 0 | _ => u32 (q_count q - 1) end))
  end.

Definition queue_count (q : QUEUE) : Z := i32 (q_count q).

(** ** State table updates *)

Definition upd_state (t : list ACSM_STATETABLE) (s : Z)
    (f : ACSM_STATETABLE → option ACSM_STATETABLE) : option (list ACSM_STATETABLE) :=
  row ← t.[s]; row' ← f row; zset t s row'.

Definition set_flag (t : list ACSM_STATETABLE) (s v : Z) :=
  upd_state t s (λ r, Some (mkState v (NextState r) (FailState r) (MatchList r))).

Definition set_next (t : list ACSM_STATETABLE) (s c v : Z) :=
  upd_state t s (λ r, n ← zset (NextState r) c v;
                      Some (mkState (flag r) n (FailState r) (MatchList r))).

Definition set_fail (t : list ACSM_STATETABLE) (s v : Z) :=
  upd_state t s (λ r, Some (mkState (flag r) (NextState r) v (MatchList r))).

Definition set_match (t : list ACSM_STATETABLE) (s : Z) (l : list ACSM_PATTERN) :=
  upd_state t s (λ r, Some (mkState (flag r) (NextState r) (FailState r) l)).

Definition get_next (t : list ACSM_STATETABLE) (s c : Z) : option Z :=
  row ← t.[s]; (NextState row).[c].

Definition get_fail (t : list ACSM_STATETABLE) (s : Z) : option Z :=
  FailState <$> t.[s].

(** ** Building the trie *)

(** [AddMatchListEntry]: a copy of [px] at the head of the state's list unless
    an entry with the same string is there. *)
Definition AddMatchListEntry (t : list ACSM_STATETABLE) (state : Z) (px : ACSM_PATTERN)
  : option (list ACSM_STATETABLE) :=
  row ← t.[state];
  if existsb (λ q, strcmp (pat_str px) (pat_str q) =? 0) (MatchList row)
  then Some t
  else set_match t state (px :: MatchList row).

(** First loop of [AddPatternStates]: follow existing states. *)
Fixpoint match_existing (t : list ACSM_STATETABLE) (state : Z) (pattern : list Z)
  : option (Z * list Z) :=
  match pattern with
  | [] => Some (state, [])
  | c :: rest =>
      next ← get_next t state c;
      if next =? ACSM_FAIL_STATE then Some (state, pattern)
      else match_existing t next rest
  end.

(** Second loop of [AddPatternStates]: one new state per remaining byte. *)
Fixpoint add_states (t : list ACSM_STATETABLE) (num state : Z) (pattern : list Z)
  : option (list ACSM_STATETABLE * Z * Z) :=
  match pattern with
  | [] => Some (t, num, state)
  | c :: rest =>
      let temp := state in
      let num' := u32 (num + 1) in
      t1 ← set_next t state c num';
      t2 ← set_flag t1 num' SOLID_STATE;
      rtemp ← t2.[temp];
      t3 ← (if (128 <=? c) && (flag rtemp =? SOLID_STATE)
            then set_flag t2 num' VIRTUAL_STATE1 else Some t2);
      add_states t3 num' num' rest
  end.

Definition AddPatternStates (a : ACSM_STRUCT) (p : ACSM_PATTERN) : option ACSM_STRUCT :=
  let pattern := take (Z.to_nat (n_cap p)) (patrn_cap p) in
  t0 ← set_flag (acsmStateTable a) 0 SOLID_STATE;
  '(state, rest) ← match_existing t0 0 pattern;
  '(t1, num, state') ← add_states t0 (acsmNumState a) state rest;
  t2 ← AddMatchListEntry t1 state' p;
  Some (mkAcsm (acsmMaxState a) num (acsmPatterns a) t2).

(** ** From trie to automaton *)

(** The transitions of state 0 are queued first and fail to state 0. *)
Fixpoint queue_depth1 (ix : list Z) (t : list ACSM_STATETABLE) (q : QUEUE)
  : option (list ACSM_STATETABLE * QUEUE) :=
  match ix with
  | [] => Some (t, q)
  | i :: ix' =>
      s ← get_next t 0 i;
      if s =? 0 then queue_depth1 ix' t q
      else t' ← set_fail t s 0; queue_depth1 ix' t' (queue_add q s)
  end.

(** [while ((next = table[fs].NextState[i]) == ACSM_FAIL_STATE) fs = table[fs].FailState] *)
Fixpoint find_next (fuel : nat) (t : list ACSM_STATETABLE) (fs i : Z) : option Z :=
  match fuel with
  | O => None
  | S fuel' =>
      next ← get_next t fs i;
      if next =? ACSM_FAIL_STATE
      then fs' ← get_fail t fs; find_next fuel' t fs' i
      else Some next
  end.

(** The [for] loop over the alphabet for the dequeued state [r]. *)
Fixpoint build_row (ix : list Z) (r : Z) (t : list ACSM_STATETABLE) (q : QUEUE)
  : option (list ACSM_STATETABLE * QUEUE) :=
  match ix with
  | [] => Some (t, q)
  | i :: ix' =>
      s ← get_next t r i;
      if negb (s =? ACSM_FAIL_STATE) then
        let q' := queue_add q s in
        fs ← get_fail t r;
        next ← find_next (S (length t)) t fs i;
        t' ← set_fail t s next;
        build_row ix' r t' q'
      else
        f ← get_fail t r;
        v ← get_next t f i;
        t' ← set_next t r i v;
        build_row ix' r t' q
  end.

Fixpoint build_loop (fuel : nat) (t : list ACSM_STATETABLE) (q : QUEUE)
  : option (list ACSM_STATETABLE) :=
  if 0 <? queue_count q then
    match fuel with
    | O => None
    | S fuel' =>
        let '(r, q') := queue_remove q in
        '(t', q'') ← build_row (seqZ 0 ALPHABET_SIZE) r t q';
        build_loop fuel' t' q''
    end
  else Some t.

Definition Build_DFA (a : ACSM_STRUCT) : option ACSM_STRUCT :=
  '(t, q) ← queue_depth1 (seqZ 0 ALPHABET_SIZE) (acsmStateTable a) queue_init;
  t' ← build_loop (S (length t)) t q;
  Some (set_table a t').

(** Transitions of state 0 that are still failed lead back to state 0. *)
Fixpoint close_root (ix : list Z) (t : list ACSM_STATETABLE) : option (list ACSM_STATETABLE) :=
  match ix with
  | [] => Some t
  | i :: ix' =>
      s ← get_next t 0 i;
      t' ← (if s =? ACSM_FAIL_STATE then set_next t 0 i 0 else Some t);
      close_root ix' t'
  end.

(** [for (plist = acsmPatterns; ...) AddPatternStates(acsm, plist)] *)
Fixpoint add_all (a : ACSM_STRUCT) (ps : list ACSM_PATTERN) : option ACSM_STRUCT :=
  match ps with
  | [] => Some a
  | p :: ps' => a' ← AddPatternStates a p; add_all a' ps'
  end.

Definition count_states (ps : list ACSM_PATTERN) : Z :=
  fold_left (λ acc p, u32 (acc + n_cap p)) ps 1.

(** A state after [memset] and the initialisation of its transitions. *)
Definition fresh_state : ACSM_STATETABLE :=
  mkState 0 (replicate 256 ACSM_FAIL_STATE) 0 [].

(** [sizeof(ACSM_STATETABLE)]: 258 words of four bytes, the flag, the transitions and
    the failure state, and a pointer of eight. *)
Definition state_size : Z := 1040.
(** The number of states whose size [AC_MALLOC(uint32_t n)] does not cut. *)
Definition MAX_STATES : Z := 4294967295 / state_size.

(** [AC_MALLOC] gets the size of the table cut to 32 bits; [memset] gets it in full and
    writes behind the table when it was cut. *)
Definition acsmCompile_cap (a : ACSM_STRUCT) : option ACSM_STRUCT :=
  let max := count_states (acsmPatterns a) in
  if u32 (state_size * max) <? state_size * max then None else
  let a0 := mkAcsm max 0 (acsmPatterns a) (replicate (Z.to_nat max) fresh_state) in
  a1 ← add_all a0 (acsmPatterns a);
  t ← close_root (seqZ 0 ALPHABET_SIZE) (acsmStateTable a1);
  Build_DFA (set_table a1 t).

(** ** Searching *)

(** [PrintMatch(pattern, mlist)]: counts the match in the first pattern whose
    string equals [mlist]'s and returns its flag, 0 when there is none. The
    result carries the updated pattern list and [nfound]. *)
Fixpoint PrintMatch (ps : list ACSM_PATTERN) (nfound : Z) (m : ACSM_PATTERN)
  : list ACSM_PATTERN * Z * Z :=
  match ps with
  | [] => ([], nfound, 0)
  | p :: ps' =>
      if strcmp (pat_str p) (pat_str m) =? 0
      then (mkPattern (patrn_cap p) (n_cap p) (u32 (nmatch p + 1)) (urlflag p) :: ps',
            u32 (nfound + 1), i32 (urlflag p))
      else let '(ps'', nf, r) := PrintMatch ps' nfound m in (p :: ps'', nf, r)
  end.

(** What a search leaves behind: the counters of the patterns and [nfound]. *)
Record search_state := mkSearch { s_pats : list ACSM_PATTERN; s_nfound : Z }.

Definition print_match (st : search_state) (m : ACSM_PATTERN) : search_state * Z :=
  let '(ps, nf, r) := PrintMatch (s_pats st) (s_nfound st) m in (mkSearch ps nf, r).

(** [while (fail != 0)] over the failure states of the current state: the first
    one with a match list and a solid flag. *)
Fixpoint fail_chain (fuel : nat) (t : list ACSM_STATETABLE) (fail : Z)
  : option (option ACSM_PATTERN) :=
  if fail =? 0 then Some None
  else match fuel with
       | O => None
       | S fuel' =>
           row ← t.[fail];
           match MatchList row with
           | m :: _ =>
               if flag row =? SOLID_STATE then Some (Some m)
               else fail_chain fuel' t (FailState row)
           | [] => fail_chain fuel' t (FailState row)
           end
       end.

(** [for (mlist ...) { PrintMatch; if (nfound) return acsmPatterns->urlflag; }] *)
Fixpoint match_until_found (ms : list ACSM_PATTERN) (st : search_state)
  : option (search_state * option Z) :=
  match ms with
  | [] => Some (st, None)
  | m :: ms' =>
      let '(st', _) := print_match st m in
      if negb (s_nfound st' =? 0)
      then p ← head (s_pats st'); Some (st', Some (i32 (urlflag p)))
      else match_until_found ms' st'
  end.

(** The [for (state = 0; T < Tend; T++)] loop; [T] is the unread text. *)
Fixpoint search_loop (t : list ACSM_STATETABLE) (st : search_state) (state : Z)
    (T : list Z) : option (search_state * Z) :=
  match T with
  | [] => Some (st, 0)
  | c :: T' =>
      let temp := state in
      if c =? 0 then Some (st, -1)
      else
        state ← get_next t state c;
        row ← t.[state];
        if c <? 128 then
          match MatchList row with
          | m :: _ =>
              let '(st1, _) := print_match st m in
              Some (print_match st1 m)
          | [] =>
              r ← fail_chain (length t) t (FailState row);
              match r with
              | Some m => Some (print_match st m)
              | None => search_loop t st state T'
              end
          end
        else
          rtemp ← t.[temp];
          let state1 := if (flag rtemp =? VIRTUAL_STATE1) && (flag row =? VIRTUAL_STATE1)
                        then 0 else state in
          if (state1 =? 0) && (flag rtemp =? SOLID_STATE)
          then match T' with
               | [] => Some (st, 0)
               | _ :: T'' => search_loop t st state1 T''
               end
          else
            row1 ← t.[state1];
            '(st1, r1) ← (if flag rtemp =? VIRTUAL_STATE1
                          then match_until_found (MatchList row1) st
                          else Some (st, None));
            match r1 with
            | Some v => Some (st1, v)
            | None =>
                r ← fail_chain (length t) t (FailState row1);
                match r with
                | Some m =>
                    let '(st2, _) := print_match st1 m in
                    Some (print_match st2 m)
                | None => search_loop t st1 state1 T'
                end
            end
  end.

(** [acsmSearch_cap(acsm, Tx, n)]: the result and the counters it leaves; the
    text must hold [n] bytes. *)
Definition acsmSearch_cap (a : ACSM_STRUCT) (Tx : list Z) (n : Z)
  : option (search_state * Z) :=
  let st := mkSearch (acsmPatterns a) 0 in
  if i32 n <=? 0 then Some (st, -1)
  else if decide (n <= zlen Tx)
       then search_loop (acsmStateTable a) st 0 (take (Z.to_nat n) Tx)
       else None.

(** [acsmDFA] only calls the compiler and always returns 0. *)
Definition acsmDFA (a : ACSM_STRUCT) : option (ACSM_STRUCT * Z) :=
  a' ← acsmCompile_cap a; Some (a', 0).

(** [PrintSummary]: the match counters and [nfound] are reset. *)
Definition PrintSummary (a : ACSM_STRUCT) : ACSM_STRUCT * Z :=
  (mkAcsm (acsmMaxState a) (acsmNumState a)
     ((λ p, mkPattern (patrn_cap p) (n_cap p) 0 (urlflag p)) <$> acsmPatterns a)
     (acsmStateTable a), 0).

End Acsm.
