(* ===== verification/AcsmSpec.v ===== *)
(** What the keyword automaton computes, stated on strings.

    [lsuf P w] is the longest suffix of [w] in the set [P] of pattern prefixes:
    the string of the state the automaton is in after reading [w]. [lpat D w] is
    the longest keyword of [D] that ends at the end of [w], and [first_match]
    the keyword a left-to-right scan reports. *)
From S2P Require Import Prelude.


(** A suffix of a non-empty string is the string or a suffix of its tail. *)
Lemma suffix_cons_split {A} (x : list A) y w :
  x `suffix_of` y :: w → x = y :: w ∨ x `suffix_of` w.
Proof. intros [[|z k] Hk]; cbn in Hk; [by left|]. right. exists k. congruence. Qed.

Section lsuf.
Variable P : list (list Z).

Fixpoint lsuf (w : list Z) : list Z :=
  if decide (w ∈ P) then w
  else match w with [] => [] | _ :: w' => lsuf w' end.

Hypothesis P_nil : [] ∈ P.

Lemma lsuf_id w : w ∈ P → lsuf w = w.
Proof. destruct w; cbn; by case_decide. Qed.

Lemma lsuf_cons_notin x w : x :: w ∉ P → lsuf (x :: w) = lsuf w.
Proof. cbn. by case_decide. Qed.

Lemma lsuf_in w : lsuf w ∈ P.
Proof using P_nil. induction w; cbn; by case_decide. Qed.

Lemma lsuf_suffix w : lsuf w `suffix_of` w.
Proof.
  induction w as [|x w IH]; cbn; case_decide; try done.
  by apply suffix_cons_r.
Qed.

Lemma lsuf_longest x w : x ∈ P → x `suffix_of` w → x `suffix_of` lsuf w.
Proof.
  intros Hx. induction w as [|y w IH]; intros Hs; cbn; case_decide; try done.
  apply suffix_cons_split in Hs as [->|Hs]; [done|]. by apply IH.
Qed.

Lemma lsuf_length w : (length (lsuf w) <= length w)%nat.
Proof. apply suffix_length, lsuf_suffix. Qed.

Lemma lsuf_tail_length w : w ≠ [] → (length (lsuf (tail w)) < length w)%nat.
Proof. destruct w; [done|]. intros _. cbn. pose proof (lsuf_length w). lia. Qed.

Hypothesis P_closed : ∀ w c, w ++ [c] ∈ P → w ∈ P.

Lemma lsuf_snoc w c : lsuf (w ++ [c]) = lsuf (lsuf w ++ [c]).
Proof using P_nil P_closed.
  induction w as [|x w IH]; [by rewrite (lsuf_id [])|].
  destruct (decide (x :: w ∈ P)) as [Hin|Hin].
  - by rewrite (lsuf_id (x :: w)).
  - rewrite (lsuf_cons_notin x w) by done. rewrite <- IH. cbn [app].
    apply lsuf_cons_notin. intros H. apply Hin. by apply (P_closed (x :: w) c).
Qed.

(** The failure string of a child is the step of its parent's failure string. *)
Lemma lsuf_fail_child w c :
  w ≠ [] → lsuf (tail (w ++ [c])) = lsuf (lsuf (tail w) ++ [c]).
Proof using P_nil P_closed. destruct w; [done|]. intros _. apply lsuf_snoc. Qed.

(** Without a trie edge the automaton moves as its failure state does. *)
Lemma lsuf_fail_step w c :
  w ≠ [] → w ++ [c] ∉ P → lsuf (w ++ [c]) = lsuf (lsuf (tail w) ++ [c]).
Proof using P_nil P_closed.
  destruct w as [|x w]; [done|]. intros _ Hn. cbn [app] in *.
  rewrite lsuf_cons_notin by done. apply lsuf_snoc.
Qed.
End lsuf.

Section lpat.
Variable D : list (list Z).

Fixpoint lpat (w : list Z) : option (list Z) :=
  if decide (w ∈ D) then Some w
  else match w with [] => None | _ :: w' => lpat w' end.

(** The first keyword met when [rest] is read after [seen]. *)
Fixpoint first_match (seen rest : list Z) : option (list Z) :=
  match rest with
  | [] => None
  | c :: rest' =>
      match lpat (seen ++ [c]) with
      | Some p => Some p
      | None => first_match (seen ++ [c]) rest'
      end
  end.

Lemma lpat_Some w p : lpat w = Some p → p ∈ D ∧ p `suffix_of` w.
Proof.
  induction w as [|x w IH]; cbn; case_decide; intros; simplify_eq; [done|done|].
  destruct IH; [done|]. split; [done|]. by apply suffix_cons_r.
Qed.

Lemma lpat_None w : lpat w = None ↔ ∀ p, p ∈ D → ¬ p `suffix_of` w.
Proof.
  induction w as [|x w IH]; cbn; case_decide as Hd.
  - split; [done|]. intros H. exfalso. by apply (H []).
  - split; [|done]. intros _ p Hp ->%suffix_nil_inv. done.
  - split; [done|]. intros H. exfalso. by apply (H (x :: w)).
  - rewrite IH. split; intros H p Hp Hs.
    + apply suffix_cons_split in Hs as [->|Hs]; [done|]. by eapply H.
    + eapply H; [done|]. by apply suffix_cons_r.
Qed.

(** Keywords are states, so the longest keyword ending at [w] ends the string
    of the state reached by [w]. *)
Lemma lpat_lsuf P w : [] ∈ P → (∀ p, p ∈ D → p ∈ P) → lpat (lsuf P w) = lpat w.
Proof.
  intros Hnil HDP. induction w as [|x w IH]; cbn [lsuf]; case_decide as Hw; try done.
  rewrite IH. cbn. case_decide as Hd; [|done]. by apply HDP in Hd.
Qed.

Lemma first_match_Some seen rest p :
  first_match seen rest = Some p →
  p ∈ D ∧ ∃ a b, seen ++ rest = a ++ p ++ b.
Proof.
  revert seen. induction rest as [|c rest IH]; intros seen; cbn; [done|].
  destruct (lpat (seen ++ [c])) eqn:Hl; intros; simplify_eq.
  - apply lpat_Some in Hl as [Hp [a Ha]]. split; [done|]. exists a, rest.
    rewrite (app_assoc a p rest), <- Ha. by rewrite <- app_assoc.
  - destruct (IH (seen ++ [c])) as (Hp & a & b & Hab); [done|].
    split; [done|]. exists a, b. rewrite <- Hab. by rewrite <- app_assoc.
Qed.

Lemma first_match_None_aux seen rest :
  first_match seen rest = None →
  ∀ p a b, p ∈ D → seen ++ rest = a ++ p ++ b →
  (length seen < length a + length p)%nat → False.
Proof.
  revert seen. induction rest as [|c rest IH]; intros seen; cbn.
  { intros _ p a b Hp Heq Hlen. apply (f_equal length) in Heq.
    rewrite !length_app in Heq. cbn in Heq. lia. }
  destruct (lpat (seen ++ [c])) eqn:Hl; [done|].
  intros Hn p a b Hp Heq Hlen.
  destruct (decide (length a + length p = S (length seen))%nat) as [He|He].
  - rewrite lpat_None in Hl. apply (Hl p Hp). exists a.
    assert (Heq' : (seen ++ [c]) ++ rest = (a ++ p) ++ b) by (rewrite <- !app_assoc; done).
    apply app_inj_1 in Heq' as [? _]; [done|].
    rewrite !length_app. cbn. lia.
  - eapply (IH (seen ++ [c]) Hn p a b Hp); [by rewrite <- app_assoc|].
    rewrite length_app. cbn. lia.
Qed.

(** A scan reports nothing exactly when no keyword occurs in the text. *)
Lemma first_match_None text :
  [] ∉ D →
  first_match [] text = None ↔ ∀ p a b, p ∈ D → text ≠ a ++ p ++ b.
Proof.
  intros Hnil. split.
  - intros H p a b Hp Heq. eapply (first_match_None_aux [] text H p a b Hp); [done|].
    destruct p; [done|]. cbn. lia.
  - intros H. destruct (first_match [] text) as [p|] eqn:E; [|done].
    apply first_match_Some in E as (Hp & a & b & Heq). exfalso. by eapply H.
Qed.
End lpat.
