(* ===== verification/AcsmTrie.v ===== *)
(** Construction of the keyword trie ([AddPatternStates], [close_root]).

    A table is related to the list [strs] of the strings its states stand for:
    state [s] is reached by reading [strs.[s]]. [D] is the list of the keyword
    strings added so far. *)
From S2P Require Import Prelude CString AcsmSpec Acsm.
Import Acsm.

(** ** Views of a table and how the updates change them *)

Definition get_match (t : list ACSM_STATETABLE) (s : Z) := MatchList <$> t.[s].
Definition get_flag (t : list ACSM_STATETABLE) (s : Z) := flag <$> t.[s].

(** Every transition array has one entry per byte. *)
Definition rows_ok (t : list ACSM_STATETABLE) : Prop :=
  ∀ s row, t.[s] = Some row → length (NextState row) = 256%nat.

Lemma upd_state_inv t s f t' :
  upd_state t s f = Some t' →
  ∃ row row', t.[s] = Some row ∧ f row = Some row' ∧ length t' = length t ∧
    ∀ j, t'.[j] = if decide (j = s) then Some row' else t.[j].
Proof.
  unfold upd_state. intros H. bind_inv.
  eexists _, _. split_and!; [done|done|by eapply zset_length|].
  intros j. by eapply zget_zset.
Qed.

Lemma upd_state_Some t s f row row' :
  t.[s] = Some row → f row = Some row' → is_Some (upd_state t s f).
Proof.
  intros H1 H2. unfold upd_state. rewrite H1. cbn. rewrite H2. cbn.
  apply zget_Some_range in H1. rewrite zset_Some by done. eauto.
Qed.

Ltac table_solve :=
  repeat match goal with
  | H : upd_state _ _ _ = Some _ |- _ =>
      let r := fresh "row" in let r' := fresh "row'" in
      let H1 := fresh "Hrow" in let H2 := fresh "Hf" in
      let H3 := fresh "Hlen" in let H4 := fresh "Hget" in
      apply upd_state_inv in H as (r & r' & H1 & H2 & H3 & H4);
      cbn in H2; bind_inv; simplify_eq/=
  | H : ∀ j, zget ?t' j = _ |- context [ zget ?t' _ ] => rewrite H
  end.

Lemma set_next_spec t s c v t' :
  set_next t s c v = Some t' → rows_ok t →
  length t' = length t ∧ rows_ok t' ∧
  (∀ s' c', get_next t' s' c' = if decide (s' = s ∧ c' = c) then Some v else get_next t s' c') ∧
  (∀ s', get_fail t' s' = get_fail t s') ∧
  (∀ s', get_match t' s' = get_match t s') ∧ (∀ s', get_flag t' s' = get_flag t s').
Proof.
  unfold set_next. intros H Hok. table_solve.
  unfold get_next, get_fail, get_match, get_flag. split_and!; [done|..].
  - intros j rw. rewrite Hget. case_decide; [|by apply Hok].
    intros [= <-]. cbn. erewrite zset_length by done. by eapply Hok.
  - intros s' c'. rewrite Hget. destruct (decide (s' = s)) as [->|Hs].
    + cbn. rewrite Hrow. cbn. erewrite zget_zset by done.
      repeat case_decide; naive_solver.
    + rewrite decide_False by naive_solver. done.
  - intros s'. rewrite Hget. case_decide; subst; [|done]. by rewrite Hrow.
  - intros s'. rewrite Hget. case_decide; subst; [|done]. by rewrite Hrow.
  - intros s'. rewrite Hget. case_decide; subst; [|done]. by rewrite Hrow.
Qed.

Lemma set_fail_spec t s v t' :
  set_fail t s v = Some t' → rows_ok t →
  length t' = length t ∧ rows_ok t' ∧
  (∀ s' c', get_next t' s' c' = get_next t s' c') ∧
  (∀ s', get_fail t' s' = if decide (s' = s) then Some v else get_fail t s') ∧
  (∀ s', get_match t' s' = get_match t s') ∧ (∀ s', get_flag t' s' = get_flag t s').
Proof.
  unfold set_fail. intros H Hok. table_solve.
  unfold get_next, get_fail, get_match, get_flag. split_and!; [done|..].
  - intros j rw. rewrite Hget. case_decide; [|by apply Hok].
    intros [= <-]. cbn. by eapply Hok.
  - intros s' c'. rewrite Hget. case_decide; subst; [|done]. by rewrite Hrow.
  - intros s'. rewrite Hget. by case_decide.
  - intros s'. rewrite Hget. case_decide; subst; [|done]. by rewrite Hrow.
  - intros s'. rewrite Hget. case_decide; subst; [|done]. by rewrite Hrow.
Qed.

Lemma set_flag_spec t s v t' :
  set_flag t s v = Some t' → rows_ok t →
  length t' = length t ∧ rows_ok t' ∧
  (∀ s' c', get_next t' s' c' = get_next t s' c') ∧
  (∀ s', get_fail t' s' = get_fail t s') ∧
  (∀ s', get_match t' s' = get_match t s') ∧
  (∀ s', get_flag t' s' = if decide (s' = s) then Some v else get_flag t s') ∧
  (∀ s', s' ≠ s → t'.[s'] = t.[s']).
Proof.
  unfold set_flag. intros H Hok. table_solve.
  unfold get_next, get_fail, get_match, get_flag. split_and!; [done|..].
  - intros j rw. rewrite Hget. case_decide; [|by apply Hok].
    intros [= <-]. cbn. by eapply Hok.
  - intros s' c'. rewrite Hget. case_decide; subst; [|done]. by rewrite Hrow.
  - intros s'. rewrite Hget. case_decide; subst; [|done]. by rewrite Hrow.
  - intros s'. rewrite Hget. case_decide; subst; [|done]. by rewrite Hrow.
  - intros s'. rewrite Hget. by case_decide.
  - intros s' Hs. rewrite Hget. by case_decide.
Qed.

Lemma set_match_spec t s l t' :
  set_match t s l = Some t' → rows_ok t →
  length t' = length t ∧ rows_ok t' ∧
  (∀ s' c', get_next t' s' c' = get_next t s' c') ∧
  (∀ s', get_fail t' s' = get_fail t s') ∧
  (∀ s', get_match t' s' = if decide (s' = s) then Some l else get_match t s') ∧
  (∀ s', get_flag t' s' = get_flag t s') ∧
  (∀ s', s' ≠ s → t'.[s'] = t.[s']).
Proof.
  unfold set_match. intros H Hok. table_solve.
  unfold get_next, get_fail, get_match, get_flag. split_and!; [done|..].
  - intros j rw. rewrite Hget. case_decide; [|by apply Hok].
    intros [= <-]. cbn. by eapply Hok.
  - intros s' c'. rewrite Hget. case_decide; subst; [|done]. by rewrite Hrow.
  - intros s'. rewrite Hget. case_decide; subst; [|done]. by rewrite Hrow.
  - intros s'. rewrite Hget. by case_decide.
  - intros s'. rewrite Hget. case_decide; subst; [|done]. by rewrite Hrow.
  - intros s' Hs. rewrite Hget. by case_decide.
Qed.

Lemma set_next_ne t s c v t' :
  set_next t s c v = Some t' → ∀ s', s' ≠ s → t'.[s'] = t.[s'].
Proof. unfold set_next. intros H s' Hs. table_solve. by case_decide. Qed.

Lemma set_next_is_Some t s c v :
  rows_ok t → 0 <= s < zlen t → 0 <= c < 256 → is_Some (set_next t s c v).
Proof.
  intros Hok Hs Hc. destruct (zget_is_Some t s Hs) as [row Hrow].
  unfold set_next. eapply upd_state_Some; [done|].
  rewrite zset_Some by (rewrite (Hok _ _ Hrow); lia). done.
Qed.

Lemma set_fail_is_Some t s v : 0 <= s < zlen t → is_Some (set_fail t s v).
Proof.
  intros Hs. destruct (zget_is_Some t s Hs) as [row Hrow].
  unfold set_fail. by eapply upd_state_Some.
Qed.

Lemma set_flag_is_Some t s v : 0 <= s < zlen t → is_Some (set_flag t s v).
Proof.
  intros Hs. destruct (zget_is_Some t s Hs) as [row Hrow].
  unfold set_flag. by eapply upd_state_Some.
Qed.

Lemma set_match_is_Some t s v : 0 <= s < zlen t → is_Some (set_match t s v).
Proof.
  intros Hs. destruct (zget_is_Some t s Hs) as [row Hrow].
  unfold set_match. by eapply upd_state_Some.
Qed.

(** ** The trie invariant *)

Definition ascii_str (w : list Z) : Prop := Forall (λ c, c < 128) w.
Definition byte_str (w : list Z) : Prop := Forall (λ c, 0 <= c < 256) w.

(** The transitions of state [s] are exactly the trie edges of [w]. *)
Definition trie_edge (strs : list (list Z)) (t : list ACSM_STATETABLE) (s : Z) (w : list Z)
    (c : Z) : Prop :=
  ∃ v, get_next t s c = Some v ∧
       ((v = ACSM_FAIL_STATE ∧ w ++ [c] ∉ strs) ∨ strs.[v] = Some (w ++ [c])).

Record trie (t : list ACSM_STATETABLE) (num : Z) (strs D : list (list Z)) : Prop := {
  tr_num : zlen strs = num + 1;
  tr_cap : num < zlen t <= ACSM_FAIL_STATE;
  tr_rows : rows_ok t;
  tr_nodup : NoDup strs;
  tr_bytes : ∀ w, w ∈ strs → byte_str w;
  tr_root : strs.[0] = Some [];
  tr_closed : ∀ w c, w ++ [c] ∈ strs → w ∈ strs;
  tr_next : ∀ s w c, strs.[s] = Some w → 0 <= c < 256 → trie_edge strs t s w c;
  tr_match : ∀ s w, strs.[s] = Some w →
    ∃ l, get_match t s = Some l ∧ (w ∈ D ↔ l ≠ []) ∧ Forall (λ m, pat_str m = w) l;
  tr_sub : ∀ w, w ∈ D → w ∈ strs;
  tr_fresh : ∀ s, num < s < zlen t → t.[s] = Some fresh_state;
  tr_fail : ∀ s, 0 <= s < zlen t → get_fail t s = Some 0;
  tr_solid : ∀ s w, strs.[s] = Some w → ascii_str w → get_flag t s = Some SOLID_STATE }.

Lemma elem_of_strs (strs : list (list Z)) w : w ∈ strs ↔ ∃ s, strs.[s] = Some w.
Proof.
  rewrite list_elem_of_lookup. split.
  - intros [i Hi]. exists (Z.of_nat i). by rewrite zget_nat.
  - intros [s Hs]. exists (Z.to_nat s). rewrite <- Hs.
    apply zget_Some_range in Hs. by rewrite zget_pos by lia.
Qed.

Lemma strs_inj (strs : list (list Z)) s1 s2 w :
  NoDup strs → strs.[s1] = Some w → strs.[s2] = Some w → s1 = s2.
Proof.
  intros Hnd H1 H2.
  pose proof (zget_Some_range _ _ _ H1). pose proof (zget_Some_range _ _ _ H2).
  rewrite zget_pos in H1, H2 by lia.
  assert (Z.to_nat s1 = Z.to_nat s2) by by eapply NoDup_lookup. lia.
Qed.

Lemma trie_nil t num strs D : trie t num strs D → [] ∈ strs.
Proof. intros H. apply elem_of_strs. exists 0. apply H. Qed.

Lemma trie_state_lt t num strs D s w :
  trie t num strs D → strs.[s] = Some w → 0 <= s < zlen t ∧ s <> ACSM_FAIL_STATE ∧ s <= num.
Proof.
  intros Ht Hs%zget_Some_range. pose proof (tr_num _ _ _ _ Ht).
  pose proof (tr_cap _ _ _ _ Ht). lia.
Qed.

(** ** [AddPatternStates] extends the trie *)

Lemma match_existing_ok t num strs D pat :
  trie t num strs D → byte_str pat →
  ∀ state w, strs.[state] = Some w →
  ∃ state' pre rest,
    match_existing t state pat = Some (state', rest) ∧ pat = pre ++ rest ∧
    strs.[state'] = Some (w ++ pre) ∧
    ∀ c r, rest = c :: r → (w ++ pre) ++ [c] ∉ strs.
Proof.
  intros Ht. induction 1 as [|c pat Hc Hpat IH]; intros state w Hw; cbn.
  - exists state, [], []. rewrite (app_nil_r w). by split_and!.
  - destruct (tr_next _ _ _ _ Ht _ _ _ Hw Hc) as (v & Hv & Hcase).
    rewrite Hv. cbn. destruct (Z.eqb_spec v ACSM_FAIL_STATE) as [->|Hne].
    + destruct Hcase as [[_ Hn]|Hs]; [|by eapply trie_state_lt in Hs as (?&?&?)].
      exists state, [], (c :: pat). rewrite (app_nil_r w). split_and!; [done..|].
      intros c' r [= -> ->]. done.
    + destruct Hcase as [[? _]|Hs]; [done|].
      destruct (IH v (w ++ [c]) Hs) as (state' & pre & rest & -> & -> & Hs' & Hr).
      exists state', (c :: pre), rest. rewrite <- app_assoc in Hs'.
      rewrite <- (app_assoc w [c] pre) in Hr. by split_and!.
Qed.

Lemma zget_snoc_old {A} (l : list A) x s y : l.[s] = Some y → (l ++ [x]).[s] = Some y.
Proof. intros H. pose proof (zget_Some_range _ _ _ H). by rewrite zget_app_l by lia. Qed.

Lemma zget_snoc_new {A} (l : list A) x : (l ++ [x]).[zlen l] = Some x.
Proof. rewrite zget_app_r by lia. by rewrite Z.sub_diag. Qed.

Lemma zget_snoc_inv {A} (l : list A) x s y :
  (l ++ [x]).[s] = Some y → l.[s] = Some y ∨ (s = zlen l ∧ y = x).
Proof.
  intros H. pose proof (zget_Some_range _ _ _ H) as Hr. rewrite length_app in Hr. cbn in Hr.
  destruct (Z.ltb_spec s (zlen l)).
  - left. by rewrite zget_app_l in H by lia.
  - right. rewrite zget_app_r in H by lia. replace (s - zlen l) with 0 in H by lia.
    change (Some x = Some y) in H. split; [lia|congruence].
Qed.

Lemma ascii_snoc w c : ascii_str (w ++ [c]) → ascii_str w ∧ c < 128.
Proof. unfold ascii_str. rewrite Forall_app, Forall_singleton. done. Qed.

Lemma fresh_views t s :
  t.[s] = Some fresh_state →
  (∀ c, 0 <= c < 256 → get_next t s c = Some ACSM_FAIL_STATE) ∧
  get_match t s = Some [] ∧ get_flag t s = Some SOLID_STATE ∧ get_fail t s = Some 0.
Proof.
  intros H. unfold get_next, get_match, get_flag, get_fail. rewrite H. cbn [mbind option_bind].
  split_and!; [|done..]. intros c Hc. by apply zget_replicate.
Qed.

(** One iteration of the second loop: state [num + 1] becomes the child of
    [state] on [c]. *)
Lemma add_state_step t num strs D state w c t1 t2 t3 rtemp :
  trie t num strs D → strs.[state] = Some w → 0 <= c < 256 → w ++ [c] ∉ strs →
  num + 1 < zlen t →
  set_next t state c (num + 1) = Some t1 →
  set_flag t1 (num + 1) SOLID_STATE = Some t2 →
  t2.[state] = Some rtemp →
  (if (128 <=? c) && (flag rtemp =? SOLID_STATE)
   then set_flag t2 (num + 1) VIRTUAL_STATE1 else Some t2) = Some t3 →
  trie t3 (num + 1) (strs ++ [w ++ [c]]) D ∧ length t3 = length t.
Proof.
  intros Ht Hw Hc Hnew Hcap H1 H2 _ H3.
  pose proof (trie_state_lt _ _ _ _ _ _ Ht Hw) as (Hs1 & Hs2 & Hs3).
  pose proof (tr_num _ _ _ _ Ht) as Hnum. pose proof (tr_cap _ _ _ _ Ht) as Hc2.
  destruct (set_next_spec _ _ _ _ _ H1 (tr_rows _ _ _ _ Ht)) as (L1 & R1 & N1 & F1 & M1 & G1).
  pose proof (set_next_ne _ _ _ _ _ H1) as E1.
  destruct (set_flag_spec _ _ _ _ H2 R1) as (L2 & R2 & N2 & F2 & M2 & G2 & E2).
  assert (length t3 = length t2 ∧ rows_ok t3 ∧ (∀ s c, get_next t3 s c = get_next t2 s c) ∧
    (∀ s, get_fail t3 s = get_fail t2 s) ∧ (∀ s, get_match t3 s = get_match t2 s) ∧
    (∀ s, s ≠ num + 1 → t3.[s] = t2.[s]) ∧ (c < 128 → t3 = t2))
    as (L3 & R3 & N3 & F3 & M3 & E3 & A3).
  { destruct ((128 <=? c) && (flag rtemp =? SOLID_STATE)) eqn:Hb; simplify_eq.
    - destruct (set_flag_spec _ _ _ _ H3 R2) as (?&?&?&?&?&?&?).
      split_and!; try done. intros. apply andb_true_iff in Hb as [?%Z.leb_le _]. lia.
    - by split_and!. }
  assert (Hfr : t.[num + 1] = Some fresh_state) by (apply Ht; lia).
  apply fresh_views in Hfr as (HfN & HfM & HfG & HfF).
  assert (Hold : ∀ s, s ≠ num + 1 → s ≠ state → t3.[s] = t.[s]).
  { intros. rewrite E3, E2, E1 by done. done. }
  assert (Hmt : ∀ s, get_match t3 s = get_match t s) by (intros; by rewrite M3, M2, M1).
  assert (Hnx : ∀ s c', get_next t3 s c' =
     if decide (s = state ∧ c' = c) then Some (num + 1) else get_next t s c')
    by (intros; by rewrite N3, N2, N1).
  assert (Hne : state ≠ num + 1) by lia.
  split; [|congruence]. constructor.
  - rewrite length_app. cbn. lia.
  - lia.
  - done.
  - apply NoDup_app. split_and!; [apply Ht| |apply NoDup_singleton].
    intros x Hx ->%list_elem_of_singleton. done.
  - intros x [Hx| ->%list_elem_of_singleton]%elem_of_app; [by apply Ht|].
    apply Forall_app. split; [|by apply Forall_singleton].
    apply (tr_bytes _ _ _ _ Ht). apply elem_of_strs. eauto.
  - apply zget_snoc_old, Ht.
  - intros w' c' [Hin|Hin%list_elem_of_singleton]%elem_of_app; apply elem_of_app; left.
    + by eapply Ht.
    + apply app_inj_tail in Hin as [-> _]. apply elem_of_strs. eauto.
  - intros s w' c' Hs' Hc'. unfold trie_edge. rewrite Hnx.
    apply zget_snoc_inv in Hs' as [Hs'|[-> ->]].
    + case_decide as Hd.
      * destruct Hd as [-> ->]. rewrite Hw in Hs'. simplify_eq.
        exists (num + 1). split; [done|]. right. replace (num + 1) with (zlen strs) by lia.
        apply zget_snoc_new.
      * destruct (tr_next _ _ _ _ Ht _ _ _ Hs' Hc') as (v & Hv & Hcase).
        exists v. split; [done|]. destruct Hcase as [[-> Hn]|Hv'].
        -- left. split; [done|]. rewrite elem_of_app, list_elem_of_singleton.
           intros [?|He]; [done|]. apply app_inj_tail in He as [-> ->].
           apply Hd. split; [|done]. eapply strs_inj; [apply Ht|done|done].
        -- right. by apply zget_snoc_old.
    + rewrite Hnum, decide_False by naive_solver.
      exists ACSM_FAIL_STATE. split; [by apply HfN|]. left. split; [done|].
      rewrite elem_of_app, list_elem_of_singleton. intros [He|He].
      * apply Hnew. by eapply Ht.
      * apply (f_equal length) in He. rewrite !length_app in He. cbn in He. lia.
  - intros s w' Hs'. rewrite Hmt. apply zget_snoc_inv in Hs' as [Hs'|[-> ->]].
    + by apply Ht.
    + rewrite Hnum, HfM. exists []. split_and!; [done| |done]. split; [|done].
      intros Hin. by apply (tr_sub _ _ _ _ Ht) in Hin.
  - intros w' Hw'. apply elem_of_app. left. by apply Ht.
  - intros s Hs. rewrite Hold by lia. apply Ht. lia.
  - intros s Hs. rewrite F3, F2, F1. apply Ht. lia.
  - intros s w' Hs' Ha. apply zget_snoc_inv in Hs' as [Hs'|[-> ->]].
    + eapply trie_state_lt in Hs' as Hlt; [|done]. destruct Hlt as (?&?&?).
      unfold get_flag. rewrite E3 by lia.
      change (get_flag t2 s = Some SOLID_STATE). rewrite G2, decide_False by lia.
      rewrite G1. by eapply Ht.
    + apply ascii_snoc in Ha as [_ Hlt]. rewrite A3 by done.
      rewrite G2, decide_True by lia. done.
Qed.

Lemma add_states_ok rest : ∀ t num strs D state w,
  trie t num strs D → strs.[state] = Some w → byte_str rest →
  (∀ c r, rest = c :: r → w ++ [c] ∉ strs) →
  num + zlen rest < zlen t →
  ∃ t' num' state' strs',
    add_states t num state rest = Some (t', num', state') ∧
    trie t' num' strs' D ∧ num' = num + zlen rest ∧
    strs'.[state'] = Some (w ++ rest) ∧ length t' = length t.
Proof.
  induction rest as [|c rest IH]; intros t num strs D state w Ht Hw Hb Hnew Hcap; cbn.
  { exists t, num, state, strs. rewrite (app_nil_r w). split_and!; try done. lia. }
  apply Forall_cons in Hb as [Hc Hb]. cbn [length] in Hcap.
  pose proof (tr_cap _ _ _ _ Ht) as Hc2. pose proof (tr_num _ _ _ _ Ht) as Hnum.
  pose proof (trie_state_lt _ _ _ _ _ _ Ht Hw) as (Hs1 & _ & _).
  rewrite u32_small by (unfold ACSM_FAIL_STATE in *; lia).
  destruct (set_next_is_Some t state c (num + 1)) as [t1 H1]; [apply Ht|lia|done|].
  destruct (set_next_spec _ _ _ _ _ H1 (tr_rows _ _ _ _ Ht)) as (L1 & R1 & _).
  rewrite H1. cbn.
  destruct (set_flag_is_Some t1 (num + 1) SOLID_STATE) as [t2 H2]; [lia|].
  destruct (set_flag_spec _ _ _ _ H2 R1) as (L2 & R2 & _).
  rewrite H2. cbn.
  destruct (zget_is_Some t2 state) as [rtemp Hrt]; [lia|]. rewrite Hrt. cbn.
  assert (∃ t3, (if (128 <=? c) && (flag rtemp =? SOLID_STATE)
     then set_flag t2 (num + 1) VIRTUAL_STATE1 else Some t2) = Some t3) as [t3 H3].
  { destruct (_ && _); [|eauto]. apply set_flag_is_Some. lia. }
  rewrite H3. cbn.
  destruct (add_state_step _ _ _ _ _ _ _ _ _ _ _ Ht Hw Hc (Hnew _ _ eq_refl)
              ltac:(lia) H1 H2 Hrt H3) as [Ht3 L3].
  destruct (IH t3 (num + 1) (strs ++ [w ++ [c]]) D (num + 1) (w ++ [c]))
    as (t' & num' & state' & strs' & -> & Ht' & -> & Hs' & Hl); try done.
  - replace (num + 1) with (zlen strs) by lia. apply zget_snoc_new.
  - intros c' r ->. rewrite elem_of_app, list_elem_of_singleton. intros [Hin|He].
    + apply (Hnew c (c' :: r)); [done|]. by eapply Ht.
    + apply (f_equal length) in He. rewrite !length_app in He. cbn in He. lia.
  - rewrite L3. lia.
  - exists t', (num + 1 + zlen rest), state', strs'. rewrite <- app_assoc in Hs'.
    split_and!; try done; [lia|congruence].
Qed.

(** A pattern node as [acsmAddPattern] builds it: its array is a NUL-terminated
    string of [n_cap] bytes. *)
Definition pat_ok (p : ACSM_PATTERN) : Prop :=
  patrn_cap p = pat_str p ++ [0] ∧ n_cap p = zlen (pat_str p) ∧ is_cstring (pat_str p).

Lemma is_cstring_byte w : is_cstring w → byte_str w.
Proof. intros H. eapply Forall_impl; [exact H|]. cbn. lia. Qed.

Lemma existsb_same_str w l p :
  Forall (λ m, pat_str m = w) l → pat_str p = w →
  existsb (λ q, strcmp (pat_str p) (pat_str q) =? 0) l = negb (bool_decide (l = [])).
Proof.
  intros Hl Hp. destruct Hl as [|m l Hm _]; [done|]. cbn.
  rewrite Hm, Hp, (proj2 (strcmp_eq w w)) by done. done.
Qed.

Lemma AddMatchListEntry_ok t num strs D state p :
  trie t num strs D → strs.[state] = Some (pat_str p) →
  ∃ t', AddMatchListEntry t state p = Some t' ∧
        trie t' num strs (pat_str p :: D) ∧ length t' = length t.
Proof.
  intros Ht Hs. pose proof (trie_state_lt _ _ _ _ _ _ Ht Hs) as (Hs1 & _ & Hs3).
  destruct (tr_match _ _ _ _ Ht _ _ Hs) as (l & Hl & Hin & Hall).
  unfold AddMatchListEntry. unfold get_match in Hl.
  destruct (t.[state]) as [row|] eqn:Hrow; [|done]. cbn in Hl |- *. simplify_eq.
  rewrite (existsb_same_str (pat_str p)) by done.
  assert (Hsub : ∀ w, w ∈ pat_str p :: D → w ∈ strs).
  { intros w [->|Hw]%elem_of_cons; [apply elem_of_strs; eauto|]. by apply Ht. }
  case_bool_decide as Hnil; cbn.
  - destruct (set_match_is_Some t state (p :: MatchList row) Hs1) as [t' Ht'].
    exists t'. split; [done|].
    destruct (set_match_spec _ _ _ _ Ht' (tr_rows _ _ _ _ Ht)) as (L & R & N & F & M & G & E).
    split; [|done]. constructor; try apply Ht; try done.
    + rewrite L. apply Ht.
    + intros s w c ??. unfold trie_edge. rewrite N. by apply Ht.
    + intros s w Hw. rewrite M. case_decide as Hd.
      * subst s. rewrite Hs in Hw. simplify_eq. eexists. split_and!; [done| |by constructor].
        split; [done|]. intros _. by left.
      * destruct (tr_match _ _ _ _ Ht _ _ Hw) as (l' & Hl' & Hin' & Hall').
        exists l'. split_and!; [done| |done]. rewrite <- Hin', elem_of_cons.
        split; [|by right]. intros [->|?]; [|done].
        destruct Hd. eapply strs_inj; [apply Ht|done|done].
    + intros s Hss. rewrite E by lia. apply Ht. lia.
    + intros s Hss. rewrite F. apply Ht. lia.
    + intros s w ??. rewrite G. by eapply Ht.
  - exists t. split; [done|]. split; [|done]. constructor; try apply Ht; try done.
    intros s w Hw. destruct (tr_match _ _ _ _ Ht _ _ Hw) as (l' & Hl' & Hin' & Hall').
    exists l'. split_and!; [done| |done]. rewrite <- Hin', elem_of_cons.
    split; [|by right]. intros [->|?]; [|done].
    assert (s = state) as -> by (eapply strs_inj; [apply Ht|done|done]). by apply Hin.
Qed.

Definition trie_of (a : ACSM_STRUCT) (strs D : list (list Z)) : Prop :=
  trie (acsmStateTable a) (acsmNumState a) strs D.

Lemma set_flag_root_ok t num strs D :
  trie t num strs D →
  ∃ t', set_flag t 0 SOLID_STATE = Some t' ∧ trie t' num strs D ∧ length t' = length t.
Proof.
  intros Ht. pose proof (trie_state_lt _ _ _ _ _ _ Ht (tr_root _ _ _ _ Ht)) as (H0 & _ & Hn).
  destruct (set_flag_is_Some t 0 SOLID_STATE H0) as [t' Ht']. exists t'. split; [done|].
  destruct (set_flag_spec _ _ _ _ Ht' (tr_rows _ _ _ _ Ht)) as (L & R & N & F & M & G & E).
  split; [|done]. constructor; try apply Ht; try done.
  - rewrite L. apply Ht.
  - intros s w c ??. unfold trie_edge. rewrite N. by apply Ht.
  - intros s w Hw. rewrite M. by apply Ht.
  - intros s Hss. rewrite E by lia. apply Ht. lia.
  - intros s Hss. rewrite F. apply Ht. lia.
  - intros s w ??. rewrite G. case_decide; [done|]. by eapply Ht.
Qed.

Lemma AddPatternStates_ok a strs D p :
  trie_of a strs D → pat_ok p →
  acsmNumState a + n_cap p < zlen (acsmStateTable a) →
  ∃ a' strs', AddPatternStates a p = Some a' ∧ trie_of a' strs' (pat_str p :: D) ∧
    acsmNumState a' <= acsmNumState a + n_cap p ∧
    length (acsmStateTable a') = length (acsmStateTable a) ∧
    acsmPatterns a' = acsmPatterns a.
Proof.
  intros Ht (Hcap & Hn & Hstr) Hroom. unfold AddPatternStates.
  assert (take (Z.to_nat (n_cap p)) (patrn_cap p) = pat_str p) as ->.
  { rewrite Hcap, Hn, Nat2Z.id. by rewrite take_app_length. }
  destruct (set_flag_root_ok _ _ _ _ Ht) as (t0 & -> & Ht0 & L0). cbn.
  destruct (match_existing_ok _ _ _ _ (pat_str p) Ht0 (is_cstring_byte _ Hstr) 0 []
              (tr_root _ _ _ _ Ht0)) as (state & pre & rest & -> & Hpre & Hs & Hr). cbn.
  cbn [app] in Hs, Hr. assert (zlen rest <= n_cap p).
  { rewrite Hn, Hpre, length_app. lia. }
  destruct (add_states_ok rest _ _ _ _ state pre Ht0 Hs) as
    (t1 & num & state' & strs' & -> & Ht1 & -> & Hs' & L1); [|done|lia|]; cbn.
  { apply is_cstring_byte in Hstr. rewrite Hpre in Hstr. by apply Forall_app in Hstr as [_ ?]. }
  rewrite <- Hpre in Hs'.
  destruct (AddMatchListEntry_ok _ _ _ _ _ _ Ht1 Hs') as (t2 & -> & Ht2 & L2). cbn.
  eexists _, strs'. split_and!; [done|done|cbn;lia|cbn; congruence|done].
Qed.

Definition total_len (ps : list ACSM_PATTERN) : Z := foldr (λ p acc, n_cap p + acc) 0 ps.

Lemma pat_ok_nonneg p : pat_ok p → 0 <= n_cap p.
Proof. intros (_ & -> & _). lia. Qed.

Lemma total_len_nonneg ps : Forall pat_ok ps → 0 <= total_len ps.
Proof.
  induction 1 as [|p ps Hp _ IH]; [done|]. apply pat_ok_nonneg in Hp.
  change (0 <= n_cap p + total_len ps). lia.
Qed.

Lemma add_all_ok ps : Forall pat_ok ps → ∀ a strs D,
  trie_of a strs D → acsmNumState a + total_len ps < zlen (acsmStateTable a) →
  ∃ a' strs', add_all a ps = Some a' ∧ trie_of a' strs' (rev (pat_str <$> ps) ++ D) ∧
    length (acsmStateTable a') = length (acsmStateTable a) ∧
    acsmPatterns a' = acsmPatterns a.
Proof.
  induction 1 as [|p ps Hp Hps IH]; intros a strs D Ht Hroom; cbn [add_all].
  { exists a, strs. done. }
  change (total_len (p :: ps)) with (n_cap p + total_len ps) in Hroom.
  pose proof (total_len_nonneg _ Hps).
  destruct (AddPatternStates_ok a strs D p Ht Hp) as (a1 & strs1 & -> & Ht1 & Hn1 & L1 & P1);
    [lia|]. cbn [mbind option_bind].
  destruct (IH a1 strs1 _ Ht1) as (a2 & strs2 & -> & Ht2 & L2 & P2); [lia|].
  exists a2, strs2. rewrite fmap_cons. cbn [rev]. rewrite <- app_assoc. split_and!; [done|done|congruence|congruence].
Qed.
