(* ===== verification/AcsmBuild.v ===== *)
(** Completion of the trie into a deterministic automaton ([close_root],
    [queue_depth1], [build_row], [build_loop]): every transition leads to the
    state of the longest suffix that is a pattern prefix, every failure link to
    the longest proper one. *)
From S2P Require Import Prelude CString AcsmSpec Acsm AcsmTrie.
Import Acsm.

Definition queue_ok (q : QUEUE) (l : list Z) : Prop :=
  q_nodes q = l ∧ q_count q = zlen l ∧ zlen l <= 2147483647.

Lemma queue_add_ok q l s :
  queue_ok q l → zlen l < 2147483647 → queue_ok (queue_add q s) (l ++ [s]).
Proof.
  intros (<- & Hc & Hl) Hlt. unfold queue_ok, queue_add. cbn. rewrite length_app. cbn.
  rewrite Hc, u32_small by lia. split_and!; [done|lia|lia].
Qed.

Lemma queue_remove_ok q r Q :
  queue_ok q (r :: Q) → ∃ q', queue_remove q = (r, q') ∧ queue_ok q' Q ∧ 0 < queue_count q.
Proof.
  intros (Hn & Hc & Hl). unfold queue_remove, queue_count. rewrite Hn. eexists.
  split; [done|]. cbn [length] in *. rewrite Hc, i32_small by lia. split; [|lia].
  unfold queue_ok. cbn. destruct Q; [done|]. cbn [length] in *.
  rewrite u32_small by lia. split_and!; [done|lia|lia].
Qed.

(** States are few: a duplicate-free list of them fits in the queue counter. *)
Lemma states_bound (strs : list (list Z)) (l : list Z) :
  NoDup l → (∀ s, s ∈ l → is_Some (strs.[s])) → zlen l <= zlen strs.
Proof.
  intros Hnd Hdom. assert (l ⊆+ seqZ 0 (zlen strs)) as Hsub.
  { apply NoDup_submseteq; [done|]. intros s Hs. apply elem_of_seqZ.
    destruct (Hdom _ Hs) as [w Hw]. apply zget_Some_range in Hw. lia. }
  apply submseteq_length in Hsub. rewrite length_seqZ in Hsub. lia.
Qed.

Section build.
Variable strs : list (list Z).
Hypothesis strs_nodup : NoDup strs.
Hypothesis strs_bytes : ∀ w, w ∈ strs → byte_str w.
Hypothesis strs_root : strs.[0] = Some [].
Hypothesis strs_closed : ∀ w c, w ++ [c] ∈ strs → w ∈ strs.
Hypothesis strs_small : zlen strs <= 2147483647.

Notation state_of s w := (strs.[s] = Some w).

Definition complete_edge (t : list ACSM_STATETABLE) (s : Z) (w : list Z) (c : Z) : Prop :=
  ∃ v, get_next t s c = Some v ∧ state_of v (lsuf strs (w ++ [c])).

Definition fail_ok (t : list ACSM_STATETABLE) (s : Z) (w : list Z) : Prop :=
  ∃ f, get_fail t s = Some f ∧ state_of f (lsuf strs (tail w)).

Lemma strs_nil : [] ∈ strs.
Proof using strs_root. apply elem_of_strs. eauto. Qed.

Lemma state_inj s1 s2 w : state_of s1 w → state_of s2 w → s1 = s2.
Proof using strs_nodup. by apply strs_inj. Qed.

Lemma state_elem s w : state_of s w → w ∈ strs.
Proof. intros. apply elem_of_strs. eauto. Qed.

Lemma state_not_fail s w : state_of s w → s ≠ ACSM_FAIL_STATE.
Proof using strs_small. intros H%zget_Some_range. unfold ACSM_FAIL_STATE. lia. Qed.

(** Failure links, completed transitions and trie transitions while the
    automaton is being built: [A] are the states queued so far, [C s c] says
    the transition of [s] on [c] is final. *)
Record binv (t : list ACSM_STATETABLE) (A : list Z) (C : Z → Z → Prop) : Prop := {
  bi_cap : zlen strs <= zlen t;
  bi_rows : rows_ok t;
  bi_done : ∀ s w c, state_of s w → 0 <= c < 256 → C s c → complete_edge t s w c;
  bi_todo : ∀ s w c, state_of s w → 0 <= c < 256 → ¬ C s c → trie_edge strs t s w c;
  bi_fail : ∀ s w, s ∈ A → state_of s w → fail_ok t s w;
  bi_fail0 : get_fail t 0 = Some 0;
  bi_reach : ∀ s w c s', C s c → 0 <= c < 256 → state_of s w →
    state_of s' (w ++ [c]) → s' ∈ A;
  bi_from : ∀ s', s' ∈ A → ∃ s w c, C s c ∧ 0 <= c < 256 ∧ state_of s w ∧
    state_of s' (w ++ [c]);
  bi_nodup : NoDup A }.

Lemma binv_ext t A C C' :
  (∀ s c, 0 <= c < 256 → C s c ↔ C' s c) → binv t A C → binv t A C'.
Proof.
  intros HC []; constructor; try done.
  - intros s w c Hs Hc HCs. apply bi_done0; [done..|]. by apply HC.
  - intros s w c Hs Hc Hn. apply bi_todo0; [done..|]. by rewrite (HC s c Hc).
  - intros s w c s' HCs Hc Hs Hs'. apply (bi_reach0 s w c s'); [|done..]. by apply HC.
  - intros s' Hs'. destruct (bi_from0 _ Hs') as (s & w & c & ?&?&?&?).
    exists s, w, c. split; [by apply HC|done].
Qed.

Definition add_edge (C : Z → Z → Prop) (r c : Z) : Z → Z → Prop :=
  λ s' c', C s' c' ∨ (s' = r ∧ c' = c).

(** A transition with a trie edge: the child is queued and its failure link
    set to the step of the failure state of [r]. *)
Lemma step_child t A C r w c s v t' :
  binv t A C → r ∈ A → state_of r w → 0 <= c < 256 → ¬ C r c →
  state_of s (w ++ [c]) → get_next t r c = Some s →
  state_of v (lsuf strs (lsuf strs (tail w) ++ [c])) → w ≠ [] →
  set_fail t s v = Some t' →
  binv t' (A ++ [s]) (add_edge C r c) ∧ s ∉ A ∧ s ≠ 0 ∧
  get_fail t' r = get_fail t r.
Proof using strs_nodup strs_root strs_closed strs_small.
  intros Hb HrA Hr Hc HC Hs Hns Hv Hw Hset.
  destruct (set_fail_spec _ _ _ _ Hset (bi_rows _ _ _ Hb)) as (L & R & N & F & M & G).
  assert (HsA : s ∉ A).
  { intros HsA. destruct (bi_from _ _ _ Hb _ HsA) as (s0 & w0 & c0 & ? & ? & H0 & Hs0).
    rewrite Hs in Hs0. injection Hs0 as Heq. apply app_inj_tail in Heq as [-> ->].
    by rewrite (state_inj _ _ _ H0 Hr) in *. }
  assert (Hs0 : s ≠ 0).
  { intros ->. rewrite strs_root in Hs. by destruct w. }
  assert (Hrs : r ≠ s).
  { intros ->. rewrite Hr in Hs. injection Hs as Heq. apply (f_equal length) in Heq.
    rewrite length_app in Heq. cbn in Heq. lia. }
  split_and!; [|done|done|by rewrite F, decide_False]. constructor.
  - rewrite L. apply Hb.
  - done.
  - intros s' w' c' Hs' Hc' Hor. unfold complete_edge. setoid_rewrite N.
    destruct Hor as [HC'|[-> ->]]; [by apply Hb|].
    rewrite Hr in Hs'. simplify_eq. exists s. split; [done|].
    by rewrite lsuf_id by by eapply state_elem.
  - intros s' w' c' Hs' Hc' Hno. unfold trie_edge. setoid_rewrite N.
    apply Hb; [done..|]. intros ?. apply Hno. by left.
  - intros s' w' [Hin| ->%list_elem_of_singleton]%elem_of_app Hs'; unfold fail_ok; rewrite F.
    + rewrite decide_False by (by intros ->). by apply Hb.
    + rewrite decide_True by done. rewrite Hs in Hs'. simplify_eq. exists v.
      split; [done|]. rewrite lsuf_fail_child; [done|apply strs_nil|done|done].
  - rewrite F, decide_False by done. apply Hb.
  - intros s' w' c' s'' Hor Hc' Hs' Hs''. apply elem_of_app.
    destruct Hor as [HC'|[-> ->]]; [left; by eapply Hb|]. right.
    rewrite Hr in Hs'. simplify_eq. apply list_elem_of_singleton. by eapply state_inj.
  - intros s' [Hin| ->%list_elem_of_singleton]%elem_of_app.
    + destruct (bi_from _ _ _ Hb _ Hin) as (s0 & w0 & c0 & ?&?&?&?).
      exists s0, w0, c0. split; [by left|done].
    + exists r, w, c. split; [by right|done].
  - apply NoDup_app. split_and!; [apply Hb| |apply NoDup_singleton].
    intros x Hx ->%list_elem_of_singleton. done.
Qed.

(** A transition without a trie edge is copied from the failure state. *)
Lemma step_copy t A C r w c v t' :
  binv t A C → state_of r w → 0 <= c < 256 → ¬ C r c →
  w ++ [c] ∉ strs →
  state_of v (lsuf strs (lsuf strs (tail w) ++ [c])) → w ≠ [] →
  set_next t r c v = Some t' →
  binv t' A (add_edge C r c) ∧ ∀ s, get_fail t' s = get_fail t s.
Proof using strs_nodup strs_root strs_closed.
  intros Hb Hr Hc HC Hn Hv Hw Hset.
  destruct (set_next_spec _ _ _ _ _ Hset (bi_rows _ _ _ Hb)) as (L & R & N & F & M & G).
  split; [|done]. constructor.
  - rewrite L. apply Hb.
  - done.
  - intros s' w' c' Hs' Hc' Hor. unfold complete_edge. rewrite N. case_decide as Hd.
    + destruct Hd as [-> ->]. rewrite Hr in Hs'. simplify_eq. exists v. split; [done|].
      rewrite lsuf_fail_step; [done|apply strs_nil|done|done|done].
    + destruct Hor as [HC'|?]; [|done]. by apply Hb.
  - intros s' w' c' Hs' Hc' Hno. unfold trie_edge. rewrite N.
    rewrite decide_False by (intros [-> ->]; apply Hno; by right).
    apply Hb; [done..|]. intros ?. apply Hno. by left.
  - intros s' w' Hin Hs'. unfold fail_ok. rewrite F. by apply Hb.
  - rewrite F. apply Hb.
  - intros s' w' c' s'' Hor Hc' Hs' Hs''. destruct Hor as [HC'|[-> ->]]; [by eapply Hb|].
    rewrite Hr in Hs'. simplify_eq. destruct Hn. by eapply state_elem.
  - intros s' Hin. destruct (bi_from _ _ _ Hb _ Hin) as (s0 & w0 & c0 & ?&?&?&?).
    exists s0, w0, c0. split; [by left|done].
  - apply Hb.
Qed.

(** ** The alphabet loop for one dequeued state *)

Lemma binv_dom t A C s : binv t A C → s ∈ A → is_Some (strs.[s]).
Proof. intros Hb Hs. destruct (bi_from _ _ _ Hb _ Hs) as (?&?&?&_&_&_&?). eauto. Qed.

Lemma binv_nonroot t A C s w : binv t A C → s ∈ A → state_of s w → w ≠ [].
Proof.
  intros Hb Hs Hw. destruct (bi_from _ _ _ Hb _ Hs) as (?&w'&?&_&_&_&Hw').
  rewrite Hw in Hw'. simplify_eq. by destruct w'.
Qed.

Definition same_static (t t' : list ACSM_STATETABLE) : Prop :=
  length t' = length t ∧ (∀ s, get_match t' s = get_match t s) ∧
  (∀ s, get_flag t' s = get_flag t s).

Lemma same_static_refl t : same_static t t.
Proof. done. Qed.

Lemma same_static_trans t1 t2 t3 :
  same_static t1 t2 → same_static t2 t3 → same_static t1 t3.
Proof. intros (?&?&?) (?&?&?). split_and!; intros; congruence. Qed.

Lemma set_fail_static t s v t' :
  rows_ok t → set_fail t s v = Some t' → same_static t t'.
Proof. intros Hr H. destruct (set_fail_spec _ _ _ _ H Hr) as (?&?&?&?&?&?). done. Qed.

Lemma set_next_static t s c v t' :
  rows_ok t → set_next t s c v = Some t' → same_static t t'.
Proof. intros Hr H. destruct (set_next_spec _ _ _ _ _ H Hr) as (?&?&?&?&?&?). done. Qed.

(** One iteration of the alphabet loop of [build_row]. *)
Lemma build_row_step t A C r w c ix q f :
  binv t A C → r ∈ A → state_of r w → 0 <= c < 256 → ¬ C r c →
  get_fail t r = Some f → C f c →
  ∃ t' K q', build_row (c :: ix) r t q = build_row ix r t' q' ∧
    binv t' (A ++ K) (add_edge C r c) ∧ get_fail t' r = Some f ∧ same_static t t' ∧
    (∀ l, queue_ok q l → NoDup (A ++ K) → zlen l + zlen K <= zlen strs → queue_ok q' (l ++ K)) ∧
    (∀ k, k ∈ K → state_of k (w ++ [c])).
Proof using strs_nodup strs_root strs_closed strs_small.
  intros Hb HrA Hr Hc HC Hf HCf. cbn [build_row].
  pose proof (binv_nonroot _ _ _ _ _ Hb HrA Hr) as Hw.
  destruct (bi_fail _ _ _ Hb _ _ HrA Hr) as (f' & Hf' & Hfs).
  rewrite Hf in Hf'. simplify_eq.
  destruct (bi_done _ _ _ Hb _ _ _ Hfs Hc HCf) as (v & Hv & Hvs).
  assert (Hvf : (v =? ACSM_FAIL_STATE) = false).
  { apply Z.eqb_neq. by eapply state_not_fail. }
  destruct (bi_todo _ _ _ Hb _ _ _ Hr Hc HC) as (s & Hs & Hcase). rewrite Hs. cbn.
  destruct Hcase as [[-> Hn]|Hss].
  - cbn. rewrite Hf. cbn. rewrite Hv. cbn.
    destruct (set_next_is_Some t r c v) as [t' Ht']; [apply Hb| |done|].
    { apply zget_Some_range in Hr. pose proof (bi_cap _ _ _ Hb). lia. }
    rewrite Ht'. cbn.
    destruct (step_copy _ _ _ _ _ _ _ _ Hb Hr Hc HC Hn Hvs Hw Ht') as [Hb' Hfl].
    exists t', [], q. rewrite (app_nil_r A). split_and!; try done.
    + by rewrite Hfl.
    + eapply set_next_static; [apply Hb|done].
    + intros l Hq _ _. by rewrite app_nil_r.
    + by intros k ?%not_elem_of_nil.
  - destruct (Z.eqb_spec s ACSM_FAIL_STATE) as [->|_];
      [by destruct (state_not_fail _ _ Hss)|]. cbn.
    rewrite Hf. cbn. rewrite Hv. cbn. rewrite Hvf. cbn.
    destruct (set_fail_is_Some t s v) as [t' Ht'].
    { apply zget_Some_range in Hss. pose proof (bi_cap _ _ _ Hb). lia. }
    rewrite Ht'. cbn.
    destruct (step_child _ _ _ _ _ _ _ _ _ Hb HrA Hr Hc HC Hss Hs Hvs Hw Ht')
      as (Hb' & HsA & Hs0 & Hfl).
    exists t', [s], (queue_add q s). split_and!; try done.
    + by rewrite Hfl.
    + eapply set_fail_static; [apply Hb|done].
    + intros l Hq _ Hle. cbn in Hle. apply queue_add_ok; [done|]. lia.
    + by intros k ->%list_elem_of_singleton.
Qed.

Lemma build_row_ok ix : NoDup ix → (∀ c, c ∈ ix → 0 <= c < 256) →
  ∀ t A C r w q l f,
  binv t A C → r ∈ A → state_of r w → (∀ c, c ∈ ix → ¬ C r c) →
  get_fail t r = Some f → (∀ c, c ∈ ix → C f c) →
  queue_ok q l → (∃ Dn, A = Dn ++ l) →
  ∃ t' K q', build_row ix r t q = Some (t', q') ∧
    binv t' (A ++ K) (λ s c, C s c ∨ (s = r ∧ c ∈ ix)) ∧ same_static t t' ∧
    queue_ok q' (l ++ K) ∧ (∀ k, k ∈ K → ∃ c, state_of k (w ++ [c])).
Proof using strs_nodup strs_root strs_closed strs_small.
  induction ix as [|c ix IH]; intros Hnd Hby t A C r w q l f Hb HrA Hr HC Hf HCf Hq [Dn HA].
  - exists t, [], q. rewrite (app_nil_r A), (app_nil_r l). split_and!; try done.
    + eapply binv_ext; [|done]. intros s c _. split; [by left|].
      intros [?|[_ ?%not_elem_of_nil]]; done.
    + by intros k ?%not_elem_of_nil.
  - apply NoDup_cons in Hnd as [Hci Hnd].
    destruct (build_row_step t A C r w c ix q f) as (t1 & K1 & q1 & -> & Hb1 & Hf1 & St1 & Hq1 & HK1);
      [done..|apply Hby; by left|apply HC; by left|done|apply HCf; by left|].
    assert (Hlen : zlen (A ++ K1) <= zlen strs).
    { apply states_bound; [apply Hb1|]. intros s. by eapply binv_dom. }
    destruct (IH Hnd (λ c Hc, Hby c (list_elem_of_further _ _ _ Hc)) t1 (A ++ K1)
      (add_edge C r c) r w q1 (l ++ K1) f) as (t2 & K2 & q2 & -> & Hb2 & St2 & Hq2 & HK2).
    + done.
    + apply elem_of_app. by left.
    + done.
    + intros c' Hc' [H|[_ ->]]; [|done]. eapply HC; [by right|done].
    + done.
    + intros c' Hc'. left. apply HCf. by right.
    + apply Hq1; [done|apply Hb1|]. subst A. rewrite !length_app in Hlen. lia.
    + exists Dn. subst A. by rewrite app_assoc.
    + exists t2, (K1 ++ K2), q2. rewrite !app_assoc. split_and!; try done.
      * eapply binv_ext; [|done]. intros s c' Hc'. unfold add_edge. rewrite elem_of_cons. naive_solver.
      * by eapply same_static_trans.
      * intros k [Hk|Hk]%elem_of_app; [exists c; by apply HK1|by apply HK2].
Qed.

(** ** The queue loop *)

Definition closer (a b : Z) : Prop :=
  ∃ wa wb, state_of a wa ∧ state_of b wb ∧ (length wa <= length wb <= S (length wa))%nat.

(** The transitions of the root and of the dequeued states are final. *)
Definition finished (Dn : list Z) : Z → Z → Prop := λ s _, s = 0 ∨ s ∈ Dn.

(** Breadth-first order: states shorter than everything queued are dequeued. *)
Lemma done_below t Dn Q n :
  binv t (Dn ++ Q) (finished Dn) →
  (∀ q w, q ∈ Q → state_of q w → (n <= length w)%nat) →
  ∀ w x, state_of x w → (length w < n)%nat → x = 0 ∨ x ∈ Dn.
Proof using strs_nodup strs_bytes strs_root strs_closed.
  intros Hb HQ. induction w as [|c w IH] using rev_ind; intros x Hx Hlt.
  - left. by eapply state_inj.
  - rewrite length_app in Hlt. cbn in Hlt.
    assert (Hc : 0 <= c < 256).
    { apply state_elem, strs_bytes, Forall_app in Hx as [_ Hc]. by inversion Hc. }
    pose proof (strs_closed _ _ (state_elem _ _ Hx)) as [x' Hx']%elem_of_strs.
    pose proof (bi_reach _ _ _ Hb x' w c x (IH _ Hx' ltac:(lia)) Hc Hx' Hx)
      as [?|Hq]%elem_of_app; [by right|].
    pose proof (HQ _ _ Hq Hx) as Hle. rewrite length_app in Hle. cbn in Hle. lia.
Qed.

Lemma sorted_children w K :
  (∀ k, k ∈ K → ∃ c, state_of k (w ++ [c])) → StronglySorted closer K.
Proof.
  induction K as [|k K IH]; intros HK; constructor.
  - apply IH. intros. apply HK. by right.
  - apply Forall_forall. intros k' Hk'.
    destruct (HK k) as [c Hc]; [by left|]. destruct (HK k') as [c' Hc']; [by right|].
    exists (w ++ [c]), (w ++ [c']). rewrite !length_app. cbn. split_and!; [done|done|lia|lia].
Qed.

Lemma sorted_app_children r w Q K :
  state_of r w → StronglySorted closer (r :: Q) →
  (∀ k, k ∈ K → ∃ c, state_of k (w ++ [c])) → StronglySorted closer (Q ++ K).
Proof.
  intros Hr [HQ HrQ]%StronglySorted_inv HK.
  induction HQ as [|a Q HQ IH HaQ]; [by eapply sorted_children|].
  apply Forall_cons in HrQ as [Hra HrQ].
  constructor; [by apply IH|]. apply Forall_app. split; [done|].
  apply Forall_forall. intros k Hk. destruct (HK _ Hk) as [c Hc].
  destruct Hra as (wr & wa & Hwr & Hwa & Hl). rewrite Hr in Hwr. injection Hwr as <-.
  exists wa, (w ++ [c]). rewrite length_app. cbn. split_and!; [done|done|lia|lia].
Qed.

Lemma build_loop_ok fuel : ∀ t Dn Q q,
  binv t (Dn ++ Q) (finished Dn) → StronglySorted closer Q → queue_ok q Q →
  zlen strs <= zlen Dn + Z.of_nat fuel →
  ∃ t' Dn', build_loop fuel t q = Some t' ∧ binv t' Dn' (finished Dn') ∧ same_static t t'.
Proof using strs_nodup strs_bytes strs_root strs_closed strs_small.
  induction fuel as [|fuel IH]; intros t Dn Q q Hb HQ Hq Hfuel;
    (destruct Q as [|r Q];
      [exists t, Dn; destruct Hq as (Hn & Hc & _); cbn in *; unfold queue_count;
       rewrite Hc; cbn; rewrite app_nil_r in Hb; done|]).
  - exfalso. pose proof (states_bound strs (Dn ++ r :: Q) (bi_nodup _ _ _ Hb)
      (λ s, binv_dom _ _ _ s Hb)) as Hle. rewrite length_app in Hle. cbn in Hle. lia.
  - destruct (queue_remove_ok _ _ _ Hq) as (q1 & Hrem & Hq1 & Hpos).
    cbn [build_loop]. rewrite (proj2 (Z.ltb_lt _ _) Hpos), Hrem.
    assert (HrA : r ∈ Dn ++ r :: Q) by set_solver.
    destruct (binv_dom _ _ _ _ Hb HrA) as [w Hr].
    pose proof (binv_nonroot _ _ _ _ _ Hb HrA Hr) as Hw.
    destruct (bi_fail _ _ _ Hb _ _ HrA Hr) as (f & Hf & Hfs).
    assert (HrD : r ∉ Dn).
    { intros ?. pose proof (bi_nodup _ _ _ Hb) as (_ & Hd & _)%NoDup_app. eapply Hd; [done|by left]. }
    assert (HfD : f = 0 ∨ f ∈ Dn).
    { eapply (done_below _ _ _ (length w) Hb); [| |by apply lsuf_tail_length]; [|exact Hfs].
      intros x wx [->|Hx]%elem_of_cons Hwx; [simplify_eq; lia|].
      apply StronglySorted_inv in HQ as [_ HrQ]. rewrite Forall_forall in HrQ.
      destruct (HrQ _ Hx) as (?&?&?&?&?). simplify_eq. lia. }
    destruct (build_row_ok (seqZ 0 ALPHABET_SIZE) (NoDup_seqZ _ _)) with
      (t := t) (A := Dn ++ r :: Q) (C := finished Dn) (r := r) (w := w) (q := q1) (l := Q) (f := f)
      as (t1 & K & q2 & Hrow & Hb1 & St1 & Hq2 & HK); try done.
    { intros c Hc%elem_of_seqZ. unfold ALPHABET_SIZE in Hc. lia. }
    { intros c _ [->|?]; [|done]. rewrite strs_root in Hr. by simplify_eq. }
    { exists (Dn ++ [r]). by rewrite <- app_assoc. }
    rewrite Hrow. cbn.
    destruct (IH t1 (Dn ++ [r]) (Q ++ K) q2) as (t2 & Dn2 & H2 & Hb2 & St2).
    + replace ((Dn ++ [r]) ++ Q ++ K) with ((Dn ++ r :: Q) ++ K)
        by (rewrite <- !app_assoc; done).
      eapply binv_ext; [|done]. intros s c Hc. unfold finished. rewrite elem_of_app, elem_of_seqZ.
      unfold ALPHABET_SIZE. rewrite list_elem_of_singleton. split; intuition lia.
    + exact (sorted_app_children r w Q K Hr HQ HK).
    + done.
    + rewrite length_app. cbn. lia.
    + exists t2, Dn2. split_and!; [done|done|by eapply same_static_trans].
Qed.

(** ** The root *)

Lemma lsuf_single_out c : [c] ∉ strs → lsuf strs [c] = [].
Proof using strs_root.
  intros. rewrite lsuf_cons_notin by done. apply lsuf_id, strs_nil.
Qed.

Lemma close_root_ok ix : NoDup ix → (∀ c, c ∈ ix → 0 <= c < 256) → ∀ t,
  rows_ok t → zlen strs <= zlen t → (∀ c, c ∈ ix → trie_edge strs t 0 [] c) →
  ∃ t', close_root ix t = Some t' ∧ rows_ok t' ∧ same_static t t' ∧
    (∀ s, get_fail t' s = get_fail t s) ∧
    (∀ s c, s ≠ 0 ∨ c ∉ ix → get_next t' s c = get_next t s c) ∧
    ∀ c, c ∈ ix → complete_edge t' 0 [] c.
Proof using strs_root strs_small.
  induction ix as [|c ix IH]; intros Hnd Hby t Hok Hcap Hed; cbn [close_root].
  { exists t. split_and!; try done. by intros c ?%not_elem_of_nil. }
  apply NoDup_cons in Hnd as [Hci Hnd].
  destruct (Hed c) as (v & Hv & Hcase); [by left|]. rewrite Hv. cbn [mbind option_bind].
  assert (Hc : 0 <= c < 256) by (apply Hby; by left).
  assert (∃ t1, (if v =? ACSM_FAIL_STATE then set_next t 0 c 0 else Some t) = Some t1 ∧
    rows_ok t1 ∧ same_static t t1 ∧ (∀ s, get_fail t1 s = get_fail t s) ∧
    (∀ s c', s ≠ 0 ∨ c' ≠ c → get_next t1 s c' = get_next t s c') ∧
    complete_edge t1 0 [] c) as (t1 & -> & R1 & S1 & F1 & N1 & C1).
  { destruct Hcase as [[-> Hn]|Hs].
    - pose proof (zget_Some_range _ _ _ strs_root).
      destruct (set_next_is_Some t 0 c 0) as [t1 Ht1]; [done|lia|done|].
      destruct (set_next_spec _ _ _ _ _ Ht1 Hok) as (L & R & N & F & M & G).
      exists t1. split_and!; try done.
      + intros s c' Hne. rewrite N, decide_False by naive_solver. done.
      + exists 0. rewrite N, decide_True by done. split; [done|].
        cbn [app]. by rewrite lsuf_single_out.
    - pose proof (state_not_fail _ _ Hs) as Hne. apply Z.eqb_neq in Hne. rewrite Hne.
      exists t. split_and!; try done. exists v. split; [done|].
      by rewrite lsuf_id by by eapply state_elem. }
  cbn [mbind option_bind]. destruct (IH Hnd (λ c Hc, Hby c (list_elem_of_further _ _ _ Hc)) t1 R1)
    as (t2 & H2 & R2 & S2 & F2 & N2 & C2).
  { by destruct S1 as [-> _]. }
  { intros c' Hc'. unfold trie_edge. rewrite N1 by (right; by intros ->). apply Hed. by right. }
  exists t2. split_and!; [done|done|by eapply same_static_trans|..].
  - intros s. by rewrite F2.
  - intros s c' Hne. rewrite not_elem_of_cons in Hne.
    rewrite N2, N1 by naive_solver. done.
  - intros c' [->|Hc']%elem_of_cons; [|by apply C2].
    unfold complete_edge. rewrite N2 by by right. exact C1.
Qed.

Lemma queue_depth1_ok ix : NoDup ix → ∀ t q l,
  rows_ok t → zlen strs <= zlen t → (∀ c, c ∈ ix → complete_edge t 0 [] c) →
  (∀ s, 0 <= s < zlen t → get_fail t s = Some 0) →
  queue_ok q l → zlen l + zlen ix <= 2147483647 →
  ∃ t' K q', queue_depth1 ix t q = Some (t', q') ∧ queue_ok q' (l ++ K) ∧
    rows_ok t' ∧ same_static t t' ∧ (∀ s c, get_next t' s c = get_next t s c) ∧
    (∀ s, get_fail t' s = get_fail t s) ∧ NoDup K ∧
    ∀ k, k ∈ K ↔ ∃ c, c ∈ ix ∧ state_of k [c].
Proof using strs_nodup strs_bytes strs_root strs_closed strs_small.
  induction ix as [|c ix IH]; intros Hnd t q l Hok Hcap Hed Hf Hq Hl; cbn [queue_depth1].
  { exists t, [], q. rewrite (app_nil_r l). split_and!; try done; try apply NoDup_nil_2.
    set_solver. }
  apply NoDup_cons in Hnd as [Hci Hnd]. cbn [length] in Hl.
  destruct (Hed c) as (v & Hv & Hs); [by left|]. rewrite Hv. cbn [mbind option_bind].
  destruct (Z.eqb_spec v 0) as [->|Hv0].
  - destruct (IH Hnd t q l) as (t' & K & q' & H1 & H2 & H3 & H4 & H5 & H6 & H7 & H8); try done.
    { intros. apply Hed. by right. } { lia. }
    exists t', K, q'. split_and!; try done. intros k. rewrite H8. setoid_rewrite elem_of_cons.
    split; [naive_solver|]. intros (c' & [->|?] & Hk); [|eauto].
    cbn [app] in Hs. rewrite lsuf_id in Hs by by eapply state_elem.
    by rewrite strs_root in Hs.
  - assert (Hsc : state_of v [c]).
    { cbn [app] in Hs. destruct (decide ([c] ∈ strs)) as [Hd|Hd].
      - by rewrite lsuf_id in Hs.
      - rewrite lsuf_single_out in Hs by done. destruct Hv0. by eapply state_inj. }
    pose proof (zget_Some_range _ _ _ Hsc).
    destruct (set_fail_is_Some t v 0) as [t1 Ht1]; [lia|]. rewrite Ht1. cbn [mbind option_bind].
    destruct (set_fail_spec _ _ _ _ Ht1 Hok) as (L & R & N & F & M & G).
    assert (F' : ∀ s, get_fail t1 s = get_fail t s).
    { intros s. rewrite F. case_decide; [|done]. subst. by rewrite Hf by lia. }
    destruct (IH Hnd t1 (queue_add q v) (l ++ [v]))
      as (t' & K & q' & H1 & H2 & H3 & H4 & H5 & H6 & H7 & H8).
    { done. } { lia. }
    { intros c' Hc'. unfold complete_edge. rewrite N. apply Hed. by right. }
    { intros s Hss. rewrite F'. apply Hf. lia. }
    { apply queue_add_ok; [done|lia]. } { rewrite length_app. cbn. lia. }
    exists t', (v :: K), q'. rewrite <- app_assoc in H2. cbn in H2. split_and!; try done.
    + by eapply same_static_trans; [|done].
    + intros. by rewrite H5, N.
    + intros. by rewrite H6, F'.
    + apply NoDup_cons. split; [|done]. rewrite H8. intros (c' & Hc' & Hk).
      rewrite Hsc in Hk. by simplify_eq.
    + intros k. rewrite elem_of_cons, H8. setoid_rewrite elem_of_cons. split.
      * intros [->|(c' & ? & ?)]; eauto.
      * intros (c' & [->|?] & Hk); [|eauto]. left. by eapply state_inj.
Qed.

(** The table after the root has been closed and its children queued. *)
Lemma binv_start t K :
  rows_ok t → zlen strs <= zlen t →
  (∀ s w c, state_of s w → 0 <= c < 256 → s ≠ 0 → trie_edge strs t s w c) →
  (∀ c, 0 <= c < 256 → complete_edge t 0 [] c) →
  (∀ s, 0 <= s < zlen t → get_fail t s = Some 0) →
  NoDup K → (∀ k, k ∈ K ↔ ∃ c, 0 <= c < 256 ∧ state_of k [c]) →
  binv t ([] ++ K) (finished []).
Proof using strs_nodup strs_root.
  intros Hok Hcap Hed Hroot Hf Hnd HK. unfold finished. constructor; try done.
  - intros s w c Hs Hc [->|?%not_elem_of_nil]; [|done].
    rewrite strs_root in Hs. simplify_eq. by apply Hroot.
  - intros s w c Hs Hc Hn. apply Hed; [done..|]. intros ->. apply Hn. by left.
  - intros s w Hs Hw. cbn in Hs. apply HK in Hs as (c & Hc & Hs).
    pose proof (zget_Some_range _ _ _ Hs). simplify_eq.
    exists 0. split; [apply Hf; lia|].
    cbn [tail]. by rewrite lsuf_id by apply strs_nil.
  - apply Hf. pose proof (zget_Some_range _ _ _ strs_root). lia.
  - intros s w c s' [->|?%not_elem_of_nil] Hc Hw Hs'; [|done].
    rewrite strs_root in Hw. simplify_eq. cbn in *. apply HK. eauto.
  - intros s' Hs'. cbn in Hs'. apply HK in Hs' as (c & Hc & Hs').
    exists 0, [], c. split; [by left|]. done.
Qed.
End build.

(** ** The finished automaton *)

Record automaton (t : list ACSM_STATETABLE) (strs D : list (list Z)) : Prop := {
  au_root : strs.[0] = Some [];
  au_nodup : NoDup strs;
  au_closed : ∀ w c, w ++ [c] ∈ strs → w ∈ strs;
  au_cap : zlen strs <= zlen t;
  au_sub : ∀ w, w ∈ D → w ∈ strs;
  au_next : ∀ s w c, strs.[s] = Some w → 0 <= c < 256 → complete_edge strs t s w c;
  au_fail : ∀ s w, strs.[s] = Some w → s ≠ 0 → fail_ok strs t s w;
  au_fail0 : get_fail t 0 = Some 0;
  au_match : ∀ s w, strs.[s] = Some w →
    ∃ l, get_match t s = Some l ∧ (w ∈ D ↔ l ≠ []) ∧ Forall (λ m, pat_str m = w) l;
  au_solid : ∀ s w, strs.[s] = Some w → ascii_str w → get_flag t s = Some SOLID_STATE }.

Lemma elem_of_alphabet c : c ∈ seqZ 0 ALPHABET_SIZE ↔ 0 <= c < 256.
Proof. rewrite elem_of_seqZ. unfold ALPHABET_SIZE. lia. Qed.

(** Closing the root and building the automaton of a trie succeeds. *)
Lemma build_ok a strs D :
  trie_of a strs D → zlen (acsmStateTable a) <= 2147483647 →
  ∃ t a', close_root (seqZ 0 ALPHABET_SIZE) (acsmStateTable a) = Some t ∧
    Build_DFA (set_table a t) = Some a' ∧ automaton (acsmStateTable a') strs D ∧
    acsmPatterns a' = acsmPatterns a.
Proof.
  intros Ht Hsmall. pose proof (tr_num _ _ _ _ Ht) as Hnum. pose proof (tr_cap _ _ _ _ Ht) as Hcap.
  assert (Hss : zlen strs <= 2147483647) by lia.
  pose proof (tr_root _ _ _ _ Ht) as Hroot. pose proof (tr_nodup _ _ _ _ Ht) as Hnd.
  pose proof (tr_closed _ _ _ _ Ht) as Hcl. pose proof (tr_bytes _ _ _ _ Ht) as Hby.
  destruct (close_root_ok strs Hroot Hss (seqZ 0 ALPHABET_SIZE) (NoDup_seqZ _ _))
    with (t := acsmStateTable a) as (t0 & Hc0 & R0 & S0 & F0 & N0 & C0).
  { intros c. apply elem_of_alphabet. } { apply Ht. } { lia. }
  { intros c Hc%elem_of_alphabet. by apply Ht. }
  exists t0. rewrite Hc0. unfold Build_DFA. cbn [set_table acsmStateTable].
  destruct S0 as (L0 & M0 & G0).
  destruct (queue_depth1_ok strs Hnd Hby Hroot Hcl Hss (seqZ 0 ALPHABET_SIZE) (NoDup_seqZ _ _))
    with (t := t0) (q := queue_init) (l := @nil Z)
    as (t1 & K & q1 & H1 & Hq1 & R1 & S1 & N1 & F1 & NK & HK); try done.
  { lia. } { intros s Hs. rewrite F0. apply Ht. lia. }
  rewrite H1. cbn [mbind option_bind]. cbn [app] in Hq1.
  destruct S1 as (L1 & M1 & G1).
  destruct (build_loop_ok strs Hnd Hby Hroot Hcl Hss (S (length t1))) with
    (t := t1) (Dn := @nil Z) (Q := K) (q := q1) as (t2 & Dn & H2 & Hb2 & L2 & M2 & G2).
  { apply binv_start; try done.
    - lia.
    - intros s w c Hs Hc Hs0. unfold trie_edge. rewrite N1, N0 by by left. by apply Ht.
    - intros c Hc%elem_of_alphabet. unfold complete_edge. rewrite N1. by apply C0.
    - intros s Hs. rewrite F1, F0. apply Ht. lia.
    - intros k. rewrite HK. by setoid_rewrite elem_of_alphabet. }
  { eapply (sorted_children strs []). intros k (c & _ & Hc)%HK. eauto. }
  { done. } { cbn [length]. lia. }
  rewrite H2. cbn [mbind option_bind]. eexists. split; [done|]. split; [done|].
  cbn [set_table acsmStateTable acsmPatterns]. split; [|done].
  assert (Hall : ∀ s w, strs.[s] = Some w → s = 0 ∨ s ∈ Dn).
  { intros s w Hs. eapply (done_below strs Hnd Hby Hroot Hcl t2 Dn [] (S (length w))).
    - by rewrite app_nil_r.
    - by intros ?? ?%not_elem_of_nil.
    - done.
    - lia. }
  constructor; try done.
  - lia.
  - apply Ht.
  - intros s w c Hs Hc. eapply (bi_done _ _ _ _ Hb2); [done|done|]. by eapply Hall.
  - intros s w Hs H0. eapply (bi_fail _ _ _ _ Hb2); [|done]. by destruct (Hall _ _ Hs).
  - apply Hb2.
  - intros s w Hs. rewrite M2, M1, M0. by apply Ht.
  - intros s w Hs Ha. rewrite G2, G1, G0. by eapply Ht.
Qed.

(** ** Compilation *)

Lemma count_states_acc ps acc :
  Forall pat_ok ps → 0 <= acc → acc + total_len ps < 4294967296 →
  fold_left (λ acc p, u32 (acc + n_cap p)) ps acc = acc + total_len ps.
Proof.
  intros Hps. revert acc. induction Hps as [|p ps Hp Hps IH]; intros acc Hacc Hlt.
  { cbn. lia. }
  change (total_len (p :: ps)) with (n_cap p + total_len ps) in *.
  apply pat_ok_nonneg in Hp. pose proof (total_len_nonneg _ Hps).
  cbn [fold_left]. rewrite u32_small by lia. rewrite IH by lia. lia.
Qed.

Lemma count_states_ok ps :
  Forall pat_ok ps → 1 + total_len ps < 4294967296 → count_states ps = 1 + total_len ps.
Proof. intros. apply count_states_acc; [done|lia|lia]. Qed.

Lemma trie_initial (n : nat) :
  Z.of_nat (S n) <= ACSM_FAIL_STATE → trie (replicate (S n) fresh_state) 0 [[]] [].
Proof.
  intros Hn.
  assert (Hget : ∀ s, 0 <= s < Z.of_nat (S n) → (replicate (S n) fresh_state).[s] = Some fresh_state)
    by (intros; by apply zget_replicate).
  assert (Hst : ∀ s w, [[]].[s] = Some w → s = 0 ∧ w = @nil Z).
  { intros s w H. pose proof (zget_Some_range _ _ _ H) as Hr. cbn in Hr.
    assert (s = 0) as -> by lia. change (Some (@nil Z) = Some w) in H. by simplify_eq. }
  constructor.
  - done.
  - rewrite length_replicate. lia.
  - intros s row Hs. pose proof (zget_Some_range _ _ _ Hs) as Hr.
    rewrite length_replicate in Hr. rewrite Hget in Hs by done. by simplify_eq.
  - apply NoDup_singleton.
  - intros w ->%list_elem_of_singleton. constructor.
  - done.
  - intros w c Hw%list_elem_of_singleton. by destruct w.
  - intros s w c [-> ->]%Hst Hc. exists ACSM_FAIL_STATE.
    destruct (fresh_views (replicate (S n) fresh_state) 0) as (HN & _); [apply Hget; lia|].
    split; [by apply HN|]. left. split; [done|]. by intros ?%list_elem_of_singleton.
  - intros s w [-> ->]%Hst. exists []. split_and!; [done| |done]. split; [by intros ?%not_elem_of_nil|done].
  - by intros w ?%not_elem_of_nil.
  - intros s Hs. rewrite length_replicate in Hs. apply Hget. lia.
  - intros s Hs. rewrite length_replicate in Hs. by apply fresh_views, Hget.
  - intros s w [-> ->]%Hst _. by apply fresh_views, Hget.
Qed.

(** A table is allocated in full exactly up to [MAX_STATES] states. *)
Lemma table_fits n : 0 <= n <= MAX_STATES → (u32 (state_size * n) <? state_size * n) = false.
Proof. change MAX_STATES with 4129776. intros Hn. unfold state_size. rewrite u32_small by lia. apply Z.ltb_irrefl. Qed.
Lemma table_cut n : MAX_STATES < n → (u32 (state_size * n) <? state_size * n) = true.
Proof.
  change MAX_STATES with 4129776. intros Hn. unfold state_size, u32. apply Z.ltb_lt.
  pose proof (Z.mod_pos_bound (1040 * n) 4294967296 ltac:(lia)). lia.
Qed.

Lemma acsmCompile_ok a :
  Forall pat_ok (acsmPatterns a) → 1 + total_len (acsmPatterns a) <= MAX_STATES →
  ∃ a' strs, acsmCompile_cap a = Some a' ∧ acsmPatterns a' = acsmPatterns a ∧
    automaton (acsmStateTable a') strs (rev (pat_str <$> acsmPatterns a)).
Proof.
  intros Hps Hsmall. pose proof (total_len_nonneg _ Hps) as Hpos. change MAX_STATES with 4129776 in Hsmall.
  unfold acsmCompile_cap. rewrite count_states_ok by (done || lia). rewrite table_fits by (change MAX_STATES with 4129776; lia).
  replace (Z.to_nat (1 + total_len (acsmPatterns a)))
    with (S (Z.to_nat (total_len (acsmPatterns a)))) by lia.
  set (n := Z.to_nat (total_len (acsmPatterns a))).
  set (a0 := mkAcsm _ _ _ _).
  destruct (add_all_ok (acsmPatterns a) Hps a0 [[]] []) as (a1 & strs & H1 & Ht1 & L1 & P1).
  { apply trie_initial. unfold ACSM_FAIL_STATE. lia. }
  { cbn [a0 acsmNumState acsmStateTable]. rewrite length_replicate. lia. }
  rewrite H1. cbn [mbind option_bind].
  destruct (build_ok a1 strs _ Ht1) as (t & a2 & Hc & Hb & Hau & P2).
  { rewrite L1. cbn [a0 acsmStateTable]. rewrite length_replicate. lia. }
  rewrite Hc. cbn [mbind option_bind]. rewrite Hb. exists a2, strs.
  rewrite app_nil_r in Hau. split_and!; [done|by rewrite P2, P1|done].
Qed.
