(* ===== verification/AcsmSearch.v ===== *)
(** Correctness of the URL search: on ASCII text the automaton reports the flag
    of the first keyword a left-to-right scan meets, and no text makes it access
    memory outside its tables. *)
From S2P Require Import Prelude CString AcsmSpec Acsm AcsmTrie AcsmBuild.
Import Acsm.

(** The flag [PrintMatch] returns for a string. *)
Fixpoint flag_of (ps : list ACSM_PATTERN) (w : list Z) : Z :=
  match ps with
  | [] => 0
  | p :: ps' => if decide (pat_str p = w) then i32 (urlflag p) else flag_of ps' w
  end.

(** Keyword lists that differ only in their match counters. *)
Definition same_pat (p q : ACSM_PATTERN) : Prop :=
  patrn_cap p = patrn_cap q ∧ n_cap p = n_cap q ∧ urlflag p = urlflag q.

Lemma same_pat_refl p : same_pat p p.
Proof. done. Qed.

#[export] Instance same_pat_equiv : Equivalence same_pat.
Proof.
  split; [done|..].
  - by intros p q (?&?&?).
  - intros p q r (?&?&?) (?&?&?). unfold same_pat. split_and!; congruence.
Qed.

(** [flag_of] does not depend on the counters. *)
#[export] Instance flag_of_proper : Proper (Forall2 same_pat ==> eq ==> eq) flag_of.
Proof.
  intros ps qs Hpq w ? <-. induction Hpq as [|p q ps qs (Hc & _ & Hu) _ IH]; [done|].
  cbn. unfold pat_str. rewrite Hc, Hu. by case_decide.
Qed.

Lemma PrintMatch_spec ps nf m :
  ∃ ps' nf', PrintMatch ps nf m = (ps', nf', flag_of ps (pat_str m)) ∧ Forall2 same_pat ps' ps.
Proof.
  induction ps as [|p ps (ps' & nf' & IH & Hs)]; cbn; [eauto|].
  destruct (Z.eqb_spec (strcmp (pat_str p) (pat_str m)) 0) as [He|Hne].
  - apply strcmp_eq in He. rewrite decide_True by done.
    eexists _, _. split; [done|]. by constructor.
  - rewrite decide_False by (by rewrite <- strcmp_eq). rewrite IH.
    eexists _, _. split; [done|]. by constructor.
Qed.

Lemma print_match_spec st m :
  ∃ st', print_match st m = (st', flag_of (s_pats st) (pat_str m)) ∧
         Forall2 same_pat (s_pats st') (s_pats st).
Proof.
  unfold print_match. destruct (PrintMatch_spec (s_pats st) (s_nfound st) m) as (ps & nf & -> & H).
  eauto.
Qed.

Lemma print_match_twice st m :
  ∃ st', (let '(st1, _) := print_match st m in print_match st1 m)
         = (st', flag_of (s_pats st) (pat_str m)) ∧ Forall2 same_pat (s_pats st') (s_pats st).
Proof.
  destruct (print_match_spec st m) as (st1 & -> & H1).
  destruct (print_match_spec st1 m) as (st2 & -> & H2).
  exists st2. rewrite H1. split; [done|]. by etrans.
Qed.

(** A state's string is shorter than the number of states: its prefixes are
    states too. This bounds the failure chains. *)
Lemma state_depth (strs : list (list Z)) w :
  (∀ w c, w ++ [c] ∈ strs → w ∈ strs) → w ∈ strs → (length w < length strs)%nat.
Proof.
  intros Hcl Hw.
  assert (Hpre : ∀ k, take (length w - k) w ∈ strs).
  { induction k as [|k IH].
    - by rewrite Nat.sub_0_r, firstn_all.
    - destruct (decide (k < length w)%nat) as [Hlt|]; [|by replace (length w - S k)%nat with (length w - k)%nat by lia].
      replace (length w - k)%nat with (S (length w - S k)) in IH by lia.
      destruct (lookup_lt_is_Some_2 w (length w - S k)) as [c Hc]; [lia|].
      rewrite (take_S_r _ _ _ Hc) in IH. by eapply Hcl. }
  assert ((λ i, take i w) <$> seq 0 (S (length w)) ⊆+ strs) as Hsub%submseteq_length.
  { apply NoDup_submseteq.
    - apply NoDup_fmap_2_strong; [|apply NoDup_seq].
      intros i j Hi%elem_of_seq Hj%elem_of_seq He. apply (f_equal length) in He.
      rewrite !length_take in He. lia.
    - intros x (i & -> & Hi%elem_of_seq)%list_elem_of_fmap.
      replace i with (length w - (length w - i))%nat by lia. apply Hpre. }
  rewrite length_fmap, length_seq in Hsub. lia.
Qed.

Section search.
Variables (t : list ACSM_STATETABLE) (strs D : list (list Z)).
Hypothesis Hau : automaton t strs D.

Lemma au_nil : [] ∈ strs.
Proof using Hau. apply elem_of_strs. exists 0. apply Hau. Qed.

Lemma au_get s w : strs.[s] = Some w → ∃ row, t.[s] = Some row.
Proof using Hau.
intros Hs%zget_Some_range. apply zget_is_Some. pose proof (au_cap _ _ _ Hau). lia.
Qed.

Lemma au_nonroot s w : strs.[s] = Some w → s ≠ 0 → w ≠ [].
Proof using Hau.
intros Hs Hne ->. apply Hne. eapply strs_inj; [apply Hau|done|apply Hau].
Qed.

Lemma au_row s w row :
strs.[s] = Some w → t.[s] = Some row →
(w ∈ D ↔ MatchList row ≠ []) ∧ Forall (λ m, pat_str m = w) (MatchList row) ∧
(ascii_str w → flag row = SOLID_STATE) ∧
∃ f, FailState row = f ∧ strs.[f] = Some (lsuf strs (tail w)).
Proof using Hau.
intros Hs Hrow. destruct (au_match _ _ _ Hau _ _ Hs) as (l & Hl & Hin & Hall).
unfold get_match in Hl. rewrite Hrow in Hl. cbn in Hl. simplify_eq.
split_and!; [done|done|..].
- intros Ha. pose proof (au_solid _ _ _ Hau _ _ Hs Ha) as Hf. unfold get_flag in Hf.
  rewrite Hrow in Hf. cbn in Hf. congruence.
- destruct (decide (s = 0)) as [->|Hne].
  + pose proof (au_fail0 _ _ _ Hau) as Hf. unfold get_fail in Hf. rewrite Hrow in Hf.
    cbn in Hf. pose proof (au_root _ _ _ Hau) as Hr. rewrite Hr in Hs. simplify_eq.
    exists 0. split; [done|]. cbn [tail]. by rewrite lsuf_id by apply au_nil.
  + destruct (au_fail _ _ _ Hau _ _ Hs Hne) as (f & Hf & Hfs). unfold get_fail in Hf.
    rewrite Hrow in Hf. cbn in Hf. simplify_eq. eauto.
Qed.

(** Failure chains end within the fuel, and what they find is a keyword. *)
Lemma fail_chain_total fuel : ∀ s w,
strs.[s] = Some w → (length w <= fuel)%nat →
∃ r, fail_chain fuel t s = Some r ∧ ∀ m, r = Some m → pat_str m ∈ D.
Proof using Hau.
induction fuel as [|fuel IH]; intros s w Hs Hle; cbn;
  (destruct (Z.eqb_spec s 0) as [|Hne]; [by exists None|]);
  pose proof (au_nonroot _ _ Hs Hne) as Hw.
{ by destruct w; cbn in Hle; [|lia]. }
destruct (au_get _ _ Hs) as [row Hrow]. rewrite Hrow. cbn [mbind option_bind].
destruct (au_row _ _ _ Hs Hrow) as (Hin & Hall & _ & f & -> & Hf).
pose proof (lsuf_tail_length strs w Hw) as Hlt.
destruct (MatchList row) as [|m l] eqn:Hm; [eapply IH; [done|lia]|].
destruct (flag row =? SOLID_STATE); [|eapply IH; [done|lia]].
exists (Some m). split; [done|]. intros ? [= <-].
apply Forall_cons in Hall as [-> _]. by apply Hin.
Qed.

Lemma ascii_suffix x w : x `suffix_of` w → ascii_str w → ascii_str x.
Proof. intros [k ->] Ha. by apply Forall_app in Ha as [_ ?]. Qed.

Lemma ascii_lsuf w : ascii_str w → ascii_str (lsuf strs w).
Proof. apply ascii_suffix, lsuf_suffix. Qed.

Lemma ascii_tail w : ascii_str w → ascii_str (tail w).
Proof. destruct w; [done|]. by intros [_ ?]%Forall_cons. Qed.

Section ascii.
Hypothesis D_nil : [] ∉ D.

Lemma fail_chain_ascii fuel : ∀ s w,
  strs.[s] = Some w → ascii_str w → (length w <= fuel)%nat →
  ∃ r, fail_chain fuel t s = Some r ∧ pat_str <$> r = lpat D w.
Proof using Hau D_nil.
  induction fuel as [|fuel IH]; intros s w Hs Ha Hle; cbn;
    (destruct (Z.eqb_spec s 0) as [->|Hne];
      [exists None; split; [done|]; rewrite (au_root _ _ _ Hau) in Hs; simplify_eq;
       cbn; by case_decide|]);
    pose proof (au_nonroot _ _ Hs Hne) as Hw.
  { by destruct w; cbn in Hle; [|lia]. }
  destruct (au_get _ _ Hs) as [row Hrow]. rewrite Hrow. cbn [mbind option_bind].
  destruct (au_row _ _ _ Hs Hrow) as (Hin & Hall & Hsol & f & -> & Hf).
  pose proof (lsuf_tail_length strs w Hw) as Hlt.
  destruct (MatchList row) as [|m l] eqn:Hm.
  - destruct (IH f _ Hf (ascii_lsuf _ (ascii_tail _ Ha)) ltac:(lia)) as (r & -> & Hr). exists r. split; [done|].
    rewrite Hr, lpat_lsuf; [|apply au_nil|apply Hau].
    destruct w as [|x w]; [done|]. cbn. rewrite decide_False; [done|].
    intros Hd. by apply Hin in Hd.
  - rewrite Hsol by done. cbn.
    exists (Some m). split; [done|]. apply Forall_cons in Hall as [Hm' _].
    cbn. rewrite Hm'. destruct w; cbn; (rewrite decide_True by by apply Hin); done.
Qed.

(** The search loop from a state that stands for what has been read. *)
Lemma search_loop_ascii T : Forall (λ c, 0 < c < 128) T → ∀ st state seen,
  strs.[state] = Some (lsuf strs seen) → ascii_str seen →
  ∃ st', search_loop t st state T =
    Some (st', match first_match D seen T with
               | Some p => flag_of (s_pats st) p | None => 0 end).
Proof using Hau D_nil.
  induction 1 as [|c T Hc HT IH]; intros st state seen Hs Ha; cbn [search_loop first_match].
  { eauto. }
  assert ((c =? 0) = false) as -> by lia. assert ((c <? 128) = true) as -> by lia.
  destruct (au_next _ _ _ Hau _ _ c Hs) as (v & Hv & Hvs); [lia|]. rewrite Hv.
  cbn [mbind option_bind].
  assert (Ha' : ascii_str (seen ++ [c])).
  { apply Forall_app. split; [done|]. apply Forall_singleton. lia. }
  rewrite <- lsuf_snoc in Hvs by (apply au_nil || apply Hau).
  destruct (au_get _ _ Hvs) as [row Hrow]. rewrite Hrow. cbn [mbind option_bind].
  destruct (au_row _ _ _ Hvs Hrow) as (Hin & Hall & _ & f & -> & Hf).
  assert (Hlp : lpat D (lsuf strs (seen ++ [c])) = lpat D (seen ++ [c]))
    by (apply lpat_lsuf; [apply au_nil|apply Hau]).
  rewrite <- Hlp. destruct (MatchList row) as [|m l] eqn:Hm.
  - assert (Hwn : lsuf strs (seen ++ [c]) ∉ D) by (intros Hd; by apply Hin in Hd).
    destruct (fail_chain_ascii (length t) _ _ Hf) as (r & -> & Hr).
    { by apply ascii_lsuf, ascii_tail, ascii_lsuf. }
    { pose proof (state_depth strs _ (au_closed _ _ _ Hau) (lsuf_in strs au_nil
        (tail (lsuf strs (seen ++ [c]))))). pose proof (au_cap _ _ _ Hau). lia. }
    cbn [mbind option_bind].
    rewrite lpat_lsuf in Hr by (apply au_nil || apply Hau).
    assert (Hlt : lpat D (lsuf strs (seen ++ [c])) = lpat D (tail (lsuf strs (seen ++ [c])))).
    { destruct (lsuf strs (seen ++ [c])); cbn; by rewrite !decide_False by done. }
    rewrite Hlt, <- Hr. destruct r as [m|]; cbn [fmap option_fmap option_map].
    + destruct (print_match_spec st m) as (st' & -> & _). eauto.
    + by apply IH.
  - apply Forall_cons in Hall as [Hm' _].
    assert (Hd : lsuf strs (seen ++ [c]) ∈ D) by by apply Hin.
    assert (lpat D (lsuf strs (seen ++ [c])) = Some (pat_str m)) as ->.
    { rewrite Hm'. destruct (lsuf strs (seen ++ [c])); cbn; by rewrite decide_True. }
    destruct (print_match_twice st m) as (st' & Hpm & _). exists st'.
    destruct (print_match st m) as [st1 r1]. by rewrite Hpm.
Qed.
End ascii.
End search.

(** ** Arbitrary bytes: the search always ends inside its tables *)

Section total.
Variables (t : list ACSM_STATETABLE) (strs D : list (list Z)) (pats : list ACSM_PATTERN).
Hypothesis Hau : automaton t strs D.
Hypothesis Hpats : D ≠ [] → pats ≠ [].

Definition pats_ok (st : search_state) : Prop := Forall2 same_pat (s_pats st) pats.

Lemma print_match_pats st m : pats_ok st → pats_ok (print_match st m).1.
Proof.
intros H. destruct (print_match_spec st m) as (st' & -> & Hs). cbn. unfold pats_ok. by etrans.
Qed.

Lemma pats_head st : D ≠ [] → pats_ok st → is_Some (head (s_pats st)).
Proof using Hpats.
intros HD H. apply Hpats in HD. destruct H; [done|]. by eexists.
Qed.

Lemma match_until_found_total ms : D ≠ [] → ∀ st,
pats_ok st → ∃ st' r, match_until_found ms st = Some (st', r) ∧ pats_ok st'.
Proof using Hpats.
intros HD. induction ms as [|m ms IH]; intros st Hst; cbn; [eauto|].
pose proof (print_match_pats st m Hst) as Hst'. destruct (print_match st m) as [st' r].
cbn in Hst'. destruct (negb _); [|by apply IH].
destruct (pats_head st' HD Hst') as [p ->]. cbn. eauto.
Qed.

Lemma fail_chain_state s w :
strs.[s] = Some w → ∃ r, fail_chain (length t) t s = Some r ∧ ∀ m, r = Some m → pat_str m ∈ D.
Proof using Hau.
intros Hs. eapply fail_chain_total; [done|done|].
pose proof (state_depth strs w (au_closed _ _ _ Hau)
              (proj2 (elem_of_strs _ _) (ex_intro _ s Hs))).
pose proof (au_cap _ _ _ Hau). lia.
Qed.

(** The accepting step for a byte of 128 or more, on any state. *)
Lemma high_step_total st (b : bool) s w row :
pats_ok st → strs.[s] = Some w → t.[s] = Some row →
∃ st' r, (if b then match_until_found (MatchList row) st else Some (st, None)) = Some (st', r)
         ∧ pats_ok st'.
Proof using Hau Hpats.
intros Hst Hs Hrow. destruct b; [|eauto].
destruct (au_row _ _ _ Hau _ _ _ Hs Hrow) as (Hin & _ & _ & _).
destruct (MatchList row) as [|m l] eqn:Hm; [cbn; eauto|].
apply match_until_found_total; [|done]. intros ->.
eapply not_elem_of_nil. by apply Hin.
Qed.

Lemma search_loop_total T : byte_str T → ∀ st state w,
pats_ok st → strs.[state] = Some w → is_Some (search_loop t st state T).
Proof using Hau Hpats.
intros HT. remember (length T) as n eqn:Hn. revert T HT Hn.
induction n as [n IH] using lt_wf_ind. intros [|c T] HT -> st state w Hst Hs; [done|].
apply Forall_cons in HT as [Hc HT]. cbn [search_loop].
destruct (Z.eqb_spec c 0); [done|].
destruct (au_next _ _ _ Hau _ _ c Hs Hc) as (v & Hv & Hvs). rewrite Hv. cbn [mbind option_bind].
destruct (au_get _ _ _ Hau _ _ Hvs) as [row Hrow]. rewrite Hrow. cbn [mbind option_bind].
destruct (Z.ltb_spec c 128).
- destruct (MatchList row); [|by destruct (print_match st a)].
  destruct (au_row _ _ _ Hau _ _ _ Hvs Hrow) as (_ & _ & _ & f & -> & Hf).
  destruct (fail_chain_state _ _ Hf) as (r & -> & _). cbn [mbind option_bind].
  destruct r; [done|]. eapply (IH (length T)); cbn; [lia|done|done|done|done].
- destruct (au_get _ _ _ Hau _ _ Hs) as [rt Hrt]. rewrite Hrt. cbn [mbind option_bind].
  set (state1 := if (flag rt =? VIRTUAL_STATE1) && (flag row =? VIRTUAL_STATE1)
                 then 0 else v).
  assert (∃ w1, strs.[state1] = Some w1) as [w1 Hw1].
  { unfold state1. destruct (_ && _); [exists []; apply Hau|eauto]. }
  destruct ((state1 =? 0) && _).
  { destruct T as [|? T]; [done|]. apply Forall_cons in HT as [_ HT].
    eapply (IH (length T)); cbn; [lia|done|done|done|done]. }
  destruct (au_get _ _ _ Hau _ _ Hw1) as [row1 Hrow1]. rewrite Hrow1. cbn [mbind option_bind].
  destruct (high_step_total st (flag rt =? VIRTUAL_STATE1) _ _ _ Hst Hw1 Hrow1)
    as (st1 & r1 & -> & Hst1). cbn [mbind option_bind].
  destruct r1; [done|].
  destruct (au_row _ _ _ Hau _ _ _ Hw1 Hrow1) as (_ & _ & _ & f & -> & Hf).
  destruct (fail_chain_state _ _ Hf) as (r & -> & _). cbn [mbind option_bind].
  destruct r as [m|]; [by destruct (print_match st1 m)|].
  eapply (IH (length T)); cbn; [lia|done|done|done|done].
Qed.
End total.

(** ** Statements about the compiled automaton *)

Definition keywords (a : ACSM_STRUCT) : list (list Z) := pat_str <$> acsmPatterns a.

Lemma lpat_ext D D' w : (∀ x, x ∈ D ↔ x ∈ D') → lpat D w = lpat D' w.
Proof.
  intros H. induction w as [|c w IH]; cbn; (destruct (decide _) as [Hd|Hd];
    [rewrite decide_True by by apply H | rewrite decide_False by by rewrite <- H]); done.
Qed.

Lemma first_match_ext D D' seen T :
  (∀ x, x ∈ D ↔ x ∈ D') → first_match D seen T = first_match D' seen T.
Proof.
  intros H. revert seen. induction T as [|c T IH]; intros seen; cbn; [done|].
  rewrite (lpat_ext D D') by done. by destruct (lpat D' _).
Qed.

Lemma elem_of_rev_keywords (a : ACSM_STRUCT) x : x ∈ rev (keywords a) ↔ x ∈ keywords a.
Proof. by rewrite !list_elem_of_In, <- in_rev. Qed.

(** A search of ASCII text on a compiled automaton. *)
Lemma compiled_search a text :
  Forall pat_ok (acsmPatterns a) → 1 + total_len (acsmPatterns a) <= MAX_STATES →
  [] ∉ keywords a → text ≠ [] → Forall (λ c, 0 < c < 128) text → zlen text <= INT_MAX →
  ∃ a' st, acsmCompile_cap a = Some a' ∧
    acsmSearch_cap a' text (zlen text) =
      Some (st, match first_match (keywords a) [] text with
                | Some p => flag_of (acsmPatterns a) p | None => 0 end).
Proof.
  intros Hps Hsmall Hnil Hne Htext Hlen. unfold INT_MAX in Hlen.
  destruct (acsmCompile_ok a Hps Hsmall) as (a' & strs & Hc & Hp & Hau).
  change (rev (pat_str <$> acsmPatterns a)) with (rev (keywords a)) in Hau.
  exists a'. unfold acsmSearch_cap.
  assert ((i32 (zlen text) <=? 0) = false) as ->.
  { rewrite i32_small by lia. apply Z.leb_gt. destruct text; [done|]. cbn. lia. }
  rewrite decide_True by lia. rewrite Nat2Z.id, firstn_all.
  destruct (search_loop_ascii _ _ _ Hau) with (T := text) (st := mkSearch (acsmPatterns a') 0)
    (state := 0) (seen := @nil Z) as [st Hst].
  { by rewrite elem_of_rev_keywords. } { done. }
  { rewrite lsuf_id by by eapply au_nil. apply Hau. } { constructor. }
  exists st. split; [done|]. rewrite Hst. cbn [s_pats]. rewrite Hp.
  by rewrite (first_match_ext _ (keywords a)) by apply elem_of_rev_keywords.
Qed.

(** Usable keyword flags: positive and in the range of [int]. *)
Definition flags_ok (ps : list ACSM_PATTERN) : Prop :=
  Forall (λ p, 0 < urlflag p <= INT_MAX) ps.

Lemma flag_of_elem ps w :
  w ∈ pat_str <$> ps → flags_ok ps →
  ∃ p, p ∈ ps ∧ pat_str p = w ∧ flag_of ps w = urlflag p ∧ 0 < urlflag p.
Proof.
  intros Hin Hf. induction Hf as [|p ps Hp _ IH]; [by apply not_elem_of_nil in Hin|].
  unfold INT_MAX in Hp. cbn. case_decide as Hd.
  - exists p. rewrite i32_small by lia. split_and!; [by left|done|done|lia].
  - rewrite fmap_cons, elem_of_cons in Hin. destruct Hin as [->|Hin]; [done|].
    destruct (IH Hin) as (q & ?&?&?&?). exists q. split_and!; [by right|done..].
Qed.

(** ** Properties *)

(** C1: on ASCII text the compiled automaton returns the flag of the keyword a
    left-to-right scan meets first (the longest one ending at the earliest
    position), and 0 when the scan meets none. *)
Theorem acsm_search_correct a text :
  Forall pat_ok (acsmPatterns a) → 1 + total_len (acsmPatterns a) <= MAX_STATES →
  [] ∉ keywords a → text ≠ [] → Forall (λ c, 0 < c < 128) text → zlen text <= INT_MAX →
  ∃ a' st, acsmCompile_cap a = Some a' ∧
    acsmSearch_cap a' text (zlen text) =
      Some (st, match first_match (keywords a) [] text with
                | Some p => flag_of (acsmPatterns a) p | None => 0 end).
Proof. apply compiled_search. Qed.

(** with positive keyword flags, the search of an ASCII text returns 0
    exactly when no keyword occurs in it, and otherwise the flag of a keyword
    that does occur. *)
Theorem acsm_search_found_iff_occurs a text :
  Forall pat_ok (acsmPatterns a) → 1 + total_len (acsmPatterns a) <= MAX_STATES →
  [] ∉ keywords a → flags_ok (acsmPatterns a) →
  text ≠ [] → Forall (λ c, 0 < c < 128) text → zlen text <= INT_MAX →
  ∃ a' st r, acsmCompile_cap a = Some a' ∧
    acsmSearch_cap a' text (zlen text) = Some (st, r) ∧
    (r = 0 ↔ ∀ p x y, p ∈ keywords a → text ≠ x ++ p ++ y) ∧
    (r ≠ 0 → ∃ p x y, p ∈ acsmPatterns a ∧ r = urlflag p ∧ text = x ++ pat_str p ++ y).
Proof.
  intros Hps Hsmall Hnil Hfl Hne Htext Hlen.
  destruct (compiled_search a text) as (a' & st & Hc & Hs); [done..|].
  exists a', st. eexists. split_and!; [done|exact Hs|..].
  - rewrite <- first_match_None by done.
    destruct (first_match (keywords a) [] text) as [p|] eqn:E; [|done].
    apply first_match_Some in E as (Hp & _).
    destruct (flag_of_elem _ _ Hp Hfl) as (q & _ & _ & -> & Hpos). split; [lia|done].
  - destruct (first_match (keywords a) [] text) as [p|] eqn:E; [|done]. intros _.
    apply first_match_Some in E as (Hp & x & y & Heq).
    destruct (flag_of_elem _ _ Hp Hfl) as (q & Hq & <- & -> & _).
    exists q, x, y. split_and!; done.
Qed.

(** C3: whatever bytes the text holds, the search of a compiled automaton ends
    and never reads outside its tables. *)
Theorem acsm_search_safe a text :
  Forall pat_ok (acsmPatterns a) → 1 + total_len (acsmPatterns a) <= MAX_STATES →
  byte_str text →
  ∃ a', acsmCompile_cap a = Some a' ∧ is_Some (acsmSearch_cap a' text (zlen text)).
Proof.
  intros Hps Hsmall Htext.
  destruct (acsmCompile_ok a Hps Hsmall) as (a' & strs & Hc & Hp & Hau).
  exists a'. split; [done|]. unfold acsmSearch_cap.
  destruct (_ <=? 0); [done|]. rewrite decide_True by lia. rewrite Nat2Z.id, firstn_all.
  eapply (search_loop_total _ _ _ (acsmPatterns a) Hau); [|done| |apply Hau].
  - destruct (acsmPatterns a); done.
  - unfold pats_ok. cbn. by rewrite Hp.
Qed.

(** C2: the compiler succeeds exactly when the state table of the keywords has fewer than
    2^32 bytes: a longer one is allocated short, and the [memset] behind the allocation
    writes over the heap. *)
Theorem acsm_compile_iff_table_fits a :
  Forall pat_ok (acsmPatterns a) → 1 + total_len (acsmPatterns a) < 4294967296 →
  is_Some (acsmCompile_cap a) ↔ state_size * (1 + total_len (acsmPatterns a)) < 4294967296.
Proof.
  intros Hps Hsmall. assert (Hiff : state_size * (1 + total_len (acsmPatterns a)) < 4294967296 ↔ 1 + total_len (acsmPatterns a) <= MAX_STATES)
    by (change MAX_STATES with 4129776; unfold state_size; lia).
  rewrite Hiff. split; [|intros H; destruct (acsmCompile_ok a Hps H) as (a' & strs & -> & _); by eexists].
  intros [a' Ha]. apply Z.le_ngt. intros Hgt. unfold acsmCompile_cap in Ha. by rewrite count_states_ok, table_cut in Ha.
Qed.

(** The two keywords of etc/keyword.txt. *)
Definition kw (s : string) (f : Z) : ACSM_PATTERN :=
  let b := bytes_of s in mkPattern (b ++ [0]) (zlen b) 0 f.
Definition kw_acsm : ACSM_STRUCT :=
  mkAcsm 0 0 [kw "/LETV-UTS/" 101; kw "/YOUKU/" 100] [].
Definition kw_url : list Z := bytes_of "HTTP://10.0.0.1/YOUKU/A/B.FLV".

Ltac decide_hyp := apply (bool_decide_unpack _); vm_compute; exact I.

Lemma kw_pats_ok : Forall pat_ok (acsmPatterns kw_acsm).
Proof. repeat constructor. Qed.

Lemma acsm_search_correct_witness :
  ∃ a' st, acsmCompile_cap kw_acsm = Some a' ∧
    acsmSearch_cap a' kw_url (zlen kw_url) =
      Some (st, match first_match (keywords kw_acsm) [] kw_url with
                | Some p => flag_of (acsmPatterns kw_acsm) p | None => 0 end).
Proof.
  apply (acsm_search_correct kw_acsm kw_url).
  - exact kw_pats_ok.
  - decide_hyp.
  - decide_hyp.
  - discriminate.
  - decide_hyp.
  - decide_hyp.
Defined.

Lemma acsm_compile_iff_table_fits_witness : is_Some (acsmCompile_cap kw_acsm) ↔ state_size * (1 + total_len (acsmPatterns kw_acsm)) < 4294967296.
Proof. apply (acsm_compile_iff_table_fits kw_acsm); [exact kw_pats_ok|decide_hyp]. Defined.

Lemma acsm_search_found_iff_occurs_witness :
  ∃ a' st r, acsmCompile_cap kw_acsm = Some a' ∧
    acsmSearch_cap a' kw_url (zlen kw_url) = Some (st, r) ∧
    (r = 0 ↔ ∀ p x y, p ∈ keywords kw_acsm → kw_url ≠ x ++ p ++ y) ∧
    (r ≠ 0 → ∃ p x y, p ∈ acsmPatterns kw_acsm ∧ r = urlflag p ∧ kw_url = x ++ pat_str p ++ y).
Proof.
  apply (acsm_search_found_iff_occurs kw_acsm kw_url).
  - exact kw_pats_ok.
  - decide_hyp.
  - decide_hyp.
  - decide_hyp.
  - discriminate.
  - decide_hyp.
  - decide_hyp.
Defined.

Lemma acsm_search_safe_witness :
  ∃ a', acsmCompile_cap kw_acsm = Some a' ∧
    is_Some (acsmSearch_cap a' [200; 47; 255; 0] (zlen [200; 47; 255; 0])).
Proof.
  apply (acsm_search_safe kw_acsm [200; 47; 255; 0]).
  - exact kw_pats_ok.
  - decide_hyp.
  - decide_hyp.
Defined.
