(* ===== verification/AcsmConf.v ===== *)
(** Loading the keyword files: [acsm_parse_line], [init_acsm] and [acsm_changed]
    (src/acsmDFA.c).

    The line buffer is an array of [LEN] bytes that survives from one line to
    the next, pointers into it are indices, and a read or write outside an array
    or through an unset pointer is [None]. [siteflag] has three bytes, so a
    three-digit flag is read on into the memory after it: [after] are the bytes
    that follow the array on the stack. *)
From S2P Require Import Prelude CString Acsm.
Import Acsm.

Module AcsmConf.

Definition LEN : Z := 1024.
Definition MAXPATTERNLEN : Z := 257.
Definition ACSM_NUM : Z := 2.

(** At most [n] bytes of [file], up to and including a newline. *)
Fixpoint read_line (n : nat) (file : list Z) : list Z * list Z :=
  match n, file with
  | O, _ => ([], file)
  | _, [] => ([], [])
  | S n', c :: file' =>
      if c =? 10 then ([c], file')
      else let '(l, rest) := read_line n' file' in (c :: l, rest)
  end.

(** [fgets(line, LEN, fp)]: [None] at end of file. *)
Definition fgets (buf : list Z) (size : Z) (file : list Z) : option (list Z * list Z) :=
  match file with
  | [] => None
  | _ => let '(l, rest) := read_line (Z.to_nat (size - 1)) file in
         Some (l ++ 0 :: drop (S (length l)) buf, rest)
  end.

Definition is_blank (c : Z) : bool := (c =? 32) || (c =? 9).

(** [while ( *p != 0 || *p != newline || *p == return)]: the condition always holds,
    so the loop only stops at a blank. From [p] on the buffer holds [rest]; [inl] is [p]
    after the loop, [inr] the index behind the buffer that the loop goes on to read. *)
Fixpoint scan_key (rest : list Z) (p : Z) : Z + Z :=
  match rest with
  | [] => inr p
  | c :: rest' => if is_blank c then inl p else scan_key rest' (p + 1)
  end.

(** The first [while ( *q != 0)]: [q] stops at a digit or at the NUL; the
    flag says whether [k] was set. *)
Fixpoint scan_digit (fuel : nat) (line : list Z) (q : Z) : option (Z * bool) :=
  match fuel with
  | O => None
  | S fuel' =>
      c ← line.[q];
      if c =? 0 then Some (q, false)
      else if isdigit c then Some (q, true) else scan_digit fuel' line (q + 1)
  end.

(** The second one: past the digits; [inr tt] is the grammar error. *)
Fixpoint scan_flag (fuel : nat) (line : list Z) (q : Z) : option (Z + unit) :=
  match fuel with
  | O => None
  | S fuel' =>
      c ← line.[q];
      if c =? 0 then Some (inl q)
      else if is_blank c || (c =? 10) || (c =? 13) then Some (inl q)
      else if isdigit c then scan_flag fuel' line (q + 1)
      else Some (inr tt)
  end.

Record parse_state := mkParse {
  pline : list Z;            (* char line[LEN] *)
  pk : option Z;             (* k, unset until a digit has been seen *)
  pacsm : ACSM_STRUCT }.

(** The part of the loop body after the two [continue] tests. *)
Definition parse_entry (after : list Z) (st : parse_state)
  : option (parse_state + unit) :=
  let line := pline st in
  p ← match scan_key line 0 with inl p => Some p | inr _ => None end;
  keychar ← strncpy (replicate (Z.to_nat LEN) 0) (cstr line) p;
  '(q1, found) ← scan_digit (Z.to_nat LEN) line (p + 1);
  let k := if (found : bool) then Some q1 else pk st in
  r ← scan_flag (Z.to_nat LEN) line q1;
  match r with
  | inr tt => Some (inr tt)
  | inl q =>
      k0 ← k;
      siteflag ← (if q - k0 <=? 3
                  then strncpy (replicate 3 0) (cstr (drop (Z.to_nat k0) line)) (q - k0)
                  else Some (replicate 3 0));
      n ← strlen_opt keychar;
      a ← acsmAddPattern init_xlatcase (pacsm st) keychar n
            (u32 (atoi (cstr (siteflag ++ after))));
      Some (inl (mkParse line k a))
  end.

(** [while (fgets(line, LEN, kwFp))]. *)
Fixpoint parse_loop (fuel : nat) (after : list Z) (st : parse_state) (file : list Z)
  : option ACSM_STRUCT :=
  match fgets (pline st) LEN file with
  | None => Some (pacsm st)
  | Some (line, rest) =>
      match fuel with
      | O => None
      | S fuel' =>
          len ← strlen_opt line;
          c0 ← line.[0];
          let st1 := mkParse line (pk st) (pacsm st) in
          if (MAXPATTERNLEN <=? len) || (c0 =? 0) || (c0 =? 35)
          then parse_loop fuel' after st1 rest
          else
            r ← parse_entry after st1;
            match r with
            | inl st2 => parse_loop fuel' after st2 rest
            | inr tt => Some (pacsm st1)
            end
      end
  end.

(** [acsm_parse_line(urlFile, acsm)]: [file] is [None] when [fopen] fails. The
    return value of the function comes with the structure. *)
Definition acsm_parse_line (after : list Z) (file : option (list Z)) (a : ACSM_STRUCT)
  : option (Z * ACSM_STRUCT) :=
  match file with
  | None => Some (-1, a)
  | Some f =>
      a' ← parse_loop (length f) after (mkParse (replicate (Z.to_nat LEN) 0) None a) f;
      Some (0, a')
  end.

(** [init_acsm(n, fileName)]: the result of [acsm_parse_line] is not looked at. *)
Definition init_acsm (after : list Z) (acsm_cap : list (option ACSM_STRUCT)) (n : Z)
    (file : option (list Z)) : option (Z * list (option ACSM_STRUCT)) :=
  '(_, a) ← acsm_parse_line after file acsmNew;
  '(a', ret) ← acsmDFA a;
  cap ← zset acsm_cap n (Some a');
  Some (if ret =? -1 then ret else 0, cap).

(** [acsm_changed]: every automaton is replaced by one compiled from no
    keywords at all. The message arguments are not used. *)
Fixpoint acsm_changed_from (i : Z) (k : nat) (acsm_cap : list (option ACSM_STRUCT))
  : option (Z * list (option ACSM_STRUCT)) :=
  match k with
  | O => Some (0, acsm_cap)
  | S k' =>
      '(a, ret) ← acsmDFA acsmNew;
      if ret =? -1 then Some (-1, acsm_cap)
      else cap ← zset acsm_cap i (Some a); acsm_changed_from (i + 1) k' cap
  end.

Definition acsm_changed (acsm_cap : list (option ACSM_STRUCT))
  : option (Z * list (option ACSM_STRUCT)) :=
  acsm_changed_from 0 (Z.to_nat ACSM_NUM) acsm_cap.

End AcsmConf.

Import AcsmConf.

(** ** [ConvertCaseEX] upper-cases a prefix *)

Lemma xlatcase_get c : 0 <= c < 256 → init_xlatcase.[c] = Some (toupper c).
Proof.
  intros Hc. rewrite zget_pos by lia. unfold init_xlatcase.
  rewrite list_lookup_fmap, lookup_seqZ_lt by lia. cbn. do 2 f_equal. lia.
Qed.

Lemma ConvertCaseEX_from_spec s : is_cstring s → ∀ pre tl done d,
  length done = length pre → (length s <= length d)%nat →
  ConvertCaseEX_from (zlen pre) (length s) init_xlatcase (done ++ d) (pre ++ s ++ tl)
  = Some (done ++ (toupper <$> s) ++ drop (length s) d).
Proof.
  induction 1 as [|c s Hc Hs IH]; intros pre tl done d Hl Hd; cbn [length ConvertCaseEX_from].
  { by rewrite fmap_nil. }
  rewrite zget_app_r by lia. rewrite Z.sub_diag. cbn [app].
  change ((c :: s ++ tl).[0]) with (Some c). cbn [mbind option_bind].
  rewrite xlatcase_get by lia. cbn [mbind option_bind].
  destruct d as [|x d]; [cbn in Hd; lia|]. cbn in Hd.
  rewrite zset_Some by (rewrite length_app; cbn; lia). cbn [mbind option_bind].
  replace (Z.to_nat (zlen pre)) with (length done + 0)%nat by lia.
  rewrite insert_app_r. cbn [insert list_insert].
  replace (zlen pre + 1) with (zlen (pre ++ [c])) by (rewrite length_app; cbn; lia).
  replace (done ++ toupper c :: d) with ((done ++ [toupper c]) ++ d) by by rewrite <- app_assoc.
  replace (pre ++ c :: s ++ tl) with ((pre ++ [c]) ++ s ++ tl) by by rewrite <- app_assoc.
  rewrite IH by (rewrite ?length_app; cbn; lia). by rewrite <- app_assoc, fmap_cons.
Qed.

Lemma ConvertCaseEX_spec s tl d :
  is_cstring s → (length s <= length d)%nat →
  ConvertCaseEX init_xlatcase d (s ++ tl) (zlen s) = Some ((toupper <$> s) ++ drop (length s) d).
Proof.
  intros Hs Hd. unfold ConvertCaseEX. rewrite Nat2Z.id.
  exact (ConvertCaseEX_from_spec s Hs [] tl [] d eq_refl Hd).
Qed.

(** What [acsmAddPattern] stores for a string. *)
Lemma acsmAddPattern_spec a s tl f :
  is_cstring s → zlen s <= INT_MAX →
  acsmAddPattern init_xlatcase a (s ++ tl) (zlen s) f =
    Some (mkAcsm (acsmMaxState a) (acsmNumState a)
            (mkPattern ((toupper <$> s) ++ [0]) (zlen s) 0 f :: acsmPatterns a)
            (acsmStateTable a)).
Proof.
  intros Hs Hl. unfold acsmAddPattern, INT_MAX in *.
  rewrite u32_small, zset_Some by (rewrite ?length_replicate; lia). rewrite list_insert_id by (apply lookup_replicate; lia).
  cbn [mbind option_bind]. rewrite ConvertCaseEX_spec by (done || rewrite length_replicate; lia). cbn [mbind option_bind].
  rewrite drop_replicate. replace (Z.to_nat (zlen s + 1) - length s)%nat with 1%nat by lia. done.
Qed.

(** ** Well-formed keyword files *)

Definition dec3 (f : Z) : list Z := [48 + f / 100; 48 + (f / 10) mod 10; 48 + f mod 10].

(** One line: keyword, space, three-digit flag, newline. *)
Definition entry_line (e : list Z * Z) : list Z := e.1 ++ [32] ++ dec3 e.2 ++ [10].

Definition entry_ok (e : list Z * Z) : Prop :=
  is_cstring e.1 ∧ Forall (λ c, c ≠ 32 ∧ c ≠ 9 ∧ c ≠ 10) e.1 ∧ e.1 ≠ [] ∧ head e.1 ≠ Some 35 ∧
  zlen e.1 + 5 < MAXPATTERNLEN ∧ 100 <= e.2 <= 999.
#[export] Instance entry_ok_dec e : Decision (entry_ok e).
Proof. unfold entry_ok. apply _. Defined.

(** The byte after the three-byte [siteflag] array is not a digit. *)
Definition after_ok (after : list Z) : Prop :=
  match after with c :: _ => isdigit c = false | [] => True end.

Definition entry_pattern (e : list Z * Z) : ACSM_PATTERN :=
  mkPattern ((toupper <$> e.1) ++ [0]) (zlen e.1) 0 e.2.

Lemma read_line_app l : ∀ n rest,
  Forall (λ c, c ≠ 10) l → (length l < n)%nat → read_line n (l ++ 10 :: rest) = (l ++ [10], rest).
Proof.
  induction l as [|c l IH]; intros [|n] rest Hl Hn; cbn in *; try lia; [done|].
  apply Forall_cons in Hl as [Hc Hl]. destruct (Z.eqb_spec c 10); [done|].
  by rewrite IH by (done || lia).
Qed.

Lemma scan_key_app key X : ∀ p, Forall (λ c, is_blank c = false) key → scan_key (key ++ 32 :: X) p = inl (p + zlen key).
Proof.
  induction key as [|c key IH]; intros p Hk; cbn [app scan_key length]; [change (is_blank 32) with true; cbv iota; f_equal; lia|].
  apply Forall_cons in Hk as [-> Hk]. rewrite IH by done. f_equal. lia.
Qed.

Lemma dec3_bytes f : 100 <= f <= 999 →
  Forall (λ c, isdigit c = true ∧ 0 < c < 256) (dec3 f).
Proof.
  intros Hf.
  assert (1 <= f / 100 <= 9) by (split; [apply Z.div_le_lower_bound|apply Z.lt_succ_r, Z.div_lt_upper_bound]; lia).
  pose proof (Z.mod_pos_bound (f / 10) 10 ltac:(lia)).
  pose proof (Z.mod_pos_bound f 10 ltac:(lia)).
  unfold dec3, isdigit. repeat constructor; lia.
Qed.

(** [atoi] on a string that starts with a digit. *)


Lemma digits_dec3 f s : 100 <= f <= 999 → digits_val 0 (dec3 f ++ s) = digits_val f s.
Proof.
  intros Hf. pose proof (dec3_bytes f Hf) as Hd. unfold dec3 in *. cbn [app digits_val].
  apply Forall_cons in Hd as [[-> _] Hd]. apply Forall_cons in Hd as [[-> _] Hd].
  apply Forall_cons in Hd as [[-> _] _]. f_equal.
  pose proof (Z.div_mod f 10 ltac:(lia)). pose proof (Z.div_mod (f / 10) 10 ltac:(lia)).
  rewrite Z.div_div in * by lia. change (10 * 10) with 100 in *. lia.
Qed.

Lemma atoi_dec3_app f after : 100 <= f <= 999 →
  atoi (cstr (dec3 f ++ after)) = digits_val f (cstr after).
Proof.
  intros Hf. pose proof (dec3_bytes f Hf) as Hd.
  rewrite cstr_app by (eapply Forall_impl; [exact Hd|]; tauto).
  rewrite <- digits_dec3 by done. unfold dec3 in *. cbn [app].
  apply Forall_cons in Hd as [[Hd _] _]. by apply atoi_digit.
Qed.

Lemma atoi_dec3 f after :
  100 <= f <= 999 → after_ok after → atoi (cstr (dec3 f ++ after)) = f.
Proof.
  intros Hf Ha. rewrite atoi_dec3_app by done.
  destruct after as [|c after]; [done|]. cbn in Ha |- *.
  destruct (c =? 0); [done|]. cbn. by rewrite Ha.
Qed.

Lemma atoi_dec3_digit f d :
  100 <= f <= 999 → 0 <= d <= 9 → atoi (cstr (dec3 f ++ [48 + d; 0])) = 10 * f + d.
Proof.
  intros Hf Hd. rewrite atoi_dec3_app by done. cbn [cstr].
  destruct (Z.eqb_spec (48 + d) 0); [lia|]. cbn [digits_val Z.eqb cstr].
  assert (isdigit (48 + d) = true) as -> by (unfold isdigit; lia). lia.
Qed.

Lemma is_blank_false c : c ≠ 32 ∧ c ≠ 9 ∧ c ≠ 10 → is_blank c = false.
Proof. unfold is_blank. lia. Qed.

(** The scan of the flag: three digits and the newline. *)
Lemma scan_flag_dec3 f fuel pre Y : 100 <= f <= 999 → (4 <= fuel)%nat →
  scan_flag fuel (pre ++ dec3 f ++ 10 :: Y) (zlen pre) = Some (inl (zlen pre + 3)).
Proof.
  intros Hf Hfu. pose proof (dec3_bytes f Hf) as Hd. unfold dec3 in *.
  apply Forall_cons in Hd as [[D1 B1] Hd]. apply Forall_cons in Hd as [[D2 B2] Hd].
  apply Forall_cons in Hd as [[D3 B3] _].
  do 4 (destruct fuel as [|fuel]; [lia|]).
  assert (Hnb : ∀ c, isdigit c = true → (c =? 0) = false ∧ is_blank c || (c =? 10) || (c =? 13) = false).
  { intros c. unfold isdigit, is_blank. lia. }
  assert (G : ∀ n : nat, (pre ++ [48 + f / 100; 48 + (f / 10) mod 10; 48 + f mod 10] ++ 10 :: Y).[zlen pre + Z.of_nat n]
     = ([48 + f / 100; 48 + (f / 10) mod 10; 48 + f mod 10] ++ 10 :: Y) !! n).
  { intros n. rewrite zget_app_r by lia.
    replace (zlen pre + Z.of_nat n - zlen pre) with (Z.of_nat n) by lia. apply zget_nat. }
  pose proof (G 0%nat) as G0. rewrite Z.add_0_r in G0. pose proof (G 1%nat) as G1.
  pose proof (G 2%nat) as G2. pose proof (G 3%nat) as G3.
  change (Z.of_nat 1) with 1 in G1. change (Z.of_nat 2) with 2 in G2. change (Z.of_nat 3) with 3 in G3.
  cbn [lookup list_lookup app] in G0, G1, G2, G3. cbn [app].
  destruct (Hnb _ D1) as [Z1 N1]. destruct (Hnb _ D2) as [Z2 N2]. destruct (Hnb _ D3) as [Z3 N3].
  cbn [scan_flag]. rewrite G0. cbn [mbind option_bind]. rewrite Z1, N1, D1.
  rewrite G1. cbn [mbind option_bind]. rewrite Z2, N2, D2.
  replace (zlen pre + 1 + 1) with (zlen pre + 2) by lia.
  rewrite G2. cbn [mbind option_bind]. rewrite Z3, N3, D3.
  replace (zlen pre + 2 + 1) with (zlen pre + 3) by lia.
  rewrite G3. reflexivity.
Qed.

Lemma scan_digit_hit fuel line q c :
  (0 < fuel)%nat → line.[q] = Some c → isdigit c = true →
  scan_digit fuel line q = Some (q, true).
Proof.
  intros Hf Hc Hd. destruct fuel; [lia|]. cbn. rewrite Hc. cbn. rewrite Hd.
  destruct (Z.eqb_spec c 0) as [->|]; [done|]. done.
Qed.

Definition push_pattern (a : ACSM_STRUCT) (p : ACSM_PATTERN) : ACSM_STRUCT :=
  mkAcsm (acsmMaxState a) (acsmNumState a) (p :: acsmPatterns a) (acsmStateTable a).

(** The number read from the three digits and the memory after them. *)
Definition flag_read (after : list Z) (f : Z) : Z := u32 (atoi (cstr (dec3 f ++ after))).

(** A well-formed line adds its keyword with that number, whatever the buffer
    held before. *)
Lemma parse_entry_gen after st e Y :
  entry_ok e →
  pline st = e.1 ++ 32 :: dec3 e.2 ++ 10 :: 0 :: Y →
  parse_entry after st =
    Some (inl (mkParse (pline st) (Some (zlen e.1 + 1))
                 (push_pattern (pacsm st) (entry_pattern (e.1, flag_read after e.2))))).
Proof.
  destruct e as [key f]. intros (Hcs & Hnb & Hne & _ & Hlen & Hf) Hline. cbn [fst snd] in *.
  unfold parse_entry, MAXPATTERNLEN in *. change (Z.to_nat LEN) with 1024%nat. rewrite Hline.
  pose proof (dec3_bytes f Hf) as Hdd.
  assert (Hd3 : is_cstring (dec3 f)) by (eapply Forall_impl; [exact Hdd|]; tauto).
  assert (Hkey : scan_key (key ++ 32 :: dec3 f ++ 10 :: 0 :: Y) 0 = inl (zlen key)).
  { apply scan_key_app. eapply Forall_impl; [exact Hnb|]. apply is_blank_false. }
  rewrite Hkey. cbn [mbind option_bind].
  rewrite cstr_app by done. rewrite strncpy_Some by (rewrite length_replicate; lia).
  cbn [mbind option_bind]. rewrite Nat2Z.id.
  rewrite <- app_assoc, take_app_length.
  assert (Hsd : scan_digit 1024 (key ++ 32 :: dec3 f ++ 10 :: 0 :: Y) (zlen key + 1) = Some (zlen key + 1, true)).
  { unfold dec3 in *. apply Forall_cons in Hdd as [[D1 B1] _].
    apply (scan_digit_hit _ _ _ (48 + f / 100)); [lia| |done].
    rewrite zget_app_r by lia. replace (zlen key + 1 - zlen key) with 1 by lia. done. }
  rewrite Hsd. cbn [mbind option_bind].
  pose proof (scan_flag_dec3 f 1024 (key ++ [32]) (0 :: Y) Hf ltac:(lia)) as Hsf.
  rewrite length_app, Nat2Z.inj_add, <- app_assoc in Hsf. cbn [app length] in Hsf.
  change (Z.of_nat 1) with 1 in Hsf. rewrite Hsf. cbn [mbind option_bind].
  replace (zlen key + 1 + 3 - (zlen key + 1)) with 3 by lia. cbn [Z.leb Z.compare Pos.compare Pos.compare_cont].
  assert (Hdrop : drop (Z.to_nat (zlen key + 1)) (key ++ 32 :: dec3 f ++ 10 :: 0 :: Y) = dec3 f ++ 10 :: 0 :: Y).
  { replace (Z.to_nat (zlen key + 1)) with (length (key ++ [32])) by (rewrite length_app; cbn; lia).
    replace (key ++ 32 :: dec3 f ++ 10 :: 0 :: Y) with ((key ++ [32]) ++ dec3 f ++ 10 :: 0 :: Y)
      by by rewrite <- app_assoc. apply drop_app_length. }
  rewrite Hdrop, cstr_app by done.
  rewrite strncpy_Some by (rewrite length_replicate; lia). cbn [mbind option_bind].
  assert (Hsite : take (Z.to_nat 3) ((dec3 f ++ cstr (10 :: 0 :: Y)) ++ replicate (Z.to_nat 3) 0)
            ++ drop (Z.to_nat 3) (replicate 3 0) = dec3 f).
  { change (Z.to_nat 3) with (length (dec3 f)). rewrite <- app_assoc, take_app_length. done. }
  rewrite Hsite, drop_replicate.
  replace (1024 - length key)%nat with (S (1023 - length key)) by lia. cbn [replicate].
  rewrite strlen_opt_app by done. cbn [mbind option_bind].
  rewrite acsmAddPattern_spec by (done || unfold INT_MAX; lia). done.
Qed.

Lemma flag_read_ok after f : 100 <= f <= 999 → after_ok after → flag_read after f = f.
Proof. intros. unfold flag_read. rewrite atoi_dec3 by done. apply u32_small. lia. Qed.

(** The buffer after [fgets] has read the line of [e]. *)
Lemma fgets_entry e buf rest :
  entry_ok e → length buf = 1024%nat →
  ∃ Y, fgets buf LEN (entry_line e ++ rest) = Some (e.1 ++ 32 :: dec3 e.2 ++ 10 :: 0 :: Y, rest) ∧
       length (e.1 ++ 32 :: dec3 e.2 ++ 10 :: 0 :: Y) = 1024%nat.
Proof.
  destruct e as [key f]. intros (Hcs & Hnb & Hne & _ & Hlen & Hf) Hbuf. unfold MAXPATTERNLEN in *.
  cbn [fst snd] in *. unfold entry_line. cbn [fst snd].
  assert (Hl : (key ++ [32] ++ dec3 f ++ [10]) ++ rest = (key ++ 32 :: dec3 f) ++ 10 :: rest)
    by (rewrite <- !app_assoc; reflexivity).
  rewrite Hl. unfold fgets. destruct key as [|c key']; [done|]. set (key := c :: key') in *.
  change (key ++ 32 :: dec3 f) with (c :: (key' ++ 32 :: dec3 f)) at 1. cbn [app].
  change (c :: (key' ++ 32 :: dec3 f) ++ 10 :: rest) with ((key ++ 32 :: dec3 f) ++ 10 :: rest).
  change (Z.to_nat (LEN - 1)) with 1023%nat.
  pose proof (dec3_bytes f Hf) as Hdd.
  rewrite read_line_app.
  - exists (drop (S (length ((key ++ 32 :: dec3 f) ++ [10]))) buf). split.
    + f_equal. f_equal. by rewrite <- !app_assoc.
    + rewrite !length_app. cbn [length dec3 app]. rewrite length_drop, Hbuf, ?length_app.
      cbn [length dec3 app]. rewrite ?length_app. cbn [length]. lia.
  - apply Forall_app. split; [eapply Forall_impl; [exact Hnb|]; tauto|].
    apply Forall_cons. split; [done|]. eapply Forall_impl; [exact Hdd|].
    intros x [Hx _] ->. by cbn in Hx.
  - rewrite length_app. cbn [length dec3]. lia.
Qed.

Lemma entry_line_head e Y : entry_ok e → ∃ c, head e.1 = Some c ∧
  (e.1 ++ 32 :: dec3 e.2 ++ 10 :: 0 :: Y).[0] = Some c ∧ c ≠ 35 ∧ c ≠ 0.
Proof.
  intros (Hcs & _ & Hne & Hh & _). destruct e as [[|c key] f]; [done|]. cbn [fst] in *.
  exists c. split_and!; [done|done| |]; [by intros ->|]. apply Forall_cons in Hcs as [? _]. lia.
Qed.

Lemma entry_strlen e Y : entry_ok e →
  strlen_opt (e.1 ++ 32 :: dec3 e.2 ++ 10 :: 0 :: Y) = Some (zlen e.1 + 5).
Proof.
  intros (Hcs & _ & _ & _ & _ & Hf). pose proof (dec3_bytes _ Hf) as Hdd.
  replace (e.1 ++ 32 :: dec3 e.2 ++ 10 :: 0 :: Y) with ((e.1 ++ 32 :: dec3 e.2 ++ [10]) ++ 0 :: Y)
    by (rewrite <- !app_assoc; reflexivity).
  rewrite strlen_opt_app.
  - f_equal. rewrite !length_app. cbn [length dec3 app]. lia.
  - apply Forall_app. split; [done|]. apply Forall_cons. split; [lia|]. apply Forall_app.
    split; [eapply Forall_impl; [exact Hdd|]; tauto|]. by repeat constructor.
Qed.

Lemma parse_loop_ok es : Forall entry_ok es → ∀ fuel after st,
  length (pline st) = 1024%nat →
  (length (concat (entry_line <$> es)) <= fuel)%nat →
  parse_loop fuel after st (concat (entry_line <$> es)) =
    Some (foldl push_pattern (pacsm st) ((λ e, entry_pattern (e.1, flag_read after e.2)) <$> es)).
Proof.
  induction 1 as [|e es He Hes IH]; intros fuel after st Hlen Hfuel.
  { by destruct fuel. }
  rewrite fmap_cons in *. cbn [concat] in *.
  destruct (fgets_entry e (pline st) (concat (entry_line <$> es)) He Hlen) as (Y & Hg & HY).
  destruct fuel as [|fuel].
  { exfalso. rewrite length_app in Hfuel. unfold entry_line in Hfuel.
    rewrite length_app in Hfuel. cbn in Hfuel. lia. }
  cbn [parse_loop]. rewrite Hg. cbn [mbind option_bind].
  rewrite entry_strlen by done. cbn [mbind option_bind].
  destruct (entry_line_head e Y He) as (c & _ & Hc & Hc35 & Hc0). rewrite Hc.
  cbn [mbind option_bind].
  assert ((MAXPATTERNLEN <=? zlen e.1 + 5) || (c =? 0) || (c =? 35) = false) as ->.
  { destruct He as (_ & _ & _ & _ & Hl & _). lia. }
  erewrite parse_entry_gen by done. cbn [mbind option_bind pacsm].
  rewrite IH; [done|done|].
  rewrite length_app in Hfuel. unfold entry_line in Hfuel at 1.
  rewrite length_app in Hfuel. cbn in Hfuel. lia.
Qed.

Lemma foldl_push ps : ∀ a, foldl push_pattern a ps =
  mkAcsm (acsmMaxState a) (acsmNumState a) (rev ps ++ acsmPatterns a) (acsmStateTable a).
Proof.
  induction ps as [|p ps IH]; intros a; cbn [foldl rev]; [by destruct a|].
  rewrite IH. cbn. by rewrite <- app_assoc.
Qed.

(** The automaton structure a well-formed file leaves before compilation. *)
Definition loaded (es : list (list Z * Z)) : ACSM_STRUCT :=
  mkAcsm 0 0 (rev (entry_pattern <$> es)) [].

Lemma acsm_parse_line_gen es after :
  Forall entry_ok es →
  acsm_parse_line after (Some (concat (entry_line <$> es))) acsmNew
  = Some (0, loaded ((λ e, (e.1, flag_read after e.2)) <$> es)).
Proof.
  intros Hes. unfold acsm_parse_line. rewrite parse_loop_ok by done.
  cbn [mbind option_bind pacsm]. rewrite foldl_push. unfold loaded. cbn.
  by rewrite app_nil_r, <- list_fmap_compose.
Qed.

Lemma acsm_parse_line_ok es after :
  Forall entry_ok es → after_ok after →
  acsm_parse_line after (Some (concat (entry_line <$> es))) acsmNew = Some (0, loaded es).
Proof.
  intros Hes Ha. rewrite acsm_parse_line_gen by done. do 3 f_equal.
  rewrite <- (list_fmap_id es) at 2. apply list_fmap_ext. intros i [key f] Hi. cbn.
  apply list_elem_of_lookup_2 in Hi. rewrite Forall_forall in Hes.
  destruct (Hes _ Hi) as (_ & _ & _ & _ & _ & Hf). by rewrite flag_read_ok.
Qed.
