(* ===== verification/AcsmLoad.v ===== *)
(** Properties of the keyword files: what loading one leaves, the searches the
    loaded automaton answers, and what the parser does with lines it does not
    expect. *)
From S2P Require Import Prelude CString AcsmSpec Acsm AcsmTrie AcsmBuild AcsmSearch AcsmConf.
Import Acsm AcsmConf.

Lemma toupper_cstring s : is_cstring s → cstr ((toupper <$> s) ++ [0]) = toupper <$> s.
Proof. intros. by apply cstr_app_nul, is_cstring_toupper. Qed.

Lemma entry_pattern_str e : is_cstring e.1 → pat_str (entry_pattern e) = toupper <$> e.1.
Proof. intros. unfold pat_str. by apply toupper_cstring. Qed.

Lemma entry_pattern_ok e : entry_ok e → pat_ok (entry_pattern e).
Proof.
  intros (Hs & _). unfold pat_ok. rewrite entry_pattern_str by done. cbn.
  split_and!; [done|by rewrite length_fmap|by apply is_cstring_toupper].
Qed.

Lemma loaded_pat_ok es : Forall entry_ok es → Forall pat_ok (acsmPatterns (loaded es)).
Proof.
  intros H. cbn. apply Forall_rev, Forall_fmap. eapply Forall_impl; [done|].
  intros e. apply entry_pattern_ok.
Qed.

Definition load_size (es : list (list Z * Z)) : Z := foldr (λ e acc, zlen e.1 + acc) 0 es.

Lemma lens_app l k : total_len (l ++ k) = total_len l + total_len k.
Proof. unfold total_len. induction l; cbn; lia. Qed.

Lemma total_len_loaded es : total_len (acsmPatterns (loaded es)) = load_size es.
Proof.
  change (acsmPatterns (loaded es)) with (rev (entry_pattern <$> es)).
  induction es as [|e es IH]; [done|]. rewrite fmap_cons. cbn [rev].
  rewrite lens_app, IH. unfold total_len. cbn [foldr].
  change (load_size (e :: es)) with (zlen e.1 + load_size es).
  cbn [n_cap entry_pattern]. lia.
Qed.

Lemma loaded_keywords_nil es : Forall entry_ok es → [] ∉ keywords (loaded es).
Proof.
  intros H. unfold keywords. cbn. intros (p & Hp & Hin)%list_elem_of_fmap.
  rewrite list_elem_of_In, <- in_rev, <- list_elem_of_In in Hin.
  apply list_elem_of_fmap in Hin as (e & -> & He). rewrite Forall_forall in H.
  destruct (H _ He) as (Hs & _ & Hne & _). rewrite entry_pattern_str in Hp by done.
  symmetry in Hp. by apply fmap_nil_inv in Hp.
Qed.

(** C4: loading a well-formed keyword file and searching an ASCII text returns
    the flag of the first upper-cased keyword of the file found in the text, and
    0 when none is; the stack byte after [siteflag] must not be a digit. *)
Theorem init_acsm_then_search es after cap n text :
  Forall entry_ok es → after_ok after → 0 <= n < zlen cap →
  1 + load_size es <= MAX_STATES →
  text ≠ [] → Forall (λ c, 0 < c < 128) text → zlen text <= INT_MAX →
  ∃ a cap' st,
    init_acsm after cap n (Some (concat (entry_line <$> es))) = Some (0, cap') ∧
    cap'.[n] = Some (Some a) ∧ (∀ j, j ≠ n → cap'.[j] = cap.[j]) ∧
    acsmSearch_cap a text (zlen text) =
      Some (st, match first_match (keywords (loaded es)) [] text with
                | Some p => flag_of (acsmPatterns (loaded es)) p | None => 0 end).
Proof.
  intros Hes Ha Hn Hsz Hne Htext Hlen.
  destruct (compiled_search (loaded es) text) as (a & st & Hc & Hs); try done.
  { by apply loaded_pat_ok. } { by rewrite total_len_loaded. } { by apply loaded_keywords_nil. }
  exists a, (<[Z.to_nat n := Some a]> cap), st.
  unfold init_acsm, acsmDFA. rewrite acsm_parse_line_ok by done. cbn [mbind option_bind].
  rewrite Hc. cbn [mbind option_bind]. pose proof (zset_Some cap n (Some a) Hn) as Hset.
  rewrite Hset. split_and!; [done|by eapply zget_zset_eq| |done].
  intros j Hj. by eapply zget_zset_ne.
Qed.

Definition kw_entries : list (list Z * Z) := [(bytes_of "/youku/", 100); (bytes_of "/letv-uts/", 101)].

Lemma init_acsm_then_search_witness :
  ∃ a cap' st,
    init_acsm [0] [None; None] 0 (Some (concat (entry_line <$> kw_entries))) = Some (0, cap') ∧
    cap'.[0] = Some (Some a) ∧ (∀ j, j ≠ 0 → cap'.[j] = [None; None].[j]) ∧
    acsmSearch_cap a kw_url (zlen kw_url) =
      Some (st, match first_match (keywords (loaded kw_entries)) [] kw_url with
                | Some p => flag_of (acsmPatterns (loaded kw_entries)) p | None => 0 end).
Proof.
  apply (init_acsm_then_search kw_entries [0] [None; None] 0 kw_url).
  - decide_hyp.
  - reflexivity.
  - decide_hyp.
  - decide_hyp.
  - discriminate.
  - decide_hyp.
  - decide_hyp.
Defined.

(** ** What the parser does outside that format *)

(** C5: [siteflag] has room for three bytes and no terminator, so a three-digit
    flag followed in memory by a digit is read as a four-digit number. *)
Theorem parse_flag_reads_past_siteflag e d :
  entry_ok e → 0 <= d <= 9 →
  acsm_parse_line [48 + d; 0] (Some (entry_line e)) acsmNew
  = Some (0, loaded [(e.1, 10 * e.2 + d)]).
Proof.
  intros He Hd. pose proof (acsm_parse_line_gen [e] [48 + d; 0]) as H.
  rewrite list_fmap_singleton in H. cbn [concat] in H. rewrite app_nil_r in H.
  rewrite H by (apply Forall_singleton; exact He). do 3 f_equal. rewrite list_fmap_singleton. do 2 f_equal.
  destruct He as (_ & _ & _ & _ & _ & Hf). unfold flag_read.
  rewrite (atoi_dec3_digit e.2 d) by done. apply u32_small. lia.
Qed.

Lemma parse_flag_reads_past_siteflag_witness :
  acsm_parse_line [55; 0] (Some (entry_line (bytes_of "/youku/", 100))) acsmNew
  = Some (0, loaded [(bytes_of "/youku/", 1007)]).
Proof.
  apply (parse_flag_reads_past_siteflag (bytes_of "/youku/", 100) 7); decide_hyp.
Defined.

Lemma scan_key_none line : Forall (λ c, is_blank c = false) line → ∀ p, scan_key line p = inr (p + zlen line).
Proof.
  induction 1 as [|c line Hc _ IH]; intros p; cbn [scan_key length]; [f_equal; lia|]. rewrite Hc, IH. f_equal. lia.
Qed.

Lemma fgets_zeroed key :
  Forall (λ c, c ≠ 10) key → zlen key + 1 < LEN → key ≠ [] →
  fgets (replicate (Z.to_nat LEN) 0) LEN (key ++ [10])
  = Some ((key ++ [10]) ++ 0 :: replicate (1024 - S (length (key ++ [10]))) 0, []).
Proof.
  intros Hk Hlen Hne. unfold fgets. destruct key as [|c key]; [done|]. cbn [app].
  change (c :: key ++ [10]) with ((c :: key) ++ 10 :: []).
  unfold LEN in Hlen. change (Z.to_nat (LEN - 1)) with 1023%nat. change (Z.to_nat LEN) with 1024%nat.
  rewrite read_line_app by (done || lia). by rewrite drop_replicate.
Qed.

(** C6: a keyword line without a blank makes the scan for the keyword's end read on behind
    the line buffer, since the loop condition holds at the terminator too: no byte of
    the buffer stops it, and the next one it reads is that at index [LEN]. *)
Theorem parse_line_without_blank_overruns key after :
  is_cstring key → Forall (λ c, c ≠ 32 ∧ c ≠ 9 ∧ c ≠ 10) key → key ≠ [] → head key ≠ Some 35 →
  zlen key + 1 < MAXPATTERNLEN →
  ∃ line, fgets (replicate (Z.to_nat LEN) 0) LEN (key ++ [10]) = Some (line, []) ∧ zlen line = LEN ∧
    scan_key line 0 = inr LEN ∧ acsm_parse_line after (Some (key ++ [10])) acsmNew = None.
Proof.
  intros Hcs Hnb Hne Hh Hlen. unfold acsm_parse_line, MAXPATTERNLEN in *.
  pose proof (fgets_zeroed key ltac:(eapply Forall_impl; [exact Hnb|]; cbn; tauto) ltac:(unfold LEN; lia) Hne) as Eg.
  set (line := (key ++ [10]) ++ 0 :: replicate (1024 - S (length (key ++ [10]))) 0) in Eg.
  assert (Hl : zlen line = LEN) by (unfold line, LEN; rewrite !length_app; cbn [length]; rewrite length_replicate; lia).
  assert (Hs : scan_key line 0 = inr LEN).
  { rewrite scan_key_none, Hl; [done|]. apply Forall_app. split.
    - apply Forall_app. split; [|by repeat constructor]. eapply Forall_impl; [exact Hnb|]. apply is_blank_false.
    - apply Forall_cons. split; [done|]. by apply Forall_replicate. }
  assert (Es : strlen_opt line = Some (zlen (key ++ [10]))) by (apply strlen_opt_app, Forall_app; split; [done|by repeat constructor]).
  exists line. split; [exact Eg|]. split; [exact Hl|]. split; [exact Hs|].
  destruct (length (key ++ [10])) as [|fuel] eqn:Hf; [by rewrite length_app in Hf; cbn in Hf; lia|].
  cbn [parse_loop pline]. rewrite Eg, Es.
  cbn [mbind option_bind]. destruct key as [|c key]; [done|]. change (line.[0]) with (Some c).
  cbn [mbind option_bind]. apply Forall_cons in Hcs as Hc. destruct Hc as [Hc _].
  rewrite <- Hf. assert ((MAXPATTERNLEN <=? zlen ((c :: key) ++ [10])) || (c =? 0) || (c =? 35) = false) as ->.
  { unfold MAXPATTERNLEN. rewrite length_app. cbn [length app] in *.
    assert (c ≠ 35) by (intros ->; done). clear Hcs Hnb Hne Hh Hf. destruct (Z.leb_spec 257 (Z.of_nat (S (length key) + 1))), (Z.eqb_spec c 0), (Z.eqb_spec c 35); lia. }
  unfold parse_entry. cbn [pline]. by rewrite Hs.
Qed.

Lemma parse_line_without_blank_overruns_witness :
  ∃ line, fgets (replicate (Z.to_nat LEN) 0) LEN (bytes_of "/youku/" ++ [10]) = Some (line, []) ∧ zlen line = LEN ∧
    scan_key line 0 = inr LEN ∧ acsm_parse_line [] (Some (bytes_of "/youku/" ++ [10])) acsmNew = None.
Proof.
  apply (parse_line_without_blank_overruns (bytes_of "/youku/") []); decide_hyp.
Defined.
