(* ===== verification/Md5.v ===== *)
(** The message digest of the cache keys: SQUID_MD5Init, SQUID_MD5Update,
    SQUID_MD5Final and SQUID_MD5Transform (lib/md5.c), on a little-endian host
    where [byteSwap] is empty.

    The words [in[16]] are kept as the 64 bytes they occupy, because the code
    copies bytes into them; [word_at] reads a word. The step macro and the 64
    calls of it are the table [md5_steps], in source order. *)
From S2P Require Import Prelude CString.

Module Md5.

Definition word_mask : Z := 4294967295.

(** The core functions. *)
Definition F1 (x y z : Z) : Z := Z.lxor z (Z.land x (Z.lxor y z)).
Definition F2 (x y z : Z) : Z := F1 z x y.
Definition F3 (x y z : Z) : Z := Z.lxor (Z.lxor x y) z.
Definition F4 (x y z : Z) : Z := Z.lxor y (Z.lor x (Z.lxor z word_mask)).

(** [w << s | w >> (32 - s)] on 32 bits. *)
Definition rotl (w s : Z) : Z := Z.lor (u32 (Z.shiftl w s)) (Z.shiftr w (32 - s)).

(** [MD5STEP(f,w,x,y,z,in,s)]: the new value of [w]. *)
Definition MD5STEP (f : Z → Z → Z → Z) (w x y z inw s : Z) : Z :=
  let w1 := u32 (w + u32 (f x y z + inw)) in u32 (rotl w1 s + x).

Inductive round := R1 | R2 | R3 | R4.
Definition round_fun (r : round) : Z → Z → Z → Z :=
  match r with R1 => F1 | R2 => F2 | R3 => F3 | R4 => F4 end.

(** The arguments of the 64 steps: function, word of [in], constant, rotation.
    The registers rotate: (a,b,c,d), (d,a,b,c), (c,d,a,b), (b,c,d,a). *)
Definition md5_steps : list (round * Z * Z * Z) := [
  (R1, 0, 0xd76aa478, 7); (R1, 1, 0xe8c7b756, 12);
  (R1, 2, 0x242070db, 17); (R1, 3, 0xc1bdceee, 22);
  (R1, 4, 0xf57c0faf, 7); (R1, 5, 0x4787c62a, 12);
  (R1, 6, 0xa8304613, 17); (R1, 7, 0xfd469501, 22);
  (R1, 8, 0x698098d8, 7); (R1, 9, 0x8b44f7af, 12);
  (R1, 10, 0xffff5bb1, 17); (R1, 11, 0x895cd7be, 22);
  (R1, 12, 0x6b901122, 7); (R1, 13, 0xfd987193, 12);
  (R1, 14, 0xa679438e, 17); (R1, 15, 0x49b40821, 22);
  (R2, 1, 0xf61e2562, 5); (R2, 6, 0xc040b340, 9);
  (R2, 11, 0x265e5a51, 14); (R2, 0, 0xe9b6c7aa, 20);
  (R2, 5, 0xd62f105d, 5); (R2, 10, 0x02441453, 9);
  (R2, 15, 0xd8a1e681, 14); (R2, 4, 0xe7d3fbc8, 20);
  (R2, 9, 0x21e1cde6, 5); (R2, 14, 0xc33707d6, 9);
  (R2, 3, 0xf4d50d87, 14); (R2, 8, 0x455a14ed, 20);
  (R2, 13, 0xa9e3e905, 5); (R2, 2, 0xfcefa3f8, 9);
  (R2, 7, 0x676f02d9, 14); (R2, 12, 0x8d2a4c8a, 20);
  (R3, 5, 0xfffa3942, 4); (R3, 8, 0x8771f681, 11);
  (R3, 11, 0x6d9d6122, 16); (R3, 14, 0xfde5380c, 23);
  (R3, 1, 0xa4beea44, 4); (R3, 4, 0x4bdecfa9, 11);
  (R3, 7, 0xf6bb4b60, 16); (R3, 10, 0xbebfbc70, 23);
  (R3, 13, 0x289b7ec6, 4); (R3, 0, 0xeaa127fa, 11);
  (R3, 3, 0xd4ef3085, 16); (R3, 6, 0x04881d05, 23);
  (R3, 9, 0xd9d4d039, 4); (R3, 12, 0xe6db99e5, 11);
  (R3, 15, 0x1fa27cf8, 16); (R3, 2, 0xc4ac5665, 23);
  (R4, 0, 0xf4292244, 6); (R4, 7, 0x432aff97, 10);
  (R4, 14, 0xab9423a7, 15); (R4, 5, 0xfc93a039, 21);
  (R4, 12, 0x655b59c3, 6); (R4, 3, 0x8f0ccc92, 10);
  (R4, 10, 0xffeff47d, 15); (R4, 1, 0x85845dd1, 21);
  (R4, 8, 0x6fa87e4f, 6); (R4, 15, 0xfe2ce6e0, 10);
  (R4, 6, 0xa3014314, 15); (R4, 13, 0x4e0811a1, 21);
  (R4, 4, 0xf7537e82, 6); (R4, 11, 0xbd3af235, 10);
  (R4, 2, 0x2ad7d2bb, 15); (R4, 9, 0xeb86d391, 21)].

(** One step on the registers, then the rotation that puts the next register
    to be changed first. *)
Definition md5_step (inw : list Z) (r : option (Z * Z * Z * Z)) (s : round * Z * Z * Z)
  : option (Z * Z * Z * Z) :=
  '(a, b, c, d) ← r;
  let '(f, k, t, sh) := s in
  x ← inw.[k];
  Some (d, MD5STEP (round_fun f) a b c d (u32 (x + t)) sh, b, c).

(** SQUID_MD5Transform(buf, in). *)
Definition SQUID_MD5Transform (buf inw : list Z) : option (list Z) :=
  a ← buf.[0]; b ← buf.[1]; c ← buf.[2]; d ← buf.[3];
  '(a', b', c', d') ← foldl (md5_step inw) (Some (a, b, c, d)) md5_steps;
  Some [u32 (a + a'); u32 (b + b'); u32 (c + c'); u32 (d + d')].

Record MD5Context := mkMD5 {
  buf : list Z;        (* uint32_t buf[4] *)
  bytes0 : Z;          (* uint32_t bytes[2] *)
  bytes1 : Z;
  inb : list Z }.      (* uint32_t in[16], as bytes *)

(** Little-endian words and their bytes. *)
Definition le_word (b : list Z) : Z :=
  match b with
  | [b0; b1; b2; b3] => b0 + 256 * b1 + 65536 * b2 + 16777216 * b3
  | _ => 0
  end.
Definition le_bytes (w : Z) : list Z :=
  [w mod 256; (w / 256) mod 256; (w / 65536) mod 256; (w / 16777216) mod 256].

Fixpoint words (n : nat) (b : list Z) : list Z :=
  match n with O => [] | S n' => le_word (take 4 b) :: words n' (drop 4 b) end.

(** SQUID_MD5Init: [in] keeps whatever it held. *)
Definition SQUID_MD5Init (ctx : MD5Context) : MD5Context :=
  mkMD5 [0x67452301; 0xefcdab89; 0x98badcfe; 0x10325476] 0 0 (inb ctx).

(** [while (len >= 64)], then the remaining bytes. *)
Fixpoint update_loop (fuel : nat) (bufw inn data : list Z) : option (list Z * list Z) :=
  if 64 <=? zlen data then
    match fuel with
    | O => None
    | S fuel' =>
        in1 ← memcpy inn 0 (take 64 data);
        b1 ← SQUID_MD5Transform bufw (words 16 in1);
        update_loop fuel' b1 in1 (drop 64 data)
    end
  else in1 ← memcpy inn 0 data; Some (bufw, in1).

(** SQUID_MD5Update(ctx, data, |data|). *)
Definition SQUID_MD5Update (ctx : MD5Context) (data : list Z) : option MD5Context :=
  let len := zlen data in
  let t0 := bytes0 ctx in
  let b0 := u32 (t0 + len) in
  let b1 := if b0 <? t0 then u32 (bytes1 ctx + 1) else bytes1 ctx in
  let t := 64 - Z.land t0 63 in
  if len <? t then
    in1 ← memcpy (inb ctx) (64 - t) data; Some (mkMD5 (buf ctx) b0 b1 in1)
  else
    in1 ← memcpy (inb ctx) (64 - t) (take (Z.to_nat t) data);
    h ← SQUID_MD5Transform (buf ctx) (words 16 in1);
    '(h', in2) ← update_loop (length data) h in1 (drop (Z.to_nat t) data);
    Some (mkMD5 h' b0 b1 in2).

(** SQUID_MD5Final: the digest. (The [memset] that follows clears only
    [sizeof] a pointer of a context nobody reads again.) *)
Definition SQUID_MD5Final (ctx : MD5Context) : option (list Z) :=
  let count := Z.land (bytes0 ctx) 63 in
  in1 ← memcpy (inb ctx) count [128];
  let p := count + 1 in
  let count1 := 55 - count in
  '(h, in2, p2, count2) ←
     (if count1 <? 0 then
        in2 ← memset in1 p 0 (count1 + 8);
        h ← SQUID_MD5Transform (buf ctx) (words 16 in2);
        Some (h, in2, 0, 56)
      else Some (buf ctx, in1, p, count1));
  in3 ← memset in2 p2 0 count2;
  in4 ← memcpy in3 56 (le_bytes (u32 (Z.shiftl (bytes0 ctx) 3)));
  in5 ← memcpy in4 60
          (le_bytes (Z.lor (u32 (Z.shiftl (bytes1 ctx) 3)) (Z.shiftr (bytes0 ctx) 29)));
  h' ← SQUID_MD5Transform h (words 16 in5);
  Some (concat (le_bytes <$> h')).

(** The sequence the callers use: Init, one Update per piece, Final. *)
Definition md5_pieces (ctx : MD5Context) (pieces : list (list Z)) : option (list Z) :=
  c ← foldl (λ oc p, c ← oc; SQUID_MD5Update c p) (Some (SQUID_MD5Init ctx)) pieces;
  SQUID_MD5Final c.

End Md5.
Import Md5.

(** * The digest of RFC 1321

    The rounds written as the RFC gives them, with its word schedule, rotations
    and the table [T i], the integer part of [2^32 * abs (sin i)]. *)
Definition not32 (x : Z) : Z := Z.lxor x word_mask.

Definition rfc_fun (r : round) (x y z : Z) : Z :=
  match r with
  | R1 => Z.lor (Z.land x y) (Z.land (not32 x) z)
  | R2 => Z.lor (Z.land x z) (Z.land y (not32 z))
  | R3 => Z.lxor (Z.lxor x y) z
  | R4 => Z.lxor y (Z.lor x (not32 z))
  end.

Definition rfc_round (i : Z) : round :=
  if i <? 16 then R1 else if i <? 32 then R2 else if i <? 48 then R3 else R4.

Definition rfc_word (i : Z) : Z :=
  match rfc_round i with
  | R1 => i
  | R2 => (1 + 5 * (i - 16)) mod 16
  | R3 => (5 + 3 * (i - 32)) mod 16
  | R4 => (7 * (i - 48)) mod 16
  end.

Definition rfc_shift (i : Z) : Z :=
  default 0 (match rfc_round i with
             | R1 => [7; 12; 17; 22] | R2 => [5; 9; 14; 20]
             | R3 => [4; 11; 16; 23] | R4 => [6; 10; 15; 21]
             end).[i mod 4].

Definition rfc_T : list Z := [
  0xd76aa478; 0xe8c7b756; 0x242070db; 0xc1bdceee; 0xf57c0faf; 0x4787c62a; 0xa8304613; 0xfd469501;
  0x698098d8; 0x8b44f7af; 0xffff5bb1; 0x895cd7be; 0x6b901122; 0xfd987193; 0xa679438e; 0x49b40821;
  0xf61e2562; 0xc040b340; 0x265e5a51; 0xe9b6c7aa; 0xd62f105d; 0x02441453; 0xd8a1e681; 0xe7d3fbc8;
  0x21e1cde6; 0xc33707d6; 0xf4d50d87; 0x455a14ed; 0xa9e3e905; 0xfcefa3f8; 0x676f02d9; 0x8d2a4c8a;
  0xfffa3942; 0x8771f681; 0x6d9d6122; 0xfde5380c; 0xa4beea44; 0x4bdecfa9; 0xf6bb4b60; 0xbebfbc70;
  0x289b7ec6; 0xeaa127fa; 0xd4ef3085; 0x04881d05; 0xd9d4d039; 0xe6db99e5; 0x1fa27cf8; 0xc4ac5665;
  0xf4292244; 0x432aff97; 0xab9423a7; 0xfc93a039; 0x655b59c3; 0x8f0ccc92; 0xffeff47d; 0x85845dd1;
  0x6fa87e4f; 0xfe2ce6e0; 0xa3014314; 0x4e0811a1; 0xf7537e82; 0xbd3af235; 0x2ad7d2bb; 0xeb86d391].

(** [a = b + ((a + F(b,c,d) + X[k] + T[i]) <<< s)], registers rotated. *)
Definition rfc_step (X : list Z) (r : Z * Z * Z * Z) (i : Z) : Z * Z * Z * Z :=
  let '(a, b, c, d) := r in
  (d, u32 (b + rotl (u32 (a + rfc_fun (rfc_round i) b c d
                          + default 0 X.[rfc_word i] + default 0 rfc_T.[i])) (rfc_shift i)),
   b, c).

Definition rfc_block (h X : list Z) : list Z :=
  match h with
  | [a; b; c; d] =>
      let '(a', b', c', d') := foldl (rfc_step X) (a, b, c, d) (seqZ 0 64) in
      [u32 (a + a'); u32 (b + b'); u32 (c + c'); u32 (d + d')]
  | _ => []
  end.

Definition is_word (w : Z) : Prop := 0 <= w < 4294967296.

Lemma testbit_mask n : 0 <= n → Z.testbit word_mask n = (n <? 32).
Proof.
  intros Hn. change word_mask with (Z.ones 32). destruct (Z.ltb_spec n 32).
  - apply Z.ones_spec_low. lia.
  - apply Z.ones_spec_high. lia.
Qed.

Lemma testbit_word_high w n : is_word w → 32 <= n → Z.testbit w n = false.
Proof.
  intros [H0 H1] Hn. destruct (decide (w = 0)) as [->|]; [apply Z.bits_0|].
  apply Z.bits_above_log2; [lia|]. apply Z.log2_lt_pow2; [lia|].
  apply Z.lt_le_trans with (2 ^ 32); [exact H1|]. by apply Z.pow_le_mono_r.
Qed.

(** The optimised selection functions are the RFC's. *)
Lemma round_fun_rfc r x y z :
  is_word x → is_word y → is_word z → round_fun r x y z = rfc_fun r x y z.
Proof.
  intros Hx Hy Hz. apply Z.bits_inj'. intros n Hn.
  destruct r; cbn [round_fun rfc_fun]; unfold F1, F2, F3, F4, F1, not32;
    rewrite ?Z.lor_spec, ?Z.land_spec, ?Z.lxor_spec, ?Z.land_spec, ?Z.lor_spec,
      ?Z.lxor_spec, ?testbit_mask by done; try done;
    (destruct (Z.ltb_spec n 32) as [Hlt|Hge];
     [|rewrite ?(testbit_word_high x), ?(testbit_word_high y), ?(testbit_word_high z) by done]);
    repeat (match goal with |- context [Z.testbit ?a n] => destruct (Z.testbit a n) end); done.
Qed.

(** The row of [md5_steps] the RFC's schedule gives for step [i]. *)
Definition rfc_row (i : Z) : round * Z * Z * Z :=
  (rfc_round i, rfc_word i, default 0 rfc_T.[i], rfc_shift i).

Lemma md5_steps_rfc : md5_steps = rfc_row <$> seqZ 0 64.
Proof. vm_compute. reflexivity. Qed.

Lemma rfc_word_range i : 0 <= i < 64 → 0 <= rfc_word i < 16.
Proof.
  intros Hi. unfold rfc_word, rfc_round.
  repeat case_match; zbool; try (apply Z.mod_pos_bound; lia); try done.
Qed.

Definition regs_ok (r : Z * Z * Z * Z) : Prop :=
  let '(a, b, c, d) := r in is_word a ∧ is_word b ∧ is_word c ∧ is_word d.

Lemma rfc_step_ok X r i : regs_ok r → regs_ok (rfc_step X r i).
Proof.
  destruct r as [[[a b] c] d]. intros (Ha & Hb & Hc & Hd). unfold rfc_step, regs_ok.
  split_and!; try apply Hd; try apply Hb; try apply Hc; apply u32_range.
Qed.

Lemma md5_step_rfc X r i :
  length X = 16%nat → 0 <= i < 64 → regs_ok r →
  md5_step X (Some r) (rfc_row i) = Some (rfc_step X r i).
Proof.
  destruct r as [[[a b] c] d]. intros HX Hi (Ha & Hb & Hc & Hd).
  unfold md5_step, rfc_row, rfc_step. cbn [mbind option_bind].
  destruct (zget_is_Some X (rfc_word i)) as [x Hx].
  { pose proof (rfc_word_range i Hi). lia. }
  rewrite Hx. cbn [mbind option_bind default from_option id]. unfold MD5STEP.
  rewrite round_fun_rfc by done. rewrite !u32_add_r.
  by rewrite !Z.add_assoc, (Z.add_comm b), u32_add_r, !Z.add_assoc.
Qed.

Lemma md5_fold_rfc X l r :
  length X = 16%nat → Forall (λ i, 0 <= i < 64) l → regs_ok r →
  foldl (md5_step X) (Some r) (rfc_row <$> l) = Some (foldl (rfc_step X) r l).
Proof.
  intros HX Hl. revert r. induction Hl as [|i l' Hi Hl IH]; intros r Hr; [done|].
  rewrite fmap_cons. cbn [foldl]. rewrite md5_step_rfc by done. apply IH. by apply rfc_step_ok.
Qed.

Definition hash_ok (h : list Z) : Prop := length h = 4%nat ∧ Forall is_word h.

Lemma Transform_rfc h X :
  hash_ok h → length X = 16%nat →
  SQUID_MD5Transform h X = Some (rfc_block h X) ∧ hash_ok (rfc_block h X).
Proof.
  intros [Hl Hh] HX. destruct h as [|a [|b [|c [|d [|]]]]]; try done.
  rewrite !Forall_cons in Hh. destruct Hh as (Ha & Hb & Hc & Hd & _).
  unfold SQUID_MD5Transform, rfc_block. cbn [mbind option_bind].
  change ([a; b; c; d].[0]) with (Some a). change ([a; b; c; d].[1]) with (Some b).
  change ([a; b; c; d].[2]) with (Some c). change ([a; b; c; d].[3]) with (Some d).
  cbn [mbind option_bind]. rewrite md5_steps_rfc, md5_fold_rfc; [|done| |done].
  - cbn [mbind option_bind]. destruct (foldl _ _ _) as [[[a' b'] c'] d'].
    split; [done|]. split; [done|]. repeat constructor; apply u32_range.
  - apply Forall_forall. intros i Hi. rewrite elem_of_seqZ in Hi. lia.
Qed.

(** ** Hashing a message block by block *)

Definition md5_iv : list Z := [0x67452301; 0xefcdab89; 0x98badcfe; 0x10325476].

(** The first [n] blocks of [msg]. *)
Fixpoint absorb (n : nat) (h msg : list Z) : list Z :=
  match n with
  | O => h
  | S n' => absorb n' (rfc_block h (words 16 (take 64 msg))) (drop 64 msg)
  end.

Definition le64 (x : Z) : list Z := le_bytes (u32 x) ++ le_bytes (u32 (x / 4294967296)).

(** The padded message: a one bit, zeros up to 56 modulo 64, the bit count. *)
Definition md5_pad (msg : list Z) : list Z :=
  msg ++ [128] ++ replicate (Z.to_nat ((55 - zlen msg) mod 64)) 0 ++ le64 (8 * zlen msg).

Definition md5 (msg : list Z) : list Z :=
  let p := md5_pad msg in concat (le_bytes <$> absorb (length p / 64) md5_iv p).

Lemma length_words n b : length (words n b) = n.
Proof. revert b. induction n; intros b; cbn; [done|]. by f_equal. Qed.

Lemma Transform_words h b :
  hash_ok h →
  SQUID_MD5Transform h (words 16 b) = Some (rfc_block h (words 16 b)) ∧
  hash_ok (rfc_block h (words 16 b)).
Proof. intros. apply Transform_rfc; [done|]. apply length_words. Qed.

Lemma md5_iv_ok : hash_ok md5_iv.
Proof. split; [done|]. repeat constructor; done. Qed.

Lemma absorb_ok n : ∀ h msg, hash_ok h → hash_ok (absorb n h msg).
Proof. induction n; intros h msg Hh; cbn; [done|]. apply IHn. by apply Transform_words. Qed.

Lemma absorb_app n : ∀ m h a b,
  length a = (64 * n)%nat → absorb (n + m) h (a ++ b) = absorb m (absorb n h a) b.
Proof.
  induction n as [|n IH]; intros m h a b Hl; cbn [absorb Nat.add].
  { by apply nil_length_inv in Hl as ->. }
  rewrite (take_app_le a) by lia. rewrite (drop_app_le a) by lia. apply IH.
  rewrite length_drop. lia.
Qed.

Lemma absorb_trim n h a b : length a = (64 * n)%nat → absorb n h (a ++ b) = absorb n h a.
Proof. intros. rewrite <- (Nat.add_0_r n) at 1. by rewrite absorb_app. Qed.

Lemma absorb_snoc n h a b :
  length a = (64 * n)%nat → length b = 64%nat →
  absorb (S n) h (a ++ b) = rfc_block (absorb n h a) (words 16 b).
Proof.
  intros Ha Hb. replace (S n) with (n + 1)%nat by lia. rewrite absorb_app by done.
  cbn [absorb]. by rewrite (take_ge b) by lia.
Qed.

(** ** What a context holds *)

Lemma memcpy_extend inn rest data :
  length inn = 64%nat → take (length rest) inn = rest →
  (length rest + length data <= 64)%nat →
  ∃ inn', memcpy inn (zlen rest) data = Some inn' ∧ length inn' = 64%nat ∧
          take (length (rest ++ data)) inn' = rest ++ data.
Proof.
  intros Hl Hr Hd. unfold memcpy. rewrite decide_True by lia. eexists. split; [done|].
  rewrite Nat2Z.id, Hr. split.
  - rewrite !length_app, length_drop. lia.
  - by rewrite app_assoc, take_app_length.
Qed.

Record rep (c : MD5Context) (msg : list Z) (n : nat) (pre rest : list Z) : Prop := mkRep {
  rep_msg : msg = pre ++ rest;
  rep_pre : length pre = (64 * n)%nat;
  rep_rest : (length rest < 64)%nat;
  rep_in : length (inb c) = 64%nat;
  rep_prefix : take (length rest) (inb c) = rest;
  rep_buf : buf c = absorb n md5_iv pre;
  rep_b0 : bytes0 c = u32 (zlen msg);
  rep_b1 : bytes1 c = u32 (zlen msg / 4294967296) }.

Lemma rep_count c msg n pre rest : rep c msg n pre rest → Z.land (bytes0 c) 63 = zlen rest.
Proof.
  intros [Hm Hp Hr _ _ _ Hb _]. rewrite Hb. change 63 with (Z.ones 6). rewrite Z.land_ones by lia.
  change (2 ^ 6) with 64. unfold u32.
  rewrite Z.mod_mod_divide by by exists 67108864.
  subst msg. rewrite length_app. symmetry.
  apply (Z.mod_unique_pos _ _ (Z.of_nat n)); [lia|]. rewrite Nat2Z.inj_add, Hp. lia.
Qed.

Lemma rep_init ctx : length (inb ctx) = 64%nat → rep (SQUID_MD5Init ctx) [] 0 [] [].
Proof. intros. constructor; cbn; done || lia. Qed.

(** The carry of the byte counter. *)
Lemma count_carry L len :
  0 <= L → 0 <= len < 4294967296 →
  (if u32 (u32 L + len) <? u32 L then u32 (u32 (L / 4294967296) + 1) else u32 (L / 4294967296))
  = u32 ((L + len) / 4294967296).
Proof.
  intros HL Hlen. pose proof (Z.div_mod L 4294967296 ltac:(lia)) as Hdm.
  unfold u32 at 1 2 3. pose proof (Z.mod_pos_bound L 4294967296 ltac:(lia)) as Hr.
  set (q := L / 4294967296) in *. set (r := L mod 4294967296) in *.
  destruct (decide (r + len < 4294967296)) as [Hs|Hs].
  - rewrite (Z.mod_small (r + len)) by lia. destruct (Z.ltb_spec (r + len) r); [lia|].
    f_equal. apply (Z.div_unique _ _ _ (r + len)); lia.
  - rewrite <- (Z.mod_unique (r + len) 4294967296 1 (r + len - 4294967296)) by lia.
    destruct (Z.ltb_spec (r + len - 4294967296) r); [|lia].
    replace ((L + len) / 4294967296) with (q + 1)
      by (apply (Z.div_unique _ _ _ (r + len - 4294967296)); lia).
    rewrite Z.add_comm, u32_add_r. f_equal. lia.
Qed.

Lemma update_loop_ok fuel : ∀ n pre inn data,
  (length data <= fuel)%nat → length pre = (64 * n)%nat → length inn = 64%nat →
  ∃ m blocks rest inn',
    data = blocks ++ rest ∧ length blocks = (64 * m)%nat ∧ (length rest < 64)%nat ∧
    update_loop fuel (absorb n md5_iv pre) inn data
      = Some (absorb (n + m) md5_iv (pre ++ blocks), inn') ∧
    length inn' = 64%nat ∧ take (length rest) inn' = rest.
Proof.
  induction fuel as [|fuel IH]; intros n pre inn data Hf Hp Hi; cbn [update_loop];
    (destruct (Z.leb_spec 64 (zlen data));
     [|destruct (memcpy_extend inn [] data) as (inn' & Hm & Hl & Ht); [done..|cbn in *; lia|];
       change (zlen []) with 0 in Hm; rewrite Hm;
       exists 0%nat, [], data, inn'; rewrite app_nil_r, Nat.add_0_r; split_and!; done || lia]);
    [lia|].
  destruct (memcpy_extend inn [] (take 64 data)) as (in1 & Hm & Hl & Ht);
    [done|done|rewrite length_take; cbn [length]; lia|].
  change (zlen []) with 0 in Hm. rewrite Hm. cbn [mbind option_bind app] in *.
  rewrite length_take, Nat.min_l, take_ge in Ht by lia. subst in1.
  destruct (Transform_words (absorb n md5_iv pre) (take 64 data)) as [-> _].
  { apply absorb_ok, md5_iv_ok. }
  cbn [mbind option_bind]. rewrite <- absorb_snoc by done.
  destruct (IH (S n) (pre ++ take 64 data) (take 64 data) (drop 64 data))
    as (m & blocks & rest & inn' & Hd & Hb & Hr & -> & Hin & Htk).
  { rewrite length_drop. lia. } { rewrite length_app. lia. } { done. }
  exists (S m), (take 64 data ++ blocks), rest, inn'. rewrite <- app_assoc, <- Hd, take_drop.
  split_and!; try done; [rewrite length_app; lia|]. rewrite app_assoc.
  replace (n + S m)%nat with (S n + m)%nat by lia. done.
Qed.

Lemma Update_ok c msg n pre rest data :
  rep c msg n pre rest → zlen data < 4294967296 →
  ∃ c' n' pre' rest', SQUID_MD5Update c data = Some c' ∧ rep c' (msg ++ data) n' pre' rest'.
Proof.
  intros Hrep Hlen. pose proof (rep_count _ _ _ _ _ Hrep) as Hcnt.
  destruct Hrep as [Hm Hp Hr Hi Ht Hb H0 H1].
  assert (B0 : u32 (bytes0 c + zlen data) = u32 (zlen (msg ++ data))).
  { rewrite H0, Z.add_comm, u32_add_r, length_app. f_equal. lia. }
  pose proof (count_carry (zlen msg) (zlen data) ltac:(lia) ltac:(lia)) as B1.
  rewrite <- H0, <- H1, <- Nat2Z.inj_add, <- length_app in B1.
  unfold SQUID_MD5Update. rewrite Hcnt, B0. rewrite B0 in B1. rewrite B1.
  replace (64 - (64 - zlen rest)) with (zlen rest) by lia.
  destruct (Z.ltb_spec (zlen data) (64 - zlen rest)).
  - destruct (memcpy_extend (inb c) rest data) as (in1 & -> & Hl & Htk); [done..|lia|].
    cbn [mbind option_bind]. eexists _, n, pre, (rest ++ data). split; [done|].
    constructor; cbn [buf bytes0 bytes1 inb]; try done; [by rewrite Hm, app_assoc|rewrite length_app; lia].
  - set (t := Z.to_nat (64 - zlen rest)).
    destruct (memcpy_extend (inb c) rest (take t data)) as (in1 & -> & Hl & Htk);
      [done..|rewrite length_take; lia|].
    cbn [mbind option_bind]. rewrite length_app, length_take, take_ge in Htk by lia.
    rewrite Hb, Htk. destruct (Transform_words (absorb n md5_iv pre) (rest ++ take t data)) as [-> _].
    { apply absorb_ok, md5_iv_ok. }
    cbn [mbind option_bind].
    rewrite <- absorb_snoc by (done || rewrite length_app, length_take; lia).
    destruct (update_loop_ok (length data) (S n) (pre ++ rest ++ take t data) (rest ++ take t data)
      (drop t data)) as (m & blocks & rest' & inn' & Hd & Hbl & Hr' & -> & Hin & Htk').
    { rewrite length_drop. lia. } { rewrite !length_app, length_take. lia. } { by rewrite <- Htk. }
    cbn [mbind option_bind]. eexists _, _, ((pre ++ rest ++ take t data) ++ blocks), rest'.
    split; [done|]. constructor; cbn [buf bytes0 bytes1 inb]; try done.
    + rewrite <- !app_assoc, <- Hd, take_drop. by rewrite Hm, <- app_assoc.
    + rewrite !length_app, length_take. lia.
Qed.

(** The two words of the bit count. *)
Lemma bits_low L : u32 (Z.shiftl (u32 L) 3) = u32 (8 * L).
Proof.
  rewrite Z.shiftl_mul_pow2, Z.mul_comm by lia. change (2 ^ 3) with 8. unfold u32.
  apply Zmult_mod_idemp_r.
Qed.

Lemma bits_high L : 0 <= L →
  Z.lor (u32 (Z.shiftl (u32 (L / 4294967296)) 3)) (Z.shiftr (u32 L) 29)
  = u32 (8 * L / 4294967296).
Proof.
  intros HL. rewrite bits_low. rewrite Z.shiftr_div_pow2 by lia. change (2 ^ 29) with 536870912.
  pose proof (Z.div_mod L 4294967296 ltac:(lia)) as HD.
  pose proof (u32_range L) as Hr. unfold u32 in *.
  set (q := L / 4294967296) in *. set (r := L mod 4294967296) in *.
  assert (Hq : 8 * L / 4294967296 = q * 8 + r / 536870912).
  { symmetry. pose proof (Z.div_mod r 536870912 ltac:(lia)).
    pose proof (Z.mod_pos_bound r 536870912 ltac:(lia)).
    apply (Z.div_unique _ _ _ (8 * (r mod 536870912))); lia. }
  assert (0 <= r / 536870912 < 8).
  { split; [apply Z.div_pos; lia|apply Z.div_lt_upper_bound; lia]. }
  assert (0 <= q) by (apply Z.div_pos; lia).
  replace 4294967296 with (8 * 536870912) at 1 by done.
  rewrite Z.mul_mod_distr_l by lia. rewrite Z.mul_comm.
  pose proof (Z.mod_pos_bound q 536870912 ltac:(lia)). change 8 with (2 ^ 3) at 1. rewrite lor_low_bits by lia. change (2 ^ 3) with 8. rewrite Hq.
  pose proof (Z.div_mod q 536870912 ltac:(lia)).
  apply (Z.mod_unique_pos _ _ (q / 536870912)); lia.
Qed.

Lemma pad_zeros L k r : 0 <= r < 64 → L = 64 * k + r →
  (55 - L) mod 64 = if 55 <? r then 119 - r else 55 - r.
Proof.
  intros Hr ->. symmetry. destruct (Z.ltb_spec 55 r).
  - apply (Z.mod_unique_pos _ _ (- k - 1)); lia.
  - apply (Z.mod_unique_pos _ _ (- k)); lia.
Qed.

(** The end of [SQUID_MD5Final]: the last block, once its first bytes are [blk]. *)
Lemma final_block n pre inn blk L p count :
  0 <= L → length inn = 64%nat → take (length blk) inn = blk → length pre = (64 * n)%nat →
  p = zlen blk → count = 56 - p → 0 <= count →
  (in3 ← memset inn p 0 count;
   in4 ← memcpy in3 56 (le_bytes (u32 (Z.shiftl (u32 L) 3)));
   in5 ← memcpy in4 60
     (le_bytes (Z.lor (u32 (Z.shiftl (u32 (L / 4294967296)) 3)) (Z.shiftr (u32 L) 29)));
   h' ← SQUID_MD5Transform (absorb n md5_iv pre) (words 16 in5);
   Some (concat (le_bytes <$> h')))
  = Some (concat (le_bytes <$>
      absorb (S n) md5_iv (pre ++ blk ++ replicate (Z.to_nat count) 0 ++ le64 (8 * L)))).
Proof.
  intros HL Hi Ht Hp -> -> Hc. unfold memset. rewrite decide_True by done.
  set (z := replicate _ _).
  assert (Hz : length z = (56 - length blk)%nat) by (unfold z; rewrite length_replicate; lia).
  destruct (memcpy_extend inn blk z) as (in3 & -> & L3 & T3); [done..|lia|].
  cbn [mbind option_bind]. rewrite (bits_low L), (bits_high L) by done.
  destruct (memcpy_extend in3 (blk ++ z) (le_bytes (u32 (8 * L)))) as (in4 & E4 & L4 & T4);
    [done..|rewrite length_app; cbn [length le_bytes]; lia|].
  replace (zlen (blk ++ z)) with 56 in E4 by (rewrite length_app; lia).
  rewrite E4. cbn [mbind option_bind].
  destruct (memcpy_extend in4 ((blk ++ z) ++ le_bytes (u32 (8 * L)))
              (le_bytes (u32 (8 * L / 4294967296)))) as (in5 & E5 & L5 & T5);
    [done..|rewrite !length_app; cbn [length le_bytes]; lia|].
  replace (zlen ((blk ++ z) ++ le_bytes (u32 (8 * L)))) with 60 in E5
    by (rewrite !length_app; cbn [length le_bytes]; lia).
  rewrite E5. cbn [mbind option_bind].
  rewrite take_ge in T5 by (rewrite !length_app; cbn [length le_bytes]; lia). subst in5.
  destruct (Transform_words (absorb n md5_iv pre)
     (((blk ++ z) ++ le_bytes (u32 (8 * L))) ++ le_bytes (u32 (8 * L / 4294967296)))) as [-> _].
  { apply absorb_ok, md5_iv_ok. }
  cbn [mbind option_bind]. do 3 f_equal. rewrite <- absorb_snoc by done.
  unfold le64. by rewrite <- !app_assoc.
Qed.

Lemma Final_ok c msg n pre rest : rep c msg n pre rest → SQUID_MD5Final c = Some (md5 msg).
Proof.
  intros Hrep. pose proof (rep_count _ _ _ _ _ Hrep) as Hcnt.
  destruct Hrep as [Hm Hp Hr Hi Ht Hb H0 H1].
  unfold SQUID_MD5Final. rewrite Hcnt.
  destruct (memcpy_extend (inb c) rest [128]) as (in1 & -> & L1 & T1); [done..|cbn; lia|].
  cbn [mbind option_bind].
  assert (Hz : (55 - zlen msg) mod 64 = if 55 <? zlen rest then 119 - zlen rest else 55 - zlen rest).
  { apply (pad_zeros _ (Z.of_nat n)); [lia|]. rewrite Hm, length_app. lia. }
  unfold md5, md5_pad. rewrite Hz.
  destruct (Z.ltb_spec (55 - zlen rest) 0), (Z.ltb_spec 55 (zlen rest)); try lia.
  - set (z := replicate (Z.to_nat (55 - zlen rest + 8)) 0).
    assert (Hlz : length z = (63 - length rest)%nat) by (unfold z; rewrite length_replicate; lia).
    destruct (memcpy_extend in1 (rest ++ [128]) z) as (in2 & E2 & L2 & T2);
      [done..|rewrite length_app; cbn; lia|].
    replace (zlen (rest ++ [128])) with (zlen rest + 1) in E2 by (rewrite length_app; cbn; lia).
    assert (memset in1 (zlen rest + 1) 0 (55 - zlen rest + 8) = Some in2) as ->
      by (unfold memset; by rewrite decide_True by lia).
    cbn [mbind option_bind].
    rewrite take_ge in T2 by (rewrite !length_app; cbn; lia). rewrite Hb, T2.
    destruct (Transform_words (absorb n md5_iv pre) ((rest ++ [128]) ++ z)) as [-> _].
    { apply absorb_ok, md5_iv_ok. }
    cbn [mbind option_bind].
    rewrite <- absorb_snoc by (done || rewrite !length_app; cbn; lia). rewrite H0, H1.
    rewrite (final_block (S n) _ _ []) by (done || rewrite ?length_app; cbn; lia).
    rewrite Hm. do 3 f_equal.
    replace (Z.to_nat (119 - zlen rest)) with (Z.to_nat (55 - zlen rest + 8) + 56)%nat by lia.
    rewrite replicate_add. fold z.
    match goal with |- _ = absorb (length ?w / 64) _ _ =>
      assert (Hw : (length w / 64)%nat = S (S n)) end.
    { rewrite !length_app, length_replicate. cbn [length le64 app le_bytes].
      symmetry. apply (Nat.div_unique _ _ _ 0); lia. }
    rewrite Hw. f_equal. by rewrite <- !app_assoc.
  - cbn [mbind option_bind]. rewrite Hb, H0, H1.
    rewrite (final_block n _ _ (rest ++ [128]))
      by (done || rewrite ?length_app; cbn [length]; lia).
    do 3 f_equal. match goal with |- _ = absorb (length ?w / 64) _ _ =>
      assert (Hw : (length w / 64)%nat = S n) end.
    { rewrite Hm, !length_app, length_replicate. cbn [length le64 app le_bytes].
      symmetry. apply (Nat.div_unique _ _ _ 0); lia. }
    rewrite Hw, Hm. f_equal. by rewrite <- !app_assoc.
Qed.

Lemma fold_update_ok pieces : Forall (λ p, zlen p < 4294967296) pieces →
  ∀ c msg n pre rest, rep c msg n pre rest →
  ∃ c' n' pre' rest',
    foldl (λ oc p, c ← oc; SQUID_MD5Update c p) (Some c) pieces = Some c' ∧
    rep c' (msg ++ concat pieces) n' pre' rest'.
Proof.
  induction 1 as [|p ps Hp Hps IH]; intros c msg n pre rest Hrep; cbn [foldl concat].
  { rewrite app_nil_r. eauto 10. }
  destruct (Update_ok _ _ _ _ _ p Hrep Hp) as (c1 & n1 & pre1 & rest1 & E & H1).
  cbn [mbind option_bind]. rewrite E.
  destruct (IH _ _ _ _ _ H1) as (c2 & n2 & pre2 & rest2 & E2 & H2).
  rewrite <- app_assoc in H2. eauto 10.
Qed.

Lemma md5_pieces_ok ctx pieces :
  length (inb ctx) = 64%nat → Forall (λ p, zlen p < 4294967296) pieces →
  md5_pieces ctx pieces = Some (md5 (concat pieces)).
Proof.
  intros Hi Hp. unfold md5_pieces.
  destruct (fold_update_ok pieces Hp _ _ _ _ _ (rep_init ctx Hi)) as (c & n & pre & rest & -> & Hr).
  by eapply Final_ok.
Qed.

(** C7: initialising a context, feeding it a message in any pieces and finishing
    it yields the RFC 1321 digest of the concatenation: how the message is split
    and what the uninitialised input words held make no difference, no step
    leaves its buffers and the loops end. *)
Theorem md5_streaming_is_rfc1321 ctx pieces :
  length (inb ctx) = 64%nat → Forall (λ p, zlen p < 4294967296) pieces →
  md5_pieces ctx pieces = Some (md5 (concat pieces)).
Proof. apply md5_pieces_ok. Qed.

Definition junk_ctx : MD5Context := mkMD5 [] 5 6 (replicate 64 170).

Lemma md5_streaming_is_rfc1321_witness :
  md5_pieces junk_ctx [bytes_of "a"; bytes_of "bc"] = Some (md5 (bytes_of "abc")).
Proof.
  apply (md5_streaming_is_rfc1321 junk_ctx [bytes_of "a"; bytes_of "bc"]).
  - reflexivity.
  - repeat constructor.
Defined.

(** The RFC's test values. *)
Example md5_abc : md5 (bytes_of "abc") =
  [0x90; 0x01; 0x50; 0x98; 0x3c; 0xd2; 0x4f; 0xb0; 0xd6; 0x96; 0x3f; 0x7d; 0x28; 0xe1; 0x7f; 0x72].
Proof. vm_compute. reflexivity. Qed.

Example md5_empty : md5 [] =
  [0xd4; 0x1d; 0x8c; 0xd9; 0x8f; 0x00; 0xb2; 0x04; 0xe9; 0x80; 0x09; 0x98; 0xec; 0xf8; 0x42; 0x7e].
Proof. vm_compute. reflexivity. Qed.
