(* ===== verification/VideoReg.v ===== *)
(** Extraction of the video identifier of a URL: [youkuExtractID],
    [letvExtractID], the table [pf] and [selectFunc] (libvideoreg/src/videoreg.c).

    A URL is the list of its bytes and a pointer into it an offset; reading at
    the offset of the terminator gives 0 and past it is [None]. [id] is the
    caller's array and a write outside it is [None], as is the call of [strncpy]
    with a negative length, which the conversion to [size_t] makes enormous. *)
From S2P Require Import Prelude CString.

Module VideoReg.

Definition MAXFLAGNUM : Z := 999.
Definition s_youku : list Z := bytes_of "/youku/".
Definition s_letv : list Z := bytes_of "/letv-uts/".
Definition s_flv : list Z := bytes_of ".flv".
Definition s_mp4 : list Z := bytes_of ".mp4".
Definition s_flv_nk : list Z := bytes_of ".flv?nk=".
Definition s_mp4_nk : list Z := bytes_of ".mp4?nk=".
Definition s_ver : list Z := bytes_of "ver_".
Definition s_ts : list Z := bytes_of ".ts".

Definition found (o : option Z) : bool := match o with Some _ => true | None => false end.

(** [while ( ( *p++) != '/' && *p != 0)]: the pointer after the loop. *)
Fixpoint skip_slash (fuel : nat) (url : list Z) (p : Z) : option Z :=
  match fuel with
  | O => None
  | S fuel' =>
      c ← (url ++ [0]).[p];
      if c =? 47 then Some (p + 1)
      else c' ← (url ++ [0]).[p + 1];
           if c' =? 0 then Some (p + 1) else skip_slash fuel' url (p + 1)
  end.

(** The return value and the array [id]. *)
Definition youkuExtractID (url id : list Z) : option (Z * list Z) :=
  if found (strstr url s_youku) && found (strstr url s_flv_nk) then Some (0, id)
  else if found (strstr url s_youku) && found (strstr url s_mp4_nk) then Some (0, id)
  else
    match strstr url s_youku,
          (match strstr url s_flv with Some e => Some e | None => strstr url s_mp4 end) with
    | Some youkubegin, Some youkuIDend =>
        youkuIDstart ← skip_slash (S (length url)) url (youkubegin + 7);
        if 1024 <? youkuIDend + 4 - youkuIDstart then Some (0, id)
        else
          id1 ← strncpy id (drop (Z.to_nat youkuIDstart) url) (youkuIDend + 4 - youkuIDstart);
          id2 ← zset id1 (youkuIDend + 5 - youkuIDstart) 0;
          Some (1, id2)
    | _, _ => Some (0, id)
    end.

Definition letvExtractID (url id : list Z) : option (Z * list Z) :=
  match strstr url s_letv, strstr url s_ver, strstr url s_ts with
  | Some _, Some letvIDstart, Some letvIDend =>
      id1 ← strncpy id (drop (Z.to_nat letvIDstart) url) (letvIDend - letvIDstart + 3);
      id2 ← zset id1 (letvIDend + 4 - letvIDstart) 0;
      Some (1, id2)
  | _, _, _ => Some (0, id)
  end.

(** The table of handlers: two are registered, the other entries are NULL. *)
Definition pf : list (option (list Z → list Z → option (Z * list Z))) :=
  [Some youkuExtractID; Some letvExtractID] ++ replicate (Z.to_nat (MAXFLAGNUM - 2)) None.

Definition selectFunc (url id : list Z) (flag : Z) : option (Z * list Z) :=
  if (flag <? 100) || (999 <? flag) then Some (0, id)
  else h ← pf.[flag - 100];
       match h with
       | Some f => f url id
       | None => Some (0, id)
       end.

End VideoReg.
Import VideoReg.

(** ** Which handler runs *)

Lemma pf_other k : 2 <= k < 999 → pf.[k] = Some None.
Proof.
  intros Hk. unfold pf. rewrite zget_app_r by (cbn; lia). apply zget_replicate. cbn in *.
  unfold MAXFLAGNUM. lia.
Qed.

Lemma selectFunc_eq url id flag :
  selectFunc url id flag =
    if flag =? 100 then youkuExtractID url id
    else if flag =? 101 then letvExtractID url id
    else Some (0, id).
Proof.
  unfold selectFunc. destruct (Z.ltb_spec flag 100); cbn [orb].
  { destruct (Z.eqb_spec flag 100), (Z.eqb_spec flag 101); try lia. done. }
  destruct (Z.ltb_spec 999 flag).
  { destruct (Z.eqb_spec flag 100), (Z.eqb_spec flag 101); try lia. done. }
  destruct (Z.eqb_spec flag 100) as [->|]; [done|].
  destruct (Z.eqb_spec flag 101) as [->|]; [done|].
  by rewrite pf_other by lia.
Qed.

(** ** The scan for the slash *)

Lemma skip_slash_app h : ∀ pre fuel X,
  Forall (λ c, c ≠ 47) h → is_cstring h → (length h < fuel)%nat →
  skip_slash fuel (pre ++ h ++ 47 :: X) (zlen pre) = Some (zlen pre + zlen h + 1).
Proof.
  induction h as [|c h IH]; intros pre fuel X Hh Hcs Hf; (destruct fuel as [|fuel]; [cbn in Hf; lia|]);
    cbn [skip_slash]; rewrite <- !app_assoc; rewrite (zget_app_r pre _ (zlen pre)) by lia; rewrite Z.sub_diag.
  - change (([] ++ (47 :: X) ++ [0]).[0]) with (Some 47). cbn. f_equal. lia.
  - apply Forall_cons in Hh as [Hc Hh]. apply Forall_cons in Hcs as [Hc0 Hcs].
    change (((c :: h) ++ (47 :: X) ++ [0]).[0]) with (Some c). cbn [mbind option_bind].
    destruct (Z.eqb_spec c 47); [done|].
    assert (Hn : ∃ c', (pre ++ (c :: h) ++ (47 :: X) ++ [0]).[zlen pre + 1] = Some c' ∧ c' ≠ 0).
    { rewrite zget_app_r by lia. replace (zlen pre + 1 - zlen pre) with 1 by lia.
      destruct h as [|c' h]; [by exists 47|]. exists c'. split; [done|].
      apply Forall_cons in Hcs as [? _]. lia. }
    destruct Hn as (c' & -> & Hc'). cbn [mbind option_bind]. destruct (Z.eqb_spec c' 0); [done|].
    replace (zlen pre + 1) with (zlen (pre ++ [c])) by (rewrite length_app; cbn; lia).
    replace (pre ++ (c :: h) ++ 47 :: X) with ((pre ++ [c]) ++ h ++ 47 :: X) by by rewrite <- app_assoc.
    rewrite IH by (done || cbn in Hf; lia). f_equal. rewrite length_app. cbn. lia.
Qed.

(** ** Youku URLs *)

(** A URL whose first "/youku/" is followed by a path component, a slash and
    the file name that ends at the first ".flv". *)
Record youku_url (url name : list Z) : Prop := mkYouku {
  yk_split : ∃ pre hash rest,
    url = (pre ++ s_youku) ++ hash ++ 47 :: name ++ s_flv ++ rest ∧
    strstr url s_youku = Some (zlen pre) ∧
    strstr url s_flv = Some (zlen pre + 7 + zlen hash + 1 + zlen name) ∧
    Forall (λ c, c ≠ 47) hash;
  yk_cs : is_cstring url;
  yk_nk : strstr url s_flv_nk = None ∧ strstr url s_mp4_nk = None }.

Definition id_array (id s : list Z) : list Z := s ++ drop (length s) id.

(** Into a zeroed array of more than 1025 bytes the handler writes the name,
    with its suffix, and nothing else. *)
Lemma youkuExtractID_ok url name (N : nat) :
  youku_url url name → zlen name + 4 <= 1024 → 1026 <= Z.of_nat N →
  youkuExtractID url (replicate N 0) = Some (1, id_array (replicate N 0) (name ++ s_flv)).
Proof.
  intros [(pre & hash & rest & Hurl & Hy & Hf & Hh) Hcs [Hn1 Hn2]] Hlen HN.
  unfold youkuExtractID. rewrite Hn1, Hn2, Hy, Hf. cbn [found andb].
  replace (zlen pre + 7) with (zlen (pre ++ s_youku)) by (rewrite length_app; cbn; lia).
  assert (Hsk : skip_slash (S (length url)) url (zlen (pre ++ s_youku))
                = Some (zlen (pre ++ s_youku) + zlen hash + 1)).
  { rewrite Hurl at 2. apply skip_slash_app; [done| |rewrite Hurl, !length_app; lia].
    rewrite Hurl in Hcs. apply Forall_app in Hcs as [_ Hcs]. by apply Forall_app in Hcs as [? _]. }
  rewrite Hsk. cbn [mbind option_bind].
  replace (zlen (pre ++ s_youku) + zlen hash + 1 + zlen name + 4
           - (zlen (pre ++ s_youku) + zlen hash + 1)) with (zlen name + 4) by lia.
  destruct (Z.ltb_spec 1024 (zlen name + 4)); [lia|].
  rewrite strncpy_Some by (rewrite length_replicate; lia). cbn [mbind option_bind].
  assert (Hdrop : drop (Z.to_nat (zlen (pre ++ s_youku) + zlen hash + 1)) url = name ++ s_flv ++ rest).
  { rewrite Hurl. replace (Z.to_nat _) with (length (((pre ++ s_youku) ++ hash) ++ [47]))
      by (rewrite !length_app; cbn; lia).
    replace ((pre ++ s_youku) ++ hash ++ 47 :: name ++ s_flv ++ rest)
      with ((((pre ++ s_youku) ++ hash) ++ [47]) ++ name ++ s_flv ++ rest) by by rewrite <- !app_assoc.
    apply drop_app_length. }
  rewrite Hdrop.
  replace (Z.to_nat (zlen name + 4)) with (length (name ++ s_flv)) by (rewrite length_app; cbn; lia).
  rewrite (app_assoc name), <- (app_assoc (name ++ s_flv)), take_app_length.
  unfold id_array. set (s := name ++ s_flv).
  assert (Hs : zlen s = zlen name + 4) by (unfold s; rewrite length_app; cbn; lia).
  rewrite drop_replicate.
  replace (zlen (pre ++ s_youku) + zlen hash + 1 + zlen name + 5
           - (zlen (pre ++ s_youku) + zlen hash + 1)) with (zlen s + 1) by lia.
  rewrite zset_Some by (rewrite length_app, length_replicate; lia). cbn [mbind option_bind].
  do 2 f_equal. apply list_insert_id.
  rewrite lookup_app_r by lia. apply lookup_replicate_2. lia.
Qed.

Lemma cstr_id_array s (N : nat) : is_cstring s → (length s < N)%nat →
  cstr (id_array (replicate N 0) s) = s ∧ length (id_array (replicate N 0) s) = N.
Proof.
  intros Hs HN. unfold id_array. rewrite drop_replicate.
  replace (N - length s)%nat with (S (N - length s - 1)) by lia. cbn [replicate]. split.
  - by apply cstr_app_nul.
  - rewrite length_app. cbn. rewrite length_replicate. lia.
Qed.

(** C8: for a Youku URL the handler selected by flag 100 returns 1 and leaves in
    the caller's zeroed 2048-byte array the file name up to its first ".flv",
    whatever the host, the path before it and the query after it. *)
Theorem selectFunc_youku url name :
  youku_url url name → zlen name + 4 <= 1024 →
  ∃ id, selectFunc url (replicate 2048 0) 100 = Some (1, id) ∧
        length id = 2048%nat ∧ cstr id = name ++ s_flv.
Proof.
  intros Hy Hn. rewrite selectFunc_eq. cbn [Z.eqb Pos.eqb].
  rewrite (youkuExtractID_ok _ name) by (done || lia).
  eexists. split; [done|]. destruct (cstr_id_array (name ++ s_flv) 2048) as [Hc Hl]; [| |done].
  - destruct Hy as [(pre & hash & rest & Hurl & _) Hcs _]. rewrite Hurl in Hcs.
    apply Forall_app in Hcs as [_ Hcs]. apply Forall_app in Hcs as [_ Hcs].
    apply Forall_cons in Hcs as [_ Hcs]. rewrite app_assoc in Hcs. by apply Forall_app in Hcs as [? _].
  - rewrite length_app. cbn [length s_flv bytes_of]. lia.
Qed.

Definition yk_url : list Z := bytes_of "http://1.2.3.4/youku/6571CA/0300010E.flv?k=1".

Lemma yk_url_ok : youku_url yk_url (bytes_of "0300010E").
Proof.
  constructor.
  - exists (bytes_of "http://1.2.3.4"), (bytes_of "6571CA"), (bytes_of "?k=1").
    split_and!; try (vm_compute; reflexivity). repeat constructor; done.
  - apply (bool_decide_unpack _). vm_compute. exact I.
  - split; vm_compute; reflexivity.
Qed.

Lemma selectFunc_youku_witness :
  ∃ id, selectFunc yk_url (replicate 2048 0) 100 = Some (1, id) ∧
        length id = 2048%nat ∧ cstr id = bytes_of "0300010E" ++ s_flv.
Proof.
  apply (selectFunc_youku yk_url (bytes_of "0300010E")); [exact yk_url_ok|].
  apply (bool_decide_unpack _). vm_compute. exact I.
Defined.

(** ** Letv URLs *)

Lemma letvExtractID_eq url id s e k :
  strstr url s_letv = Some k → strstr url s_ver = Some s → strstr url s_ts = Some e →
  letvExtractID url id =
    (id1 ← strncpy id (drop (Z.to_nat s) url) (e - s + 3); id2 ← zset id1 (e + 4 - s) 0; Some (1, id2)).
Proof. unfold letvExtractID. by intros -> -> ->. Qed.

(** C9: on a Letv URL the handler stays inside the caller's array exactly when
    the identifier, from "ver_" to ".ts", has a non-negative length and leaves
    room for two more bytes; nothing in the code checks either. *)
Theorem letv_in_bounds_iff url id k s e :
  strstr url s_letv = Some k → strstr url s_ver = Some s → strstr url s_ts = Some e →
  is_Some (letvExtractID url id) ↔ 0 <= e + 3 - s ∧ e + 4 - s < zlen id.
Proof.
  intros Hk Hs He. rewrite (letvExtractID_eq _ _ _ _ _ Hk Hs He). unfold strncpy.
  case_decide as Hd; cbn [mbind option_bind].
  - match goal with |- context [zset ?l _ _] => set (id1 := l) end.
    assert (Hl : length id1 = length id).
    { unfold id1. rewrite length_app, length_take, length_drop, length_app, length_replicate. lia. }
    unfold zset. rewrite Hl. case_decide; cbn [mbind option_bind].
    + split; [lia|by eexists].
    + split; [by intros [? ?]|lia].
  - split; [by intros [? ?]|lia].
Qed.

Definition lt_url : list Z := bytes_of "http://x/letv-uts/14/ver_00_22-1.ts?a=b".
Definition lt_bad : list Z := bytes_of "http://x.ts/letv-uts/14/ver_00".

Lemma letv_in_bounds_iff_witness :
  (is_Some (letvExtractID lt_url (replicate 2048 0)) ↔ 0 <= 32 + 3 - 21 ∧ 32 + 4 - 21 < 2048) ∧
  (is_Some (letvExtractID lt_bad (replicate 2048 0)) ↔ 0 <= 8 + 3 - 24 ∧ 8 + 4 - 24 < 2048).
Proof.
  split.
  - apply (letv_in_bounds_iff lt_url (replicate 2048 0) 8 21 32); reflexivity.
  - apply (letv_in_bounds_iff lt_bad (replicate 2048 0) 11 24 8); reflexivity.
Defined.

(** ** A suffix in front of the keyword *)

Lemma skip_slash_lt fuel : ∀ url p q, skip_slash fuel url p = Some q → p < q.
Proof.
  induction fuel as [|fuel IH]; intros url p q H; [done|]. cbn [skip_slash] in H.
  destruct ((url ++ [0]).[p]) as [c|]; [|done]. cbn [mbind option_bind] in H.
  destruct (c =? 47); [injection H; lia|].
  destruct ((url ++ [0]).[p + 1]) as [c'|]; [|done]. cbn [mbind option_bind] in H.
  destruct (c' =? 0); [injection H; lia|]. apply IH in H. lia.
Qed.

(** C10: a URL with its first ".flv" in front of its first "/youku/" makes the
    Youku handler copy with a negative length: no array is large enough. *)
Theorem youku_suffix_before_keyword_overruns url id b e :
  strstr url s_youku = Some b → strstr url s_flv = Some e → e + 4 <= b + 7 →
  strstr url s_flv_nk = None → strstr url s_mp4_nk = None →
  selectFunc url id 100 = None.
Proof.
  intros Hb He Hlt H1 H2. rewrite selectFunc_eq. cbn [Z.eqb Pos.eqb].
  unfold youkuExtractID. rewrite H1, H2, Hb, He. cbn [found andb].
  destruct (skip_slash _ _ _) as [q|] eqn:Hq; [|done]. cbn [mbind option_bind].
  apply skip_slash_lt in Hq. destruct (Z.ltb_spec 1024 (e + 4 - q)); [lia|].
  unfold strncpy. by rewrite decide_False by lia.
Qed.

Lemma youku_suffix_before_keyword_overruns_witness :
  selectFunc (bytes_of "http://x/a.flv/youku/b/c") (replicate 2048 0) 100 = None.
Proof.
  apply (youku_suffix_before_keyword_overruns (bytes_of "http://x/a.flv/youku/b/c")
           (replicate 2048 0) 14 10); reflexivity || lia.
Defined.
