(* ===== verification/StoreKey.v ===== *)
(** Cache keys (src/store_key_md5.c): their text form, order and hash, and the
    public and private keys of a URL.

    [acsm_cap] is the array of automata acsmDFA.c fills (0: keywords,
    1: exclusions); a search changes the counters of its patterns, so it is
    threaded through. The context of the digest is an uninitialised local and
    hence an argument. [None] is an access outside an array, through a null
    pointer, or a failed assertion. *)
From S2P Require Import Prelude CString AcsmSpec Acsm AcsmTrie AcsmBuild AcsmSearch AcsmConf Md5 VideoReg.
Import Acsm Md5 VideoReg.

Module StoreKey.

Definition SQUID_MD5_DIGEST_LENGTH : Z := 16.
Definition MAX_LEN : Z := 2048.
Abbreviation cache_key := (list Z).

(** ** Text form *)

Definition hex_digit (d : Z) : Z := if d <? 10 then 48 + d else 55 + d.

(** The characters [storeKeyText] prints: "%02X" for each byte. *)
Definition storeKeyText (key : cache_key) : list Z :=
  concat ((λ b, [hex_digit (b / 16); hex_digit (b mod 16)]) <$> take 16 key).

Definition hex_val (c : Z) : option Z :=
  if isdigit c then Some (c - 48)
  else if (65 <=? c) && (c <=? 70) then Some (c - 55)
  else if (97 <=? c) && (c <=? 102) then Some (c - 87)
  else None.

Fixpoint hex_digits (acc : Z) (s : list Z) : Z :=
  match s with
  | [] => acc
  | c :: s' => match hex_val c with Some d => hex_digits (16 * acc + d) s' | None => acc end
  end.

(** [strtol(s, NULL, 16)] for strings too short to overflow: blanks, a sign, an
    optional 0x in front of a digit, the digits. *)
Definition strtol16 (s : list Z) : Z :=
  let body (t : list Z) :=
    match t with
    | 48 :: x :: d :: t' =>
        if ((x =? 120) || (x =? 88)) && match hex_val d with Some _ => true | None => false end
        then hex_digits 0 (d :: t') else hex_digits 0 t
    | _ => hex_digits 0 t
    end in
  match skip_space s with
  | 45 :: s' => - body s'
  | 43 :: s' => body s'
  | s' => body s'
  end.

(** [storeKeyScan(buf)]: [i] bytes are still to be filled, [j] is the offset. *)
Fixpoint storeKeyScan_from (i : nat) (j : Z) (buf : list Z) : option cache_key :=
  match i with
  | O => Some []
  | S i' =>
      t0 ← buf.[j]; t1 ← buf.[j + 1];
      rest ← storeKeyScan_from i' (j + 2) buf;
      Some (u8 (strtol16 (cstr [t0; t1; 0])) :: rest)
  end.
Definition storeKeyScan (buf : list Z) : option cache_key :=
  storeKeyScan_from (Z.to_nat SQUID_MD5_DIGEST_LENGTH) 0 buf.

(** ** Order, hash, copies *)

Fixpoint storeKeyHashCmp_from (i : Z) (k : nat) (A B : cache_key) : option Z :=
  match k with
  | O => Some 0
  | S k' =>
      a ← A.[i]; b ← B.[i];
      if a <? b then Some (-1) else if b <? a then Some 1
      else storeKeyHashCmp_from (i + 1) k' A B
  end.
Definition storeKeyHashCmp (A B : cache_key) : option Z :=
  storeKeyHashCmp_from 0 (Z.to_nat SQUID_MD5_DIGEST_LENGTH) A B.

Definition storeKeyHashHash (digest : cache_key) (n : Z) : option Z :=
  d0 ← digest.[0]; d1 ← digest.[1]; d2 ← digest.[2]; d3 ← digest.[3];
  let i := u32 (Z.lor (Z.lor (Z.lor d0 (Z.shiftl d1 8)) (Z.shiftl d2 16)) (Z.shiftl d3 24)) in
  Some (Z.land i (u32 (n - 1))).

(** [while (n < nbuckets) n <<= 1]; the shift of an [int] past 2^30 is undefined
    and is [None]. *)
Fixpoint hash_buckets (fuel : nat) (n nbuckets : Z) : option Z :=
  if nbuckets <=? n then Some n
  else match fuel with
       | O => None
       | S fuel' => if 1073741824 <=? n then None else hash_buckets fuel' (2 * n) nbuckets
       end.
Definition storeKeyHashBuckets (nbuckets : Z) : option Z := hash_buckets 32 8192 nbuckets.

Definition storeKeyInit : cache_key := replicate 16 0.
Definition storeKeyNull (null_key key : cache_key) : Z :=
  if decide (take 16 key = take 16 null_key) then 1 else 0.

(** [xmemcpy(dst, src, 16)]. *)
Definition storeKeyCopy (dst src : cache_key) : option cache_key :=
  if decide (16 <= zlen src) then memcpy dst 0 (take 16 src) else None.
Definition storeKeyDup (key : cache_key) : option cache_key :=
  storeKeyCopy (replicate 16 0) key.

(** ** Keys of URLs *)

Definition storeKeyPrivate (M : MD5Context) (url : list Z) (method id : Z) : option cache_key :=
  if 0 <? id then md5_pieces M [le_bytes (u32 id); le_bytes (u32 method); url] else None.

Abbreviation automata := (list (option ACSM_STRUCT)).

(** [acsmSearch_cap(acsm_cap[i], query_str, strlen(query_str))]. *)
Definition search_cap (acsm_cap : automata) (i : Z) (query_str : list Z)
  : option (automata * Z) :=
  oa ← acsm_cap.[i]; a ← oa;
  n ← strlen_opt query_str;
  '(st, ret) ← acsmSearch_cap a query_str n;
  cap ← zset acsm_cap i (Some (mkAcsm (acsmMaxState a) (acsmNumState a) (s_pats st) (acsmStateTable a)));
  Some (cap, ret).

(** The branch taken for a URL that is not excluded: look for a keyword and
    replace the URL by its video identifier. *)
Definition keyword_url (acsm_cap : automata) (query_str url : list Z)
  : option (automata * list Z) :=
  let videoID := replicate (Z.to_nat MAX_LEN) 0 in
  '(cap, ret) ← search_cap acsm_cap 0 query_str;
  if 0 <=? ret - 100 then
    '(r, id) ← selectFunc url videoID ret;
    if r =? 0 then Some (cap, url)
    else _ ← strlen_opt id; Some (cap, cstr id)
  else Some (cap, url).

Definition storeKeyPublic (M : MD5Context) (acsm_cap : automata) (url : list Z) (method : Z)
  : option (automata * cache_key) :=
  let m := u8 method in
  query_str ← ConvertCaseEX init_xlatcase (replicate (Z.to_nat MAX_LEN) 0) (url ++ [0]) (zlen url);
  '(cap1, ret) ← search_cap acsm_cap 1 query_str;
  '(cap2, url2) ←
     (if (0 <? ret) && (ret <? 100) then Some (cap1, url)
      else keyword_url cap1 query_str url);
  digest ← md5_pieces M [[m]; url2];
  Some (cap2, digest).

(** The fields of [request_t] the key depends on; [canonical] is what
    [urlCanonical] returns. *)
Record request_t := mkRequest {
  store_url : option (list Z);
  canonical : list Z;
  rmethod : Z;
  vary_headers : option (list Z);
  vary_encoding : option (list Z);
  urlgroup : option (list Z) }.

(** The pieces digested after the URL. *)
Definition vary_pieces (r : request_t) : list (list Z) :=
  match vary_headers r with
  | Some v => [[0; 86]; v] ++ match vary_encoding r with Some e => [[0; 69]; e] | None => [] end
  | None => []
  end ++ match urlgroup r with Some g => [[0; 71]; g] | None => [] end.

Definition storeKeyPublicByRequestMethod (M : MD5Context) (acsm_cap : automata)
    (request : request_t) (method : Z) : option (automata * cache_key) :=
  let m := u8 method in
  let url := match store_url request with Some u => u | None => canonical request end in
  let query0 := replicate (Z.to_nat MAX_LEN) 0 in
  '(cap1, query_str, ret) ←
     (if zlen url <=? MAX_LEN then
        q ← ConvertCaseEX init_xlatcase query0 (url ++ [0]) (zlen url);
        '(cap1, ret) ← search_cap acsm_cap 1 q;
        Some (cap1, q, ret)
      else Some (acsm_cap, query0, -1));
  '(cap2, url2) ←
     (if (0 <? ret) && (ret <? 100) then Some (cap1, url)
      else keyword_url cap1 query_str url);
  digest ← md5_pieces M ([[m]; url2] ++ vary_pieces request);
  Some (cap2, digest).

Definition storeKeyPublicByRequest (M : MD5Context) (acsm_cap : automata) (request : request_t)
  : option (automata * cache_key) :=
  storeKeyPublicByRequestMethod M acsm_cap request (rmethod request).

End StoreKey.
Import StoreKey.

(** ** Text round trip *)

Lemma hex_val_digit d : 0 <= d < 16 → hex_val (hex_digit d) = Some d.
Proof.
  intros Hd. unfold hex_val, hex_digit, isdigit. zbool; cbn; try lia; f_equal; lia.
Qed.

Lemma hex_digit_cases d : 0 <= d < 16 →
  (48 <= hex_digit d <= 57 ∨ 65 <= hex_digit d <= 70).
Proof. intros Hd. unfold hex_digit. zbool. Qed.

(** Two hexadecimal digits read back. *)
Lemma strtol16_hex a b : 0 <= a < 16 → 0 <= b < 16 →
  strtol16 (cstr [hex_digit a; hex_digit b; 0]) = 16 * a + b.
Proof.
  intros Ha Hb. pose proof (hex_digit_cases a Ha). pose proof (hex_digit_cases b Hb).
  assert (E : cstr [hex_digit a; hex_digit b; 0] = [hex_digit a; hex_digit b]).
  { cbn. zbool. done. }
  rewrite E.
  assert (G : hex_digits 0 [hex_digit a; hex_digit b] = 16 * a + b).
  { cbn [hex_digits]. by rewrite !hex_val_digit by done. }
  unfold strtol16. cbn [skip_space].
  assert (isspace (hex_digit a) = false) as -> by (unfold isspace; lia).
  destruct (hex_digit a) as [|p|p] eqn:Hp; [lia| |lia].
  repeat (destruct p as [p|p|]; try exact G; try lia).
Qed.

Lemma storeKeyScan_from_text l : ∀ pre j rest,
  Forall is_byte l → j = zlen pre →
  storeKeyScan_from (length l) j
    (pre ++ concat ((λ b, [hex_digit (b / 16); hex_digit (b mod 16)]) <$> l) ++ rest) = Some l.
Proof.
  induction l as [|b l IH]; intros pre j rest Hl ->; [done|].
  apply Forall_cons in Hl as [Hb Hl]. unfold is_byte in Hb.
  rewrite fmap_cons. cbn [concat length storeKeyScan_from]. rewrite <- app_assoc.
  set (X := concat _ ++ rest). set (h1 := hex_digit (b / 16)). set (h2 := hex_digit (b mod 16)).
  rewrite (zget_app_r pre _ (zlen pre)), Z.sub_diag by lia.
  rewrite (zget_app_r pre _ (zlen pre + 1)) by lia.
  replace (zlen pre + 1 - zlen pre) with 1 by lia.
  change (([h1; h2] ++ X).[0]) with (Some h1). change (([h1; h2] ++ X).[1]) with (Some h2).
  cbn [mbind option_bind]. unfold X. rewrite (app_assoc pre [h1; h2]).
  rewrite IH; [|done|rewrite length_app; cbn; lia]. cbn [mbind option_bind].
  pose proof (Z.div_mod b 16 ltac:(lia)). pose proof (Z.mod_pos_bound b 16 ltac:(lia)).
  assert (0 <= b / 16 < 16) by (split; [apply Z.div_pos|apply Z.div_lt_upper_bound]; lia).
  unfold h1, h2. rewrite strtol16_hex by lia. rewrite u8_small by lia. do 2 f_equal. lia.
Qed.

(** C11: scanning the text of a 16-byte key gives the key back. *)
Theorem storeKeyScan_storeKeyText key rest :
  length key = 16%nat → Forall is_byte key →
  storeKeyScan (storeKeyText key ++ rest) = Some key.
Proof.
  intros Hl Hb. unfold storeKeyScan, storeKeyText.
  change (Z.to_nat SQUID_MD5_DIGEST_LENGTH) with 16%nat.
  rewrite (take_ge key) by lia. rewrite <- Hl.
  exact (storeKeyScan_from_text key [] 0 rest Hb eq_refl).
Qed.

Lemma storeKeyScan_storeKeyText_witness :
  storeKeyScan (storeKeyText (seqZ 240 16) ++ [0]) = Some (seqZ 240 16).
Proof. apply (storeKeyScan_storeKeyText (seqZ 240 16) [0]); [reflexivity|decide_hyp]. Defined.

(** ** Order and hash *)

Lemma zget_lookup_lt {A} (l : list A) i x : l.[i] = Some x → 0 <= i ∧ l !! Z.to_nat i = Some x.
Proof. intros H. pose proof (zget_Some_range _ _ _ H). rewrite zget_pos in H by lia. naive_solver lia. Qed.

Lemma HashCmp_from_spec k : ∀ i A B,
  0 <= i → length A = (Z.to_nat i + k)%nat → length B = (Z.to_nat i + k)%nat →
  ∃ r, storeKeyHashCmp_from i k A B = Some r ∧ storeKeyHashCmp_from i k B A = Some (- r) ∧
       (r = -1 ∨ r = 0 ∨ r = 1) ∧ (r = 0 ↔ drop (Z.to_nat i) A = drop (Z.to_nat i) B).
Proof.
  induction k as [|k IH]; intros i A B Hi HA HB; cbn [storeKeyHashCmp_from].
  { exists 0. rewrite !drop_ge by lia. split_and!; [done|done|lia|]. done. }
  destruct (zget_is_Some A i) as [a Ha]; [lia|]. destruct (zget_is_Some B i) as [b Hb]; [lia|].
  rewrite Ha, Hb. cbn [mbind option_bind].
  apply zget_lookup_lt in Ha as [_ Ha]. apply zget_lookup_lt in Hb as [_ Hb].
  rewrite (drop_S _ _ _ Ha), (drop_S _ _ _ Hb).
  destruct (Z.ltb_spec a b), (Z.ltb_spec b a); try lia.
  - exists (-1). split_and!; [done|done|lia|]. split; [lia|]. intros [= -> _]. lia.
  - exists 1. split_and!; [done|done|lia|]. split; [lia|]. intros [= -> _]. lia.
  - destruct (IH (i + 1) A B) as (r & -> & -> & Hr & Heq); [lia..|].
    exists r. split_and!; [done|done|done|]. rewrite Heq.
    replace (Z.to_nat (i + 1)) with (S (Z.to_nat i)) by lia.
    replace b with a by lia. split; [by intros ->|]. by intros [= ->].
Qed.

(** Comparing two keys is antisymmetric and 0 exactly on equal keys. *)
Theorem storeKeyHashCmp_order A B :
  length A = 16%nat → length B = 16%nat →
  ∃ r, storeKeyHashCmp A B = Some r ∧ storeKeyHashCmp B A = Some (- r) ∧
       (r = -1 ∨ r = 0 ∨ r = 1) ∧ (r = 0 ↔ A = B).
Proof. intros HA HB. exact (HashCmp_from_spec 16 0 A B ltac:(lia) HA HB). Qed.

Lemma storeKeyHashCmp_order_witness :
  ∃ r, storeKeyHashCmp (seqZ 0 16) (seqZ 1 16) = Some r ∧
       storeKeyHashCmp (seqZ 1 16) (seqZ 0 16) = Some (- r) ∧
       (r = -1 ∨ r = 0 ∨ r = 1) ∧ (r = 0 ↔ seqZ 0 16 = seqZ 1 16).
Proof. apply (storeKeyHashCmp_order (seqZ 0 16) (seqZ 1 16)); reflexivity. Defined.

Lemma hash_buckets_ok fuel : ∀ k n,
  8192 <= 2 ^ k → 0 <= k <= 30 → n <= 1073741824 → (30 - k <= Z.of_nat fuel)%Z →
  ∃ j, hash_buckets fuel (2 ^ k) n = Some (2 ^ j) ∧ n <= 2 ^ j ∧ k <= j <= 30 ∧
       (2 ^ j = 2 ^ k ∨ 2 ^ j < 2 * n).
Proof.
  induction fuel as [|fuel IH]; intros k n Hk1 Hk Hn Hf; cbn [hash_buckets];
    (destruct (Z.leb_spec n (2 ^ k)); [exists k; split_and!; lia || done || by left|]).
  { assert (k = 30) as -> by lia. change (2 ^ 30) with 1073741824 in *. lia. }
  assert (k < 30).
  { destruct (decide (k = 30)) as [->|]; [|lia]. change (2 ^ 30) with 1073741824 in *. lia. }
  assert (2 ^ k < 2 ^ 30) by (apply Z.pow_lt_mono_r; lia). change (2 ^ 30) with 1073741824 in *.
  destruct (Z.leb_spec 1073741824 (2 ^ k)); [lia|].
  replace (2 * 2 ^ k) with (2 ^ (k + 1)) by (rewrite Z.pow_add_r by lia; lia).
  destruct (IH (k + 1) n) as (j & -> & Hj1 & Hj2 & Hj3); [rewrite Z.pow_add_r by lia; lia|lia..|].
  exists j. split_and!; [done|lia|lia|lia|]. right. destruct Hj3 as [->|]; [|lia].
  rewrite Z.pow_add_r by lia. lia.
Qed.

Lemma land_pred_pow2 x j : 0 <= j → Z.land x (2 ^ j - 1) = x mod 2 ^ j.
Proof.
  intros. replace (2 ^ j - 1) with (Z.ones j) by (rewrite Z.ones_equiv; lia).
  by apply Z.land_ones.
Qed.

(** the table size computed for a number of buckets is a power of two, at
    least that number and 8192 and less than twice it when it grows, and the
    hash of a key is then an index of the table. *)
Theorem storeKeyHash_in_buckets nbuckets key :
  nbuckets <= 1073741824 → length key = 16%nat → Forall is_byte key →
  ∃ n h, storeKeyHashBuckets nbuckets = Some n ∧ storeKeyHashHash key n = Some h ∧
         (∃ j, n = 2 ^ j ∧ 13 <= j <= 30) ∧ nbuckets <= n ∧ (n = 8192 ∨ n < 2 * nbuckets) ∧
         0 <= h < n.
Proof.
  intros Hn Hl Hb. unfold storeKeyHashBuckets. change 8192 with (2 ^ 13).
  destruct (hash_buckets_ok 32 13 nbuckets) as (j & -> & H1 & H2 & H3); [lia..|].
  exists (2 ^ j). unfold storeKeyHashHash.
  destruct key as [|b0 [|b1 [|b2 [|b3 key]]]]; try done.
  change ((b0 :: b1 :: b2 :: b3 :: key).[0]) with (Some b0).
  change ((b0 :: b1 :: b2 :: b3 :: key).[1]) with (Some b1).
  change ((b0 :: b1 :: b2 :: b3 :: key).[2]) with (Some b2).
  change ((b0 :: b1 :: b2 :: b3 :: key).[3]) with (Some b3). cbn [mbind option_bind].
  eexists. split; [done|]. split; [done|].
  assert (0 < 2 ^ j) by (apply Z.pow_pos_nonneg; lia).
  assert (2 ^ j <= 2 ^ 30) by (apply Z.pow_le_mono_r; lia).
  rewrite (u32_small (2 ^ j - 1)) by (change (2 ^ 30) with 1073741824 in *; lia).
  rewrite land_pred_pow2 by lia.
  split; [by exists j|]. split; [lia|]. split; [done|]. apply Z.mod_pos_bound. lia.
Qed.

Lemma storeKeyHash_in_buckets_witness :
  ∃ n h, storeKeyHashBuckets 10000 = Some n ∧ storeKeyHashHash (seqZ 240 16) n = Some h ∧
         (∃ j, n = 2 ^ j ∧ 13 <= j <= 30) ∧ 10000 <= n ∧ (n = 8192 ∨ n < 2 * 10000) ∧
         0 <= h < n.
Proof. apply (storeKeyHash_in_buckets 10000 (seqZ 240 16)); [lia|reflexivity|decide_hyp]. Defined.
