(* ===== verification/StoreKeyUrl.v ===== *)
(** The keys of URLs: which bytes [storeKeyPublic] and
    [storeKeyPublicByRequestMethod] digest.

    The keyword automata are used through the interface [Matcher]: what
    [acsmSearch_cap] promises its callers on ASCII text. [compiled_matcher]
    discharges it for every automaton [acsmCompile_cap] builds. *)
From S2P Require Import Prelude CString AcsmSpec Acsm AcsmTrie AcsmBuild AcsmSearch AcsmConf Md5 VideoReg StoreKey.
Import Acsm Md5 VideoReg StoreKey.

Definition ascii_text (t : list Z) : Prop := t ≠ [] ∧ Forall (λ c, 0 < c < 128) t.
#[export] Instance ascii_text_dec t : Decision (ascii_text t).
Proof. unfold ascii_text. apply _. Defined.

(** [a] answers every search of a non-empty ASCII text with [fl text]. *)
Class Matcher (a : ACSM_STRUCT) (fl : list Z → Z) : Prop :=
  matcher_search : ∀ text, ascii_text text → zlen text <= INT_MAX →
    ∃ st, acsmSearch_cap a text (zlen text) = Some (st, fl text).

(** The flag the keyword list of [a] assigns to a text. *)
Definition keyword_flag (a : ACSM_STRUCT) (text : list Z) : Z :=
  match first_match (keywords a) [] text with
  | Some p => flag_of (acsmPatterns a) p
  | None => 0
  end.

Lemma compiled_matcher a a' :
  Forall pat_ok (acsmPatterns a) → 1 + total_len (acsmPatterns a) <= MAX_STATES →
  [] ∉ keywords a → acsmCompile_cap a = Some a' → Matcher a' (keyword_flag a).
Proof.
  intros Hp Ht Hn Hc text [Hne Htx] Hl.
  destruct (compiled_search a text) as (a2 & st & Hc2 & Hs); try done.
  rewrite Hc in Hc2. injection Hc2 as <-. by exists st.
Qed.

(** The bytes after the [n] searched ones do not matter. *)
Lemma search_trailing a text tl :
  acsmSearch_cap a (text ++ tl) (zlen text) = acsmSearch_cap a text (zlen text).
Proof.
  unfold acsmSearch_cap. destruct (_ <=? 0); [done|].
  rewrite !decide_True by (rewrite ?length_app; lia).
  by rewrite Nat2Z.id, take_app_length, firstn_all.
Qed.

Lemma toupper_ascii c : 0 < c < 128 → 0 < toupper c < 128.
Proof. unfold toupper. zbool; cbn; lia. Qed.

Lemma ascii_toupper url : ascii_text url → ascii_text (toupper <$> url).
Proof.
  intros [Hne Hu]. split; [by destruct url|]. apply Forall_fmap.
  eapply Forall_impl; [exact Hu|]. apply toupper_ascii.
Qed.

Lemma ascii_cstring t : Forall (λ c, 0 < c < 128) t → is_cstring t.
Proof. intros. eapply Forall_impl; [done|]. cbn. lia. Qed.

(** The query buffer: the upper-cased URL and NULs. *)
Definition query_buf (url : list Z) : list Z := (toupper <$> url) ++ replicate (2048 - length url) 0.

Lemma ConvertCase_query url :
  is_cstring url → zlen url <= MAX_LEN →
  ConvertCaseEX init_xlatcase (replicate (Z.to_nat MAX_LEN) 0) (url ++ [0]) (zlen url)
  = Some (query_buf url).
Proof.
  intros Hs Hl. change (Z.to_nat MAX_LEN) with 2048%nat. unfold MAX_LEN in Hl.
  rewrite ConvertCaseEX_spec by (done || rewrite length_replicate; lia).
  by rewrite drop_replicate.
Qed.

Lemma query_strlen url :
  is_cstring url → zlen url < MAX_LEN → strlen_opt (query_buf url) = Some (zlen (toupper <$> url)).
Proof.
  intros Hs Hl. unfold query_buf, MAX_LEN in *.
  replace (2048 - length url)%nat with (S (2047 - length url)) by lia. cbn [replicate].
  apply strlen_opt_app. by apply is_cstring_toupper.
Qed.

(** The record [search_cap] leaves in the array. *)
Definition counted (cap : automata) (i : Z) (cap' : automata) : Prop :=
  length cap' = length cap ∧ ∀ j, j ≠ i → cap'.[j] = cap.[j].

Lemma search_cap_ok cap i a fl url :
  cap.[i] = Some (Some a) → Matcher a fl → ascii_text url → zlen url < MAX_LEN →
  ∃ cap', search_cap cap i (query_buf url) = Some (cap', fl (toupper <$> url)) ∧ counted cap i cap'.
Proof.
  intros Ha Hm Hu Hl. pose proof (ascii_cstring _ (proj2 Hu)) as Hcs.
  unfold search_cap. rewrite Ha. cbn [mbind option_bind].
  rewrite query_strlen by done. cbn [mbind option_bind].
  unfold query_buf. rewrite search_trailing.
  destruct (Hm (toupper <$> url)) as [st ->].
  { by apply ascii_toupper. } { rewrite length_fmap. unfold MAX_LEN, INT_MAX in *. lia. }
  cbn [mbind option_bind]. pose proof (zget_Some_range _ _ _ Ha).
  match goal with |- context [zset cap i ?x] => pose proof (zset_Some cap i x ltac:(lia)) as Hz end.
  rewrite Hz. cbn [mbind option_bind]. eexists. split; [done|].
  split; [by eapply zset_length|]. intros j Hj. by eapply zget_zset_ne.
Qed.

(** ** The URL that is digested *)

(** [ex] and [kw] are the flags of the exclusion and the keyword list. *)
Definition effective_url (ex kw : Z) (url : list Z) : option (list Z) :=
  if (0 <? ex) && (ex <? 100) then Some url
  else if kw <? 100 then Some url
  else '(r, id) ← selectFunc url (replicate 2048 0) kw;
       if r =? 0 then Some url else _ ← strlen_opt id; Some (cstr id).

Lemma strncpy_length d s n d' : strncpy d s n = Some d' → length d' = length d.
Proof.
  unfold strncpy. case_decide; [|done]. intros [= <-].
  rewrite length_app, length_take, length_drop, length_app, length_replicate. lia.
Qed.

Lemma selectFunc_length url id fl r id' :
  selectFunc url id fl = Some (r, id') → length id' = length id.
Proof.
  rewrite selectFunc_eq. unfold youkuExtractID, letvExtractID. intros H.
  repeat (case_match; simplify_eq; try done); bind_inv; repeat (case_match; simplify_eq; try done);
    bind_inv; simplify_eq;
    repeat match goal with
    | E : zset _ _ _ = Some _ |- _ => apply zset_length in E
    | E : strncpy _ _ _ = Some _ |- _ => apply strncpy_length in E
    end; congruence.
Qed.

Lemma length_cstr l : (length (cstr l) <= length l)%nat.
Proof. induction l as [|c l IH]; cbn; [lia|]. destruct (c =? 0); cbn; lia. Qed.

Lemma effective_url_length ex kw url u :
  zlen url < MAX_LEN → effective_url ex kw url = Some u → zlen u <= MAX_LEN.
Proof.
  unfold effective_url, MAX_LEN. intros Hl H.
  destruct (_ && _); [simplify_eq; lia|]. destruct (kw <? 100); [simplify_eq; lia|].
  destruct (selectFunc _ _ _) as [[r id]|] eqn:E; [|done]. cbn [mbind option_bind] in H.
  destruct (r =? 0); [simplify_eq; lia|]. bind_inv. subst u.
  apply selectFunc_length in E. rewrite length_replicate in E. pose proof (length_cstr id). lia.
Qed.

Section keys.
Context (cap : automata) (a0 a1 : ACSM_STRUCT) (f0 f1 : list Z → Z).
Context (Hc0 : cap.[0] = Some (Some a0)) (Hc1 : cap.[1] = Some (Some a1)).
Context `{M0 : !Matcher a0 f0, M1 : !Matcher a1 f1}.

(** Both lookups and the branch between them, as the two key functions share
    them. *)
Lemma digested_url url :
  ascii_text url → zlen url < MAX_LEN →
  ∃ cap1, search_cap cap 1 (query_buf url) = Some (cap1, f1 (toupper <$> url)) ∧
  ∃ cap2,
    (if (0 <? f1 (toupper <$> url)) && (f1 (toupper <$> url) <? 100) then Some (cap1, url)
     else keyword_url cap1 (query_buf url) url)
    = u ← effective_url (f1 (toupper <$> url)) (f0 (toupper <$> url)) url; Some (cap2, u).
Proof using Hc0 Hc1 M0 M1.
  intros Hu Hl. destruct (search_cap_ok cap 1 a1 f1 url) as (cap1 & E1 & Hl1 & Hr1); [done..|].
  exists cap1. split; [done|]. unfold effective_url. destruct (_ && _); [by exists cap1|].
  unfold keyword_url. destruct (search_cap_ok cap1 0 a0 f0 url) as (cap2 & -> & _).
  { by rewrite Hr1. } { done. } { done. } { done. }
  exists cap2. cbn [mbind option_bind]. change (Z.to_nat MAX_LEN) with 2048%nat.
  destruct (Z.leb_spec 0 (f0 (toupper <$> url) - 100)), (Z.ltb_spec (f0 (toupper <$> url)) 100);
    try lia; [|done].
  destruct (selectFunc _ _ _) as [[r id]|]; [|done]. cbn [mbind option_bind].
  destruct (r =? 0); [done|]. by destruct (strlen_opt id).
Qed.

Lemma storeKeyPublic_eq M url method :
  length (inb M) = 64%nat → ascii_text url → zlen url < MAX_LEN →
  ∃ cap', storeKeyPublic M cap url method =
    u ← effective_url (f1 (toupper <$> url)) (f0 (toupper <$> url)) url;
    Some (cap', md5 (u8 method :: u)).
Proof using Hc0 Hc1 M0 M1.
  intros HM Hu Hl. pose proof (ascii_cstring _ (proj2 Hu)) as Hcs.
  destruct (digested_url url Hu Hl) as (cap1 & E1 & cap2 & E2). exists cap2.
  unfold storeKeyPublic. rewrite ConvertCase_query by (done || lia). cbn [mbind option_bind].
  rewrite E1. cbn [mbind option_bind]. rewrite E2.
  destruct (effective_url _ _ url) as [u|] eqn:Eu; [|done]. cbn [mbind option_bind].
  apply effective_url_length in Eu; [|done]. unfold MAX_LEN in Eu.
  rewrite md5_pieces_ok; [|done|repeat constructor; cbn [length]; lia].
  cbn [concat]. by rewrite app_nil_r.
Qed.

Lemma storeKeyPublicByRequestMethod_eq M r method url :
  length (inb M) = 64%nat → url = match store_url r with Some u => u | None => canonical r end →
  ascii_text url → zlen url < MAX_LEN → Forall (λ p, zlen p < 4294967296) (vary_pieces r) →
  ∃ cap', storeKeyPublicByRequestMethod M cap r method =
    u ← effective_url (f1 (toupper <$> url)) (f0 (toupper <$> url)) url;
    Some (cap', md5 (u8 method :: u ++ concat (vary_pieces r))).
Proof using Hc0 Hc1 M0 M1.
  intros HM Hurl Hu Hl Hv. pose proof (ascii_cstring _ (proj2 Hu)) as Hcs.
  destruct (digested_url url Hu Hl) as (cap1 & E1 & cap2 & E2). exists cap2.
  unfold storeKeyPublicByRequestMethod. rewrite <- Hurl.
  destruct (Z.leb_spec (zlen url) MAX_LEN); [|lia].
  rewrite ConvertCase_query by (done || lia). cbn [mbind option_bind].
  rewrite E1. cbn [mbind option_bind]. rewrite E2.
  destruct (effective_url _ _ url) as [u|] eqn:Eu; [|done]. cbn [mbind option_bind].
  apply effective_url_length in Eu; [|done]. unfold MAX_LEN in Eu.
  rewrite md5_pieces_ok; [done|done|].
  apply Forall_cons. split; [cbn; lia|]. apply Forall_cons. split; [lia|done].
Qed.
End keys.

(** C13: for a URL shorter than 2048 ASCII bytes, the key by URL and the key of
    a request for it without variants are the same digest: that of the method
    byte and the URL, or the video identifier when the URL carries a keyword and
    no exclusion. *)
Theorem public_keys_agree cap a0 a1 f0 f1 M M' r method url :
  cap.[0] = Some (Some a0) → cap.[1] = Some (Some a1) → Matcher a0 f0 → Matcher a1 f1 →
  length (inb M) = 64%nat → length (inb M') = 64%nat →
  url = match store_url r with Some u => u | None => canonical r end →
  vary_headers r = None → urlgroup r = None → ascii_text url → zlen url < MAX_LEN →
  ∃ cap1 cap2,
    storeKeyPublic M cap url method =
      (u ← effective_url (f1 (toupper <$> url)) (f0 (toupper <$> url)) url;
       Some (cap1, md5 (u8 method :: u))) ∧
    storeKeyPublicByRequestMethod M' cap r method =
      (u ← effective_url (f1 (toupper <$> url)) (f0 (toupper <$> url)) url;
       Some (cap2, md5 (u8 method :: u))).
Proof.
  intros H0 H1 M0 M1 HM HM' Hurl Hv Hg Hu Hl.
  destruct (storeKeyPublic_eq cap a0 a1 f0 f1 H0 H1 M url method HM Hu Hl) as [cap1 E1].
  assert (Hvp : vary_pieces r = []) by (unfold vary_pieces; by rewrite Hv, Hg).
  destruct (storeKeyPublicByRequestMethod_eq cap a0 a1 f0 f1 H0 H1 M' r method url HM' Hurl Hu Hl)
    as [cap2 E2]; [by rewrite Hvp|].
  exists cap1, cap2. split; [done|]. rewrite E2, Hvp. cbn [concat].
  destruct (effective_url _ _ url); cbn [mbind option_bind]; [|done]. by rewrite app_nil_r.
Qed.

(** C14: two URLs of the same Youku file, on whatever host and path, have the
    same public key when neither is excluded and the keyword list flags both as
    Youku. *)
Theorem same_video_same_key cap a0 a1 f0 f1 M M' method url url' name :
  cap.[0] = Some (Some a0) → cap.[1] = Some (Some a1) → Matcher a0 f0 → Matcher a1 f1 →
  length (inb M) = 64%nat → length (inb M') = 64%nat →
  youku_url url name → youku_url url' name → zlen name + 4 <= 1024 →
  ascii_text url → ascii_text url' → zlen url < MAX_LEN → zlen url' < MAX_LEN →
  f1 (toupper <$> url) = 0 → f1 (toupper <$> url') = 0 →
  f0 (toupper <$> url) = 100 → f0 (toupper <$> url') = 100 →
  ∃ cap1 cap2 k, storeKeyPublic M cap url method = Some (cap1, k) ∧
                 storeKeyPublic M' cap url' method = Some (cap2, k) ∧
                 k = md5 (u8 method :: name ++ s_flv).
Proof.
  intros H0 H1 M0 M1 HM HM' Hy Hy' Hn Hu Hu' Hl Hl' X X' K K'.
  assert (Heff : ∀ w, youku_url w name → ascii_text w → effective_url 0 100 w = Some (name ++ s_flv)).
  { intros w Hw [_ Hwa]. unfold effective_url. cbn [Z.ltb Z.compare andb Pos.compare Pos.compare_cont].
    rewrite selectFunc_eq. cbn [Z.eqb Pos.eqb]. rewrite (youkuExtractID_ok _ name) by (done || lia).
    cbn [mbind option_bind Z.eqb].
    assert (Hcs : is_cstring (name ++ s_flv)).
    { destruct Hw as [(pre & hash & rest & -> & _) Hcs _]. unfold is_cstring in *.
      rewrite !Forall_app, !Forall_cons, !Forall_app in Hcs. apply Forall_app. tauto. }
    assert (Hlen : (length (name ++ s_flv) < 2048)%nat).
    { rewrite length_app. cbn [length s_flv bytes_of]. lia. }
    destruct (cstr_id_array (name ++ s_flv) 2048 Hcs Hlen) as [Hc _]. rewrite Hc.
    unfold id_array. rewrite drop_replicate.
    replace (2048 - length (name ++ s_flv))%nat with (S (2047 - length (name ++ s_flv))) by lia.
    cbn [replicate]. by rewrite strlen_opt_app by done. }
  destruct (storeKeyPublic_eq cap a0 a1 f0 f1 H0 H1 M url method HM Hu Hl) as [cap1 E1].
  destruct (storeKeyPublic_eq cap a0 a1 f0 f1 H0 H1 M' url' method HM' Hu' Hl') as [cap2 E2].
  rewrite X, K, Heff in E1 by done. rewrite X', K', Heff in E2 by done.
  cbn [mbind option_bind] in E1, E2. by exists cap1, cap2, (md5 (u8 method :: name ++ s_flv)).
Qed.

(** ** URLs that do not fit the query buffer *)

Lemma ConvertCaseEX_bound k : ∀ i x d s d',
  ConvertCaseEX_from i k x d s = Some d' → k = O ∨ i + Z.of_nat k <= zlen d.
Proof.
  induction k as [|k IH]; intros i x d s d' H; [by left|]. right. cbn [ConvertCaseEX_from] in H.
  bind_inv. pose proof (zset_inv _ _ _ _ E1) as [Hr _]. pose proof (zset_length _ _ _ _ E1) as Hlen.
  destruct (IH _ _ _ _ _ H) as [->|]; lia.
Qed.

Lemma ConvertCase_overrun url : MAX_LEN < zlen url →
  ConvertCaseEX init_xlatcase (replicate (Z.to_nat MAX_LEN) 0) (url ++ [0]) (zlen url) = None.
Proof.
  intros Hl. unfold ConvertCaseEX. rewrite Nat2Z.id.
  destruct (ConvertCaseEX_from _ _ _ _ _) as [d|] eqn:E; [|done].
  apply ConvertCaseEX_bound in E. rewrite length_replicate in E. unfold MAX_LEN in *. lia.
Qed.

Lemma query_full_no_nul url cap i :
  is_cstring url → zlen url = MAX_LEN → search_cap cap i (query_buf url) = None.
Proof.
  intros Hcs Hl. unfold search_cap. destruct (cap.[i]) as [[a|]|]; cbn [mbind option_bind]; try done.
  unfold query_buf. replace (2048 - length url)%nat with O by (unfold MAX_LEN in Hl; lia).
  cbn [replicate]. rewrite app_nil_r, strlen_opt_None; [done|]. by apply is_cstring_toupper.
Qed.

(** C15: a URL of 2048 bytes or more overruns the query buffer of
    [storeKeyPublic]; [storeKeyPublicByRequestMethod] checks the length but
    admits exactly 2048 bytes, for which the buffer holds no terminator, and
    digests longer URLs unchanged. *)
Theorem long_url_keys M cap r method url a0 :
  url = match store_url r with Some u => u | None => canonical r end →
  is_cstring url → length (inb M) = 64%nat → cap.[0] = Some (Some a0) → zlen url < 4294967296 →
  Forall (λ p, zlen p < 4294967296) (vary_pieces r) →
  (MAX_LEN <= zlen url → storeKeyPublic M cap url method = None) ∧
  (zlen url = MAX_LEN → storeKeyPublicByRequestMethod M cap r method = None) ∧
  (MAX_LEN < zlen url → ∃ cap',
     storeKeyPublicByRequestMethod M cap r method
     = Some (cap', md5 (u8 method :: url ++ concat (vary_pieces r)))).
Proof.
  intros Hurl Hcs HM Hc0 Hlu Hv. split; [|split].
  - intros Hl. unfold storeKeyPublic. destruct (decide (zlen url = MAX_LEN)) as [Heq|].
    + rewrite ConvertCase_query by (done || lia). cbn [mbind option_bind].
      by rewrite query_full_no_nul.
    + by rewrite ConvertCase_overrun by lia.
  - intros Heq. unfold storeKeyPublicByRequestMethod. rewrite <- Hurl.
    destruct (Z.leb_spec (zlen url) MAX_LEN); [|lia].
    rewrite ConvertCase_query by (done || lia). cbn [mbind option_bind].
    by rewrite query_full_no_nul.
  - intros Hlt. unfold storeKeyPublicByRequestMethod. rewrite <- Hurl.
    destruct (Z.leb_spec (zlen url) MAX_LEN); [lia|]. cbn [mbind option_bind].
    cbn [Z.ltb Z.compare andb]. unfold keyword_url, search_cap. rewrite Hc0. cbn [mbind option_bind].
    change (strlen_opt (replicate (Z.to_nat MAX_LEN) 0)) with (Some 0). cbn [mbind option_bind].
    change (acsmSearch_cap a0 (replicate (Z.to_nat MAX_LEN) 0) 0)
      with (Some (mkSearch (acsmPatterns a0) 0, -1)). cbn [mbind option_bind].
    pose proof (zget_Some_range _ _ _ Hc0) as Hr. rewrite zset_Some by lia.
    cbn [mbind option_bind]. change (0 <=? -1 - 100) with false. cbn [mbind option_bind].
    rewrite md5_pieces_ok; [by eexists|done|].
    apply Forall_cons. split; [cbn; lia|]. by apply Forall_cons.
Qed.

(** ** A configuration with the two keywords and no exclusions *)

Definition compiled (a : ACSM_STRUCT) : ACSM_STRUCT := default acsmNew (acsmCompile_cap a).
Definition kw_caps : automata := [Some (compiled kw_acsm); Some (compiled acsmNew)].
Definition yk_url2 : list Z := bytes_of "http://cdn9.example/x/youku/77/0300010E.flv".

Lemma kw_matcher : Matcher (compiled kw_acsm) (keyword_flag kw_acsm).
Proof.
  apply compiled_matcher; [exact kw_pats_ok|decide_hyp|decide_hyp|].
  unfold compiled. destruct (acsmCompile_cap kw_acsm) as [a|] eqn:E; [done|].
  exfalso. vm_compute in E. discriminate E.
Qed.

Lemma none_matcher : Matcher (compiled acsmNew) (keyword_flag acsmNew).
Proof.
  apply compiled_matcher; [constructor|decide_hyp|decide_hyp|].
  unfold compiled. destruct (acsmCompile_cap acsmNew) as [a|] eqn:E; [done|].
  exfalso. vm_compute in E. discriminate E.
Qed.

Lemma yk_url2_ok : youku_url yk_url2 (bytes_of "0300010E").
Proof.
  constructor.
  - exists (bytes_of "http://cdn9.example/x"), (bytes_of "77"), [].
    split_and!; try (vm_compute; reflexivity). repeat constructor; done.
  - decide_hyp.
  - split; vm_compute; reflexivity.
Qed.

Definition plain_request (url : list Z) : request_t := mkRequest None url 1 None None None.

Lemma public_keys_agree_witness :
  ∃ cap1 cap2,
    storeKeyPublic junk_ctx kw_caps yk_url 1 =
      (u ← effective_url (keyword_flag acsmNew (toupper <$> yk_url))
             (keyword_flag kw_acsm (toupper <$> yk_url)) yk_url;
       Some (cap1, md5 (u8 1 :: u))) ∧
    storeKeyPublicByRequestMethod junk_ctx kw_caps (plain_request yk_url) 1 =
      (u ← effective_url (keyword_flag acsmNew (toupper <$> yk_url))
             (keyword_flag kw_acsm (toupper <$> yk_url)) yk_url;
       Some (cap2, md5 (u8 1 :: u))).
Proof.
  apply (public_keys_agree kw_caps (compiled kw_acsm) (compiled acsmNew) _ _ junk_ctx junk_ctx
           (plain_request yk_url) 1 yk_url).
  - reflexivity.
  - reflexivity.
  - exact kw_matcher.
  - exact none_matcher.
  - reflexivity.
  - reflexivity.
  - reflexivity.
  - reflexivity.
  - reflexivity.
  - decide_hyp.
  - decide_hyp.
Defined.

Lemma same_video_same_key_witness :
  ∃ cap1 cap2 k, storeKeyPublic junk_ctx kw_caps yk_url 1 = Some (cap1, k) ∧
                 storeKeyPublic junk_ctx kw_caps yk_url2 1 = Some (cap2, k) ∧
                 k = md5 (u8 1 :: bytes_of "0300010E" ++ s_flv).
Proof.
  apply (same_video_same_key kw_caps (compiled kw_acsm) (compiled acsmNew) (keyword_flag kw_acsm)
           (keyword_flag acsmNew) junk_ctx junk_ctx 1 yk_url yk_url2 (bytes_of "0300010E")).
  - reflexivity.
  - reflexivity.
  - exact kw_matcher.
  - exact none_matcher.
  - reflexivity.
  - reflexivity.
  - exact yk_url_ok.
  - exact yk_url2_ok.
  - decide_hyp.
  - decide_hyp.
  - decide_hyp.
  - decide_hyp.
  - decide_hyp.
  - vm_compute. reflexivity.
  - vm_compute. reflexivity.
  - vm_compute. reflexivity.
  - vm_compute. reflexivity.
Defined.

Lemma long_url_keys_witness :
  let url := replicate 2048 97 in
  (MAX_LEN <= zlen url → storeKeyPublic junk_ctx kw_caps url 1 = None) ∧
  (zlen url = MAX_LEN → storeKeyPublicByRequestMethod junk_ctx kw_caps (plain_request url) 1 = None) ∧
  (MAX_LEN < zlen url → ∃ cap',
     storeKeyPublicByRequestMethod junk_ctx kw_caps (plain_request url) 1
     = Some (cap', md5 (u8 1 :: url ++ concat (vary_pieces (plain_request url))))).
Proof.
  apply (long_url_keys junk_ctx kw_caps (plain_request (replicate 2048 97)) 1 (replicate 2048 97)
           (compiled kw_acsm)).
  - reflexivity.
  - decide_hyp.
  - reflexivity.
  - reflexivity.
  - decide_hyp.
  - constructor.
Defined.
