(* ===== verification/Heap.v ===== *)
(** The priority queue behind the heap removal policies (lib/heap.c).

    Nodes are allocated objects that carry their own index: [cells] is the
    store of live nodes by address, [nodes] the array of addresses (0 is NULL)
    and every operation reads and writes them as the code does. [None] is a
    failed assertion or an access through a dead pointer or outside the array.

    The keys are doubles of which the code uses only the comparisons: they are
    a type [K] with a total preorder [kle], given by the class [HeapKey]. *)
From S2P Require Import Prelude.
(** What the heap needs of its keys: a total preorder. *)
Class HeapKey (K : Type) := {
  kle : K → K → bool;
  kle_total : ∀ a b, kle a b = true ∨ kle b a = true;
  kle_trans : ∀ a b c, kle a b = true → kle b c = true → kle a c = true }.

#[export] Instance HeapKey_Z : HeapKey Z.
Proof.
  refine {| kle := Z.leb |}.
  - intros a b. rewrite !Z.leb_le. lia.
  - intros a b c. rewrite !Z.leb_le. lia.
Defined.

Module Heap.
Section model.
Context {K : Type} `{HK : HeapKey K}.

(** [a < b] on keys. *)
Definition klt (a b : K) : bool := negb (kle b a).

Record heap_node := mkNode { key : K; id : Z; data : Z }.

Record heap := mkHeap {
  size : Z;
  last : Z;
  age : K;
  nodes : list Z;
  cells : gmap Z heap_node;
  brk : Z }.                    (* the next address [xmalloc] hands out *)

Definition MinSize : Z := 32.
Definition Threshold : Z := 10000.
Definition Left (x : Z) : Z := i32 (2 * x + 1).
Definition Right (x : Z) : Z := i32 (2 * x + 2).
(** [((int)((x)-1)/2)] on an unsigned long: 0 for the root. *)
Definition Parent (x : Z) : Z := Z.quot (i32 (u64 (x - 1))) 2.

Definition deref (h : heap) (p : Z) : option heap_node := cells h !! p.

Definition set_nodes (h : heap) (ns : list Z) : heap :=
  mkHeap (size h) (last h) (age h) ns (cells h) (brk h).
Definition set_last (h : heap) (l : Z) : heap :=
  mkHeap (size h) l (age h) (nodes h) (cells h) (brk h).
Definition set_cells (h : heap) (c : gmap Z heap_node) : heap :=
  mkHeap (size h) (last h) (age h) (nodes h) c (brk h).

(** [p->id = i]. *)
Definition set_id (h : heap) (p i : Z) : option heap :=
  n ← deref h p; Some (set_cells h (<[p := mkNode (key n) i (data n)]> (cells h))).

Definition new_heap (initSize : Z) (age0 : K) : heap :=
  let sz := if initSize <=? 0 then MinSize else initSize in
  mkHeap sz 0 age0 (replicate (Z.to_nat sz) 0) ∅ 1.

(** [hp->nodes[i] != NULL] is only looked at below [last]. *)
Definition _heap_node_exist (h : heap) (i : Z) : option bool :=
  if (last h <=? u64 i) || (i <? 0) then Some false
  else p ← (nodes h).[i]; Some (negb (p =? 0)).

Definition _heap_should_grow (h : heap) : bool := size h <=? last h.

(** [size * 1.5] is exact in a double and truncated. *)
Definition _heap_grow (h : heap) : heap :=
  let newSize := i32 (if Threshold <? size h then size h * 3 / 2 else size h * 2) in
  mkHeap (u64 newSize) (last h) (age h)
    (take (Z.to_nat newSize) (nodes h) ++ replicate (Z.to_nat newSize - length (nodes h)) 0)
    (cells h) (brk h).

Definition _heap_swap_element (h : heap) (elm1 elm2 : Z) : option heap :=
  n1 ← deref h elm1; n2 ← deref h elm2;
  let elm1Id := id n1 in
  h1 ← set_id h elm1 (id n2);
  h2 ← set_id h1 elm2 elm1Id;
  m1 ← deref h2 elm1;
  ns1 ← zset (nodes h2) (id m1) elm1;
  m2 ← deref h2 elm2;
  ns2 ← zset ns1 (id m2) elm2;
  Some (set_nodes h2 ns2).

Fixpoint _heap_ify_up (fuel : nat) (h : heap) (elm : Z) : option heap :=
  n ← deref h elm;
  if 0 <? id n then
    parentNode ← (nodes h).[Parent (id n)];
    pn ← deref h parentNode;
    if kle (key pn) (key n) then Some h
    else match fuel with
         | O => None
         | S fuel' => h' ← _heap_swap_element h parentNode elm; _heap_ify_up fuel' h' elm
         end
  else Some h.

Fixpoint _heap_ify_down (fuel : nat) (h : heap) (elm : Z) : option heap :=
  n ← deref h elm;
  let left := Left (id n) in
  let right := Right (id n) in
  lex ← _heap_node_exist h left;
  rex ← _heap_node_exist h right;
  if negb lex then (if (rex : bool) then None else Some h)
  else
    lp ← (nodes h).[left];
    kid ← (if negb rex then Some lp
           else rp ← (nodes h).[right];
                rn ← deref h rp; ln ← deref h lp;
                Some (if klt (key rn) (key ln) then rp else lp));
    kn ← deref h kid;
    if kle (key n) (key kn) then Some h
    else match fuel with
         | O => None
         | S fuel' => h' ← _heap_swap_element h kid elm; _heap_ify_down fuel' h' elm
         end.

Definition loop_fuel (h : heap) : nat := Z.to_nat (last h).

(** [gen_key] is the key function the heap was created with. *)
Definition heap_gen_key (gen_key : Z → K → K) (h : heap) (dat : Z) : K := gen_key dat (age h).

(** The new node's address and the heap. *)
Definition heap_insert (gen_key : Z → K → K) (h : heap) (dat : Z) : option (Z * heap) :=
  let elm := brk h in
  let h1 := mkHeap (size h) (last h) (age h) (nodes h)
              (<[elm := mkNode (heap_gen_key gen_key h dat) 0 dat]> (cells h)) (brk h + 1) in
  let h2 := if _heap_should_grow h1 then _heap_grow h1 else h1 in
  ns ← zset (nodes h2) (last h2) elm;
  h3 ← set_id (set_nodes h2 ns) elm (last h2);
  let h4 := set_last h3 (u64 (last h3 + 1)) in
  h5 ← _heap_ify_up (loop_fuel h4) h4 elm;
  Some (elm, h5).

(** [heap_extractlast] frees the last node and returns its data. *)
Definition heap_extractlast (h : heap) : option (Z * heap) :=
  ex ← _heap_node_exist h (i32 (u64 (last h - 1)));
  if (ex : bool) then
    let h1 := set_last h (last h - 1) in
    p ← (nodes h1).[last h1];
    n ← deref h1 p;
    Some (data n, set_cells h1 (delete p (cells h1)))
  else None.

(** [if (e->key < nodes[Parent(e->id)]->key) ify_up; ify_down]. *)
Definition heap_fix (h : heap) (elm : Z) : option heap :=
  n ← deref h elm;
  pp ← (nodes h).[Parent (id n)];
  pn ← deref h pp;
  h1 ← (if klt (key n) (key pn) then _heap_ify_up (loop_fuel h) h elm else Some h);
  _heap_ify_down (loop_fuel h1) h1 elm.

Definition heap_delete (h : heap) (elm : Z) : option (Z * heap) :=
  n ← deref h elm;
  ex ← _heap_node_exist h (i32 (u64 (last h - 1)));
  if (ex : bool) then
    lastNode ← (nodes h).[last h - 1];
    h1 ← _heap_swap_element h lastNode elm;
    '(_, h2) ← heap_extractlast h1;
    if elm =? lastNode then Some (data n, h2)
    else if 0 <? last h2 then h3 ← heap_fix h2 lastNode; Some (data n, h3)
    else Some (data n, h2)
  else None.

(** [None] inside the result is the NULL of an empty heap. *)
Definition heap_extractmin (h : heap) : option (option Z * heap) :=
  if last h <=? 0 then Some (None, h)
  else p ← (nodes h).[0];
       n ← deref h p;
       '(_, h') ← heap_delete h p;
       Some (Some (data n), h').

Definition heap_update (gen_key : Z → K → K) (h : heap) (elm dat : Z) : option (Z * heap) :=
  n ← deref h elm;
  let ky := heap_gen_key gen_key h dat in
  let h1 := set_cells h (<[elm := mkNode ky (id n) dat]> (cells h)) in
  h2 ← heap_fix h1 elm;
  Some (data n, h2).

Definition heap_peepnode (h : heap) (i : Z) : option heap_node :=
  ex ← _heap_node_exist h i;
  if (ex : bool) then p ← (nodes h).[i]; deref h p else None.
Definition heap_peepmin (h : heap) : option Z := data <$> heap_peepnode h 0.
Definition heap_peepminkey (h : heap) : option K := key <$> heap_peepnode h 0.
Definition heap_peepkey (h : heap) (i : Z) : option K := key <$> heap_peepnode h i.
Definition heap_peep (h : heap) (i : Z) : option Z := data <$> heap_peepnode h i.
Definition heap_nodes (h : heap) : Z := i32 (last h).
Definition heap_empty (h : heap) : Z := if last h <=? 0 then 1 else 0.

(** [for (i = 0; i < last / 2; i++)], stopping at the first violation. *)
Fixpoint verify_from (k : nat) (i : Z) (h : heap) : option Z :=
  match k with
  | O => Some 1
  | S k' =>
      let bad (j : Z) :=
        ex ← _heap_node_exist h j;
        if (ex : bool) then
          p ← (nodes h).[i]; n ← deref h p; q ← (nodes h).[j]; m ← deref h q;
          Some (klt (key m) (key n))
        else Some false in
      b1 ← bad (Left i); b2 ← bad (Right i);
      if b1 || b2 then Some 0 else verify_from k' (i + 1) h
  end.
Definition verify_heap_property (h : heap) : option Z :=
  verify_from (Z.to_nat (last h / 2)) 0 h.

End model.
Arguments heap_node : clear implicits.
Arguments heap : clear implicits.
End Heap.

(** Correctness of lib/heap.c: every operation maps a heap that represents an
    ordered sequence of nodes to one that does, with the multiset of nodes
    changed as the operation promises. *)

Import Heap.

(** ** Heap order on key functions *)

Definition par (j : Z) : Z := (j - 1) / 2.

Lemma par_lt j : 0 < j → 0 <= par j < j.
Proof. unfold par. intros. split; [apply Z.div_pos|apply Z.div_lt_upper_bound]; lia. Qed.

Lemma par_child i j : 0 < j → par j = i ↔ j = 2 * i + 1 ∨ j = 2 * i + 2.
Proof.
  intros Hj. unfold par. pose proof (Z.div_mod (j - 1) 2 ltac:(lia)).
  pose proof (Z.mod_pos_bound (j - 1) 2 ltac:(lia)). lia.
Qed.

Section order.
Context {K : Type} `{HK : HeapKey K}.
Implicit Types (f : Z → K) (n i j c : Z).

Definition ord f n : Prop := ∀ j, 0 < j < n → kle (f (par j)) (f j) = true.

(** The order may be broken between [i] and its parent only. *)
Definition upinv f n i : Prop :=
  (∀ j, 0 < j < n → j ≠ i → kle (f (par j)) (f j) = true) ∧
  (∀ j, 0 < j < n → par j = i → 0 < i → kle (f (par i)) (f j) = true).

(** The order may be broken between [i] and its children only. *)
Definition downinv f n i : Prop :=
  (∀ j, 0 < j < n → par j ≠ i → kle (f (par j)) (f j) = true) ∧
  (∀ j, 0 < j < n → par j = i → 0 < i → kle (f (par i)) (f j) = true).

Definition fswap f (a b k : Z) : K := if k =? a then f b else if k =? b then f a else f k.

Lemma kle_false a b : kle a b = false → kle b a = true.
Proof. intros H. destruct (kle_total a b) as [E|E]; congruence. Qed.

Lemma kle_refl a : kle a a = true.
Proof. by destruct (kle_total a a). Qed.

Lemma up_done f n i :
  upinv f n i → i <= 0 ∨ kle (f (par i)) (f i) = true → ord f n.
Proof.
  intros [H1 H2] Hi j Hj. destruct (decide (j = i)) as [->|Hne]; [|by apply H1].
  destruct Hi; [lia|done].
Qed.

Lemma up_swap f n i :
  0 < i < n → upinv f n i → kle (f (par i)) (f i) = false → upinv (fswap f (par i) i) n (par i).
Proof.
  intros Hi [H1 H2] Hlt. apply kle_false in Hlt. pose proof (par_lt i ltac:(lia)) as Hp.
  split.
  - intros j Hj Hne. pose proof (par_lt j ltac:(lia)) as Hpj. unfold fswap.
    destruct (Z.eqb_spec j (par i)); [lia|]. destruct (Z.eqb_spec j i) as [->|].
    + destruct (Z.eqb_spec (par i) (par i)); [|lia]. done.
    + destruct (Z.eqb_spec (par j) (par i)) as [E|].
      { apply (kle_trans _ (f (par i))); [done|]. rewrite <- E. by apply H1. }
      destruct (Z.eqb_spec (par j) i) as [E|]; [apply H2; lia|]. by apply H1.
  - intros j Hj Hpj Hpos. unfold fswap. pose proof (par_lt (par i) Hpos).
    destruct (Z.eqb_spec (par (par i)) (par i)); [lia|].
    destruct (Z.eqb_spec (par (par i)) i); [lia|].
    destruct (Z.eqb_spec j (par i)) as [->|]; [lia|].
    assert (kle (f (par (par i))) (f (par i)) = true) by (apply H1; lia).
    destruct (Z.eqb_spec j i); [done|].
    apply (kle_trans _ (f (par i))); [done|]. rewrite <- Hpj at 1. apply H1; lia.
Qed.

Lemma ord_downinv f n i : ord f n → downinv f n i.
Proof.
  intros H. split; [by intros; apply H|]. intros j Hj <- Hpos. pose proof (par_lt j ltac:(lia)).
  apply (kle_trans _ (f (par j))); apply H; lia.
Qed.

Lemma down_done f n i :
  downinv f n i → (∀ c, 0 < c < n → par c = i → kle (f i) (f c) = true) → ord f n.
Proof.
  intros [H1 _] Hc j Hj. destruct (decide (par j = i)) as [E|]; [|by apply H1].
  rewrite E. by apply Hc.
Qed.

Lemma down_swap f n i c :
  0 < c < n → par c = i → 0 <= i → (∀ c', 0 < c' < n → par c' = i → kle (f c) (f c') = true) →
  kle (f i) (f c) = false → downinv f n i → downinv (fswap f c i) n c.
Proof.
  intros Hc Hpc Hi Hmin Hlt [H1 H2]. apply kle_false in Hlt.
  pose proof (par_lt c ltac:(lia)) as Hlc. split.
  - intros j Hj Hne. pose proof (par_lt j ltac:(lia)) as Hpj. unfold fswap.
    destruct (Z.eqb_spec (par j) c); [lia|]. destruct (Z.eqb_spec (par j) i) as [E|E].
    + destruct (Z.eqb_spec j c) as [->|]; [done|]. destruct (Z.eqb_spec j i); [lia|]. by apply Hmin.
    + destruct (Z.eqb_spec j c) as [->|]; [lia|]. destruct (Z.eqb_spec j i) as [->|].
      * apply H2; lia.
      * by apply H1.
  - intros j Hj Hpj Hpos. pose proof (par_lt j ltac:(lia)). unfold fswap. rewrite Hpc.
    destruct (Z.eqb_spec i c); [lia|]. destruct (Z.eqb_spec i i); [|lia].
    destruct (Z.eqb_spec j c); [lia|]. destruct (Z.eqb_spec j i); [lia|].
    rewrite <- Hpj at 1. apply H1; lia.
Qed.

(** Replacing the key at [i] of an ordered heap. *)
Lemma ord_replace f g n i :
  ord f n → (∀ j, j ≠ i → g j = f j) → 0 <= i →
  (kle (g (par i)) (g i) = false → 0 < i → upinv g n i) ∧
  (i = 0 ∨ kle (g (par i)) (g i) = true → downinv g n i).
Proof.
  intros Ho Hg Hi.
  assert (Hgp : ∀ j, 0 < j < n → par j = i → 0 < i → kle (g (par i)) (g j) = true).
  { intros j Hj <- Hpos. pose proof (par_lt j ltac:(lia)). pose proof (par_lt (par j) Hpos).
    rewrite !Hg by lia. apply (kle_trans _ (f (par j))); apply Ho; lia. }
  split.
  - intros Hlt Hpos. apply kle_false in Hlt. split; [|done]. intros j Hj Hne.
    destruct (decide (par j = i)) as [E|E].
    + rewrite E. apply (kle_trans _ (g (par i))); [done|]. by apply Hgp.
    + rewrite !Hg by done. by apply Ho.
  - intros Hle. split; [|done]. intros j Hj Hne. destruct (decide (j = i)) as [->|].
    + destruct Hle as [->|]; [lia|done].
    + rewrite !Hg by done. by apply Ho.
Qed.
End order.

(** ** Sequences of nodes *)

Section lswap.
Context {A : Type}.
Implicit Types (l : list A).

Definition lswap l (i j : Z) : list A :=
  match l.[i], l.[j] with
  | Some x, Some y => <[Z.to_nat i := y]> (<[Z.to_nat j := x]> l)
  | _, _ => l
  end.

Lemma length_lswap l i j : length (lswap l i j) = length l.
Proof. unfold lswap. repeat case_match; rewrite ?length_insert; done. Qed.

Lemma zget_lswap l i j k :
  0 <= i < zlen l → 0 <= j < zlen l →
  (lswap l i j).[k] = if k =? i then l.[j] else if k =? j then l.[i] else l.[k].
Proof.
  intros Hi Hj. unfold lswap. destruct (zget_is_Some l i Hi) as [x Hx].
  destruct (zget_is_Some l j Hj) as [y Hy]. rewrite Hx, Hy.
  pose proof (zset_Some l j x Hj) as Z1.
  pose proof (zset_Some (<[Z.to_nat j := x]> l) i y ltac:(rewrite length_insert; lia)) as Z2.
  rewrite (zget_zset _ _ _ _ _ Z2). case_decide as E.
  - subst. by rewrite Z.eqb_refl.
  - destruct (Z.eqb_spec k i); [done|]. rewrite (zget_zset _ _ _ _ _ Z1).
    case_decide as E2; [subst; by rewrite Z.eqb_refl|]. by destruct (Z.eqb_spec k j).
Qed.

Lemma insert_perm l (b : nat) (z w : A) : l !! b = Some w → w :: <[b := z]> l ≡ₚ z :: l.
Proof.
  revert b. induction l as [|v l IH]; intros [|b] H; simplify_eq/=; [by constructor|].
  rewrite Permutation_swap, (IH b) by done. apply Permutation_swap.
Qed.

Lemma lswap_perm l i j : lswap l i j ≡ₚ l.
Proof.
  unfold lswap. destruct (l.[i]) as [x|] eqn:Hx; [|done]. destruct (l.[j]) as [y|] eqn:Hy; [|done].
  pose proof (zget_Some_range _ _ _ Hx). pose proof (zget_Some_range _ _ _ Hy).
  rewrite zget_pos in Hx, Hy by lia. set (a := Z.to_nat i) in *. set (b := Z.to_nat j) in *.
  clearbody a b. destruct (decide (a = b)) as [->|Hne].
  { simplify_eq. rewrite list_insert_insert_eq, list_insert_id by done. done. }
  clear -Hx Hy Hne. revert a b Hx Hy Hne. induction l as [|z l IH]; intros a b Hx Hy Hne; [done|].
  destruct a as [|a], b as [|b]; try done; simplify_eq/=.
  - by apply insert_perm.
  - by apply insert_perm.
  - constructor. apply IH; [done|done|]. lia.
Qed.
End lswap.

Section rep.
Context {K : Type} `{HK : HeapKey K}.
Implicit Types (h : heap K) (l : list (Z * K * Z)).

(** The heap [h] holds the nodes [l] (address, key, data) in array order. *)
Record rep h l : Prop := mkRep {
  rep_last : last h = zlen l;
  rep_size : zlen (nodes h) = size h;
  rep_le : last h <= size h;
  rep_small : size h <= 1073741823;
  rep_pos : 0 < size h;
  rep_node : ∀ i p k d, l.[i] = Some (p, k, d) →
    (nodes h).[i] = Some p ∧ cells h !! p = Some (mkNode k i d);
  rep_nodup : NoDup (fst <$> (fst <$> l));
  rep_brk : 0 < brk h;
  rep_fresh : ∀ p, is_Some (cells h !! p) → 0 < p < brk h }.

(** The parts of the heap a reordering leaves alone. *)
Definition frame h h' : Prop := size h' = size h ∧ age h' = age h ∧ brk h' = brk h.

Definition keyf (d0 : K) l (i : Z) : K := match l.[i] with Some (_, k, _) => k | None => d0 end.

Lemma keyf_get d0 l i p k d : l.[i] = Some (p, k, d) → keyf d0 l i = k.
Proof. unfold keyf. by intros ->. Qed.

Lemma keyf_lswap d0 l i j k : 0 <= i < zlen l → 0 <= j < zlen l →
  keyf d0 (lswap l i j) k = fswap (keyf d0 l) i j k.
Proof.
  intros Hi Hj. unfold keyf at 1. rewrite zget_lswap by done. unfold fswap.
  by destruct (k =? i), (k =? j).
Qed.

Lemma rep_range h l i x : rep h l → l.[i] = Some x → 0 <= i < last h.
Proof. intros Hr Hi. rewrite (rep_last _ _ Hr). by eapply zget_Some_range. Qed.

Lemma rep_ptr_pos h l i p k d : rep h l → l.[i] = Some (p, k, d) → 0 < p < brk h.
Proof.
  intros Hr Hi. destruct (rep_node _ _ Hr _ _ _ _ Hi) as [_ Hc].
  eapply rep_fresh; [done|]. by rewrite Hc.
Qed.

Lemma rep_inj h l i j p k d k' d' :
  rep h l → l.[i] = Some (p, k, d) → l.[j] = Some (p, k', d') → i = j.
Proof.
  intros Hr Hi Hj. destruct (rep_node _ _ Hr _ _ _ _ Hi) as [_ H1].
  destruct (rep_node _ _ Hr _ _ _ _ Hj) as [_ H2]. rewrite H1 in H2. by injection H2.
Qed.

Lemma rep_exist h l i : rep h l → -2147483648 <= i <= 2147483647 →
  _heap_node_exist h i = Some (bool_decide (0 <= i < last h)).
Proof.
  intros Hr Hi. unfold _heap_node_exist. pose proof (rep_le _ _ Hr). pose proof (rep_small _ _ Hr).
  destruct (Z.ltb_spec i 0).
  { rewrite orb_true_r. by rewrite bool_decide_eq_false_2 by lia. }
  rewrite u64_small by lia. rewrite orb_false_r. destruct (Z.leb_spec (last h) i).
  { by rewrite bool_decide_eq_false_2 by lia. }
  rewrite bool_decide_eq_true_2 by lia.
  destruct (zget_is_Some l i) as [[[p k] d] Hl]; [rewrite (rep_last _ _ Hr) in *; lia|].
  destruct (rep_node _ _ Hr _ _ _ _ Hl) as [-> _]. cbn [mbind option_bind].
  pose proof (rep_ptr_pos _ _ _ _ _ _ Hr Hl). destruct (Z.eqb_spec p 0); [lia|done].
Qed.

Lemma Parent_par i : 0 < i < 2147483648 → Parent i = par i.
Proof.
  intros Hi. unfold Parent, par. rewrite u64_small by lia. rewrite i32_small by lia.
  apply Z.quot_div_nonneg; lia.
Qed.

Lemma Parent_root : Parent 0 = 0.
Proof. reflexivity. Qed.

Lemma swap_ok h l i j p1 k1 d1 p2 k2 d2 :
  rep h l → l.[i] = Some (p1, k1, d1) → l.[j] = Some (p2, k2, d2) →
  ∃ h', _heap_swap_element h p1 p2 = Some h' ∧ rep h' (lswap l i j) ∧ frame h h'.
Proof.
  intros Hr Hi Hj. pose proof (rep_range _ _ _ _ Hr Hi) as Ri. pose proof (rep_range _ _ _ _ Hr Hj) as Rj.
  destruct (rep_node _ _ Hr _ _ _ _ Hi) as [Ni Ci]. destruct (rep_node _ _ Hr _ _ _ _ Hj) as [Nj Cj].
  unfold _heap_swap_element, set_id, deref. rewrite Ci, Cj. cbn [mbind option_bind id key data set_cells cells].
  destruct (decide (p1 = p2)) as [<-|Hne].
  { assert (i = j) as <- by by eapply rep_inj. simplify_eq.
    rewrite lookup_insert_eq. cbn [mbind option_bind id key data set_cells cells nodes].
    rewrite lookup_insert_eq. cbn [mbind option_bind id key data].
    pose proof (zget_Some_range _ _ _ Ni).
    rewrite zset_Some by lia. cbn [mbind option_bind].
    rewrite zset_Some by (rewrite length_insert; lia). cbn [mbind option_bind]. eexists. split; [done|].
    rewrite !insert_insert_eq, insert_id by done.
    rewrite list_insert_insert_eq, list_insert_id by (rewrite <- zget_pos by lia; done).
    assert (lswap l i i = l) as ->.
    { unfold lswap. rewrite Hi. rewrite list_insert_insert_eq, list_insert_id; [done|].
      rewrite <- zget_pos by lia. done. }
    destruct h; cbn in *. split; [|by split]. by destruct Hr; constructor. }
  rewrite lookup_insert_ne by done. rewrite Cj. cbn [mbind option_bind id key data set_cells cells nodes].
  rewrite (lookup_insert_ne _ p2 p1), (lookup_insert_eq _ p1) by congruence. cbn [mbind option_bind id key data].
  pose proof (zget_Some_range _ _ _ Ni). pose proof (zget_Some_range _ _ _ Nj).
  pose proof (zset_Some (nodes h) j p1 ltac:(lia)) as Z1. rewrite Z1. cbn [mbind option_bind].
  rewrite lookup_insert_eq. cbn [mbind option_bind id key data].
  pose proof (zset_Some (<[Z.to_nat j:=p1]> (nodes h)) i p2 ltac:(rewrite length_insert; lia)) as Z2.
  rewrite Z2. cbn [mbind option_bind]. eexists. split; [done|]. split; [|by split].
  pose proof (rep_last _ _ Hr) as Hlast.
  constructor; cbn; try apply Hr.
  - by rewrite length_lswap.
  - rewrite !length_insert. apply Hr.
  - intros m p k d. rewrite zget_lswap by lia.
    rewrite (zget_zset _ _ _ _ _ Z2), (zget_zset _ _ _ _ _ Z1).
    destruct (Z.eqb_spec m i) as [->|Hmi].
    { intros E. simplify_eq. rewrite decide_True by done. by rewrite lookup_insert_eq. }
    rewrite (decide_False (P := m = i)) by done. destruct (Z.eqb_spec m j) as [->|Hmj].
    { intros E. simplify_eq. rewrite decide_True by done.
      by rewrite lookup_insert_ne, lookup_insert_eq by congruence. }
    rewrite (decide_False (P := m = j)) by done. intros Hm.
    destruct (rep_node _ _ Hr _ _ _ _ Hm) as [Nm Cm]. split; [done|].
    rewrite !lookup_insert_ne; [done|..]; intros ->; [by apply Hmi; eapply rep_inj|by apply Hmj; eapply rep_inj].
  - rewrite lswap_perm. apply Hr.
  - intros p Hp. apply (rep_fresh _ _ Hr). destruct (decide (p = p2)) as [->|]; [by rewrite Cj|].
    rewrite lookup_insert_ne in Hp by congruence. destruct (decide (p = p1)) as [->|]; [by rewrite Ci|].
    by rewrite lookup_insert_ne in Hp by congruence.
Qed.

Lemma frame_trans h1 h2 h3 : frame h1 h2 → frame h2 h3 → frame h1 h3.
Proof. unfold frame. intuition congruence. Qed.

Lemma ord_ext (f g : Z → K) n : (∀ j, f j = g j) → ord f n → ord g n.
Proof. intros E H j Hj. rewrite <- !E. by apply H. Qed.
Lemma upinv_ext (f g : Z → K) n i : (∀ j, f j = g j) → upinv f n i → upinv g n i.
Proof. intros E [H1 H2]. split; intros; rewrite <- !E; auto. Qed.
Lemma downinv_ext (f g : Z → K) n i : (∀ j, f j = g j) → downinv f n i → downinv g n i.
Proof. intros E [H1 H2]. split; intros; rewrite <- !E; auto. Qed.

Lemma rep_last_small h l : rep h l → zlen l <= 1073741823.
Proof.
  intros Hr. pose proof (rep_last _ _ Hr). pose proof (rep_le _ _ Hr).
  pose proof (rep_small _ _ Hr). lia.
Qed.

Lemma ify_up_ok d0 fuel : ∀ h l i p k d,
  rep h l → l.[i] = Some (p, k, d) → upinv (keyf d0 l) (zlen l) i → i <= Z.of_nat fuel →
  ∃ h' l', _heap_ify_up fuel h p = Some h' ∧ rep h' l' ∧ l' ≡ₚ l ∧
           ord (keyf d0 l') (zlen l') ∧ frame h h'.
Proof.
  induction fuel as [|fuel IH]; intros h l i p k d Hr Hi Hup Hf;
    destruct (rep_node _ _ Hr _ _ _ _ Hi) as [Ni Ci];
    pose proof (zget_Some_range _ _ _ Hi) as Ri; pose proof (rep_last_small _ _ Hr) as Hsm;
    cbn [_heap_ify_up]; unfold deref; rewrite Ci; cbn [mbind option_bind id key];
    (destruct (Z.ltb_spec 0 i) as [Hpos|]; [|exists h, l; split_and!; try done; by eapply up_done; eauto]);
    [lia|].
  rewrite Parent_par by lia. pose proof (par_lt i Hpos) as Hp.
  destruct (zget_is_Some l (par i)) as [[[q kq] dq] Hq]; [lia|].
  destruct (rep_node _ _ Hr _ _ _ _ Hq) as [Nq Cq]. rewrite Nq. cbn [mbind option_bind].
  rewrite Cq. cbn [mbind option_bind key].
  destruct (kle kq k) eqn:E.
  { exists h, l. split_and!; try done. eapply up_done; [done|]. right.
    by rewrite (keyf_get _ _ _ _ _ _ Hq), (keyf_get _ _ _ _ _ _ Hi). }
  destruct (swap_ok _ _ _ _ _ _ _ _ _ _ Hr Hq Hi) as (h1 & -> & Hr1 & Hfr). cbn [mbind option_bind].
  destruct (IH h1 (lswap l (par i) i) (par i) p k d) as (h2 & l2 & -> & Hr2 & Hp2 & Ho2 & Hfr2); [done| | |lia|].
  - rewrite zget_lswap by lia. by rewrite Z.eqb_refl.
  - rewrite length_lswap. eapply upinv_ext; [intros j; symmetry; apply keyf_lswap; lia|].
    apply up_swap; [lia|done|]. by rewrite (keyf_get _ _ _ _ _ _ Hq), (keyf_get _ _ _ _ _ _ Hi).
  - exists h2, l2. split_and!; try done; [|by eapply frame_trans]. by rewrite Hp2, lswap_perm.
Qed.

(** The child the loop of [_heap_ify_down] looks at. *)
Lemma pick_child d0 h l i : rep h l → 0 <= i → 2 * i + 1 < zlen l →
  ∃ c p k d, l.[c] = Some (p, k, d) ∧ 0 < c < zlen l ∧ par c = i ∧
    (∀ c', 0 < c' < zlen l → par c' = i → kle (keyf d0 l c) (keyf d0 l c') = true) ∧
    (lp ← (nodes h).[2 * i + 1];
     (if negb (bool_decide (0 <= 2 * i + 2 < last h)) then Some lp
      else rp ← (nodes h).[2 * i + 2]; rn ← deref h rp; ln ← deref h lp;
           Some (if klt (key rn) (key ln) then rp else lp))) = Some p.
Proof.
  intros Hr Hi Hl.
  destruct (zget_is_Some l (2 * i + 1)) as [[[p k] d] Hp]; [lia|].
  destruct (rep_node _ _ Hr _ _ _ _ Hp) as [Np Cp]. rewrite Np. cbn [mbind option_bind].
  rewrite (rep_last _ _ Hr). destruct (decide (2 * i + 2 < zlen l)) as [Hrt|Hrt].
  - rewrite bool_decide_eq_true_2 by lia. cbn [negb].
    destruct (zget_is_Some l (2 * i + 2)) as [[[q kq] dq] Hq]; [lia|].
    destruct (rep_node _ _ Hr _ _ _ _ Hq) as [Nq Cq]. rewrite Nq. cbn [mbind option_bind].
    unfold deref. rewrite Cq, Cp. cbn [mbind option_bind key].
    destruct (klt kq k) eqn:E; unfold klt in E.
    + apply negb_true_iff, kle_false in E. exists (2 * i + 2), q, kq, dq.
      split_and!; try done; try lia; [apply par_child; lia|].
      intros c' Hc' [->| ->]%par_child; [| |lia];
        rewrite ?(keyf_get _ _ _ _ _ _ Hq), ?(keyf_get _ _ _ _ _ _ Hp); [done|apply kle_refl].
    + apply negb_false_iff in E. exists (2 * i + 1), p, k, d.
      split_and!; try done; try lia; [apply par_child; lia|].
      intros c' Hc' [->| ->]%par_child; [| |lia];
        rewrite ?(keyf_get _ _ _ _ _ _ Hq), ?(keyf_get _ _ _ _ _ _ Hp); [apply kle_refl|done].
  - rewrite bool_decide_eq_false_2 by lia. cbn [negb]. exists (2 * i + 1), p, k, d.
    split_and!; try done; try lia; [apply par_child; lia|].
    intros c' Hc' [->| ->]%par_child; [apply kle_refl|lia|lia].
Qed.

Lemma ify_down_ok d0 fuel : ∀ h l i p k d,
  rep h l → l.[i] = Some (p, k, d) → downinv (keyf d0 l) (zlen l) i →
  zlen l - i <= Z.of_nat fuel →
  ∃ h' l', _heap_ify_down fuel h p = Some h' ∧ rep h' l' ∧ l' ≡ₚ l ∧
           ord (keyf d0 l') (zlen l') ∧ frame h h'.
Proof.
  induction fuel as [|fuel IH]; intros h l i p k d Hr Hi Hdn Hf;
    pose proof (zget_Some_range _ _ _ Hi) as Ri; [lia|].
  destruct (rep_node _ _ Hr _ _ _ _ Hi) as [Ni Ci]. pose proof (rep_last_small _ _ Hr) as Hsm.
  cbn [_heap_ify_down]. change (deref h p) with (cells h !! p). rewrite Ci. cbn [mbind option_bind id key].
  unfold Left, Right. rewrite !i32_small by lia. rewrite !(rep_exist _ l) by (done || lia).
  cbn [mbind option_bind]. pose proof (rep_last _ _ Hr) as Hlast.
  destruct (decide (2 * i + 1 < zlen l)) as [Hl|Hl].
  2:{ rewrite (bool_decide_eq_false_2 (0 <= 2 * i + 1 < last h)) by lia.
      rewrite bool_decide_eq_false_2 by lia. cbn [negb]. exists h, l. split_and!; try done.
      eapply down_done; [done|]. intros c Hc [->| ->]%par_child; lia. }
  rewrite (bool_decide_eq_true_2 (0 <= 2 * i + 1 < last h)) by lia. cbn [negb].
  destruct (pick_child d0 h l i Hr ltac:(lia) Hl) as (c & q & kq & dq & Hc & Rc & Pc & Hmin & Hpick).
  destruct ((nodes h).[2 * i + 1]) as [lp|]; [|done]. cbn [mbind option_bind] in Hpick |- *.
  rewrite Hpick. cbn [mbind option_bind]. destruct (rep_node _ _ Hr _ _ _ _ Hc) as [Nc Cc].
  change (deref h q) with (cells h !! q). rewrite Cc. cbn [mbind option_bind key].
  destruct (kle k kq) eqn:E.
  { exists h, l. split_and!; try done. eapply down_done; [done|]. intros c' Hc' Hpc'.
    rewrite (keyf_get _ _ _ _ _ _ Hi). apply (kle_trans _ kq); [done|].
    rewrite <- (keyf_get d0 _ _ _ _ _ Hc). by apply Hmin. }
  destruct (swap_ok _ _ _ _ _ _ _ _ _ _ Hr Hc Hi) as (h1 & -> & Hr1 & Hfr). cbn [mbind option_bind].
  pose proof (par_lt c ltac:(lia)).
  destruct (IH h1 (lswap l c i) c p k d) as (h2 & l2 & -> & Hr2 & Hp2 & Ho2 & Hfr2);
    [done| | |rewrite length_lswap; lia|].
  - rewrite zget_lswap by lia. by rewrite Z.eqb_refl.
  - rewrite length_lswap. eapply downinv_ext; [intros j; symmetry; apply keyf_lswap; lia|].
    apply down_swap; try done; [lia|]. by rewrite (keyf_get _ _ _ _ _ _ Hi), (keyf_get _ _ _ _ _ _ Hc).
  - exists h2, l2. split_and!; try done; [|by eapply frame_trans]. by rewrite Hp2, lswap_perm.
Qed.

Lemma perm_zget {A} (l l' : list A) x i : l' ≡ₚ l → l.[i] = Some x → ∃ j, l'.[j] = Some x.
Proof.
  intros Hp Hi. pose proof (zget_Some_range _ _ _ Hi). rewrite zget_pos in Hi by lia.
  apply list_elem_of_lookup_2 in Hi. rewrite <- Hp in Hi.
  apply list_elem_of_lookup_1 in Hi as [j Hj]. exists (Z.of_nat j). by rewrite zget_nat.
Qed.

(** [heap_fix] restores the order around one replaced key. *)
Lemma heap_fix_ok d0 h l f i p k d :
  rep h l → l.[i] = Some (p, k, d) → ord f (zlen l) → (∀ j, j ≠ i → keyf d0 l j = f j) →
  ∃ h' l', heap_fix h p = Some h' ∧ rep h' l' ∧ l' ≡ₚ l ∧ ord (keyf d0 l') (zlen l') ∧ frame h h'.
Proof.
  intros Hr Hi Ho Hfk. destruct (rep_node _ _ Hr _ _ _ _ Hi) as [Ni Ci].
  pose proof (zget_Some_range _ _ _ Hi) as Ri. pose proof (rep_last_small _ _ Hr) as Hsm.
  pose proof (rep_last _ _ Hr) as Hlast.
  destruct (ord_replace f (keyf d0 l) (zlen l) i Ho Hfk ltac:(lia)) as [HU HD].
  unfold heap_fix. change (deref h p) with (cells h !! p). rewrite Ci. cbn [mbind option_bind id key].
  assert (Hpar : 0 <= Parent i < zlen l ∧ (i = 0 ∨ 0 < i ∧ Parent i = par i)).
  { destruct (decide (i = 0)) as [->|]; [rewrite Parent_root; lia|].
    rewrite Parent_par by lia. pose proof (par_lt i ltac:(lia)). lia. }
  destruct Hpar as [Rp Cs]. destruct (zget_is_Some l (Parent i) Rp) as [[[q kq] dq] Hq].
  destruct (rep_node _ _ Hr _ _ _ _ Hq) as [Nq Cq]. rewrite Nq. cbn [mbind option_bind].
  change (deref h q) with (cells h !! q). rewrite Cq. cbn [mbind option_bind key]. unfold klt.
  assert (Kq : keyf d0 l (Parent i) = kq) by by eapply keyf_get.
  assert (Ki : keyf d0 l i = k) by by eapply keyf_get.
  destruct (kle kq k) eqn:E; cbn [negb mbind option_bind].
  - destruct (ify_down_ok d0 (loop_fuel h) h l i p k d) as (h' & l' & -> & H1 & H2 & H3 & H4);
      [done|done| |unfold loop_fuel; lia|by exists h', l'].
    apply HD. destruct Cs as [->|[Hp Hpp]]; [by left|right]. by rewrite <- Hpp, Kq, Ki.
  - assert (Hpos : 0 < i ∧ Parent i = par i).
    { destruct Cs as [->|]; [|done]. exfalso. rewrite Parent_root in Hq.
      rewrite Hi in Hq. injection Hq as <- <- <-. by rewrite kle_refl in E. }
    destruct Hpos as [Hpos Hpp].
    destruct (ify_up_ok d0 (loop_fuel h) h l i p k d) as (h1 & l1 & -> & H1 & H2 & H3 & H4);
      [done|done| |unfold loop_fuel; lia|].
    { apply HU; [|done]. by rewrite <- Hpp, Kq, Ki. }
    cbn [mbind option_bind]. destruct (perm_zget _ _ _ _ H2 Hi) as [j Hj].
    destruct (ify_down_ok d0 (loop_fuel h1) h1 l1 j p k d) as (h' & l' & -> & G1 & G2 & G3 & G4);
      [done|done|by apply ord_downinv| |].
    { unfold loop_fuel. rewrite (rep_last _ _ H1). pose proof (zget_Some_range _ _ _ Hj). lia. }
    exists h', l'. split_and!; try done; [by rewrite G2, H2|by eapply frame_trans].
Qed.

(** ** The operations *)

Lemma ord_root (f : Z → K) n : ord f n → ∀ j, 0 <= j < n → kle (f 0) (f j) = true.
Proof.
  intros Ho j. induction (Z_lt_le_dec 0 0) as [|_]; [lia|].
  pattern j. apply (well_founded_induction (Z.lt_wf 0)). clear j. intros j IH Hj.
  destruct (decide (j = 0)) as [->|]; [apply kle_refl|]. pose proof (par_lt j ltac:(lia)).
  apply (kle_trans _ (f (par j))); [apply IH; lia|apply Ho; lia].
Qed.

Lemma ord_take (f g : Z → K) n m : ord f n → m <= n → (∀ j, j < m → g j = f j) → ord g m.
Proof.
  intros Ho Hm Hg j Hj. pose proof (par_lt j ltac:(lia)). rewrite !Hg by lia. apply Ho. lia.
Qed.

Lemma grow_ok h :
  zlen (nodes h) = size h → 0 < size h <= 536870911 →
  let h' := _heap_grow h in
  zlen (nodes h') = size h' ∧ size h < size h' <= 1073741823 ∧
  (∀ i, i < size h → (nodes h').[i] = (nodes h).[i]) ∧
  last h' = last h ∧ age h' = age h ∧ cells h' = cells h ∧ brk h' = brk h.
Proof.
  intros Hl Hs. unfold _heap_grow. cbn.
  set (m := if Threshold <? size h then size h * 3 / 2 else size h * 2).
  assert (Hm : size h < m <= 1073741823).
  { unfold m, Threshold. destruct (Z.ltb_spec 10000 (size h)); [|lia].
    pose proof (Z.div_mod (size h * 3) 2 ltac:(lia)).
    pose proof (Z.mod_pos_bound (size h * 3) 2 ltac:(lia)). lia. }
  rewrite i32_small by lia. rewrite u64_small by lia. rewrite (take_ge (nodes h)) by lia.
  split_and!; try done; try lia.
  - rewrite length_app, length_replicate. lia.
  - intros i Hi. apply zget_app_l. lia.
Qed.

Lemma rep_snoc h l p k d ns :
  rep h l → last h < size h → p = brk h → zset (nodes h) (last h) p = Some ns →
  rep (mkHeap (size h) (last h + 1) (age h) ns (<[p := mkNode k (last h) d]> (cells h)) (p + 1))
      (l ++ [(p, k, d)]).
Proof.
  intros Hr Hlt Hp Hz. pose proof (rep_last _ _ Hr) as Hlast.
  constructor; cbn.
  - rewrite length_app. cbn. lia.
  - rewrite (zset_length _ _ _ _ Hz). apply Hr.
  - lia.
  - apply Hr.
  - apply Hr.
  - intros i p' k' d' Hi. pose proof (zget_Some_range _ _ _ Hi) as Ri. rewrite length_app in Ri. cbn in Ri.
    rewrite (zget_zset _ _ _ _ _ Hz). destruct (decide (i = last h)) as [->|Hne].
    + rewrite zget_app_r in Hi by lia. rewrite Hlast, Z.sub_diag in Hi.
      change ([(p, k, d)].[0]) with (Some (p, k, d)) in Hi. simplify_eq.
      by rewrite lookup_insert_eq.
    + rewrite zget_app_l in Hi by lia. destruct (rep_node _ _ Hr _ _ _ _ Hi) as [N C].
      split; [done|]. pose proof (rep_ptr_pos _ _ _ _ _ _ Hr Hi).
      by rewrite lookup_insert_ne by lia.
  - rewrite !fmap_app. cbn. apply NoDup_app. split_and!; [apply Hr| |apply NoDup_singleton].
    intros q Hq ->%list_elem_of_singleton.
    rewrite <- list_fmap_compose in Hq. apply list_elem_of_fmap in Hq as ([[q' k'] d'] & Hq' & Hin).
    cbn in Hq'. apply list_elem_of_lookup_1 in Hin as [i Hi]. rewrite <- zget_nat in Hi.
    pose proof (rep_ptr_pos _ _ _ _ _ _ Hr Hi). lia.
  - pose proof (rep_brk _ _ Hr). lia.
  - intros q Hq. destruct (decide (q = p)) as [->|].
    + pose proof (rep_brk _ _ Hr). lia.
    + rewrite lookup_insert_ne in Hq by done. apply (rep_fresh _ _ Hr) in Hq. lia.
Qed.

Lemma upinv_snoc (f g : Z → K) n :
  0 <= n → ord f n → (∀ j, j < n → g j = f j) → upinv g (n + 1) n.
Proof.
  intros Hn Ho Hg. split.
  - intros j Hj Hne. pose proof (par_lt j ltac:(lia)). rewrite !Hg by lia. apply Ho. lia.
  - intros j Hj Hpj Hpos. pose proof (par_lt j ltac:(lia)). lia.
Qed.

Lemma heap_insert_ok d0 gen h l dat :
  rep h l → ord (keyf d0 l) (zlen l) → last h < size h ∨ size h <= 536870911 →
  ∃ h' l', heap_insert gen h dat = Some (brk h, h') ∧ rep h' l' ∧
    l' ≡ₚ (brk h, gen dat (age h), dat) :: l ∧ ord (keyf d0 l') (zlen l') ∧ age h' = age h.
Proof.
  intros Hr Ho Hsz. unfold heap_insert, heap_gen_key.
  set (p := brk h). set (k := gen dat (age h)).
  set (h1 := mkHeap _ _ _ _ _ _).
  set (h2 := if _heap_should_grow h1 then _ else _).
  assert (H2 : zlen (nodes h2) = size h2 ∧ last h < size h2 <= 1073741823 ∧
               (∀ i, i < last h → (nodes h2).[i] = (nodes h).[i]) ∧
               last h2 = last h ∧ age h2 = age h ∧ cells h2 = cells h1 ∧ brk h2 = p + 1).
  { pose proof (rep_size _ _ Hr). pose proof (rep_le _ _ Hr). pose proof (rep_small _ _ Hr).
    pose proof (rep_pos _ _ Hr). unfold h2, _heap_should_grow.
    change (size h1) with (size h). change (last h1) with (last h).
    destruct (Z.leb_spec (size h) (last h)).
    - destruct (grow_ok h1) as (G1 & G2 & G3 & G4 & G5 & G6 & G7); [done|cbn; lia|].
      change (size h1) with (size h) in G2, G3. split; [exact G1|]. split; [lia|]. split; [intros i Hi; apply G3; lia|]. done.
    - split; [done|]. split; [cbn; lia|]. done. }
  destruct H2 as (S2 & L2 & N2 & E2 & A2 & C2 & B2). rewrite E2.
  pose proof (rep_last _ _ Hr) as Hlast.
  destruct (zset (nodes h2) (last h) p) as [ns|] eqn:Hz; [|rewrite zset_Some in Hz by lia; done].
  cbn [mbind option_bind]. unfold set_id, deref. cbn [set_nodes cells]. rewrite C2. cbn [h1 cells].
  rewrite lookup_insert_eq. cbn [mbind option_bind key data set_cells size last age nodes cells brk].
  rewrite insert_insert_eq.
  set (hb := mkHeap (size h2) (last h) (age h) (nodes h2) (cells h) (brk h)).
  assert (Hrb : rep hb l).
  { constructor; cbn; try done; try lia; try apply Hr.
    intros i p' k' d' Hi. destruct (rep_node _ _ Hr _ _ _ _ Hi) as [Nn Cc].
    split; [|done]. rewrite N2; [done|]. by eapply rep_range. }
  pose proof (rep_snoc hb l p k dat ns Hrb ltac:(cbn; lia) eq_refl Hz) as Hr4. cbn in Hr4.
  assert (Hu : u64 (last h + 1) = last h + 1).
  { apply u64_small. lia. }
  unfold set_last, set_cells, set_nodes. cbn [size last age nodes cells brk].
  rewrite E2, A2, B2, Hu.
  match goal with |- context [_heap_ify_up ?fu ?hh p] => set (h4 := hh) end.
  destruct (ify_up_ok d0 (loop_fuel h4) h4 (l ++ [(p, k, dat)]) (last h) p k dat)
    as (h5 & l5 & -> & R5 & P5 & O5 & F5); [exact Hr4| | |unfold loop_fuel; cbn; lia|].
  - rewrite Hlast, zget_app_r, Z.sub_diag by lia. done.
  - rewrite length_app, Nat2Z.inj_add, Hlast. apply (upinv_snoc (keyf d0 l)); [lia|done|].
    intros j Hj. unfold keyf. by rewrite zget_app_l by lia.
  - cbn [mbind option_bind]. exists h5, l5. split_and!; try done.
    + rewrite P5. by rewrite Permutation_app_comm.
    + destruct F5 as (_ & -> & _). done.
Qed.

Lemma rep_unsnoc h l p k d :
  rep h (l ++ [(p, k, d)]) →
  heap_extractlast h = Some (d, set_cells (set_last h (last h - 1)) (delete p (cells h))) ∧
  rep (set_cells (set_last h (last h - 1)) (delete p (cells h))) l.
Proof.
  intros Hr. pose proof (rep_last _ _ Hr) as Hlast. rewrite length_app in Hlast. cbn in Hlast.
  pose proof (rep_le _ _ Hr). pose proof (rep_small _ _ Hr).
  assert (Hg : (l ++ [(p, k, d)]).[zlen l] = Some (p, k, d)).
  { by rewrite zget_app_r, Z.sub_diag by lia. }
  destruct (rep_node _ _ Hr _ _ _ _ Hg) as [N C]. split.
  - unfold heap_extractlast. rewrite u64_small, i32_small by lia.
    rewrite (rep_exist _ _ _ Hr) by lia. cbn [mbind option_bind].
    rewrite bool_decide_eq_true_2 by lia. cbn [set_last nodes last].
    replace (last h - 1) with (zlen l) by lia. rewrite N. cbn [mbind option_bind].
    unfold deref, set_last. cbn [cells]. rewrite C. done.
  - pose proof (rep_nodup _ _ Hr) as Hnd. constructor; cbn; try apply Hr; try lia.
    + intros i p' k' d' Hi. pose proof (zget_Some_range _ _ _ Hi).
      assert (Hi2 : (l ++ [(p, k, d)]).[i] = Some (p', k', d')) by by rewrite zget_app_l by lia.
      destruct (rep_node _ _ Hr _ _ _ _ Hi2) as [N' C']. split; [done|].
      rewrite lookup_delete_ne; [done|]. intros ->.
      pose proof (rep_inj _ _ _ _ _ _ _ _ _ Hr Hg Hi2). lia.
    + rewrite !fmap_app in Hnd. by apply NoDup_app in Hnd as [? _].
    + intros q [n Hq]. apply lookup_delete_Some in Hq as [_ Hq]. apply (rep_fresh _ _ Hr). by rewrite Hq.
Qed.

Lemma list_unsnoc {A} (l : list A) x : l.[zlen l - 1] = Some x → ∃ m : list A, l = m ++ [x].
Proof.
  destruct l as [|y l _] using rev_ind; [done|]. rewrite length_app. cbn.
  rewrite zget_app_r by lia. replace (Z.of_nat (length l + 1) - 1 - zlen l) with 0 by lia.
  intros [= ->]. by exists l.
Qed.

Lemma keyf_app d0 l x j : j < zlen l → keyf d0 (l ++ [x]) j = keyf d0 l j.
Proof. intros. unfold keyf. by rewrite zget_app_l. Qed.

Lemma heap_delete_ok d0 h l i p k d :
  rep h l → ord (keyf d0 l) (zlen l) → l.[i] = Some (p, k, d) →
  ∃ h' l', heap_delete h p = Some (d, h') ∧ rep h' l' ∧ l ≡ₚ (p, k, d) :: l' ∧
           ord (keyf d0 l') (zlen l') ∧ frame h h'.
Proof.
  intros Hr Ho Hi. pose proof (rep_last _ _ Hr) as Hlast. pose proof (rep_le _ _ Hr).
  pose proof (rep_small _ _ Hr). pose proof (zget_Some_range _ _ _ Hi) as Ri.
  destruct (rep_node _ _ Hr _ _ _ _ Hi) as [Ni Ci].
  destruct (zget_is_Some l (zlen l - 1)) as [[[q kq] dq] Hq]; [lia|].
  destruct (rep_node _ _ Hr _ _ _ _ Hq) as [Nq Cq].
  unfold heap_delete. change (deref h p) with (cells h !! p). rewrite Ci. cbn [mbind option_bind data].
  rewrite u64_small, i32_small by lia. rewrite (rep_exist _ _ _ Hr) by lia. cbn [mbind option_bind].
  rewrite bool_decide_eq_true_2 by lia. rewrite Hlast, Nq. cbn [mbind option_bind].
  destruct (swap_ok _ _ _ _ _ _ _ _ _ _ Hr Hq Hi) as (h1 & -> & Hr1 & Hfr1). cbn [mbind option_bind].
  assert (Hl1 : (lswap l (zlen l - 1) i).[zlen (lswap l (zlen l - 1) i) - 1] = Some (p, k, d)).
  { rewrite length_lswap, zget_lswap by lia. by rewrite Z.eqb_refl. }
  destruct (list_unsnoc _ _ Hl1) as [l2 Hl2]. rewrite Hl2 in Hr1.
  destruct (rep_unsnoc _ _ _ _ _ Hr1) as [-> Hr2]. cbn [mbind option_bind].
  set (h2 := set_cells _ _) in *.
  assert (Hlen : zlen l = zlen l2 + 1).
  { rewrite <- (length_lswap l (zlen l - 1) i), Hl2, length_app. cbn. lia. }
  assert (Hperm : l ≡ₚ (p, k, d) :: l2).
  { rewrite <- (lswap_perm l (zlen l - 1) i), Hl2. apply Permutation_app_comm. }
  assert (Hfr2 : frame h h2) by (eapply frame_trans; [done|]; by unfold frame).
  set (f := λ j, if j <? zlen l2 then keyf d0 l j else d0).
  assert (Hof : ord f (zlen l2)).
  { apply (ord_take (keyf d0 l) _ (zlen l)); [done|lia|]. intros j Hj. unfold f.
    by destruct (Z.ltb_spec j (zlen l2)); [|lia]. }
  assert (Hkf : ∀ j, j ≠ i → keyf d0 l2 j = f j).
  { intros j Hj. unfold f. destruct (Z.ltb_spec j (zlen l2)).
    - rewrite <- (keyf_app d0 l2 (p, k, d)), <- Hl2 by done. rewrite keyf_lswap by lia. unfold fswap.
      destruct (Z.eqb_spec j (zlen l - 1)); [lia|]. by destruct (Z.eqb_spec j i).
    - unfold keyf. by rewrite zget_ge by lia. }
  destruct (Z.eqb_spec p q) as [->|Hne].
  { exists h2, l2. split_and!; try done. eapply (ord_ext f); [|done].
    intros j. destruct (decide (j = i)) as [->|]; [|by rewrite Hkf].
    assert (i = zlen l - 1) by exact (rep_inj _ _ _ _ _ _ _ _ _ Hr Hi Hq). unfold f, keyf.
    destruct (Z.ltb_spec i (zlen l2)); [lia|]. by rewrite (zget_ge l2) by lia. }
  assert (Hne2 : i ≠ zlen l - 1) by (intros ->; rewrite Hq in Hi; congruence).
  assert (Hi2 : l2.[i] = Some (q, kq, dq)).
  { rewrite <- (zget_app_l l2 [(p, k, d)]), <- Hl2 by lia. rewrite zget_lswap by lia.
    rewrite Z.eqb_refl. destruct (Z.eqb_spec i (zlen l - 1)); [done|]. done. }
  destruct (Z.ltb_spec 0 (last h2)); [|rewrite (rep_last _ _ Hr2) in *; lia].
  destruct (heap_fix_ok d0 h2 l2 f i q kq dq Hr2 Hi2 Hof Hkf) as (h3 & l3 & -> & R3 & P3 & O3 & F3).
  cbn [mbind option_bind]. exists h3, l3. split_and!; try done.
  - by rewrite P3.
  - by eapply frame_trans.
Qed.

Lemma heap_update_ok d0 gen h l i p k d dat :
  rep h l → ord (keyf d0 l) (zlen l) → l.[i] = Some (p, k, d) →
  ∃ h' l', heap_update gen h p dat = Some (d, h') ∧ rep h' l' ∧
    (p, k, d) :: l' ≡ₚ (p, gen dat (age h), dat) :: l ∧ ord (keyf d0 l') (zlen l') ∧ frame h h'.
Proof.
  intros Hr Ho Hi. destruct (rep_node _ _ Hr _ _ _ _ Hi) as [Ni Ci].
  pose proof (zget_Some_range _ _ _ Hi) as Ri.
  unfold heap_update, heap_gen_key. change (deref h p) with (cells h !! p). rewrite Ci.
  cbn [mbind option_bind id data]. set (k' := gen dat (age h)). set (h1 := set_cells h _).
  set (l1 := <[Z.to_nat i := (p, k', dat)]> l).
  pose proof (zset_Some l i (p, k', dat) Ri) as Hz.
  assert (Hr1 : rep h1 l1).
  { constructor; cbn; try (unfold l1; rewrite ?length_insert); try apply Hr.
    - intros j p' kk d' Hj. rewrite (zget_zset _ _ _ _ _ Hz) in Hj. case_decide as E.
      + simplify_eq. by rewrite lookup_insert_eq.
      + destruct (rep_node _ _ Hr _ _ _ _ Hj) as [N C]. split; [done|].
        rewrite lookup_insert_ne; [done|]. intros ->. by apply E; eapply rep_inj.
    - rewrite <- list_fmap_compose, list_fmap_insert. cbn.
      rewrite list_insert_id; [rewrite list_fmap_compose; apply Hr|].
      rewrite list_lookup_fmap, <- zget_pos, Hi by lia. done.
    - intros q Hq. destruct (decide (q = p)) as [->|]; [apply (rep_fresh _ _ Hr); by rewrite Ci|].
      rewrite lookup_insert_ne in Hq by done. by apply (rep_fresh _ _ Hr). }
  assert (Hi1 : l1.[i] = Some (p, k', dat)) by by eapply zget_zset_eq.
  destruct (heap_fix_ok d0 h1 l1 (keyf d0 l) i p k' dat) as (h2 & l2 & -> & R2 & P2 & O2 & F2); try done.
  { unfold l1. by rewrite length_insert. }
  { intros j Hj. unfold keyf, l1. by rewrite (zget_zset_ne _ _ _ _ _ Hj Hz). }
  cbn [mbind option_bind]. exists h2, l2. split_and!; try done.
  rewrite P2. unfold l1. apply insert_perm. by rewrite <- zget_pos by lia.
Qed.
End rep.

(** ** Properties *)

(** A heap that holds the nodes [l], smallest key first on every path. *)
Definition heap_ok {K} `{HeapKey K} (d0 : K) (h : heap K) (l : list (Z * K * Z)) : Prop :=
  rep h l ∧ ord (keyf d0 l) (zlen l).

(** C19: inserting keeps the heap order and the back pointers of all nodes,
    growing the array when it is full, and adds exactly the new node with the
    key computed for its data. *)
Theorem heap_insert_adds {K} `{HeapKey K} (d0 : K) gen h l dat :
  heap_ok d0 h l → last h < size h ∨ size h <= 536870911 →
  ∃ p h' l', heap_insert gen h dat = Some (p, h') ∧ heap_ok d0 h' l' ∧
             l' ≡ₚ (p, gen dat (age h), dat) :: l.
Proof.
  intros [Hr Ho] Hs. destruct (heap_insert_ok d0 gen h l dat Hr Ho Hs) as (h' & l' & E & R & P & O & _).
  by exists (brk h), h', l'.
Qed.

(** C20: deleting any node returns its data, removes exactly that node and keeps
    the heap order, whichever way the moved last node has to travel. *)
Theorem heap_delete_removes {K} `{HeapKey K} (d0 : K) h l i p k d :
  heap_ok d0 h l → l.[i] = Some (p, k, d) →
  ∃ h' l', heap_delete h p = Some (d, h') ∧ heap_ok d0 h' l' ∧ l ≡ₚ (p, k, d) :: l'.
Proof.
  intros [Hr Ho] Hi. destruct (heap_delete_ok d0 h l i p k d Hr Ho Hi) as (h' & l' & E & R & P & O & _).
  by exists h', l'.
Qed.

(** C21: extracting from a non-empty heap returns the data of a node whose key
    is minimal and removes that node. *)
Theorem heap_extractmin_minimal {K} `{HeapKey K} (d0 : K) h l :
  heap_ok d0 h l → l ≠ [] →
  ∃ p k d h' l', heap_extractmin h = Some (Some d, h') ∧ heap_ok d0 h' l' ∧
    l ≡ₚ (p, k, d) :: l' ∧ Forall (λ x, kle k x.1.2 = true) l.
Proof.
  intros [Hr Ho] Hne. pose proof (rep_last _ _ Hr) as Hlast.
  assert (Hpos : 0 < zlen l) by (destruct l; [done|cbn; lia]).
  destruct (zget_is_Some l 0) as [[[p k] d] H0]; [lia|].
  destruct (rep_node _ _ Hr _ _ _ _ H0) as [N C].
  destruct (heap_delete_ok d0 h l 0 p k d Hr Ho H0) as (h' & l' & E & R & P & O & _).
  exists p, k, d, h', l'. split_and!; try done.
  - unfold heap_extractmin. destruct (Z.leb_spec (last h) 0); [lia|].
    rewrite N. cbn [mbind option_bind]. unfold deref. rewrite C. cbn [mbind option_bind].
    by rewrite E.
  - apply Forall_forall. intros [[q kq] dq] Hin. apply list_elem_of_lookup_1 in Hin as [j Hj].
    rewrite <- zget_nat in Hj. pose proof (zget_Some_range _ _ _ Hj). cbn.
    rewrite <- (keyf_get d0 _ _ _ _ _ H0), <- (keyf_get d0 _ _ _ _ _ Hj). by eapply ord_root.
Qed.

(** Updating a node has the effect its comment gives it: the nodes are
    those after deleting it and inserting the new data, in heap order; the node
    keeps its address. *)
Theorem heap_update_is_delete_insert {K} `{HeapKey K} (d0 : K) gen h l i p k d dat :
  heap_ok d0 h l → l.[i] = Some (p, k, d) →
  ∃ h' l' rest, heap_update gen h p dat = Some (d, h') ∧ heap_ok d0 h' l' ∧
    l ≡ₚ (p, k, d) :: rest ∧ l' ≡ₚ (p, gen dat (age h), dat) :: rest.
Proof.
  intros [Hr Ho] Hi.
  destruct (heap_update_ok d0 gen h l i p k d dat Hr Ho Hi) as (h' & l' & E & R & P & O & _).
  pose proof (zget_Some_range _ _ _ Hi) as Ri. rewrite zget_pos in Hi by lia.
  exists h', l', (delete (Z.to_nat i) l). split_and!; try done.
  - by apply delete_Permutation.
  - pose proof (delete_Permutation _ _ _ Hi) as Hd. rewrite Hd, Permutation_swap in P.
    by apply Permutation_cons_inv in P.
Qed.

(** ** A heap with two nodes *)

Definition ex_heap : heap Z :=
  mkHeap 2 2 0 [2; 1] (<[1 := mkNode 5 1 50]> (<[2 := mkNode 3 0 30]> ∅)) 3.
Definition ex_nodes : list (Z * Z * Z) := [(2, 3, 30); (1, 5, 50)].

Lemma ex_heap_ok : heap_ok 0 ex_heap ex_nodes.
Proof.
  split.
  - constructor; cbn; try done; try lia.
    + intros i p k d Hi. pose proof (zget_Some_range _ _ _ Hi) as Ri. cbn in Ri.
      assert (i = 0 ∨ i = 1) as [-> | ->] by lia;
        [change (Some (2, 3, 30) = Some (p, k, d)) in Hi|change (Some (1, 5, 50) = Some (p, k, d)) in Hi];
        injection Hi as <- <- <-; split; reflexivity.
    + apply (bool_decide_unpack _). vm_compute. exact I.
    + intros p [n Hn]. apply lookup_insert_Some in Hn as [[<- _]|[_ Hn]]; [lia|].
      apply lookup_insert_Some in Hn as [[<- _]|[_ Hn]]; [lia|done].
  - intros j Hj. cbn in Hj. assert (j = 1) as -> by lia. reflexivity.
Qed.

Lemma heap_insert_adds_witness :
  ∃ p h' l', heap_insert (λ d a, d + a) ex_heap 4 = Some (p, h') ∧ heap_ok 0 h' l' ∧
             l' ≡ₚ (p, 4 + 0, 4) :: ex_nodes.
Proof. apply (heap_insert_adds 0 (λ d a, d + a) ex_heap ex_nodes 4); [exact ex_heap_ok|right; cbn; lia]. Defined.

Lemma heap_delete_removes_witness :
  ∃ h' l', heap_delete ex_heap 2 = Some (30, h') ∧ heap_ok 0 h' l' ∧ ex_nodes ≡ₚ (2, 3, 30) :: l'.
Proof. apply (heap_delete_removes 0 ex_heap ex_nodes 0 2 3 30); [exact ex_heap_ok|reflexivity]. Defined.

Lemma heap_extractmin_minimal_witness :
  ∃ p k d h' l', heap_extractmin ex_heap = Some (Some d, h') ∧ heap_ok 0 h' l' ∧
    ex_nodes ≡ₚ (p, k, d) :: l' ∧ Forall (λ x, kle k x.1.2 = true) ex_nodes.
Proof. apply (heap_extractmin_minimal 0 ex_heap ex_nodes); [exact ex_heap_ok|discriminate]. Defined.

Lemma heap_update_is_delete_insert_witness :
  ∃ h' l' rest, heap_update (λ d a, d + a) ex_heap 2 9 = Some (30, h') ∧ heap_ok 0 h' l' ∧
    ex_nodes ≡ₚ (2, 3, 30) :: rest ∧ l' ≡ₚ (2, 9 + 0, 9) :: rest.
Proof.
  apply (heap_update_is_delete_insert 0 (λ d a, d + a) ex_heap ex_nodes 0 2 3 30 9);
    [exact ex_heap_ok|reflexivity].
Defined.
