(* ===== verification/DList.v ===== *)
(** Doubly linked lists: [dlinkAdd], [dlinkAddTail] and [dlinkDelete]
    (src/tools.c) on a store of nodes, and the sequence a list represents.

    Addresses are positive, 0 is NULL; [None] is an access through NULL or to a
    node that is not in the store. *)
From S2P Require Import Prelude.

Module DList.

Record dlink_node := mkDNode { ddata : Z; dprev : Z; dnext : Z }.
Record dlink_list := mkDList { dhead : Z; dtail : Z }.
Abbreviation store := (gmap Z dlink_node).

Definition set_prev (s : store) (p v : Z) : option store :=
  n ← s !! p; Some (<[p := mkDNode (ddata n) v (dnext n)]> s).
Definition set_next (s : store) (p v : Z) : option store :=
  n ← s !! p; Some (<[p := mkDNode (ddata n) (dprev n) v]> s).

Definition dlinkAdd (data m : Z) (s : store) (l : dlink_list) : option (store * dlink_list) :=
  _ ← s !! m;
  let s1 := <[m := mkDNode data 0 (dhead l)]> s in
  s2 ← (if dhead l =? 0 then Some s1 else set_prev s1 (dhead l) m);
  Some (s2, mkDList m (if dtail l =? 0 then m else dtail l)).

Definition dlinkAddTail (data m : Z) (s : store) (l : dlink_list) : option (store * dlink_list) :=
  _ ← s !! m;
  let s1 := <[m := mkDNode data (dtail l) 0]> s in
  s2 ← (if dtail l =? 0 then Some s1 else set_next s1 (dtail l) m);
  Some (s2, mkDList (if dhead l =? 0 then m else dhead l) m).

Definition dlinkDelete (m : Z) (s : store) (l : dlink_list) : option (store * dlink_list) :=
  n0 ← s !! m;
  s1 ← (if dnext n0 =? 0 then Some s else set_prev s (dnext n0) (dprev n0));
  n1 ← s1 !! m;
  s2 ← (if dprev n1 =? 0 then Some s1 else set_next s1 (dprev n1) (dnext n1));
  n2 ← s2 !! m;
  let hd := if m =? dhead l then dnext n2 else dhead l in
  let tl := if m =? dtail l then dprev n2 else dtail l in
  Some (<[m := mkDNode (ddata n2) 0 0]> s2, mkDList hd tl).

End DList.
Import DList.

(** ** The sequence of a list *)

(** The address at index [i], NULL outside. *)
Definition at0 (l : list Z) (i : Z) : Z := default 0 (l.[i]).

(** The nodes of [lst] are, in order, those at the addresses [ps]. *)
Record dl_rep (s : store) (lst : dlink_list) (ps : list Z) : Prop := mkDl {
  dl_nodup : NoDup ps;
  dl_pos : Forall (λ p, 0 < p) ps;
  dl_head : dhead lst = at0 ps 0;
  dl_tail : dtail lst = at0 ps (zlen ps - 1);
  dl_node : ∀ i p, ps.[i] = Some p →
    ∃ n, s !! p = Some n ∧ dprev n = at0 ps (i - 1) ∧ dnext n = at0 ps (i + 1) }.

(** The data of the nodes. *)
Definition data_at (s : store) (p : Z) : option Z := ddata <$> s !! p.

Lemma at0_lookup l i p : l.[i] = Some p → at0 l i = p.
Proof. unfold at0. by intros ->. Qed.

Lemma at0_app_l l k i : i < zlen l → at0 (l ++ k) i = at0 l i.
Proof. intros. unfold at0. by rewrite zget_app_l. Qed.

Lemma at0_app_r l k i : zlen l <= i → at0 (l ++ k) i = at0 k (i - zlen l).
Proof. intros. unfold at0. by rewrite zget_app_r. Qed.

Lemma at0_out l i : i < 0 ∨ zlen l <= i → at0 l i = 0.
Proof. intros [H|H]; unfold at0; [by rewrite zget_neg|by rewrite zget_ge]. Qed.

Lemma at0_pos l i : Forall (λ p, 0 < p) l → 0 <= i < zlen l → l.[i] = Some (at0 l i) ∧ 0 < at0 l i.
Proof.
  intros Hp Hi. destruct (zget_is_Some l i Hi) as [p Hl]. unfold at0. rewrite Hl. split; [done|].
  rewrite zget_pos in Hl by lia. rewrite Forall_forall in Hp. cbn. apply Hp.
  by eapply list_elem_of_lookup_2.
Qed.

Lemma zget_inj (l : list Z) i j p : NoDup l → l.[i] = Some p → l.[j] = Some p → i = j.
Proof.
  intros Hn Hi Hj. pose proof (zget_Some_range _ _ _ Hi). pose proof (zget_Some_range _ _ _ Hj).
  rewrite zget_pos in Hi, Hj by lia. pose proof (NoDup_lookup _ _ _ _ Hn Hi Hj). lia.
Qed.

Lemma dl_rep_empty s : dl_rep s (mkDList 0 0) [].
Proof.
  constructor; first [done|by apply NoDup_nil|by apply Forall_nil|idtac].
  intros i p Hi. pose proof (zget_Some_range _ _ _ Hi) as Hr. cbn in Hr. lia.
Qed.

(** Adding a node that is not on the list. *)
Lemma dlinkAddTail_ok s lst ps data m :
  dl_rep s lst ps → m ∉ ps → 0 < m → is_Some (s !! m) →
  ∃ s' lst', dlinkAddTail data m s lst = Some (s', lst') ∧ dl_rep s' lst' (ps ++ [m]) ∧
    data_at s' m = Some data ∧ (∀ p, p ≠ m → data_at s' p = data_at s p).
Proof.
  intros [Hn Hp Hh Ht Hnode] Hm Hpos [nm Hnm]. unfold dlinkAddTail. rewrite Hnm. cbn [mbind option_bind].
  destruct (decide (ps = [])) as [->|Hne].
  { cbn in Ht. rewrite Ht, Hh. cbn. eexists _, _. split; [done|]. split_and!.
    - constructor; cbn; try done.
      + apply NoDup_singleton.
      + by constructor.
      + intros i p Hi. pose proof (zget_Some_range _ _ _ Hi). cbn in *.
        assert (i = 0) as -> by lia. change (Some m = Some p) in Hi. injection Hi as <-.
        rewrite lookup_insert_eq. by eexists.
    - unfold data_at. by rewrite lookup_insert_eq.
    - intros p Hpm. unfold data_at. by rewrite lookup_insert_ne. }
  assert (Hlen : 0 < zlen ps) by (destruct ps; [done|cbn; lia]).
  destruct (at0_pos ps (zlen ps - 1) Hp ltac:(lia)) as [Ltl Ptl]. rewrite <- Ht in Ltl, Ptl.
  destruct (at0_pos ps 0 Hp ltac:(lia)) as [Lhd Phd]. rewrite <- Hh in Lhd, Phd.
  destruct (Hnode _ _ Ltl) as (nt & Ct & Pt & Nt).
  assert (Htm : dtail lst ≠ m).
  { intros E. apply Hm. rewrite <- E. rewrite zget_pos in Ltl by lia. by eapply list_elem_of_lookup_2. }
  destruct (Z.eqb_spec (dtail lst) 0); [lia|]. unfold set_next.
  rewrite lookup_insert_ne, Ct by congruence. cbn [mbind option_bind].
  destruct (Z.eqb_spec (dhead lst) 0); [lia|]. eexists _, _. split; [done|]. split_and!.
  - constructor; cbn [dhead dtail].
    + apply NoDup_app. split_and!; [done| |apply NoDup_singleton].
      intros p Hin ->%list_elem_of_singleton. done.
    + apply Forall_app. split; [done|]. by constructor.
    + rewrite at0_app_l by lia. done.
    + rewrite length_app, at0_app_r by (cbn; lia). cbn [length].
      replace (Z.of_nat (length ps + 1) - 1 - zlen ps) with 0 by lia. done.
    + intros i p Hi. pose proof (zget_Some_range _ _ _ Hi) as Ri. rewrite length_app in Ri. cbn in Ri.
      destruct (decide (i = zlen ps)) as [->|Hil].
      * rewrite zget_app_r, Z.sub_diag in Hi by lia. change (Some m = Some p) in Hi. injection Hi as <-.
        rewrite lookup_insert_ne, lookup_insert_eq by done. eexists. split; [done|]. cbn. split.
        -- rewrite at0_app_l by lia. done.
        -- rewrite at0_out; [done|]. rewrite length_app. cbn. lia.
      * rewrite zget_app_l in Hi by lia. destruct (Hnode _ _ Hi) as (ni & Cn & Pn & Nn).
        destruct (decide (p = dtail lst)) as [->|Hpt].
        -- assert (i = zlen ps - 1) as -> by by eapply zget_inj.
           rewrite lookup_insert_eq. eexists. split; [done|]. cbn. split.
           ++ rewrite at0_app_l by lia. simplify_eq. done.
           ++ rewrite at0_app_r by lia. replace (zlen ps - 1 + 1 - zlen ps) with 0 by lia. done.
        -- assert (p ≠ m).
           { intros ->. apply Hm. rewrite zget_pos in Hi by lia. by eapply list_elem_of_lookup_2. }
           rewrite !lookup_insert_ne by congruence. exists ni. split; [done|].
           assert (i ≠ zlen ps - 1) by (intros ->; congruence).
           rewrite !at0_app_l by lia. done.
  - unfold data_at. rewrite lookup_insert_ne, lookup_insert_eq by done. done.
  - intros p Hpm. unfold data_at. destruct (decide (p = dtail lst)) as [->|].
    + rewrite lookup_insert_eq, Ct. done.
    + by rewrite !lookup_insert_ne by congruence.
Qed.

(** What the neighbours of a deleted node see. *)
Lemma at0_delete a m b i :
  at0 (a ++ b) i = if i <? zlen a then at0 (a ++ m :: b) i else at0 (a ++ m :: b) (i + 1).
Proof.
  destruct (Z.ltb_spec i (zlen a)).
  - by rewrite !at0_app_l.
  - rewrite !at0_app_r by lia. replace (i + 1 - zlen a) with (1 + (i - zlen a)) by lia.
    unfold at0. f_equal. rewrite !zget_pos by lia.
    by replace (Z.to_nat (1 + (i - zlen a))) with (S (Z.to_nat (i - zlen a))) by lia.
Qed.

Lemma zget_delete a (m : Z) b i :
  (a ++ b).[i] = if i <? zlen a then (a ++ m :: b).[i] else (a ++ m :: b).[i + 1].
Proof.
  destruct (Z.ltb_spec i (zlen a)).
  - by rewrite !zget_app_l.
  - rewrite !zget_app_r by lia. replace (i + 1 - zlen a) with (1 + (i - zlen a)) by lia.
    rewrite !zget_pos by lia.
    by replace (Z.to_nat (1 + (i - zlen a))) with (S (Z.to_nat (i - zlen a))) by lia.
Qed.

(** The store after the two neighbour updates of [dlinkDelete]. *)
Lemma delete_links s lst a m b n :
  dl_rep s lst (a ++ m :: b) → s !! m = Some n →
  let pv := at0 a (zlen a - 1) in let nx := at0 b 0 in
  dprev n = pv ∧ dnext n = nx ∧ pv ≠ m ∧ nx ≠ m ∧ (pv = nx → pv = 0) ∧
  ∃ s1 s2, (if nx =? 0 then Some s else set_prev s nx pv) = Some s1 ∧
    (if pv =? 0 then Some s1 else set_next s1 pv nx) = Some s2 ∧
    s1 !! m = Some n ∧ s2 !! m = Some n ∧
    (∀ p, (p = pv → p = 0) → (p = nx → p = 0) → s2 !! p = s !! p) ∧
    (∀ q, q ≠ 0 → q = pv → ∃ k, s !! q = Some k ∧ s2 !! q = Some (mkDNode (ddata k) (dprev k) nx)) ∧
    (∀ q, q ≠ 0 → q = nx → ∃ k, s !! q = Some k ∧ s2 !! q = Some (mkDNode (ddata k) pv (dnext k))).
Proof.
  intros [Hn Hp Hh Ht Hnode] Hm pv nx.
  assert (Lm : (a ++ m :: b).[zlen a] = Some m) by by rewrite zget_app_r, Z.sub_diag by lia.
  destruct (Hnode _ _ Lm) as (n' & E & Pn & Nn). simplify_eq.
  rewrite at0_app_l in Pn by lia. rewrite at0_app_r in Nn by lia.
  replace (zlen a + 1 - zlen a) with 1 in Nn by lia. change (at0 (m :: b) 1) with (at0 b 0) in Nn.
  apply NoDup_app in Hn as (Hna & Hab & Hnb). apply NoDup_cons in Hnb as [Hmb Hnb].
  apply Forall_app in Hp as [Hpa Hpb]. apply Forall_cons in Hpb as [Hpm Hpb].
  assert (Hpv : pv ≠ 0 → pv ∈ a ∧ a.[zlen a - 1] = Some pv).
  { intros Hne. assert (a ≠ []) by (intros ->; done).
    destruct (at0_pos a (zlen a - 1) Hpa) as [L _]; [destruct a; [done|cbn; lia]|].
    split; [|done]. rewrite zget_pos in L by (destruct a; [done|cbn; lia]).
    by eapply list_elem_of_lookup_2. }
  assert (Hnx : nx ≠ 0 → nx ∈ b ∧ b.[0] = Some nx).
  { intros Hne. destruct b as [|x b]; [done|]. split; [by left|done]. }
  assert (Dpm : pv ≠ m).
  { intros E. destruct (decide (pv = 0)); [lia|]. destruct Hpv as [Hin _]; [done|].
    apply (Hab pv Hin). rewrite E. by left. }
  assert (Dnm : nx ≠ m).
  { intros E. destruct (decide (nx = 0)); [lia|]. destruct Hnx as [Hin _]; [done|]. congruence. }
  assert (Dpn : pv = nx → pv = 0).
  { intros E. destruct (decide (pv = 0)); [done|]. destruct Hpv as [Hin _]; [done|].
    destruct Hnx as [Hin2 _]; [congruence|]. exfalso. apply (Hab pv Hin). rewrite E. by right. }
  split_and!; try done.
  assert (Cpv : pv ≠ 0 → ∃ k, s !! pv = Some k).
  { intros Hne. destruct (Hpv Hne) as [_ L]. pose proof (zget_Some_range _ _ _ L).
    rewrite <- (zget_app_l _ (m :: b)) in L by lia. destruct (Hnode _ _ L) as (k & ? & _). by exists k. }
  assert (Cnx : nx ≠ 0 → ∃ k, s !! nx = Some k).
  { intros Hne. destruct (Hnx Hne) as [_ L].
    assert (L2 : (a ++ m :: b).[zlen a + 1] = Some nx).
    { rewrite zget_app_r by lia. replace (zlen a + 1 - zlen a) with 1 by lia. done. }
    destruct (Hnode _ _ L2) as (k & ? & _). by exists k. }
  unfold set_prev, set_next.
  destruct (Z.eqb_spec nx 0) as [Zn|Zn]; [|destruct (Cnx Zn) as [kn Kn]; rewrite Kn; cbn [mbind option_bind]];
    (destruct (Z.eqb_spec pv 0) as [Zp|Zp]; [|destruct (Cpv Zp) as [kp Kp]]).
  - exists s, s. split_and!; try done; congruence.
  - exists s. rewrite Kp. cbn [mbind option_bind]. eexists. split; [done|]. split; [done|].
    split; [done|]. split; [by rewrite lookup_insert_ne by congruence|].
    split; [intros p A _; by rewrite lookup_insert_ne by (intros E; apply Zp; rewrite E; by apply A)|].
    split; [|congruence]. intros q _ ->. exists kp. by rewrite lookup_insert_eq.
  - eexists _, _. split; [done|]. split; [done|]. split; [by rewrite lookup_insert_ne by congruence|].
    split; [by rewrite lookup_insert_ne by congruence|].
    split; [intros p _ B; by rewrite lookup_insert_ne by (intros E; apply Zn; rewrite E; by apply B)|].
    split; [congruence|]. intros q _ ->. exists kn. by rewrite lookup_insert_eq.
  - assert (pv ≠ nx) by (intros E; by apply Zp, Dpn).
    set (s1 := <[nx := mkDNode (ddata kn) pv (dnext kn)]> s).
    exists s1, (<[pv := mkDNode (ddata kp) (dprev kp) nx]> s1). unfold s1. split; [done|]. split; [rewrite lookup_insert_ne, Kp by congruence; done|].
    split; [by rewrite lookup_insert_ne by congruence|].
    split; [by rewrite !lookup_insert_ne by congruence|].
    split.
    { intros p A B. rewrite lookup_insert_ne by (intros E; apply Zp; rewrite E; by apply A).
      by rewrite lookup_insert_ne by (intros E; apply Zn; rewrite E; by apply B). }
    split; intros q _ ->; [exists kp|exists kn].
    + by rewrite lookup_insert_eq.
    + rewrite lookup_insert_ne, lookup_insert_eq by congruence. done.
Qed.

(** The links of the remaining nodes after those updates. *)
Lemma delete_nodes s lst a m b (s2 : store) pv nx :
  dl_rep s lst (a ++ m :: b) → pv = at0 a (zlen a - 1) → nx = at0 b 0 →
  (∀ p, (p = pv → p = 0) → (p = nx → p = 0) → s2 !! p = s !! p) →
  (∀ q, q ≠ 0 → q = pv → ∃ k, s !! q = Some k ∧ s2 !! q = Some (mkDNode (ddata k) (dprev k) nx)) →
  (∀ q, q ≠ 0 → q = nx → ∃ k, s !! q = Some k ∧ s2 !! q = Some (mkDNode (ddata k) pv (dnext k))) →
  ∀ i p, (a ++ b).[i] = Some p → p ≠ m ∧
    ∃ n, s2 !! p = Some n ∧ dprev n = at0 (a ++ b) (i - 1) ∧ dnext n = at0 (a ++ b) (i + 1).
Proof.
  intros [Hn Hp Hh Ht Hnode] Dpv Dnx Hoth Hpv Hnx.
  assert (Lm : (a ++ m :: b).[zlen a] = Some m) by by rewrite zget_app_r, Z.sub_diag by lia.
  intros i p Hi. pose proof (zget_Some_range _ _ _ Hi) as Ri. rewrite length_app in Ri.
  rewrite (zget_delete a m b) in Hi. rewrite !(at0_delete a m b).
  assert (Hpne : p ≠ m).
  { intros ->. destruct (Z.ltb_spec i (zlen a)); pose proof (zget_inj _ _ _ _ Hn Hi Lm); lia. }
  assert (Hp0 : p ≠ 0).
  { intros ->. assert (0 ∈ a ++ m :: b) as Hin.
    { destruct (Z.ltb_spec i (zlen a)); rewrite zget_pos in Hi by lia; by eapply list_elem_of_lookup_2. }
    rewrite Forall_forall in Hp. apply Hp in Hin. lia. }
  split; [done|].
  set (i' := if i <? zlen a then i else i + 1).
  assert (Hi' : (a ++ m :: b).[i'] = Some p) by (unfold i'; by destruct (Z.ltb_spec i (zlen a))).
  destruct (Hnode _ _ Hi') as (k & Ck & Pk & Nk).
  assert (Apv : p = pv ↔ i' = zlen a - 1).
  { split; intros E.
    - assert (Ha : a ≠ []) by (intros Ha; apply Hp0; rewrite E, Dpv, Ha; done).
      assert (0 < zlen a) by (destruct a; [done|cbn; lia]).
      apply (zget_inj _ _ _ _ Hn Hi'). rewrite zget_app_l by lia.
      destruct (zget_is_Some a (zlen a - 1)) as [x Hx]; [lia|]. rewrite Hx, E. rewrite Dpv. unfold at0. by rewrite Hx.
    - rewrite E in Hi'. rewrite Dpv. unfold at0. rewrite zget_app_l in Hi' by lia. by rewrite Hi'. }
  assert (Anx : p = nx ↔ i' = zlen a + 1).
  { assert (Lb : (a ++ m :: b).[zlen a + 1] = b.[0]).
    { rewrite zget_app_r by lia. replace (zlen a + 1 - zlen a) with 1 by lia.
      destruct b; done. }
    split; intros E.
    - apply (zget_inj _ _ _ _ Hn Hi'). rewrite Lb, E, Dnx. unfold at0.
      destruct (b.[0]) eqn:Eb; [done|]. exfalso. apply Hp0. rewrite E, Dnx. unfold at0. by rewrite Eb.
    - rewrite E, Lb in Hi'. rewrite Dnx. unfold at0. by rewrite Hi'. }
  assert (Aw : at0 (a ++ m :: b) (zlen a - 1) = pv ∧ at0 (a ++ m :: b) (zlen a + 1) = nx).
  { split; [rewrite Dpv; by rewrite at0_app_l by lia|]. rewrite at0_app_r by lia.
    replace (zlen a + 1 - zlen a) with 1 by lia. rewrite Dnx. by destruct b. }
  destruct Aw as [Aw1 Aw2].
  destruct (decide (p = pv)) as [Ep|Ep]; [|destruct (decide (p = nx)) as [Ex|Ex]].
  * apply Apv in Ep as Ei. destruct (Hpv p Hp0 Ep) as (k' & Ck' & ->). rewrite Ck in Ck'. injection Ck' as <-.
    eexists. split; [done|]. cbn [dprev dnext]. rewrite Pk.
    assert (i = zlen a - 1) as -> by (unfold i' in Ei; destruct (Z.ltb_spec i (zlen a)); lia).
    rewrite Ei. destruct (Z.ltb_spec (zlen a - 1 - 1) (zlen a)); [|lia].
    destruct (Z.ltb_spec (zlen a - 1 + 1) (zlen a)); [lia|].
    split; [done|]. rewrite <- Aw2. f_equal. lia.
  * apply Anx in Ex as Ei. destruct (Hnx p Hp0 Ex) as (k' & Ck' & ->). rewrite Ck in Ck'. injection Ck' as <-.
    eexists. split; [done|]. cbn [dprev dnext]. rewrite Nk.
    assert (i = zlen a) as -> by (unfold i' in Ei; destruct (Z.ltb_spec i (zlen a)); lia).
    rewrite Ei. destruct (Z.ltb_spec (zlen a - 1) (zlen a)); [|lia].
    destruct (Z.ltb_spec (zlen a + 1) (zlen a)); [lia|]. by rewrite Aw1.
  * rewrite Hoth by done. exists k. split; [done|]. rewrite Pk, Nk.
    assert (i' ≠ zlen a - 1) by by rewrite <- Apv. assert (i' ≠ zlen a + 1) by by rewrite <- Anx.
    unfold i' in *. destruct (Z.ltb_spec i (zlen a)).
    -- destruct (Z.ltb_spec (i - 1) (zlen a)); [|lia]. destruct (Z.ltb_spec (i + 1) (zlen a)); [|lia]. done.
    -- destruct (Z.ltb_spec (i - 1) (zlen a)); [lia|]. destruct (Z.ltb_spec (i + 1) (zlen a)); [lia|].
       split; f_equal; lia.
Qed.

Lemma dlinkDelete_ok s lst a m b :
  dl_rep s lst (a ++ m :: b) →
  ∃ s' lst', dlinkDelete m s lst = Some (s', lst') ∧ dl_rep s' lst' (a ++ b) ∧
    (∀ p, data_at s' p = data_at s p).
Proof.
  intros Hrep. pose proof Hrep as [Hn Hp Hh Ht Hnode].
  assert (Lm : (a ++ m :: b).[zlen a] = Some m) by by rewrite zget_app_r, Z.sub_diag by lia.
  destruct (Hnode _ _ Lm) as (n & Cm & _).
  destruct (delete_links _ _ _ _ _ _ Hrep Cm)
    as (Pn & Nn & Dpm & Dnm & Dpn & s1 & s2 & E1 & E2 & M1 & M2 & Hoth & Hpv & Hnx).
  set (pv := at0 a (zlen a - 1)) in *. set (nx := at0 b 0) in *.
  unfold dlinkDelete. rewrite Cm. cbn [mbind option_bind]. rewrite Pn, Nn, E1. cbn [mbind option_bind].
  rewrite M1. cbn [mbind option_bind]. rewrite Pn, Nn, E2. cbn [mbind option_bind].
  rewrite M2. cbn [mbind option_bind]. rewrite Pn, Nn. eexists _, _. split; [done|].
  assert (Hnd : NoDup (a ++ b)).
  { apply NoDup_app in Hn as (Hna & Hab & Hnb). apply NoDup_cons in Hnb as [_ Hnb].
    apply NoDup_app. split_and!; [done| |done]. intros x Hx Hxb. apply (Hab x Hx). by right. }
  assert (Hpos : Forall (λ p, 0 < p) (a ++ b)).
  { apply Forall_app in Hp as [Hpa Hpb]. apply Forall_cons in Hpb as [_ Hpb]. by apply Forall_app. }
  assert (Hpm : 0 < m) by (rewrite Forall_forall in Hp; apply Hp, elem_of_app; right; by left).
  assert (Hlen : zlen (a ++ m :: b) = zlen a + 1 + zlen b) by (rewrite length_app; cbn; lia).
  split.
  - constructor; cbn [dhead dtail]; [done|done|..].
    + rewrite (at0_delete a m b), Hh. destruct (Z.ltb_spec 0 (zlen a)) as [Ha|Ha].
      * destruct (at0_pos (a ++ m :: b) 0 Hp ltac:(lia)) as [L _].
        destruct (Z.eqb_spec m (at0 (a ++ m :: b) 0)) as [E|]; [|done]. rewrite <- E in L.
        pose proof (zget_inj _ _ _ _ Hn L Lm). lia.
      * assert (a = []) as -> by (destruct a; [done|cbn in Ha; lia]). cbn [app].
        change (at0 (m :: b) 0) with m. rewrite Z.eqb_refl. done.
    + rewrite (at0_delete a m b), Ht. destruct (Z.ltb_spec (zlen (a ++ b) - 1) (zlen a)) as [Hb|Hb].
      * assert (b = []) as -> by (destruct b; [done|rewrite length_app in Hb; cbn in Hb; lia]).
        replace (at0 (a ++ [m]) (zlen (a ++ [m]) - 1)) with m.
        2:{ rewrite at0_app_r by (rewrite length_app; cbn; lia). rewrite length_app. cbn [length].
            replace (Z.of_nat (length a + 1) - 1 - zlen a) with 0 by lia. done. }
        rewrite Z.eqb_refl, app_nil_r. unfold pv. by rewrite at0_app_l by lia.
      * rewrite length_app in Hb. destruct (at0_pos (a ++ m :: b) (zlen (a ++ m :: b) - 1) Hp ltac:(lia)) as [L _].
        destruct (Z.eqb_spec m (at0 (a ++ m :: b) (zlen (a ++ m :: b) - 1))) as [E|].
        -- rewrite <- E in L. pose proof (zget_inj _ _ _ _ Hn L Lm). lia.
        -- f_equal. rewrite !length_app. cbn [length]. lia.
    + intros i p Hi.
      destruct (delete_nodes _ _ _ _ _ s2 pv nx Hrep eq_refl eq_refl Hoth Hpv Hnx _ _ Hi) as [Hpm' Hlinks].
      by rewrite lookup_insert_ne by congruence.
  - intros p. unfold data_at. destruct (decide (p = m)) as [->|]; [by rewrite lookup_insert_eq, Cm|].
    rewrite lookup_insert_ne by congruence.
    destruct (decide (p = 0)) as [->|Hp0]; [by rewrite Hoth|].
    destruct (decide (p = pv)) as [Ep|Ep]; [|destruct (decide (p = nx)) as [Ex|Ex]; [|by rewrite Hoth]].
    + destruct (Hpv p Hp0 Ep) as (k & -> & ->). done.
    + destruct (Hnx p Hp0 Ex) as (k & -> & ->). done.
Qed.
