(* ===== verification/ReplLru.v ===== *)
(** The LRU removal policy (src/repl/lru/store_repl_lru.c).

    A policy node is the field [repl] of a store entry or of its memory object:
    the address is the pair of a flag (memory object or not) and the entry. The
    LruNodes live in a store of linked-list nodes; [node_data] maps the policy
    nodes whose [data] is not NULL. [None] is a failed assertion, [fatal] or an
    access through a bad pointer. *)
From S2P Require Import Prelude DList.
Import DList.

Module ReplLru.

(** The fields of a store entry the policy depends on (src/structs.h), with
    the constants of src/enums.h. *)
Record StoreEntry := mkEntry {
  lock_count : Z; swap_status : Z; store_status : Z; flags : Z; mem_obj : bool }.
Definition SWAPOUT_WRITING : Z := 1.
Definition STORE_PENDING : Z := 1.
Definition ENTRY_SPECIAL : Z := 0.
Definition KEY_PRIVATE : Z := 7.
Definition EBIT_TEST (flag bit : Z) : bool := negb (Z.land flag (Z.shiftl 1 bit) =? 0).

(** [storeEntryLocked] (src/store.c). *)
Definition storeEntryLocked (e : StoreEntry) : bool :=
  if negb (lock_count e =? 0) then true
  else if swap_status e =? SWAPOUT_WRITING then true
  else if store_status e =? STORE_PENDING then true
  else EBIT_TEST (flags e) ENTRY_SPECIAL && negb (EBIT_TEST (flags e) KEY_PRIVATE).

Section model.
(** The store entries by address. *)
Context (entries : Z → StoreEntry).

Abbreviation policy_node := (bool * Z)%type.

Inductive heap_entry_type := TYPE_UNKNOWN | TYPE_STORE_ENTRY | TYPE_STORE_MEM.

Record LruPolicyData := mkLru {
  pool : store;                       (* the allocated LruNodes *)
  lru_list : dlink_list;
  count : Z;
  nwalkers : Z;
  ltype : heap_entry_type;
  node_data : gmap policy_node Z;
  lru_brk : Z }.                      (* next address of the pool *)

Definition repl_guessType (entry : Z) (node : policy_node) : option heap_entry_type :=
  if decide (node = (false, entry)) then Some TYPE_STORE_ENTRY
  else if mem_obj (entries entry) && bool_decide (node = (true, entry)) then Some TYPE_STORE_MEM
  else None.

(** [SET_POLICY_NODE(entry, NULL)]. *)
Definition clear_policy_node (t : heap_entry_type) (entry : Z) (nd : gmap policy_node Z)
  : gmap policy_node Z :=
  match t with
  | TYPE_STORE_ENTRY => delete (false, entry) nd
  | TYPE_STORE_MEM => delete (true, entry) nd
  | TYPE_UNKNOWN => nd
  end.

Definition lru_add (lru : LruPolicyData) (entry : Z) (node : policy_node) : option LruPolicyData :=
  match node_data lru !! node with
  | Some _ => None
  | None =>
      let lru_node := lru_brk lru in
      let pool0 := <[lru_node := mkDNode 0 0 0]> (pool lru) in
      '(s, lst) ← dlinkAddTail entry lru_node pool0 (lru_list lru);
      ty ← (match ltype lru with
            | TYPE_UNKNOWN => repl_guessType entry node
            | t => Some t
            end);
      Some (mkLru s lst (i32 (count lru + 1)) (nwalkers lru) ty
              (<[node := lru_node]> (node_data lru)) (lru_brk lru + 1))
  end.

Definition lru_remove (lru : LruPolicyData) (entry : Z) (node : policy_node) : option LruPolicyData :=
  match node_data lru !! node with
  | None => Some lru
  | Some lru_node =>
      n ← pool lru !! lru_node;
      if ddata n =? 0 then Some lru
      else if ddata n =? entry then
        '(s, lst) ← dlinkDelete lru_node (pool lru) (lru_list lru);
        Some (mkLru (delete lru_node s) lst (i32 (count lru - 1)) (nwalkers lru) (ltype lru)
                (delete node (node_data lru)) (lru_brk lru))
      else None
  end.

Definition lru_referenced (lru : LruPolicyData) (entry : Z) (node : policy_node)
  : option LruPolicyData :=
  match node_data lru !! node with
  | None => Some lru
  | Some lru_node =>
      '(s1, l1) ← dlinkDelete lru_node (pool lru) (lru_list lru);
      '(s2, l2) ← dlinkAddTail entry lru_node s1 l1;
      Some (mkLru s2 l2 (count lru) (nwalkers lru) (ltype lru) (node_data lru) (lru_brk lru))
  end.

(** Walkers: [current] is NULL (0) at the end. *)
Definition set_nwalkers (lru : LruPolicyData) (k : Z) : LruPolicyData :=
  mkLru (pool lru) (lru_list lru) (count lru) k (ltype lru) (node_data lru) (lru_brk lru).

Definition lru_walkInit (lru : LruPolicyData) : LruPolicyData * Z :=
  (set_nwalkers lru (i32 (nwalkers lru + 1)), dhead (lru_list lru)).

Definition lru_walkNext (lru : LruPolicyData) (current : Z) : option (option Z * Z) :=
  if current =? 0 then Some (None, current)
  else n ← pool lru !! current; Some (Some (ddata n), dnext n).

Definition lru_walkDone (lru : LruPolicyData) : option LruPolicyData :=
  if 0 <? nwalkers lru then Some (set_nwalkers lru (i32 (nwalkers lru - 1))) else None.

Record purge_walker := mkPurge {
  scanned : Z; max_scan : Z; wlocked : Z; current : Z; start : Z }.

Definition lru_purgeInit (lru : LruPolicyData) (max : Z) : LruPolicyData * purge_walker :=
  let h := dhead (lru_list lru) in (set_nwalkers lru (i32 (nwalkers lru + 1)), mkPurge 0 max 0 h h).

(** The [try_again] loop; [None] inside the result is NULL. *)
Fixpoint lru_purgeNext (fuel : nat) (lru : LruPolicyData) (w : purge_walker)
  : option (option Z * LruPolicyData * purge_walker) :=
  let lru_node := current w in
  if (lru_node =? 0) || (max_scan w <=? scanned w) then Some (None, lru, w)
  else
    n ← pool lru !! lru_node;
    let nx := if dnext n =? start w then 0 else dnext n in
    let w1 := mkPurge (scanned w + 1) (max_scan w) (wlocked w) nx (start w) in
    let entry := ddata n in
    '(s1, l1) ← dlinkDelete lru_node (pool lru) (lru_list lru);
    if storeEntryLocked (entries entry) then
      match fuel with
      | O => None
      | S fuel' =>
          '(s2, l2) ← dlinkAddTail entry lru_node s1 l1;
          lru_purgeNext fuel'
            (mkLru s2 l2 (count lru) (nwalkers lru) (ltype lru) (node_data lru) (lru_brk lru))
            (mkPurge (scanned w1) (max_scan w1) (wlocked w1 + 1) (current w1) (start w1))
      end
    else
      Some (Some entry,
            mkLru (delete lru_node s1) l1 (i32 (count lru - 1)) (nwalkers lru) (ltype lru)
              (clear_policy_node (ltype lru) entry (node_data lru)) (lru_brk lru), w1).

Definition lru_purgeDone (lru : LruPolicyData) : option LruPolicyData :=
  if 0 <? nwalkers lru then Some (set_nwalkers lru (i32 (nwalkers lru - 1))) else None.

(** [lru_free]: its assertions ask for walkers and entries to be left. *)
Definition lru_free (lru : LruPolicyData) : option unit :=
  if negb (nwalkers lru =? 0) && negb (count lru =? 0) then Some tt else None.

Definition createRemovalPolicy_lru : LruPolicyData :=
  mkLru ∅ (mkDList 0 0) 0 0 TYPE_UNKNOWN ∅ 1.

End model.
End ReplLru.
Import ReplLru.

(** ** The abstract policy: the entries, next victim first *)

Inductive policy_op := OpAdd (e : Z) | OpRemove (e : Z) | OpRef (e : Z).

Definition without (e : Z) (es : list Z) : list Z := filter (λ x, x ≠ e) es.

Definition lru_spec (es : list Z) (o : policy_op) : list Z :=
  match o with
  | OpAdd e => es ++ [e]
  | OpRemove e => without e es
  | OpRef e => if decide (e ∈ es) then without e es ++ [e] else es
  end.

(** What callers respect: entries are not NULL and added once. *)
Definition op_ok (es : list Z) (o : policy_op) : Prop :=
  match o with OpAdd e => 0 < e ∧ e ∉ es | _ => True end.
#[export] Instance op_ok_dec es o : Decision (op_ok es o).
Proof. destruct o; unfold op_ok; apply _. Defined.

Definition lru_op (ent : Z → StoreEntry) (mem : bool) (lru : LruPolicyData) (o : policy_op)
  : option LruPolicyData :=
  match o with
  | OpAdd e => lru_add ent lru e (mem, e)
  | OpRemove e => lru_remove lru e (mem, e)
  | OpRef e => lru_referenced lru e (mem, e)
  end.

(** The policy state represents the nodes [l] (address, entry), all of them at
    the location [mem] of their entries. *)
Record lru_ok (mem : bool) (lru : LruPolicyData) (l : list (Z * Z)) : Prop := mkLruOk {
  lo_list : dl_rep (pool lru) (lru_list lru) l.*1;
  lo_data : Forall (λ x, data_at (pool lru) x.1 = Some x.2 ∧ 0 < x.2) l;
  lo_node : ∀ e p, node_data lru !! (mem, e) = Some p ↔ (p, e) ∈ l;
  lo_count : count lru = i32 (zlen l);
  lo_brk : 0 < lru_brk lru ∧ Forall (λ x, x.1 < lru_brk lru) l;
  lo_type : (ltype lru = TYPE_UNKNOWN ∧ l = []) ∨
            ltype lru = (if mem then TYPE_STORE_MEM else TYPE_STORE_ENTRY) }.

Lemma lru_ok_empty mem : lru_ok mem createRemovalPolicy_lru [].
Proof.
  constructor; cbn [createRemovalPolicy_lru pool lru_list node_data count lru_brk ltype].
  - apply dl_rep_empty.
  - by apply Forall_nil.
  - intros e p. rewrite lookup_empty. split; [done|]. by intros ?%not_elem_of_nil.
  - done.
  - split; [lia|by apply Forall_nil].
  - by left.
Qed.

Lemma lo_split mem lru l p e :
  lru_ok mem lru l → node_data lru !! (mem, e) = Some p → ∃ a b, l = a ++ (p, e) :: b.
Proof. intros Ho Hn. apply (lo_node _ _ _ Ho) in Hn. by apply list_elem_of_split. Qed.

(** Each entry has one node and each node one entry. *)
Lemma lo_entry_unique mem lru a p e b :
  lru_ok mem lru (a ++ (p, e) :: b) → e ∉ (a ++ b).*2 ∧ p ∉ (a ++ b).*1.
Proof.
  intros Ho. assert (Hp : p ∉ (a ++ b).*1).
  { pose proof (dl_nodup _ _ _ (lo_list _ _ _ Ho)) as Hnd. rewrite fmap_app, fmap_cons in Hnd.
    rewrite fmap_app. apply NoDup_app in Hnd as (_ & Hab & Hnd). apply NoDup_cons in Hnd as [Hpb _].
    rewrite elem_of_app. intros [H|H]; [|done]. apply (Hab p H). by left. }
  split; [|done]. intros He. apply list_elem_of_fmap in He as ([p' e'] & Heq & Hin). cbn in Heq. subst e'.
  assert (H1 : node_data lru !! (mem, e) = Some p).
  { apply (lo_node _ _ _ Ho). apply elem_of_app. right. by left. }
  assert (H2 : node_data lru !! (mem, e) = Some p').
  { apply (lo_node _ _ _ Ho). rewrite elem_of_app, elem_of_cons. rewrite elem_of_app in Hin. tauto. }
  rewrite H1 in H2. injection H2 as <-. apply Hp. apply list_elem_of_fmap. by exists (p, e).
Qed.

Lemma without_notin e (es : list Z) : e ∉ es → without e es = es.
Proof.
  unfold without. induction es as [|y es IH]; intros Hk; [done|]. rewrite elem_of_cons in Hk.
  rewrite filter_cons. rewrite decide_True by (intros ->; tauto). by rewrite IH by tauto.
Qed.

Lemma without_split mem lru a p e b :
  lru_ok mem lru (a ++ (p, e) :: b) → without e (a ++ (p, e) :: b).*2 = (a ++ b).*2.
Proof.
  intros Ho. destruct (lo_entry_unique _ _ _ _ _ _ Ho) as [He _]. rewrite !fmap_app in *.
  rewrite elem_of_app in He. rewrite fmap_cons. unfold without at 1. rewrite filter_app, filter_cons. cbn [snd].
  rewrite decide_False by (intros H; by apply H). fold (without e a.*2) (without e b.*2).
  by rewrite !without_notin by tauto.
Qed.

Lemma lo_absent mem lru l e : lru_ok mem lru l → node_data lru !! (mem, e) = None ↔ e ∉ l.*2.
Proof.
  intros Ho. split.
  - intros Hn He. apply list_elem_of_fmap in He as ([p e'] & -> & Hin).
    apply (lo_node _ _ _ Ho) in Hin. cbn in Hn. congruence.
  - intros He. destruct (node_data lru !! (mem, e)) as [p|] eqn:E; [|done].
    exfalso. apply He. apply (lo_node _ _ _ Ho) in E. apply list_elem_of_fmap. by exists (p, e).
Qed.

Lemma Forall_data_frame s s' (l : list (Z * Z)) (m : Z) :
  Forall (λ x, data_at s x.1 = Some x.2 ∧ 0 < x.2) l → m ∉ l.*1 →
  (∀ p, p ≠ m → data_at s' p = data_at s p) →
  Forall (λ x, data_at s' x.1 = Some x.2 ∧ 0 < x.2) l.
Proof.
  intros H Hm Hd. rewrite Forall_forall in *. intros x Hx. destruct (H x Hx) as [E P].
  split; [|done]. rewrite Hd; [done|]. intros E2. apply Hm. apply list_elem_of_fmap. by exists x.
Qed.

Lemma dl_rep_frame s s' lst ps m :
  dl_rep s lst ps → m ∉ ps → (∀ p, p ≠ m → s' !! p = s !! p) → dl_rep s' lst ps.
Proof.
  intros [Hn Hp Hh Ht Hnode] Hm Hs. constructor; try done. intros i p Hi. rewrite Hs; [by apply Hnode|].
  intros ->. apply Hm. pose proof (zget_Some_range _ _ _ Hi). rewrite zget_pos in Hi by lia.
  by eapply list_elem_of_lookup_2.
Qed.

Section refinement.
Context (mem : bool).
Implicit Types (lru : LruPolicyData).

Lemma guess_ok (ent : Z → StoreEntry) e : (mem = true → mem_obj (ent e) = true) →
  repl_guessType ent e (mem, e) = Some (if mem then TYPE_STORE_MEM else TYPE_STORE_ENTRY).
Proof.
  intros Hm. unfold repl_guessType. destruct mem.
  - rewrite decide_False by congruence. rewrite Hm, bool_decide_eq_true_2 by done. done.
  - by rewrite decide_True.
Qed.

Lemma lru_add_ok (ent : Z → StoreEntry) lru l e :
  lru_ok mem lru l → 0 < e → e ∉ l.*2 → (mem = true → mem_obj (ent e) = true) →
  ∃ lru', lru_add ent lru e (mem, e) = Some lru' ∧ lru_ok mem lru' (l ++ [(lru_brk lru, e)]).
Proof.
  intros Ho He Hnew Hmem. pose proof (proj2 (lo_absent _ _ _ e Ho) Hnew) as Hnone.
  destruct (lo_brk _ _ _ Ho) as [Hb Hlt]. set (p := lru_brk lru) in *.
  assert (Hp : p ∉ l.*1).
  { intros ([p' e'] & -> & Hin)%list_elem_of_fmap. rewrite Forall_forall in Hlt. apply Hlt in Hin. cbn in *. lia. }
  unfold lru_add. rewrite Hnone. fold p.
  set (s0 := <[p := mkDNode 0 0 0]> (pool lru)).
  assert (Hfr : ∀ q, q ≠ p → s0 !! q = pool lru !! q) by (intros; by apply lookup_insert_ne).
  destruct (dlinkAddTail_ok s0 (lru_list lru) l.*1 e p) as (s & lst & -> & Hrep & Hd & Hd').
  { eapply dl_rep_frame; [apply Ho|exact Hp|exact Hfr]. } { done. } { lia. }
  { unfold s0. by rewrite lookup_insert_eq. }
  cbn [mbind option_bind].
  assert (Hty : ∃ ty, (match ltype lru with TYPE_UNKNOWN => repl_guessType ent e (mem, e) | t => Some t end)
                 = Some ty ∧ (ty = if mem then TYPE_STORE_MEM else TYPE_STORE_ENTRY)).
  { destruct (lo_type _ _ _ Ho) as [[-> _] | ->]; [rewrite guess_ok by done; by eexists|].
    destruct mem; by eexists. }
  destruct Hty as (ty & -> & Hty). cbn [mbind option_bind]. eexists. split; [done|].
  constructor; cbn [pool lru_list count ltype node_data lru_brk].
  - by rewrite fmap_app.
  - apply Forall_app. split.
    + eapply (Forall_data_frame (pool lru) s l p); [apply Ho|done|]. intros q Hq.
      rewrite Hd' by done. unfold data_at. by rewrite Hfr.
    + by repeat constructor.
  - intros e' p'. rewrite elem_of_app, list_elem_of_singleton. destruct (decide (e' = e)) as [->|Hne].
    + rewrite lookup_insert_eq. split; [intros [= <-]; by right|].
      intros [Hin|[= ->]]; [|done]. exfalso. apply Hnew. apply list_elem_of_fmap. by exists (p', e).
    + rewrite lookup_insert_ne by congruence. rewrite (lo_node _ _ _ Ho). split; [by left|].
      intros [?|[= _ ->]]; done.
  - rewrite (lo_count _ _ _ Ho), i32_add_l, length_app. cbn [length]. f_equal. lia.
  - split; [lia|]. apply Forall_app. split; [eapply Forall_impl; [exact Hlt|]; cbn; lia|].
    repeat constructor; cbn; lia.
  - by right.
Qed.

(** Unlinking a node, and moving it to the tail. *)
Lemma unlink_ok lru a p e b :
  lru_ok mem lru (a ++ (p, e) :: b) →
  ∃ s lst, dlinkDelete p (pool lru) (lru_list lru) = Some (s, lst) ∧
    dl_rep s lst (a ++ b).*1 ∧ (∀ q, data_at s q = data_at (pool lru) q) ∧
    lru_ok mem (mkLru (delete p s) lst (i32 (count lru - 1)) (nwalkers lru) (ltype lru)
                  (delete (mem, e) (node_data lru)) (lru_brk lru)) (a ++ b).
Proof.
  intros Ho. destruct (lo_entry_unique _ _ _ _ _ _ Ho) as [He Hp].
  pose proof (lo_data _ _ _ Ho) as Hd. rewrite Forall_app, Forall_cons in Hd.
  destruct Hd as (Hda & _ & Hdb).
  pose proof (lo_list _ _ _ Ho) as Hrep. rewrite fmap_app, fmap_cons in Hrep. cbn [fst] in Hrep.
  destruct (dlinkDelete_ok _ _ _ _ _ Hrep) as (s & lst & -> & Hrep' & Hd').
  rewrite <- fmap_app in Hrep'. exists s, lst. split_and!; [done|done|done|].
  constructor; cbn [pool lru_list count ltype node_data lru_brk].
  - eapply dl_rep_frame; [exact Hrep'|exact Hp|]. intros q Hq. by apply lookup_delete_ne.
  - eapply (Forall_data_frame (pool lru) _ (a ++ b) p); [by apply Forall_app|done|].
    intros q Hq. unfold data_at in *. rewrite lookup_delete_ne by done. apply Hd'.
  - intros e' p'. destruct (decide (e' = e)) as [->|Hne].
    + rewrite lookup_delete_eq. split; [done|]. intros Hin. exfalso. apply He.
      apply list_elem_of_fmap. by exists (p', e).
    + rewrite lookup_delete_ne by congruence. rewrite (lo_node _ _ _ Ho), !elem_of_app, elem_of_cons.
      split; [intros [?|[[= _ ->]|?]]; by auto|]. tauto.
  - rewrite (lo_count _ _ _ Ho), <- Z.add_opp_r, i32_add_l, !length_app. cbn [length]. f_equal. lia.
  - destruct (lo_brk _ _ _ Ho) as [Hb Hlt]. split; [done|]. rewrite Forall_app, Forall_cons in Hlt.
    apply Forall_app. tauto.
  - destruct (lo_type _ _ _ Ho) as [[_ Hnil]|Ht]; [by destruct a|by right].
Qed.

Lemma move_to_tail_ok lru a p e b :
  lru_ok mem lru (a ++ (p, e) :: b) →
  ∃ s1 l1 s2 l2, dlinkDelete p (pool lru) (lru_list lru) = Some (s1, l1) ∧
    dlinkAddTail e p s1 l1 = Some (s2, l2) ∧
    lru_ok mem (mkLru s2 l2 (count lru) (nwalkers lru) (ltype lru) (node_data lru) (lru_brk lru))
      ((a ++ b) ++ [(p, e)]).
Proof.
  intros Ho. destruct (unlink_ok _ _ _ _ _ Ho) as (s & lst & E & Hrep' & Hd' & _).
  destruct (lo_entry_unique _ _ _ _ _ _ Ho) as [He Hp].
  pose proof (lo_data _ _ _ Ho) as Hd. rewrite Forall_app, Forall_cons in Hd.
  destruct Hd as (Hda & [Hdp Hpos] & Hdb). cbn in Hdp, Hpos.
  pose proof (dl_pos _ _ _ (lo_list _ _ _ Ho)) as Hp0. rewrite fmap_app, fmap_cons, Forall_app, Forall_cons in Hp0.
  destruct (dlinkAddTail_ok s lst (a ++ b).*1 e p Hrep' Hp) as (s2 & lst2 & E2 & Hrep2 & Hd2 & Hd2'); [tauto| |].
  { specialize (Hd' p). rewrite Hdp in Hd'. unfold data_at in Hd'. by destruct (s !! p). }
  exists s, lst, s2, lst2. split_and!; [done|done|].
  constructor; cbn [pool lru_list count ltype node_data lru_brk].
  - by rewrite fmap_app.
  - apply Forall_app. split; [|by repeat constructor].
    eapply (Forall_data_frame (pool lru) _ (a ++ b) p); [by apply Forall_app|done|].
    intros q Hq. by rewrite Hd2', Hd' by done.
  - intros e' p'. rewrite (lo_node _ _ _ Ho). rewrite !elem_of_app, elem_of_cons, list_elem_of_singleton. tauto.
  - rewrite (lo_count _ _ _ Ho), !length_app. cbn [length]. f_equal. lia.
  - destruct (lo_brk _ _ _ Ho) as [Hb Hlt]. split; [done|]. rewrite Forall_app, Forall_cons in Hlt.
    rewrite !Forall_app, Forall_cons. split_and!; try tauto. by apply Forall_nil.
  - destruct (lo_type _ _ _ Ho) as [[_ Hnil]|Ht]; [by destruct a|by right].
Qed.

Lemma lru_remove_ok lru l e :
  lru_ok mem lru l →
  ∃ lru' l', lru_remove lru e (mem, e) = Some lru' ∧ lru_ok mem lru' l' ∧ l'.*2 = without e l.*2.
Proof.
  intros Ho. unfold lru_remove. destruct (node_data lru !! (mem, e)) as [p|] eqn:En.
  2:{ exists lru, l. split_and!; [done|done|]. symmetry. apply without_notin. by apply (lo_absent mem lru). }
  destruct (lo_split _ _ _ _ _ Ho En) as (a & b & ->).
  pose proof (lo_data _ _ _ Ho) as Hd. rewrite Forall_app, Forall_cons in Hd.
  destruct Hd as (_ & [Hdp Hpos] & _). cbn in Hdp, Hpos. unfold data_at in Hdp.
  destruct (pool lru !! p) as [n|] eqn:Ep; [|done]. cbn in Hdp. injection Hdp as Hdp.
  cbn [mbind option_bind]. rewrite Hdp. destruct (Z.eqb_spec e 0); [lia|]. rewrite Z.eqb_refl.
  destruct (unlink_ok _ _ _ _ _ Ho) as (s & lst & -> & _ & _ & Ho'). cbn [mbind option_bind].
  eexists _, (a ++ b). split; [done|]. split; [done|by erewrite without_split].
Qed.

Lemma lru_referenced_ok lru l e :
  lru_ok mem lru l →
  ∃ lru' l', lru_referenced lru e (mem, e) = Some lru' ∧ lru_ok mem lru' l' ∧
             l'.*2 = lru_spec l.*2 (OpRef e).
Proof.
  intros Ho. unfold lru_referenced, lru_spec. destruct (node_data lru !! (mem, e)) as [p|] eqn:En.
  2:{ exists lru, l. rewrite decide_False by by apply (lo_absent mem lru). done. }
  destruct (lo_split _ _ _ _ _ Ho En) as (a & b & ->).
  rewrite decide_True by (rewrite fmap_app, elem_of_app; right; by left).
  destruct (move_to_tail_ok _ _ _ _ _ Ho) as (s1 & l1 & s2 & l2 & -> & E2 & Ho'). cbn [mbind option_bind].
  rewrite E2. cbn [mbind option_bind]. eexists _, ((a ++ b) ++ [(p, e)]). split; [done|]. split; [done|].
  erewrite without_split by done. by rewrite (fmap_app _ (a ++ b)).
Qed.

(** ** Purging *)

(** The address of the first node. *)
Definition first_ptr (l : list (Z * Z)) : Z := match l with (p, _) :: _ => p | [] => 0 end.

Lemma first_ptr_at0 l : at0 l.*1 0 = first_ptr l.
Proof. by destruct l as [|[p e] l]. Qed.

(** The node under the walker and the walker's next position: [todo] are the
    nodes still to scan, [moved] those already found locked. *)
Lemma purge_node lru p e t moved :
  lru_ok mem lru ((p, e) :: t ++ moved) →
  ∃ n, pool lru !! p = Some n ∧ ddata n = e ∧ p ≠ 0 ∧
    (if dnext n =? first_ptr (moved ++ [(p, e)]) then 0 else dnext n) = first_ptr t.
Proof.
  intros Ho. pose proof (lo_list _ _ _ Ho) as Hrep. rewrite fmap_cons in Hrep. cbn [fst] in Hrep.
  destruct (dl_node _ _ _ Hrep 0 p) as (n & En & _ & Hnx); [done|]. exists n.
  pose proof (lo_data _ _ _ Ho) as Hd. apply Forall_cons in Hd as [[Hd _] _]. cbn in Hd.
  unfold data_at in Hd. rewrite En in Hd. cbn in Hd. injection Hd as Hd.
  pose proof (dl_pos _ _ _ Hrep) as Hpos. apply Forall_cons in Hpos as [Hp Hpos].
  split_and!; [done|done|lia|]. rewrite Hnx. change (0 + 1) with 1.
  change (at0 (p :: (t ++ moved).*1) 1) with (at0 (t ++ moved).*1 0). rewrite first_ptr_at0.
  pose proof (dl_nodup _ _ _ Hrep) as Hnd. apply NoDup_cons in Hnd as [Hpn Hnd].
  destruct t as [|[q f] t]; cbn [app first_ptr].
  - destruct moved as [|[q f] moved]; cbn [app first_ptr].
    + by destruct (Z.eqb_spec 0 p).
    + by rewrite Z.eqb_refl.
  - rewrite fmap_app in *. rewrite fmap_cons in *. cbn [fst app] in *.
    destruct moved as [|[r g] moved]; cbn [app first_ptr].
    + destruct (Z.eqb_spec q p) as [->|]; [|done]. exfalso. apply Hpn. by left.
    + destruct (Z.eqb_spec q r) as [->|]; [|done]. exfalso.
      apply NoDup_cons in Hnd as [Hq _]. apply Hq. rewrite fmap_cons, elem_of_app. right. by left.
Qed.

Lemma purge_loop (ent : Z → StoreEntry) p e b : storeEntryLocked (ent e) = false →
  ∀ a lru moved w fuel,
  lru_ok mem lru ((a ++ (p, e) :: b) ++ moved) → Forall (λ x, storeEntryLocked (ent x.2) = true) a →
  current w = first_ptr (a ++ (p, e) :: b) → start w = first_ptr (moved ++ a ++ (p, e) :: b) →
  scanned w + zlen a < max_scan w → (length a <= fuel)%nat →
  ∃ lru' w', lru_purgeNext ent fuel lru w = Some (Some e, lru', w') ∧
    lru_ok mem lru' (b ++ moved ++ a) ∧ scanned w' = scanned w + zlen a + 1.
Proof.
  intros He. induction a as [|[q f] a IH]; intros lru moved w fuel Ho Hl Hc Hst Hs Hf; cbn [app] in *.
  - destruct (purge_node _ _ _ _ _ Ho) as (n & En & Dn & Hp0 & Hnx). cbn [first_ptr] in Hc.
    assert (Hu : lru_purgeNext ent fuel lru w
      = (n ← pool lru !! p;
         '(s1, l1) ← dlinkDelete p (pool lru) (lru_list lru);
         Some (Some (ddata n),
            mkLru (delete p s1) l1 (i32 (count lru - 1)) (nwalkers lru) (ltype lru)
              (clear_policy_node (ltype lru) (ddata n) (node_data lru)) (lru_brk lru),
            mkPurge (scanned w + 1) (max_scan w) (wlocked w)
              (if dnext n =? start w then 0 else dnext n) (start w)))).
    { destruct fuel; cbn [lru_purgeNext]; rewrite Hc; destruct (Z.eqb_spec p 0); try done;
        (destruct (Z.leb_spec (max_scan w) (scanned w)); [cbn in Hs; lia|]); cbn [orb];
        rewrite En; cbn [mbind option_bind]; rewrite Dn, He; done. }
    rewrite Hu, En. cbn [mbind option_bind].
    destruct (unlink_ok lru [] p e (b ++ moved) Ho) as (s & lst & -> & _ & _ & Ho'). cbn [mbind option_bind].
    rewrite Dn. assert (clear_policy_node (ltype lru) e (node_data lru) = delete (mem, e) (node_data lru)) as ->.
    { destruct (lo_type _ _ _ Ho) as [[_ ?]| ->]; [done|]. by destruct mem. }
    eexists _, _. split; [done|]. rewrite app_nil_r. split; [done|]. cbn. lia.
  - apply Forall_cons in Hl as [Hq Hl]. cbn [snd] in Hq. cbn [length] in *.
    destruct (purge_node _ _ _ _ _ Ho) as (n & En & Dn & Hq0 & Hnx).
    destruct fuel as [|fuel]; [lia|]. cbn [lru_purgeNext]. cbn [first_ptr] in Hc. rewrite Hc.
    destruct (Z.eqb_spec q 0); [done|]. destruct (Z.leb_spec (max_scan w) (scanned w)); [lia|]. cbn [orb].
    rewrite En. cbn [mbind option_bind]. rewrite Dn, Hq.
    destruct (move_to_tail_ok lru [] q f ((a ++ (p, e) :: b) ++ moved) Ho)
      as (s1 & l1 & s2 & l2 & -> & E2 & Ho'). cbn [mbind option_bind]. rewrite E2. cbn [mbind option_bind].
    assert (Hst' : start w = first_ptr (moved ++ [(q, f)])) by (rewrite Hst; by destruct moved as [|[? ?] ?]).
    cbn [app] in Ho'. rewrite <- app_assoc in Ho'. cbn [scanned max_scan wlocked current start].
    match goal with |- context [lru_purgeNext ent fuel ?x ?y] => set (lru1 := x) in *; set (w1 := y) end.
    destruct (IH lru1 (moved ++ [(q, f)]) w1 fuel) as (lru' & w' & -> & Hok & Hsc).
    + done.
    + done.
    + unfold w1. cbn [current]. by rewrite Hst'.
    + unfold w1. cbn [start]. rewrite Hst'. by destruct moved as [|[? ?] ?].
    + unfold w1. cbn [scanned max_scan]. lia.
    + lia.
    + exists lru', w'. split; [done|]. split; [by rewrite <- app_assoc in Hok|].
      rewrite Hsc. unfold w1. cbn [scanned]. lia.
Qed.
End refinement.

(** ** Properties *)

Lemma lru_op_ok (ent : Z → StoreEntry) mem lru l o :
  lru_ok mem lru l → op_ok l.*2 o → (mem = true → ∀ e, mem_obj (ent e) = true) →
  ∃ lru' l', lru_op ent mem lru o = Some lru' ∧ lru_ok mem lru' l' ∧ l'.*2 = lru_spec l.*2 o.
Proof.
  intros Ho Hok Hm. destruct o as [e|e|e]; cbn [lru_op].
  - destruct Hok as [He Hn]. destruct (lru_add_ok mem ent lru l e Ho He Hn) as (lru' & E & Ho'); [auto|].
    eexists _, _. split; [done|]. split; [done|]. by rewrite fmap_app.
  - by apply lru_remove_ok.
  - by apply lru_referenced_ok.
Qed.

(** The operations respect the preconditions of the abstract policy. *)
Fixpoint ops_ok (es : list Z) (os : list policy_op) : Prop :=
  match os with [] => True | o :: os' => op_ok es o ∧ ops_ok (lru_spec es o) os' end.

(** C23: any sequence of additions (of entries not yet present), removals and
    references runs without a failed assertion and leaves the entries in the
    order of the abstract policy, least recently used first. *)
Theorem lru_refines_recency_list (ent : Z → StoreEntry) mem os :
  (mem = true → ∀ e, mem_obj (ent e) = true) → ops_ok [] os →
  ∃ lru l, foldl (λ st o, lru ← st; lru_op ent mem lru o) (Some createRemovalPolicy_lru) os = Some lru ∧
           lru_ok mem lru l ∧ l.*2 = foldl lru_spec [] os.
Proof.
  intros Hm Hos.
  assert (G : ∀ os lru l, lru_ok mem lru l → ops_ok l.*2 os →
    ∃ lru' l', foldl (λ st o, lru ← st; lru_op ent mem lru o) (Some lru) os = Some lru' ∧
      lru_ok mem lru' l' ∧ l'.*2 = foldl lru_spec l.*2 os).
  { clear os Hos. induction os as [|o os IH]; intros lru l Ho Hos; [by exists lru, l|].
    destruct Hos as [Hok Hos]. cbn [foldl mbind option_bind].
    destruct (lru_op_ok ent mem lru l o Ho Hok Hm) as (lru1 & l1 & E & Ho1 & E1). rewrite E.
    rewrite <- E1 in Hos. destruct (IH _ _ Ho1 Hos) as (lru2 & l2 & E2 & Ho2 & Es2).
    exists lru2, l2. by rewrite Es2, E1. }
  exact (G os _ [] (lru_ok_empty mem) Hos).
Qed.

Definition ex_entry (locks : Z) : StoreEntry := mkEntry locks 0 0 0 true.

Lemma lru_refines_recency_list_witness :
  ∃ lru l, foldl (λ st o, lru ← st; lru_op (λ _, ex_entry 0) true lru o) (Some createRemovalPolicy_lru)
             [OpAdd 7; OpAdd 8; OpAdd 9; OpRef 7; OpRemove 8] = Some lru ∧
           lru_ok true lru l ∧ l.*2 = foldl lru_spec [] [OpAdd 7; OpAdd 8; OpAdd 9; OpRef 7; OpRemove 8].
Proof.
  apply (lru_refines_recency_list (λ _, ex_entry 0) true [OpAdd 7; OpAdd 8; OpAdd 9; OpRef 7; OpRemove 8]).
  - reflexivity.
  - cbn [ops_ok]. repeat split; apply (bool_decide_unpack _); vm_compute; exact I.
Defined.

(** C24: a purge walker started on the policy returns the least recently used
    entry that is not locked, if it is among the first [max_scan] ones; the
    locked entries it passed go to the end of the list. *)
Theorem lru_purge_returns_oldest_unlocked (ent : Z → StoreEntry) mem lru a p e b max :
  lru_ok mem lru (a ++ (p, e) :: b) → Forall (λ x, storeEntryLocked (ent x.2) = true) a → storeEntryLocked (ent e) = false →
  zlen a < max →
  ∃ lru' w', (let '(lru1, w) := lru_purgeInit lru max in lru_purgeNext ent (length a) lru1 w)
               = Some (Some e, lru', w') ∧
    lru_ok mem lru' (b ++ a) ∧ scanned w' = zlen a + 1.
Proof.
  intros Ho Ha He Hmax. unfold lru_purgeInit.
  assert (Hh : dhead (lru_list lru) = first_ptr (a ++ (p, e) :: b)).
  { rewrite (dl_head _ _ _ (lo_list _ _ _ Ho)). apply first_ptr_at0. }
  destruct (purge_loop mem ent p e b He a (set_nwalkers lru (i32 (nwalkers lru + 1))) []
    (mkPurge 0 max 0 (dhead (lru_list lru)) (dhead (lru_list lru))) (length a))
    as (lru' & w' & E & Hok & Hs); try done.
  - rewrite app_nil_r. by destruct Ho; constructor.
  - exists lru', w'. split; [done|]. split; [done|]. by rewrite Hs.
Qed.

Definition ex_lru : LruPolicyData :=
  mkLru (<[1 := mkDNode 7 0 2]> (<[2 := mkDNode 8 1 0]> ∅)) (mkDList 1 2) 2 0 TYPE_STORE_ENTRY
    (<[(false, 7) := 1]> (<[(false, 8) := 2]> ∅)) 3.

Lemma ex_lru_ok : lru_ok false ex_lru [(1, 7); (2, 8)].
Proof.
  constructor; cbn [ex_lru pool lru_list node_data count lru_brk ltype].
  - constructor; [|by repeat constructor|done|done|].
    + apply (bool_decide_unpack _). vm_compute. exact I.
    + intros i q Hi. pose proof (zget_Some_range _ _ _ Hi) as Ri. cbn in Ri.
      assert (i = 0 ∨ i = 1) as [-> | ->] by lia;
        [change (Some 1 = Some q) in Hi|change (Some 2 = Some q) in Hi]; injection Hi as <-;
        eexists; (split; [reflexivity|]); split; reflexivity.
  - repeat constructor.
  - intros e q. rewrite !elem_of_cons. split.
    + intros [[[= <-] <-]|[_ H]]%lookup_insert_Some; [by left|].
      apply lookup_insert_Some in H as [[[= <-] <-]|[_ H]]; [right; by left|done].
    + intros [[= -> ->]|[[= -> ->]|H%not_elem_of_nil]]; [reflexivity|reflexivity|done].
  - done.
  - split; [lia|]. by repeat constructor.
  - by right.
Qed.

Lemma lru_purge_returns_oldest_unlocked_witness :
  ∃ lru' w', (let '(lru1, w) := lru_purgeInit ex_lru 10 in lru_purgeNext (λ e, ex_entry (if e =? 7 then 1 else 0)) 1 lru1 w)
               = Some (Some 8, lru', w') ∧
    lru_ok false lru' ([] ++ [(1, 7)]) ∧ scanned w' = 1 + 1.
Proof.
  apply (lru_purge_returns_oldest_unlocked (λ e, ex_entry (if e =? 7 then 1 else 0)) false ex_lru [(1, 7)] 2 8 [] 10).
  - exact ex_lru_ok.
  - repeat constructor.
  - reflexivity.
  - cbn. lia.
Defined.
