(* ===== verification/Filemap.v ===== *)
(** The map of allocated swap files (src/filemap.c), with 64-bit longs.

    [file_map] is the array of words; [None] is an access outside it or the
    failed assertion of [file_map_grow]. *)
From S2P Require Import Prelude.

Module Filemap.

Definition LONG_BIT_SHIFT : Z := 6.
Definition BITS_IN_A_LONG : Z := 64.
Definition LONG_BIT_MASK : Z := 63.
Definition ALL_ONES : Z := 18446744073709551615.
Definition FM_INITIAL_NUMBER : Z := 16384.
Definition FILEMAP_MAX_SIZE : Z := 16777216.

Record fileMap := mkFm {
  max_n_files : Z; n_files_in_map : Z; nwords : Z; file_map : list Z }.

Definition file_map_create : fileMap :=
  let nw := Z.shiftr FM_INITIAL_NUMBER LONG_BIT_SHIFT in
  mkFm FM_INITIAL_NUMBER 0 nw (replicate (Z.to_nat nw) 0).

Definition file_map_grow (fm : fileMap) : option fileMap :=
  let m := Z.shiftl (max_n_files fm) 1 in
  if m <=? FILEMAP_MAX_SIZE then
    let nw := Z.shiftr m LONG_BIT_SHIFT in
    Some (mkFm m (n_files_in_map fm) nw
            (file_map fm ++ replicate (Z.to_nat nw - length (file_map fm)) 0))
  else None.

Definition bitmask (n : Z) : Z := Z.shiftl 1 (Z.land n LONG_BIT_MASK).

Fixpoint grow_until (fuel : nat) (fm : fileMap) (file_number : Z) : option fileMap :=
  if max_n_files fm <=? file_number then
    match fuel with
    | O => None
    | S fuel' => fm' ← file_map_grow fm; grow_until fuel' fm' file_number
    end
  else Some fm.

(** The loop doubles [max_n_files], at most 2^24. *)
Definition file_map_bit_set (fm : fileMap) (file_number : Z) : option (fileMap * Z) :=
  fm1 ← grow_until 32 fm file_number;
  let i := Z.shiftr file_number LONG_BIT_SHIFT in
  w ← (file_map fm1).[i];
  m ← zset (file_map fm1) i (Z.lor w (bitmask file_number));
  Some (mkFm (max_n_files fm1) (i32 (n_files_in_map fm1 + 1)) (nwords fm1) m, file_number).

Definition file_map_bit_reset (fm : fileMap) (file_number : Z) : option fileMap :=
  let i := Z.shiftr file_number LONG_BIT_SHIFT in
  w ← (file_map fm).[i];
  m ← zset (file_map fm) i (Z.land w (Z.lxor (bitmask file_number) ALL_ONES));
  Some (mkFm (max_n_files fm) (i32 (n_files_in_map fm - 1)) (nwords fm) m).

Definition file_map_bit_test (fm : fileMap) (file_number : Z) : option bool :=
  if max_n_files fm <=? file_number then Some false
  else w ← (file_map fm).[Z.shiftr file_number LONG_BIT_SHIFT];
       Some (negb (Z.land w (bitmask file_number) =? 0)).

(** The first loop of [file_map_allocate]: the word it stops at. *)
Fixpoint find_word (count : nat) (fm : fileMap) (word : Z) : option Z :=
  match count with
  | O => Some word
  | S count' =>
      w ← (file_map fm).[word];
      if w =? ALL_ONES then find_word count' fm ((word + 1) mod nwords fm) else Some word
  end.

(** The second loop: the first clear bit of the word, from bit [bit] on. *)
Fixpoint find_bit (k : nat) (fm : fileMap) (word bit : Z) : option (option Z) :=
  match k with
  | O => Some None
  | S k' =>
      let suggestion := Z.lor (Z.shiftl word LONG_BIT_SHIFT) bit in
      t ← file_map_bit_test fm suggestion;
      if (t : bool) then find_bit k' fm word (bit + 1) else Some (Some suggestion)
  end.

Fixpoint file_map_allocate (fuel : nat) (fm : fileMap) (suggestion : Z) : option (fileMap * Z) :=
  let s := if max_n_files fm <=? suggestion then 0 else suggestion in
  t ← file_map_bit_test fm s;
  if negb (t : bool) then Some (fm, s)
  else
    word ← find_word (Z.to_nat (nwords fm)) fm (Z.shiftr s LONG_BIT_SHIFT);
    r ← find_bit (Z.to_nat BITS_IN_A_LONG) fm word 0;
    match r with
    | Some n => Some (fm, n)
    | None =>
        match fuel with
        | O => None
        | S fuel' =>
            fm' ← file_map_grow fm;
            file_map_allocate fuel' fm' (Z.shiftr (max_n_files fm') 1)
        end
    end.

End Filemap.
Import Filemap.

(** ** The set of numbers a map represents *)

(** Whether bit [n] of the map is set. *)
Definition fm_bit (fm : fileMap) (n : Z) : bool :=
  Z.testbit (default 0 (file_map fm).[n / 64]) (n mod 64).

Record fm_ok (fm : fileMap) : Prop := mkFmOk {
  fo_max : max_n_files fm = 64 * nwords fm;
  fo_len : zlen (file_map fm) = nwords fm;
  fo_pos : 0 < nwords fm;
  fo_size : ∃ k, max_n_files fm = 2 ^ k ∧ 6 <= k <= 24;
  fo_words : Forall (λ w, 0 <= w <= ALL_ONES) (file_map fm) }.

Lemma shiftr6 n : Z.shiftr n LONG_BIT_SHIFT = n / 64.
Proof. unfold LONG_BIT_SHIFT. by rewrite Z.shiftr_div_pow2. Qed.

Lemma land63 n : Z.land n LONG_BIT_MASK = n mod 64.
Proof. unfold LONG_BIT_MASK. change 63 with (Z.ones 6). by rewrite Z.land_ones. Qed.

Lemma testbit_bitmask n k : 0 <= k → Z.testbit (bitmask n) k = (k =? n mod 64).
Proof.
  intros Hk. unfold bitmask. rewrite land63. apply testbit_one_bit; [|done]. by apply Z.mod_pos_bound.
Qed.

Lemma fm_word fm n : fm_ok fm → 0 <= n < max_n_files fm →
  ∃ w, (file_map fm).[n / 64] = Some w ∧ 0 <= w <= ALL_ONES.
Proof.
  intros Ho Hn. pose proof (fo_max _ Ho). pose proof (fo_len _ Ho).
  destruct (zget_is_Some (file_map fm) (n / 64)) as [w Hw].
  { split; [apply Z.div_pos; lia|]. apply Z.div_lt_upper_bound; lia. }
  exists w. split; [done|]. pose proof (zget_Some_range _ _ _ Hw). rewrite zget_pos in Hw by lia.
  pose proof (fo_words _ Ho) as Hf. rewrite Forall_forall in Hf. apply Hf. by eapply list_elem_of_lookup_2.
Qed.

(** Testing a number reads its bit, and gives 0 outside the map. *)
Lemma bit_test_ok fm n : fm_ok fm → 0 <= n → file_map_bit_test fm n = Some (fm_bit fm n).
Proof.
  intros Ho Hn. unfold file_map_bit_test, fm_bit. rewrite shiftr6.
  destruct (Z.leb_spec (max_n_files fm) n) as [Hle|Hlt].
  - rewrite zget_ge; [by rewrite Z.bits_0|]. rewrite (fo_len _ Ho). rewrite (fo_max _ Ho) in Hle.
    apply Z.div_le_lower_bound; lia.
  - destruct (fm_word fm n Ho ltac:(lia)) as (w & -> & _). cbn [mbind option_bind default from_option].
    unfold bitmask. rewrite land63. rewrite land_one_bit; [done|]. by apply Z.mod_pos_bound.
Qed.

Lemma fm_grow_ok fm : fm_ok fm → max_n_files fm < FILEMAP_MAX_SIZE →
  ∃ fm', file_map_grow fm = Some fm' ∧ fm_ok fm' ∧ max_n_files fm' = 2 * max_n_files fm ∧
         n_files_in_map fm' = n_files_in_map fm ∧ (∀ n, 0 <= n → fm_bit fm' n = fm_bit fm n).
Proof.
  intros Ho Hs. unfold file_map_grow. rewrite Z.shiftl_mul_pow2 by lia. change (2 ^ 1) with 2.
  destruct (fo_size _ Ho) as (k & Hk & Rk).
  assert (Hk24 : k < 24).
  { destruct (decide (k = 24)) as [->|]; [|lia]. rewrite Hk in Hs. by vm_compute in Hs. }
  assert (Hk1 : max_n_files fm * 2 = 2 ^ (k + 1)) by (rewrite Z.pow_add_r, Hk by lia; lia).
  assert (2 ^ (k + 1) <= 2 ^ 24) by (apply Z.pow_le_mono_r; lia).
  destruct (Z.leb_spec (max_n_files fm * 2) FILEMAP_MAX_SIZE); [|unfold FILEMAP_MAX_SIZE in *; lia].
  eexists. split; [done|].
  pose proof (fo_max _ Ho) as Hm. pose proof (fo_len _ Ho) as Hl. pose proof (fo_pos _ Ho).
  assert (Hq : Z.shiftr (max_n_files fm * 2) LONG_BIT_SHIFT = 2 * nwords fm).
  { rewrite shiftr6, Hm. replace (64 * nwords fm * 2) with (2 * nwords fm * 64) by lia. by apply Z.div_mul. }
  rewrite Hq. split_and!; try done.
  - constructor; cbn; try lia.
    + rewrite length_app, length_replicate. lia.
    + exists (k + 1). lia.
    + apply Forall_app. split; [apply Ho|]. apply Forall_replicate. unfold ALL_ONES. lia.
  - cbn. lia.
  - intros n Hn. unfold fm_bit. cbn [file_map]. destruct (decide (n / 64 < nwords fm)).
    + by rewrite zget_app_l by lia.
    + rewrite (zget_ge (file_map fm)) by lia. rewrite zget_app_r by lia.
      destruct (zget _ (n / 64 - _)) as [w|] eqn:E; [|done].
      pose proof (zget_Some_range _ _ _ E). rewrite length_replicate in *.
      rewrite zget_replicate in E by lia. by injection E as <-.
Qed.

Lemma grow_until_ok n : 0 <= n < FILEMAP_MAX_SIZE → ∀ fuel fm k,
  fm_ok fm → max_n_files fm = 2 ^ k → 0 <= k → 24 - k <= Z.of_nat fuel →
  ∃ fm', grow_until fuel fm n = Some fm' ∧ fm_ok fm' ∧ n < max_n_files fm' ∧ max_n_files fm <= max_n_files fm' ∧
         n_files_in_map fm' = n_files_in_map fm ∧ (∀ k, 0 <= k → fm_bit fm' k = fm_bit fm k).
Proof.
  intros Hn fuel. induction fuel as [|fuel IH]; intros fm k Ho Hk Hk0 Hf; cbn [grow_until];
    (destruct (Z.leb_spec (max_n_files fm) n); [|by exists fm]).
  { exfalso. assert (2 ^ 24 <= 2 ^ k) by (apply Z.pow_le_mono_r; lia). unfold FILEMAP_MAX_SIZE in *. lia. }
  destruct (fo_size _ Ho) as (k' & Hk' & Rk').
  destruct (fm_grow_ok fm Ho) as (fm1 & -> & Ho1 & Hm1 & Hc1 & Hb1); [lia|]. cbn [mbind option_bind].
  assert (k' = k) as -> by (rewrite Hk' in Hk; apply Z.pow_inj_r in Hk; lia).
  destruct (IH fm1 (k + 1) Ho1) as (fm' & -> & Ho' & Hm' & Hg' & Hc' & Hb').
  { rewrite Hm1, Hk, Z.pow_add_r by lia. lia. } { lia. } { lia. }
  exists fm'. split_and!; try done; [pose proof (fo_pos _ Ho); pose proof (fo_max _ Ho); lia|congruence|]. intros j Hj. by rewrite Hb', Hb1.
Qed.

Lemma fm_ok_zset fm n w m c : fm_ok fm → zset (file_map fm) (n / 64) w = Some m → 0 <= w <= ALL_ONES →
  fm_ok (mkFm (max_n_files fm) c (nwords fm) m).
Proof.
  intros Ho Hz Hw. constructor; cbn; try apply Ho.
  - rewrite (zset_length _ _ _ _ Hz). apply Ho.
  - apply zset_inv in Hz as [_ ->]. apply Forall_insert; [apply Ho|done].
Qed.

Lemma fm_bit_out fm n : fm_ok fm → max_n_files fm <= n → fm_bit fm n = false.
Proof.
  intros Ho Hn. unfold fm_bit. rewrite zget_ge; [by rewrite Z.bits_0|].
  rewrite (fo_len _ Ho). rewrite (fo_max _ Ho) in Hn. apply Z.div_le_lower_bound; lia.
Qed.

(** The numbers in use below [m], and a count that is theirs. *)
Definition used (fm : fileMap) (m : Z) : list Z := filter (λ k, fm_bit fm k = true) (seqZ 0 m).
Definition counted (fm : fileMap) : Prop := n_files_in_map fm = zlen (used fm (max_n_files fm)).

Lemma elem_of_used fm m k : k ∈ used fm m ↔ 0 <= k < m ∧ fm_bit fm k = true.
Proof. unfold used. rewrite list_elem_of_filter, elem_of_seqZ. rewrite Z.add_0_l. tauto. Qed.
Lemma NoDup_used fm m : NoDup (used fm m).
Proof. apply NoDup_filter, NoDup_seqZ. Qed.

Lemma used_set fm fm' n : fm_ok fm → fm_ok fm' → 0 <= n < max_n_files fm' → max_n_files fm <= max_n_files fm' →
  fm_bit fm n = false → (∀ k, 0 <= k → fm_bit fm' k = (k =? n) || fm_bit fm k) →
  used fm' (max_n_files fm') ≡ₚ n :: used fm (max_n_files fm) ∧ zlen (used fm' (max_n_files fm')) <= FILEMAP_MAX_SIZE.
Proof.
  intros Ho Ho' Hn Hm Hb H. split.
  - apply NoDup_Permutation; [apply NoDup_used|apply NoDup_cons; split; [rewrite elem_of_used, Hb; by intros []|apply NoDup_used]|].
    intros k. rewrite elem_of_cons, !elem_of_used. split.
    + intros [Hk Hk']. rewrite H in Hk' by lia. destruct (Z.eqb_spec k n) as [|]; [by left|right]. split; [|done].
      destruct (decide (k < max_n_files fm)); [lia|]. rewrite fm_bit_out in Hk' by (done || lia). done.
    + intros [->|[Hk Hk']]; [split; [done|]; by rewrite H, Z.eqb_refl by lia|]. split; [lia|]. rewrite H, Hk' by lia. apply orb_true_r.
  - destruct (fo_size _ Ho') as (j & Hj & Rj). assert (2 ^ j <= 2 ^ 24) by (apply Z.pow_le_mono_r; lia).
    pose proof (length_filter (λ k, fm_bit fm' k = true) (seqZ 0 (max_n_files fm'))) as L. rewrite length_seqZ in L. unfold used, FILEMAP_MAX_SIZE. lia.
Qed.

Lemma word_range w : 0 <= w → (∀ k, 64 <= k → Z.testbit w k = false) → 0 <= w <= ALL_ONES.
Proof.
  intros Hw Hb. split; [done|]. destruct (decide (w = 0)) as [->|Hne]; [done|].
  assert (Z.log2 w < 64).
  { destruct (decide (Z.log2 w < 64)); [done|]. exfalso.
    pose proof (Z.bit_log2 w ltac:(lia)). rewrite Hb in *; [done|lia]. }
  assert (w < 2 ^ 64) by (apply Z.log2_lt_pow2; lia). unfold ALL_ONES. lia.
Qed.

Lemma testbit_word w k : 0 <= w <= ALL_ONES → 64 <= k → Z.testbit w k = false.
Proof.
  intros Hw Hk. destruct (decide (w = 0)) as [->|]; [apply Z.bits_0|]. apply Z.bits_above_log2; [lia|].
  apply Z.log2_lt_pow2; [lia|]. unfold ALL_ONES in *. apply Z.lt_le_trans with (2 ^ 64); [lia|].
  by apply Z.pow_le_mono_r.
Qed.

Lemma bit_index_eq n m : 0 <= n → 0 <= m → n = m ↔ n / 64 = m / 64 ∧ n mod 64 = m mod 64.
Proof.
  intros. pose proof (Z.div_mod n 64 ltac:(lia)). pose proof (Z.div_mod m 64 ltac:(lia)). split; [by intros ->|lia].
Qed.

(** The bits after one word was replaced. *)
Lemma fm_bit_zset fm n w m c k : zset (file_map fm) (n / 64) w = Some m → 0 <= k →
  fm_bit (mkFm (max_n_files fm) c (nwords fm) m) k =
    if k / 64 =? n / 64 then Z.testbit w (k mod 64) else fm_bit fm k.
Proof.
  intros Hz Hk. unfold fm_bit. cbn [file_map]. rewrite (zget_zset _ _ _ _ _ Hz).
  destruct (Z.eqb_spec (k / 64) (n / 64)) as [E|E].
  - by rewrite decide_True.
  - by rewrite decide_False.
Qed.

(** C25: setting a number below the limit grows the map as far as needed and
    sets exactly that bit. The count goes up by one at the width of [int]; where it was
    the number of bits that are set and the bit was clear, as the callers see to, it
    still is and has not wrapped. *)
Theorem bit_set_sets_one fm n :
  fm_ok fm → 0 <= n < FILEMAP_MAX_SIZE →
  ∃ fm', file_map_bit_set fm n = Some (fm', n) ∧ fm_ok fm' ∧ n < max_n_files fm' ∧
    n_files_in_map fm' = i32 (n_files_in_map fm + 1) ∧ (counted fm → fm_bit fm n = false → counted fm') ∧
    (∀ k, 0 <= k → file_map_bit_test fm' k = Some ((k =? n) || fm_bit fm k)).
Proof.
  intros Ho Hn. destruct (fo_size _ Ho) as (k & Hk & Rk).
  destruct (grow_until_ok n Hn 32 fm k Ho Hk ltac:(lia) ltac:(lia)) as (fm1 & E1 & Ho1 & Hm1 & Hg1 & Hc1 & Hb1).
  unfold file_map_bit_set. rewrite E1. cbn [mbind option_bind]. rewrite shiftr6.
  destruct (fm_word fm1 n Ho1 ltac:(lia)) as (w & Hw & Rw). rewrite Hw. cbn [mbind option_bind].
  pose proof (zget_Some_range _ _ _ Hw) as Ri.
  pose proof (zset_Some (file_map fm1) (n / 64) (Z.lor w (bitmask n)) Ri) as Hz. rewrite Hz.
  cbn [mbind option_bind]. pose proof (Z.mod_pos_bound n 64 ltac:(lia)) as Hmod.
  assert (Rw' : 0 <= Z.lor w (bitmask n) <= ALL_ONES).
  { apply word_range.
    - apply Z.lor_nonneg. split; [lia|]. unfold bitmask. rewrite land63. apply Z.shiftl_nonneg. lia.
    - intros j Hj. rewrite Z.lor_spec, testbit_bitmask, (testbit_word w) by lia.
      by destruct (Z.eqb_spec j (n mod 64)); [lia|]. }
  assert (Ho2 : fm_ok (mkFm (max_n_files fm1) (i32 (n_files_in_map fm1 + 1)) (nwords fm1)
                         (<[Z.to_nat (n / 64) := Z.lor w (bitmask n)]> (file_map fm1)))).
  { by eapply fm_ok_zset. }
  set (fm2 := mkFm _ _ _ _) in *. assert (Hbits : ∀ k, 0 <= k → fm_bit fm2 k = (k =? n) || fm_bit fm k).
  2:{ exists fm2. split; [done|]. split; [done|]. split; [done|]. split; [cbn; by rewrite Hc1|]. split.
      - intros Hcnt Hclear. destruct (used_set fm fm2 n Ho Ho2) as [Hp Hle]; [cbn; lia|done|done|done|].
        unfold counted in *. rewrite Hp in Hle |- *. cbn [fm2 n_files_in_map length] in *. rewrite Hc1, Hcnt. unfold FILEMAP_MAX_SIZE in Hle. rewrite i32_small by lia. lia.
      - intros j Hj. rewrite bit_test_ok by done. by rewrite Hbits. }
  intros j Hj. unfold fm2. erewrite fm_bit_zset by done.
  destruct (Z.eqb_spec (j / 64) (n / 64)) as [Ed|Ed].
  - rewrite Z.lor_spec, testbit_bitmask by (apply Z.mod_pos_bound; lia). rewrite <- Hb1 by done.
    unfold fm_bit. rewrite Ed, Hw. cbn [default from_option id]. rewrite orb_comm. f_equal.
    destruct (Z.eqb_spec (j mod 64) (n mod 64)) as [Em|Em], (Z.eqb_spec j n) as [Ej|Ej]; try done; exfalso.
    + apply Ej, bit_index_eq; [lia|lia|done].
    + by subst.
  - rewrite Hb1 by done. destruct (Z.eqb_spec j n); [congruence|done].
Qed.

(** ** Allocation *)

Lemma find_word_ok fm : fm_ok fm → ∀ count word, 0 <= word < nwords fm →
  ∃ word', find_word count fm word = Some word' ∧ 0 <= word' < nwords fm.
Proof.
  intros Ho. induction count as [|count IH]; intros word Hw; cbn [find_word]; [by exists word|].
  destruct (zget_is_Some (file_map fm) word) as [w ->]; [rewrite (fo_len _ Ho); lia|].
  cbn [mbind option_bind]. destruct (w =? ALL_ONES); [|by exists word]. apply IH.
  apply Z.mod_pos_bound. apply Ho.
Qed.

Lemma suggestion_eq word bit : 0 <= word → 0 <= bit < 64 →
  Z.lor (Z.shiftl word LONG_BIT_SHIFT) bit = 64 * word + bit.
Proof.
  intros Hw Hb. unfold LONG_BIT_SHIFT. rewrite Z.shiftl_mul_pow2, lor_low_bits by lia. lia.
Qed.

Lemma find_bit_ok fm word : fm_ok fm → 0 <= word < nwords fm → ∀ k bit,
  0 <= bit → bit + Z.of_nat k = 64 →
  ∃ r, find_bit k fm word bit = Some r ∧
       match r with
       | Some n => fm_bit fm n = false ∧ 0 <= n < max_n_files fm
       | None => True
       end.
Proof.
  intros Ho Hw. induction k as [|k IH]; intros bit Hb Hk; cbn [find_bit]; [by exists None|].
  rewrite suggestion_eq by lia. pose proof (fo_max _ Ho).
  rewrite bit_test_ok by (done || lia). cbn [mbind option_bind].
  destruct (fm_bit fm (64 * word + bit)) eqn:E; [apply IH; lia|].
  eexists. split; [done|]. cbn. split; [done|lia].
Qed.

Lemma allocate_free fm n : fm_ok fm → 0 <= n < max_n_files fm → fm_bit fm n = false →
  ∀ fuel, file_map_allocate fuel fm n = Some (fm, n).
Proof.
  intros Ho Hn Hb fuel. destruct fuel; cbn [file_map_allocate];
    (destruct (Z.leb_spec (max_n_files fm) n); [lia|]);
    rewrite bit_test_ok, Hb by (done || lia); done.
Qed.

(** C26: allocation below the maximal size always succeeds, with a number that
    is not in use; the map keeps its bits, doubling when the scan finds no
    room. *)
Theorem allocate_returns_free fm suggestion :
  fm_ok fm → 0 <= suggestion → max_n_files fm < FILEMAP_MAX_SIZE →
  ∃ fm' n, file_map_allocate 1 fm suggestion = Some (fm', n) ∧ fm_ok fm' ∧
    0 <= n < max_n_files fm' ∧ fm_bit fm n = false ∧
    (∀ k, 0 <= k → fm_bit fm' k = fm_bit fm k).
Proof.
  intros Ho Hs Hmax. pose proof (fo_max _ Ho) as Hm. pose proof (fo_pos _ Ho) as Hp. cbn [file_map_allocate].
  set (s := if max_n_files fm <=? suggestion then 0 else suggestion).
  assert (Rs : 0 <= s < max_n_files fm) by (unfold s; destruct (Z.leb_spec (max_n_files fm) suggestion); lia).
  rewrite bit_test_ok by (done || lia). cbn [mbind option_bind].
  destruct (fm_bit fm s) eqn:Es; cbn [negb]; [|by exists fm, s].
  rewrite shiftr6. destruct (find_word_ok fm Ho (Z.to_nat (nwords fm)) (s / 64)) as (word & -> & Rw).
  { split; [apply Z.div_pos; lia|apply Z.div_lt_upper_bound; lia]. }
  cbn [mbind option_bind].
  destruct (find_bit_ok fm word Ho Rw (Z.to_nat BITS_IN_A_LONG) 0) as (r & -> & Hr); [lia|done|].
  cbn [mbind option_bind]. destruct r as [n|]; [exists fm, n; naive_solver|].
  destruct (fm_grow_ok fm Ho Hmax) as (fm1 & -> & Ho1 & Hm1 & _ & Hb1). cbn [mbind option_bind].
  assert (Z.shiftr (max_n_files fm1) 1 = max_n_files fm) as ->.
  { rewrite Hm1, Z.shiftr_div_pow2 by lia. change (2 ^ 1) with 2. rewrite Z.mul_comm. by apply Z.div_mul. }
  assert (Hf : fm_bit fm (max_n_files fm) = false) by (apply fm_bit_out; [done|lia]).
  pose proof (allocate_free fm1 (max_n_files fm) Ho1 ltac:(lia) ltac:(by rewrite Hb1 by lia) 0) as Ha.
  cbn [file_map_allocate] in Ha. rewrite Ha. exists fm1, (max_n_files fm). split_and!; try done; lia.
Qed.

Lemma create_ok : fm_ok file_map_create.
Proof.
  constructor; try done; [by exists 14|]. apply Forall_replicate. done.
Qed.

Lemma bit_set_sets_one_witness :
  ∃ fm', file_map_bit_set file_map_create 20000 = Some (fm', 20000) ∧ fm_ok fm' ∧ 20000 < max_n_files fm' ∧
    n_files_in_map fm' = i32 (n_files_in_map file_map_create + 1) ∧ (counted file_map_create → fm_bit file_map_create 20000 = false → counted fm') ∧
    (∀ k, 0 <= k → file_map_bit_test fm' k = Some ((k =? 20000) || fm_bit file_map_create k)).
Proof. apply (bit_set_sets_one file_map_create 20000); [exact create_ok|done]. Defined.

Lemma allocate_returns_free_witness :
  ∃ fm' n, file_map_allocate 1 file_map_create 99999 = Some (fm', n) ∧ fm_ok fm' ∧
    0 <= n < max_n_files fm' ∧ fm_bit file_map_create n = false ∧
    (∀ k, 0 <= k → fm_bit fm' k = fm_bit file_map_create k).
Proof. apply (allocate_returns_free file_map_create 99999); [exact create_ok|lia|done]. Defined.
