(* ===== verification/Event.v ===== *)
(** The event queue (src/event.c).

    Times are doubles of which the queue uses the comparison and, when an event
    is added, one sum: a type [K] with the total preorder of [HeapKey] and an
    operation [kplus]. A handler and its argument are addresses, NULL is 0; what
    a handler does when it is called is the parameter [call]. [locks] counts
    the cbdata locks the queue holds on each argument. *)
From S2P Require Import Prelude Heap.
Import Heap.

Module Event.
Section model.
Context {K : Type} `{HK : HeapKey K} (kplus : K → K → K).

Record ev_entry := mkEv {
  func : Z; arg : Z; name : Z; when : K; weight : Z; eid : Z }.

Record ev_state := mkEvs {
  tasks : list ev_entry;
  run_id : Z;
  last_event_ran : Z;
  locks : gmap Z Z }.

Definition cbdataLock (l : gmap Z Z) (a : Z) : gmap Z Z := <[a := default 0 (l !! a) + 1]> l.
Definition cbdataUnlock (l : gmap Z Z) (a : Z) : gmap Z Z := <[a := default 0 (l !! a) - 1]> l.

Definition set_tasks (s : ev_state) (ts : list ev_entry) : ev_state :=
  mkEvs ts (run_id s) (last_event_ran s) (locks s).
Definition set_locks (s : ev_state) (l : gmap Z Z) : ev_state :=
  mkEvs (tasks s) (run_id s) (last_event_ran s) l.

(** The insertion point: in front of the first later event. *)
Fixpoint insert_event (e : ev_entry) (ts : list ev_entry) : list ev_entry :=
  match ts with
  | [] => [e]
  | t :: ts' => if klt (when e) (when t) then e :: ts else t :: insert_event e ts'
  end.

Definition eventAdd (now : K) (nm f a : Z) (delay : K) (w : Z) (s : ev_state) : ev_state :=
  let e := mkEv f a nm (kplus now delay) w (run_id s) in
  let l := if a =? 0 then locks s else cbdataLock (locks s) a in
  mkEvs (insert_event e (tasks s)) (run_id s) (last_event_ran s) l.

(** The first event of the handler (and argument, unless it is NULL); the
    deleted event comes with the rest. *)
Fixpoint delete_event (f a : Z) (ts : list ev_entry) : option (ev_entry * list ev_entry) :=
  match ts with
  | [] => None
  | t :: ts' =>
      if negb (func t =? f) || (negb (a =? 0) && negb (arg t =? a))
      then '(e, r) ← delete_event f a ts'; Some (e, t :: r)
      else Some (t, ts')
  end.

Definition eventDelete (f a : Z) (s : ev_state) : ev_state :=
  match delete_event f a (tasks s) with
  | None => s
  | Some (e, ts) =>
      set_tasks (if arg e =? 0 then s else set_locks s (cbdataUnlock (locks s) (arg e))) ts
  end.

Definition eventFind (f a : Z) (s : ev_state) : bool :=
  existsb (λ t, (func t =? f) && (arg t =? a)) (tasks s).

(** The state of cbdata: which arguments are still valid. *)
Context (cbdataValid : Z → bool).

Definition eventCleanup (s : ev_state) : ev_state :=
  mkEvs (filter (λ t, cbdataValid (arg t) = true) (tasks s)) (run_id s) (last_event_ran s)
    (foldl cbdataUnlock (locks s) (arg <$> filter (λ t, cbdataValid (arg t) ≠ true) (tasks s))).

Definition eventFreeMemory (s : ev_state) : ev_state :=
  mkEvs [] (run_id s) (last_event_ran s)
    (foldl cbdataUnlock (locks s) (arg <$> filter (λ t, arg t ≠ 0) (tasks s))).

(** What a called handler does to the queue. *)
Context (call : Z → Z → ev_state → ev_state).

(** The loop of [eventRun]; the events that ran, in order, come with the
    state. *)
Fixpoint run_loop (fuel : nat) (now : K) (w : Z) (s : ev_state)
  : option (list ev_entry * ev_state) :=
  match tasks s with
  | [] => Some ([], s)
  | e :: ts =>
      if klt now (when e) then Some ([], s)
      else if eid e =? run_id s then Some ([], s)
      else if negb (w =? 0) then Some ([], s)
      else match fuel with
           | O => None
           | S fuel' =>
               let s1 := set_tasks s ts in
               let s2 := if arg e =? 0 then s1 else set_locks s1 (cbdataUnlock (locks s1) (arg e)) in
               let valid := if arg e =? 0 then true else cbdataValid (arg e) in
               if valid then
                 let s3 := mkEvs (tasks s2) (run_id s2) (name e) (locks s2) in
                 '(tr, s') ← run_loop fuel' now (w + weight e) (call (func e) (arg e) s3);
                 Some (e :: tr, s')
               else run_loop fuel' now w s2
           end
  end.

Definition eventRun (fuel : nat) (now : K) (s : ev_state) : option (list ev_entry * ev_state) :=
  match tasks s with
  | [] => Some ([], s)
  | e :: _ =>
      if klt now (when e) then Some ([], s)
      else run_loop fuel now 0
             (mkEvs (tasks s) (i32 (run_id s + 1)) (last_event_ran s) (locks s))
  end.
End model.
Arguments ev_entry : clear implicits.
Arguments ev_state : clear implicits.
End Event.
Import Event.

(** ** The queue is sorted by time *)

Section queue.
Context {K : Type} `{HK : HeapKey K}.
Implicit Types (e t : ev_entry K) (ts : list (ev_entry K)).

Definition by_time (a b : ev_entry K) : Prop := kle (when a) (when b) = true.
Definition sorted ts : Prop := StronglySorted by_time ts.

Lemma klt_false a b : klt a b = false → kle b a = true.
Proof. unfold klt. intros H. by apply negb_false_iff. Qed.
Lemma klt_true a b : klt a b = true → kle a b = true.
Proof. unfold klt. intros H. apply negb_true_iff in H. destruct (kle_total a b); congruence. Qed.

Lemma insert_event_split e ts : sorted ts →
  ∃ b a, ts = b ++ a ∧ insert_event e ts = b ++ e :: a ∧
         Forall (λ t, kle (when t) (when e) = true) b ∧ Forall (λ t, klt (when e) (when t) = true) a.
Proof.
  induction 1 as [|t ts Hs IH Hall]; cbn [insert_event].
  { exists [], []. by repeat split. }
  destruct (klt (when e) (when t)) eqn:E.
  - exists [], (t :: ts). split_and!; try done. constructor; [done|].
    eapply Forall_impl; [exact Hall|]. intros u Hu. unfold klt in *. apply negb_true_iff in E.
    apply negb_true_iff. destruct (kle (when u) (when e)) eqn:Eu; [|done].
    rewrite <- E. symmetry. by apply (kle_trans _ (when u)).
  - destruct IH as (b & a & -> & -> & Hb & Ha). exists (t :: b), a. split_and!; try done.
    constructor; [by apply klt_false|done].
Qed.

Lemma insert_event_sorted e ts : sorted ts → sorted (insert_event e ts).
Proof.
  intros Hs. destruct (insert_event_split e ts Hs) as (b & a & -> & -> & Hb & Ha). unfold sorted in *.
  apply StronglySorted_app in Hs as (Hba & Sb & Sa). apply StronglySorted_app. split_and!.
  - intros x y Hx Hy. rewrite elem_of_cons in Hy. destruct Hy as [->|Hy]; [|by apply Hba].
    rewrite Forall_forall in Hb. by apply Hb.
  - done.
  - constructor; [done|]. eapply Forall_impl; [exact Ha|]. intros y Hy. by apply klt_true.
Qed.

Lemma insert_event_perm e ts : insert_event e ts ≡ₚ e :: ts.
Proof.
  induction ts as [|t ts IH]; cbn [insert_event]; [done|]. destruct (klt _ _); [done|].
  rewrite IH. apply Permutation_swap.
Qed.

Lemma delete_event_split f a ts e r : delete_event f a ts = Some (e, r) →
  ∃ b c, ts = b ++ e :: c ∧ r = b ++ c.
Proof.
  revert e r. induction ts as [|t ts IH]; intros e r H; cbn [delete_event] in H; [done|].
  destruct (_ || _).
  - destruct (delete_event f a ts) as [[e' r']|] eqn:E; [|done]. cbn [mbind option_bind] in H.
    injection H as <- <-. destruct (IH e' r' eq_refl) as (b & c & -> & ->). by exists (t :: b), c.
  - injection H as <- <-. by exists [], ts.
Qed.

Lemma sorted_remove b e c : sorted (b ++ e :: c) → sorted (b ++ c).
Proof.
  unfold sorted. intros (Hbc & Sb & Sc)%StronglySorted_app. apply StronglySorted_inv in Sc as [Sc _].
  apply StronglySorted_app. split_and!; try done. intros x y Hx Hy. apply Hbc; [done|]. by right.
Qed.
End queue.

(** ** Running *)

Section run.
Context {K : Type} `{HK : HeapKey K} (kplus : K → K → K).
Implicit Types (s : ev_state K).

(** What handlers may do to the queue: add and delete events. *)
Inductive queue_steps : ev_state K → ev_state K → Prop :=
| qs_refl s : queue_steps s s
| qs_add s s' now nm f a d w :
    queue_steps (eventAdd kplus now nm f a d w s) s' → queue_steps s s'
| qs_delete s s' f a : queue_steps (eventDelete f a s) s' → queue_steps s s'.

(** The events that were queued before the current run. *)
Definition old_events (r : Z) (ts : list (ev_entry K)) : list (ev_entry K) :=
  filter (λ t, eid t ≠ r) ts.

Lemma old_insert r e ts : eid e = r → old_events r (insert_event e ts) = old_events r ts.
Proof.
  intros He. unfold old_events. induction ts as [|t ts IH]; cbn [insert_event].
  - rewrite filter_cons. rewrite decide_False by auto. done.
  - destruct (klt _ _).
    + rewrite (filter_cons _ e). by rewrite decide_False by auto.
    + rewrite !filter_cons, IH. done.
Qed.

Lemma old_remove r b (e : ev_entry K) c : old_events r (b ++ c) `sublist_of` old_events r (b ++ e :: c).
Proof.
  unfold old_events. rewrite !filter_app, filter_cons. apply sublist_app; [done|].
  case_decide; [by apply sublist_cons|done].
Qed.

Lemma queue_steps_ok s s' : queue_steps s s' → sorted (tasks s) →
  sorted (tasks s') ∧ run_id s' = run_id s ∧
  old_events (run_id s) (tasks s') `sublist_of` old_events (run_id s) (tasks s).
Proof.
  induction 1 as [s|s s' now nm f a d w _ IH|s s' f a _ IH]; intros Hs; [done| |].
  - destruct IH as (H1 & H2 & H3); [by apply insert_event_sorted|].
    unfold eventAdd in H2, H3. cbn [run_id tasks] in H2, H3.
    split_and!; [done|done|]. by rewrite old_insert in H3.
  - unfold eventDelete in IH. destruct (delete_event f a (tasks s)) as [[e r]|] eqn:E; [|by apply IH].
    apply delete_event_split in E as (b & c & E1 & ->). rewrite E1 in *.
    assert (Hid : run_id (set_tasks (if arg e =? 0 then s else set_locks s (cbdataUnlock (locks s) (arg e)))
                    (b ++ c)) = run_id s) by by destruct (arg e =? 0).
    rewrite Hid in IH. destruct IH as (H1 & H2 & H3); [by eapply sorted_remove|].
    split_and!; [done|done|]. etrans; [exact H3|]. apply old_remove.
Qed.

Context (valid : Z → bool) (call : Z → Z → ev_state K → ev_state K).
Context (Hcall : ∀ f a s, queue_steps s (call f a s)).

Lemma run_loop_ok fuel : ∀ now w s,
  sorted (tasks s) → (length (old_events (run_id s) (tasks s)) <= fuel)%nat →
  ∃ tr s', run_loop valid call fuel now w s = Some (tr, s') ∧ sorted (tasks s') ∧
    run_id s' = run_id s ∧ tr `sublist_of` old_events (run_id s) (tasks s) ∧
    Forall (λ e, kle (when e) now = true) tr.
Proof using Hcall.
  induction fuel as [|fuel IH]; intros now w s Hs Hf; cbn [run_loop];
    (destruct (tasks s) as [|e ts] eqn:Et; [exists [], s; rewrite Et; split_and!; done || apply sublist_nil_l|]);
    (destruct (klt now (when e)) eqn:El;
      [exists [], s; rewrite Et; split_and!; done || apply sublist_nil_l|]);
    (destruct (Z.eqb_spec (eid e) (run_id s)) as [Eid|Eid];
      [exists [], s; rewrite Et; split_and!; done || apply sublist_nil_l|]);
    (destruct (w =? 0); cbn [negb];
      [|exists [], s; rewrite Et; split_and!; done || apply sublist_nil_l]);
    unfold old_events in Hf; rewrite filter_cons, decide_True in Hf by done; cbn [length] in Hf; [lia|].
  set (s1 := set_tasks s ts). set (s2 := if arg e =? 0 then s1 else _).
  assert (H2 : tasks s2 = ts ∧ run_id s2 = run_id s) by by (unfold s2; destruct (arg e =? 0)).
  destruct H2 as [T2 R2]. assert (Hts : sorted ts) by (apply StronglySorted_inv in Hs; tauto).
  assert (Hold : old_events (run_id s) (e :: ts) = e :: old_events (run_id s) ts).
  { unfold old_events. by rewrite filter_cons, decide_True by done. }
  rewrite Hold. destruct (if arg e =? 0 then true else valid (arg e)).
  - set (s3 := mkEvs (tasks s2) (run_id s2) (name e) (locks s2)).
    destruct (queue_steps_ok s3 _ (Hcall (func e) (arg e) s3)) as (Q1 & Q2 & Q3); [cbn; by rewrite T2|].
    cbn [s3 run_id tasks] in Q2, Q3. rewrite T2, R2 in *.
    destruct (IH now (w + weight e) (call (func e) (arg e) s3)) as (tr & s' & -> & I1 & I2 & I3 & I4); [done| |].
    { rewrite Q2. apply sublist_length in Q3. unfold old_events in *. lia. }
    cbn [mbind option_bind]. rewrite Q2 in *. exists (e :: tr), s'. split_and!; try done.
    + apply sublist_skip. by etrans.
    + constructor; [by apply klt_false|done].
  - destruct (IH now w s2) as (tr & s' & -> & I1 & I2 & I3 & I4); [by rewrite T2| |].
    { rewrite T2, R2. unfold old_events. lia. }
    rewrite T2, R2 in *. exists tr, s'. split_and!; try done. by apply sublist_cons.
Qed.

(** C28: with handlers that only add and delete events, a run of the queue ends
    after at most as many events as were queued when it began. The events that
    ran are due, were queued before the run, and ran in queue order; those
    handlers added wait for the next run; the queue stays sorted. *)
Theorem eventRun_runs_due_events now s :
  sorted (tasks s) → Forall (λ t, eid t <= run_id s) (tasks s) → INT_MIN <= run_id s < INT_MAX →
  ∃ tr s', eventRun valid call (length (tasks s)) now s = Some (tr, s') ∧ sorted (tasks s') ∧
    tr `sublist_of` tasks s ∧ Forall (λ e, kle (when e) now = true) tr.
Proof using Hcall.
  intros Hs Hid Hr. unfold INT_MIN, INT_MAX in Hr. unfold eventRun.
  destruct (tasks s) as [|e ts] eqn:Et; [exists [], s; rewrite Et; split_and!; done|].
  destruct (klt now (when e)); [exists [], s; rewrite Et; split_and!; done || apply sublist_nil_l|].
  rewrite <- Et in *. rewrite i32_small by lia.
  assert (Hold : old_events (run_id s + 1) (tasks s) = tasks s).
  { unfold old_events. clear -Hid. induction Hid as [|t ts Ht _ IH]; [done|].
    rewrite filter_cons, decide_True by lia. by rewrite IH. }
  destruct (run_loop_ok (length (tasks s)) now 0
    (mkEvs (tasks s) (run_id s + 1) (last_event_ran s) (locks s))) as (tr & s' & E & I1 & I2 & I3 & I4);
    [done|cbn [run_id tasks]; by rewrite Hold|].
  exists tr, s'. cbn [run_id tasks] in I3. rewrite Hold in I3. done.
Qed.
End run.

(** C27: adding an event to a sorted queue keeps it sorted and puts the event
    behind every event of the same or an earlier time and in front of all later
    ones: events of equal time run in the order they were added. *)
Theorem eventAdd_sorted_fifo {K} `{HeapKey K} kplus now nm f a (d : K) w s :
  sorted (tasks s) →
  let s' := eventAdd kplus now nm f a d w s in
  sorted (tasks s') ∧
  ∃ b e c, tasks s = b ++ c ∧ tasks s' = b ++ e :: c ∧ when e = kplus now d ∧ func e = f ∧ arg e = a ∧
    Forall (λ t, kle (when t) (when e) = true) b ∧ Forall (λ t, klt (when e) (when t) = true) c.
Proof.
  intros Hs s'. split; [by apply insert_event_sorted|].
  destruct (insert_event_split (mkEv f a nm (kplus now d) w (run_id s)) (tasks s) Hs)
    as (b & c & E1 & E2 & Hb & Hc).
  by exists b, (mkEv f a nm (kplus now d) w (run_id s)), c.
Qed.

(** ** A queue with two events *)

Definition ex_queue : ev_state Z := mkEvs [mkEv 1 0 0 5 0 0; mkEv 2 0 0 9 1 0] 0 0 ∅.

Lemma ex_queue_sorted : sorted (tasks ex_queue).
Proof. repeat constructor. Qed.

(** Handler 1 adds an event that is already due. *)
Definition ex_call (f a : Z) (s : ev_state Z) : ev_state Z :=
  if f =? 1 then eventAdd Z.add 10 0 3 0 0 0 s else s.

Lemma ex_call_ok f a s : queue_steps Z.add s (ex_call f a s).
Proof. unfold ex_call. destruct (f =? 1); [eapply qs_add|]; apply qs_refl. Qed.

Lemma eventRun_runs_due_events_witness :
  ∃ tr s', eventRun (λ _, true) ex_call 2 10 ex_queue = Some (tr, s') ∧ sorted (tasks s') ∧
    tr `sublist_of` tasks ex_queue ∧ Forall (λ e, kle (when e) 10 = true) tr.
Proof.
  apply (eventRun_runs_due_events Z.add (λ _, true) ex_call ex_call_ok 10 ex_queue).
  - exact ex_queue_sorted.
  - repeat constructor; cbn; lia.
  - done.
Defined.

Lemma eventAdd_sorted_fifo_witness :
  let s' := eventAdd Z.add 5 0 7 0 0 0 ex_queue in
  sorted (tasks s') ∧
  ∃ b e c, tasks ex_queue = b ++ c ∧ tasks s' = b ++ e :: c ∧ when e = Z.add 5 0 ∧ func e = 7 ∧ arg e = 0 ∧
    Forall (λ t, kle (when t) (when e) = true) b ∧ Forall (λ t, klt (when e) (when t) = true) c.
Proof. apply (eventAdd_sorted_fifo Z.add 5 0 7 0 0 0 ex_queue). exact ex_queue_sorted. Defined.
