(* ===== verification/CacheDigest.v ===== *)
(** Cache digests (src/CacheDigest.c): a Bloom filter over 16-byte cache keys.

    The mask is the list of its bytes; [None] is a failed assertion, an access
    outside the mask or the key, or a remainder by zero. Integers are kept at
    the width of the C types. *)
From S2P Require Import Prelude.

Module CacheDigest.

Record CacheDigest := mkCd {
  mask : list Z; mask_size : Z; capacity : Z; bits_per_entry : Z; count : Z; del_count : Z }.

(** [(size_t) (cap * bpe + 7) / 8]. *)
Definition cacheDigestCalcMaskSize (cap bpe : Z) : Z := u64 (i32 (cap * bpe + 7)) / 8.

Definition cacheDigestInit (cd : CacheDigest) (cap bpe : Z) : option CacheDigest :=
  let sz := cacheDigestCalcMaskSize cap bpe in
  if (0 <? cap) && (0 <? bpe) && (0 <? sz)
  then Some (mkCd (replicate (Z.to_nat (i32 sz)) 0) (i32 sz) cap bpe (count cd) (del_count cd))
  else None.

(** [memAllocate] hands out a zeroed structure. *)
Definition cacheDigestCreate (cap bpe : Z) : option CacheDigest :=
  cacheDigestInit (mkCd [] 0 0 0 0 0) cap bpe.

Definition cacheDigestClone (cd : CacheDigest) : option CacheDigest :=
  c ← cacheDigestCreate (capacity cd) (bits_per_entry cd);
  if mask_size cd =? mask_size c then
    if decide (zlen (mask cd) = mask_size cd)
    then Some (mkCd (mask cd) (mask_size c) (capacity c) (bits_per_entry c) (count cd) (del_count cd))
    else None
  else None.

Definition cacheDigestClear (cd : CacheDigest) : CacheDigest :=
  mkCd (replicate (Z.to_nat (mask_size cd)) 0) (mask_size cd) (capacity cd) (bits_per_entry cd) 0 0.

Definition cacheDigestChangeCap (cd : CacheDigest) (new_cap : Z) : option CacheDigest :=
  cacheDigestInit cd new_cap (bits_per_entry cd).

(** [CBIT_TEST] and [CBIT_SET]. *)
Definition cbit_bit (bit : Z) : Z := Z.shiftl 1 (bit mod 8).
Definition CBIT_TEST (m : list Z) (bit : Z) : option bool :=
  b ← m.[Z.shiftr bit 3]; Some (negb (Z.land b (cbit_bit bit) =? 0)).
Definition CBIT_SET (m : list Z) (bit : Z) : option (list Z) :=
  b ← m.[Z.shiftr bit 3]; zset m (Z.shiftr bit 3) (Z.lor b (cbit_bit bit)).

(** [htonl(tmp_keys[i])] on a little-endian host: the four key bytes, the
    first one most significant. *)
Definition key_word (key : list Z) (i : Z) : option Z :=
  b0 ← key.[4 * i]; b1 ← key.[4 * i + 1]; b2 ← key.[4 * i + 2]; b3 ← key.[4 * i + 3];
  Some (16777216 * b0 + 65536 * b1 + 256 * b2 + b3).

Definition cacheDigestHashKey (cd : CacheDigest) (key : list Z) : option (list Z) :=
  let bit_count := u32 (mask_size cd * 8) in
  if bit_count =? 0 then None
  else
    w0 ← key_word key 0; w1 ← key_word key 1; w2 ← key_word key 2; w3 ← key_word key 3;
    Some [w0 mod bit_count; w1 mod bit_count; w2 mod bit_count; w3 mod bit_count].

(** The conjunction stops at the first clear bit. *)
Fixpoint test_bits (m : list Z) (hs : list Z) : option bool :=
  match hs with
  | [] => Some true
  | h :: hs' => t ← CBIT_TEST m h; if (t : bool) then test_bits m hs' else Some false
  end.

Definition cacheDigestTest (cd : CacheDigest) (key : list Z) : option bool :=
  hs ← cacheDigestHashKey cd key; test_bits (mask cd) hs.

(** The bits that were off are turned on and counted. *)
Fixpoint set_bits (m : list Z) (hs : list Z) : option (list Z * Z) :=
  match hs with
  | [] => Some (m, 0)
  | h :: hs' =>
      t ← CBIT_TEST m h;
      if (t : bool) then set_bits m hs'
      else m1 ← CBIT_SET m h; '(m2, n) ← set_bits m1 hs'; Some (m2, n + 1)
  end.

(** The digest and the number of transitions reported to the statistics. *)
Definition cacheDigestAdd (cd : CacheDigest) (key : list Z) : option (CacheDigest * Z) :=
  hs ← cacheDigestHashKey cd key;
  '(m, n) ← set_bits (mask cd) hs;
  Some (mkCd m (mask_size cd) (capacity cd) (bits_per_entry cd) (i32 (count cd + 1)) (del_count cd), n).

Definition cacheDigestDel (cd : CacheDigest) (key : list Z) : CacheDigest :=
  mkCd (mask cd) (mask_size cd) (capacity cd) (bits_per_entry cd) (count cd) (i32 (del_count cd + 1)).

(** [cacheDigestStats]: the scan from the last bit down; [pos] bits are left. *)
Record scan_state := mkScan { on_count : Z; seq_len_sum : Z; seq_count : Z; cur_len : Z; cur_type : bool }.

Fixpoint stats_loop (pos : nat) (m : list Z) (st : scan_state) : option scan_state :=
  match pos with
  | O => Some st
  | S p =>
      b ← CBIT_TEST m (Z.of_nat p);
      let on := if (b : bool) then i32 (on_count st + 1) else on_count st in
      let st1 := if negb (eqb b (cur_type st)) || (Z.of_nat p =? 0)
                 then mkScan on (i32 (seq_len_sum st + cur_len st)) (i32 (seq_count st + 1)) 1 b
                 else mkScan on (seq_len_sum st) (seq_count st) (i32 (cur_len st + 1)) (cur_type st) in
      stats_loop p m st1
  end.

Definition cacheDigestStats (cd : CacheDigest) : option (Z * Z * Z * Z) :=
  let n := i32 (mask_size cd * 8) in
  st ← stats_loop (Z.to_nat n) (mask cd) (mkScan 0 0 0 0 true);
  Some (n, on_count st, seq_len_sum st, seq_count st).

Record cd_guess_stats := mkGuess { true_hits : Z; true_misses : Z; false_hits : Z; false_misses : Z }.

Definition cacheDigestGuessStatsUpdate (s : cd_guess_stats) (real_hit guess_hit : bool) : cd_guess_stats :=
  if real_hit then
    if guess_hit then mkGuess (i32 (true_hits s + 1)) (true_misses s) (false_hits s) (false_misses s)
    else mkGuess (true_hits s) (true_misses s) (false_hits s) (i32 (false_misses s + 1))
  else
    if guess_hit then mkGuess (true_hits s) (true_misses s) (i32 (false_hits s + 1)) (false_misses s)
    else mkGuess (true_hits s) (i32 (true_misses s + 1)) (false_hits s) (false_misses s).

End CacheDigest.
Import CacheDigest.

(** ** The bits of a mask *)

Definition cd_bit (m : list Z) (bit : Z) : bool := Z.testbit (default 0 m.[bit / 8]) (bit mod 8).

Lemma shiftr3 n : Z.shiftr n 3 = n / 8.
Proof. by rewrite Z.shiftr_div_pow2. Qed.

Lemma testbit_cbit n k : 0 <= k → Z.testbit (cbit_bit n) k = (k =? n mod 8).
Proof. intros Hk. apply testbit_one_bit; [|done]. by apply Z.mod_pos_bound. Qed.

Lemma bin_range (m : list Z) h : 0 <= h < 8 * zlen m → 0 <= h / 8 < zlen m.
Proof. intros. split; [apply Z.div_pos; lia|apply Z.div_lt_upper_bound; lia]. Qed.

Lemma CBIT_TEST_ok m h : 0 <= h < 8 * zlen m → CBIT_TEST m h = Some (cd_bit m h).
Proof.
  intros Hh. unfold CBIT_TEST, cd_bit. rewrite shiftr3.
  destruct (zget_is_Some m (h / 8)) as [w ->]; [by apply bin_range|].
  cbn [mbind option_bind default from_option]. unfold cbit_bit.
  rewrite land_one_bit; [done|]. by apply Z.mod_pos_bound.
Qed.

Lemma CBIT_SET_ok m h : 0 <= h < 8 * zlen m →
  ∃ m', CBIT_SET m h = Some m' ∧ length m' = length m ∧
        ∀ k, 0 <= k → cd_bit m' k = (k =? h) || cd_bit m k.
Proof.
  intros Hh. unfold CBIT_SET. rewrite shiftr3.
  destruct (zget_is_Some m (h / 8)) as [w Hw]; [by apply bin_range|]. rewrite Hw. cbn [mbind option_bind].
  pose proof (zset_Some m (h / 8) (Z.lor w (cbit_bit h)) ltac:(by apply bin_range)) as Hz. rewrite Hz.
  eexists. split; [done|]. split; [by eapply zset_length|]. intros k Hk. unfold cd_bit.
  rewrite (zget_zset _ _ _ _ _ Hz). pose proof (Z.div_mod h 8 ltac:(lia)). pose proof (Z.div_mod k 8 ltac:(lia)).
  destruct (decide (k / 8 = h / 8)) as [E|E].
  - rewrite E, Hw. cbn [default from_option id]. rewrite Z.lor_spec, testbit_cbit by (apply Z.mod_pos_bound; lia).
    rewrite orb_comm. f_equal. destruct (Z.eqb_spec (k mod 8) (h mod 8)), (Z.eqb_spec k h); try lia; try done.
  - destruct (Z.eqb_spec k h) as [->|]; done.
Qed.

Lemma test_bits_ok m hs : Forall (λ h, 0 <= h < 8 * zlen m) hs →
  test_bits m hs = Some (forallb (cd_bit m) hs).
Proof.
  induction 1 as [|h hs Hh _ IH]; cbn [test_bits forallb]; [done|].
  rewrite CBIT_TEST_ok by done. cbn [mbind option_bind]. by destruct (cd_bit m h).
Qed.

Lemma set_bits_ok hs : ∀ m, Forall (λ h, 0 <= h < 8 * zlen m) hs →
  ∃ m' n, set_bits m hs = Some (m', n) ∧ length m' = length m ∧
          ∀ k, 0 <= k → cd_bit m' k = bool_decide (k ∈ hs) || cd_bit m k.
Proof.
  induction hs as [|h hs IH]; intros m Hhs; cbn [set_bits].
  { exists m, 0. split_and!; try done. }
  apply Forall_cons in Hhs as [Hh Hhs]. rewrite CBIT_TEST_ok by done. cbn [mbind option_bind].
  destruct (cd_bit m h) eqn:Eb.
  - destruct (IH m Hhs) as (m' & n & -> & Hl & Hb). exists m', n. split_and!; try done. intros k Hk.
    rewrite Hb by done. destruct (decide (k = h)) as [->|Hne].
    + rewrite Eb, !orb_true_r. done.
    + f_equal. apply bool_decide_ext. rewrite elem_of_cons. tauto.
  - destruct (CBIT_SET_ok m h Hh) as (m1 & -> & Hl1 & Hb1). cbn [mbind option_bind].
    destruct (IH m1) as (m2 & n & -> & Hl2 & Hb2); [by rewrite Hl1|]. cbn [mbind option_bind].
    exists m2, (n + 1). split_and!; [done|congruence|]. intros k Hk. rewrite Hb2, Hb1 by done.
    destruct (Z.eqb_spec k h) as [->|Hne]; cbn [orb].
    + rewrite orb_true_r, bool_decide_eq_true_2 by (by left). done.
    + f_equal. apply bool_decide_ext. rewrite elem_of_cons. tauto.
Qed.

(** ** Digests *)

Definition cd_ok (cd : CacheDigest) : Prop :=
  zlen (mask cd) = mask_size cd ∧ 0 < mask_size cd <= 268435455.

Definition key_ok (key : list Z) : Prop := length key = 16%nat.

(** The four bit positions of a key in a digest of the given size. *)
Definition positions (sz : Z) (key : list Z) : list Z :=
  (λ i, default 0 (key_word key i) mod (8 * sz)) <$> [0; 1; 2; 3].

Lemma key_word_ok key i : key_ok key → 0 <= i < 4 → is_Some (key_word key i).
Proof.
  intros Hk Hi. unfold key_ok in Hk. unfold key_word.
  destruct (zget_is_Some key (4 * i)) as [b0 ->]; [lia|]. destruct (zget_is_Some key (4 * i + 1)) as [b1 ->]; [lia|].
  destruct (zget_is_Some key (4 * i + 2)) as [b2 ->]; [lia|]. destruct (zget_is_Some key (4 * i + 3)) as [b3 ->]; [lia|].
  done.
Qed.

Lemma HashKey_ok cd key : cd_ok cd → key_ok key →
  cacheDigestHashKey cd key = Some (positions (mask_size cd) key) ∧
  Forall (λ h, 0 <= h < 8 * zlen (mask cd)) (positions (mask_size cd) key).
Proof.
  intros [Hl Hs] Hk. unfold cacheDigestHashKey, positions. rewrite u32_small by lia.
  destruct (Z.eqb_spec (mask_size cd * 8) 0); [lia|].
  destruct (key_word_ok key 0 Hk ltac:(lia)) as [w0 E0]. destruct (key_word_ok key 1 Hk ltac:(lia)) as [w1 E1].
  destruct (key_word_ok key 2 Hk ltac:(lia)) as [w2 E2]. destruct (key_word_ok key 3 Hk ltac:(lia)) as [w3 E3].
  rewrite E0, E1, E2, E3. cbn [mbind option_bind fmap list_fmap]. rewrite E0, E1, E2, E3, Hl.
  rewrite (Z.mul_comm (mask_size cd)). split; [done|].
  repeat constructor; cbn [default from_option id]; apply Z.mod_pos_bound; lia.
Qed.

Lemma Add_ok cd key : cd_ok cd → key_ok key →
  ∃ cd' n, cacheDigestAdd cd key = Some (cd', n) ∧ cd_ok cd' ∧ mask_size cd' = mask_size cd ∧
    count cd' = i32 (count cd + 1) ∧
    (∀ k, 0 <= k → cd_bit (mask cd') k = bool_decide (k ∈ positions (mask_size cd) key) || cd_bit (mask cd) k).
Proof.
  intros Ho Hk. destruct (HashKey_ok cd key Ho Hk) as [E Hp]. destruct Ho as [Hl Hs].
  unfold cacheDigestAdd. rewrite E. cbn [mbind option_bind].
  destruct (set_bits_ok _ _ Hp) as (m & n & -> & Hlm & Hb). cbn [mbind option_bind].
  eexists _, n. split; [done|]. split; [|done]. split; cbn; [by rewrite Hlm|done].
Qed.

Definition add_all_keys (cd : option CacheDigest) (keys : list (list Z)) : option CacheDigest :=
  foldl (λ oc k, c ← oc; '(c', _) ← cacheDigestAdd c k; Some c') cd keys.

Lemma add_all_keys_ok keys : Forall key_ok keys → ∀ cd, cd_ok cd → i32 (count cd) = count cd →
  ∃ cd', add_all_keys (Some cd) keys = Some cd' ∧ cd_ok cd' ∧ mask_size cd' = mask_size cd ∧
    count cd' = i32 (count cd + zlen keys) ∧
    (∀ k, 0 <= k → cd_bit (mask cd') k = existsb (λ key, bool_decide (k ∈ positions (mask_size cd) key)) keys
                                         || cd_bit (mask cd) k).
Proof.
  induction 1 as [|key keys Hk _ IH]; intros cd Ho Hr.
  { exists cd. split_and!; try done. cbn. by rewrite Z.add_0_r. }
  unfold add_all_keys in *. cbn [foldl mbind option_bind].
  destruct (Add_ok cd key Ho Hk) as (c1 & n & -> & Ho1 & Hs1 & Hc1 & Hb1). cbn [mbind option_bind].
  destruct (IH c1 Ho1) as (c2 & -> & Ho2 & Hs2 & Hc2 & Hb2); [by rewrite Hc1, i32_idem|]. exists c2.
  split_and!; [done|done|congruence|rewrite Hc2, Hc1, i32_add_l; cbn [length]; f_equal; lia|].
  intros k Hk0. rewrite Hb2, Hb1, Hs1 by done. cbn [existsb].
  by rewrite orb_assoc, (orb_comm (bool_decide _)).
Qed.

Lemma cd_bit_zero (n : nat) k : cd_bit (replicate n 0) k = false.
Proof.
  unfold cd_bit. destruct (zget (replicate n 0) (k / 8)) as [w|] eqn:E; [|apply Z.bits_0].
  pose proof (zget_Some_range _ _ _ E) as R. rewrite length_replicate in R.
  rewrite zget_replicate in E by lia. injection E as <-. apply Z.bits_0.
Qed.

(** C29: after any keys have been added to an empty digest, a key tests positive
    exactly when each of its four bits is a bit of some added key; so every
    added key does (no false negatives), and an empty digest reports none. The count
    is the number of additions at the width of [int]. *)
Theorem digest_membership cd keys key :
  cd_ok cd → Forall key_ok keys → key_ok key →
  ∃ cd' b, add_all_keys (Some (cacheDigestClear cd)) keys = Some cd' ∧ count cd' = i32 (zlen keys) ∧
    cacheDigestTest cd' key = Some b ∧
    (b = true ↔ ∀ h, h ∈ positions (mask_size cd) key → ∃ k, k ∈ keys ∧ h ∈ positions (mask_size cd) k) ∧
    (key ∈ keys → b = true).
Proof.
  intros [Hl Hs] Hks Hk.
  assert (Ho0 : cd_ok (cacheDigestClear cd)) by (split; cbn; [rewrite length_replicate; lia|done]).
  destruct (add_all_keys_ok keys Hks _ Ho0 eq_refl) as (cd' & E & Ho' & Hs' & Hc' & Hb').
  destruct (HashKey_ok cd' key Ho' Hk) as [Eh Hp].
  exists cd', (forallb (cd_bit (mask cd')) (positions (mask_size cd) key)).
  cbn [cacheDigestClear mask_size count mask] in *.
  assert (Hiff : forallb (cd_bit (mask cd')) (positions (mask_size cd) key) = true ↔
    ∀ h, h ∈ positions (mask_size cd) key → ∃ k, k ∈ keys ∧ h ∈ positions (mask_size cd) k).
  { rewrite Hs' in *. rewrite forallb_forall. setoid_rewrite <- list_elem_of_In.
    rewrite Forall_forall in Hp. split; intros H h Hh; specialize (H h Hh); pose proof (Hp h Hh) as [Hh0 _].
    - rewrite Hb', cd_bit_zero, orb_false_r, existsb_exists in H by done.
      destruct H as (k & Hin & Hbd). exists k. rewrite list_elem_of_In. split; [done|].
      by apply bool_decide_eq_true in Hbd.
    - rewrite Hb', cd_bit_zero, orb_false_r, existsb_exists by done. destruct H as (k & Hin & Hbd).
      exists k. rewrite <- list_elem_of_In. split; [done|]. by apply bool_decide_eq_true. }
  split_and!; [done|by rewrite Hc'| |done|].
  - unfold cacheDigestTest. rewrite Eh. cbn [mbind option_bind]. rewrite test_bits_ok by done. by rewrite Hs'.
  - intros Hin. apply Hiff. intros h Hh. by exists key.
Qed.

Definition ex_digest : CacheDigest := mkCd [1; 2; 3] 3 4 5 0 0.

Lemma digest_membership_witness :
  ∃ cd' b, add_all_keys (Some (cacheDigestClear ex_digest)) [seqZ 0 16] = Some cd' ∧ count cd' = 1 ∧
    cacheDigestTest cd' (seqZ 1 16) = Some b ∧
    (b = true ↔ ∀ h, h ∈ positions 3 (seqZ 1 16) → ∃ k, k ∈ [seqZ 0 16] ∧ h ∈ positions 3 k) ∧
    (seqZ 1 16 ∈ [seqZ 0 16] → b = true).
Proof.
  apply (digest_membership ex_digest [seqZ 0 16] (seqZ 1 16)).
  - by split.
  - by repeat constructor.
  - reflexivity.
Defined.
