(* ===== verification/HttpRange.v ===== *)
(** Byte ranges: the Range header (src/HttpHdrRange.c), the Content-Range header
    (src/HttpHdrContRange.c) and the two helpers they parse with,
    [httpHeaderParseSize] and [strListGetItem] (src/HttpHeaderTools.c).

    [squid_off_t] is a signed 64-bit integer and -1 the absent part of a spec.
    A pointer into the header is the rest of its string from there on. The
    merging code is compiled out in the source (MERGING_BREAKS_NOTHING), so
    merging never happens. *)
From S2P Require Import Prelude CString.
Module HttpRange.

Definition range_spec_unknown : Z := -1.
Definition known_spec (s : Z) : bool := negb (s =? range_spec_unknown).
Definition size_min (a b : Z) : Z := if a <=? b then a else b.
Definition size_diff (a b : Z) : Z := if b <=? a then i64 (a - b) else 0.

Record HttpHdrRangeSpec := mkSpec { offset : Z; length_ : Z }.

Definition OFF_MAX : Z := 9223372036854775807.
Definition OFF_MIN : Z := -9223372036854775808.

(** [httpHeaderParseSize]: [strtoll] in base 10; [None] is a return of 0, for a
    string without digits or a number out of range. *)
Definition parse_digits (neg : bool) (s : list Z) : option Z :=
  match s with
  | c :: _ =>
      if isdigit c then
        let v := (if neg then -1 else 1) * digits_val 0 s in
        if (OFF_MIN <=? v) && (v <=? OFF_MAX) then Some v else None
      else None
  | [] => None
  end.
Definition httpHeaderParseSize (start : list Z) : option Z :=
  match skip_space start with
  | 45 :: s => parse_digits true s
  | 43 :: s => parse_digits false s
  | s => parse_digits false s
  end.

(** Signed decimal, as "%lld" prints it. *)
Definition print_off (n : Z) : list Z := if n <? 0 then 45 :: dec_digits (- n) else dec_digits n.

(** [httpHdrRangeSpecParseCreate(field, flen)]. [strchr] searches to the end of
    the string; when it finds nothing the comparison of the null pointer with
    the field is false. *)
Definition httpHdrRangeSpecParseCreate (field : list Z) (flen : Z) : option HttpHdrRangeSpec :=
  let check (sp : HttpHdrRangeSpec) :=
    if known_spec (length_ sp) && (length_ sp =? 0) then None else Some sp in
  if flen <? 2 then None
  else if bool_decide (head field = Some 45) then
    n ← httpHeaderParseSize (drop 1 field); check (mkSpec range_spec_unknown n)
  else
    match strchr field 45 with
    | None => None
    | Some p =>
        o ← httpHeaderParseSize field;
        if p + 1 <? flen then
          last_pos ← httpHeaderParseSize (drop (Z.to_nat (p + 1)) field);
          check (mkSpec o (size_diff (i64 (last_pos + 1)) o))
        else check (mkSpec o range_spec_unknown)
    end.

Definition httpHdrRangeSpecPackInto (spec : HttpHdrRangeSpec) : list Z :=
  if negb (known_spec (offset spec)) then 45 :: print_off (length_ spec)
  else if negb (known_spec (length_ spec)) then print_off (offset spec) ++ [45]
  else print_off (offset spec) ++ [45] ++ print_off (i64 (offset spec + length_ spec - 1)).

(** The canonized spec and the result; [None] is a failed assertion. *)
Definition httpHdrRangeSpecCanonize (spec : HttpHdrRangeSpec) (clen : Z)
  : option (HttpHdrRangeSpec * bool) :=
  let sp := if negb (known_spec (offset spec)) then mkSpec (size_diff clen (length_ spec)) (length_ spec)
            else if negb (known_spec (length_ spec)) then mkSpec (offset spec) (size_diff clen (offset spec))
            else spec in
  if known_spec (length_ sp) && known_spec (offset sp) then
    let len := size_min (size_diff clen (offset sp)) (length_ sp) in
    Some (mkSpec (offset sp) len, 0 <? len)
  else None.

(** [strspn] and [strcspn]. *)
Fixpoint span_in (set : list Z) (s : list Z) : list Z * list Z :=
  match s with
  | c :: s' => if bool_decide (c ∈ set) then let '(a, r) := span_in set s' in (c :: a, r) else ([], s)
  | [] => ([], [])
  end.
Fixpoint span_notin (set : list Z) (s : list Z) : list Z * list Z :=
  match s with
  | c :: s' => if bool_decide (c ∈ set) then ([], s) else let '(a, r) := span_notin set s' in (c :: a, r)
  | [] => ([], [])
  end.

(** The [do ... while] loop of [strListGetItem]: the bytes consumed and the rest. *)
Fixpoint scan_item (fuel : nat) (del : Z) (quoted : bool) (s : list Z) : option (list Z * list Z) :=
  let '(a, r) := span_notin (if quoted then [34; 92] else [34; del; 44]) s in
  match r with
  | [] => Some (a, [])
  | 34 :: r' =>
      match fuel with
      | O => None
      | S fuel' =>
          match r' with
          | [] => Some (a ++ [34], [])
          | _ => '(b, t) ← scan_item fuel' del (negb quoted) r'; Some (a ++ [34] ++ b, t)
          end
      end
  | c :: r' =>
      if quoted && (c =? 92) then
        match r' with
        | [] => Some (a ++ [c], [])
        | d :: r'' =>
            match fuel with
            | O => None
            | S fuel' =>
                match r'' with
                | [] => Some (a ++ [c; d], [])
                | _ => '(b, t) ← scan_item fuel' del quoted r''; Some (a ++ [c; d] ++ b, t)
                end
            end
        end
      else Some (a, r)
  end.

(** [rtrim]: the length without trailing blanks. *)
Fixpoint rtrim_rev (s : list Z) : list Z :=
  match s with c :: s' => if isspace c then rtrim_rev s' else s | [] => [] end.
Definition rtrim_len (s : list Z) : Z := zlen (rtrim_rev (rev s)).

(** [strListGetItem(str, del, &item, &ilen, &pos)] from a set [pos]: the item's
    start, its length and the new position; the result of the call is whether
    the length is positive. *)
Definition strListGetItem (del : Z) (pos : list Z) : option (list Z * Z * list Z) :=
  let item := (span_in [32; del; 44; 9; 13; 10] pos).2 in
  '(body, rest) ← scan_item (S (length item)) del false item;
  Some (item, rtrim_len body, rest).

(** The loop of [httpHdrRangeParseInit] over the items. *)
Fixpoint parse_items (fuel : nat) (pos : list Z) : option (list HttpHdrRangeSpec) :=
  '(item, ilen, rest) ← strListGetItem 44 pos;
  if 0 <? ilen then
    match fuel with
    | O => None
    | S fuel' =>
        specs ← parse_items fuel' rest;
        Some (match httpHdrRangeSpecParseCreate item ilen with
              | Some sp => sp :: specs
              | None => specs
              end)
    end
  else Some [].

(** [strncasecmp(a, b, |b|)] against a lower-case constant. *)
Definition case_prefix (s p : list Z) : bool := bool_decide (tolower <$> take (length p) s = p).

Definition s_bytes : list Z := bytes_of "bytes=".

(** The specs in order, and whether there is one. *)
Definition httpHdrRangeParseInit (str : list Z) : option (list HttpHdrRangeSpec * bool) :=
  if case_prefix str s_bytes then
    specs ← parse_items (length str) (drop 6 str);
    Some (specs, negb (bool_decide (specs = [])))
  else Some ([], false).

(** A range without a valid spec is destroyed. *)
Definition httpHdrRangeParseCreate (str : list Z) : option (option (list HttpHdrRangeSpec)) :=
  '(specs, ok) ← httpHdrRangeParseInit str;
  Some (if (ok : bool) then Some specs else None).

(** [httpHdrRangeGetSpec] advances [pos] before it looks, so the test for the
    first spec never holds and every spec gets a comma. *)
Definition httpHdrRangePackInto (range : list HttpHdrRangeSpec) : list Z :=
  concat ((λ sp, 44 :: httpHdrRangeSpecPackInto sp) <$> range).

Definition httpHdrRangeDup (range : list HttpHdrRangeSpec) : list HttpHdrRangeSpec :=
  (λ sp, mkSpec (offset sp) (length_ sp)) <$> range.

(** The first loop of [httpHdrRangeCanonize]: the good specs. *)
Fixpoint canonize_specs (range : list HttpHdrRangeSpec) (clen : Z) : option (list HttpHdrRangeSpec) :=
  match range with
  | [] => Some []
  | sp :: range' =>
      '(sp', good) ← httpHdrRangeSpecCanonize sp clen;
      goods ← canonize_specs range' clen;
      Some (if (good : bool) then sp' :: goods else goods)
  end.

Definition httpHdrRangeSpecMergeWith (recep donor : HttpHdrRangeSpec) : bool := false.

(** The merge loop: [specs] is the stack of pushed specs, last one first. A
    merge pops the stack and looks at the same spec again. *)
Fixpoint merge_loop (fuel : nat) (specs goods : list HttpHdrRangeSpec) : option (list HttpHdrRangeSpec) :=
  match goods with
  | [] => Some (rev specs)
  | sp :: goods' =>
      match fuel with
      | O => None
      | S fuel' =>
          match specs with
          | prev :: specs' =>
              if httpHdrRangeSpecMergeWith sp prev then merge_loop fuel' specs' goods
              else merge_loop fuel' (sp :: specs) goods'
          | [] => merge_loop fuel' (sp :: specs) goods'
          end
      end
  end.

Definition httpHdrRangeCanonize (range : list HttpHdrRangeSpec) (clen : Z)
  : option (list HttpHdrRangeSpec * bool) :=
  if clen <? 0 then None
  else
    goods ← canonize_specs range clen;
    specs ← merge_loop (2 * length goods) [] goods;
    Some (specs, 0 <? zlen specs).

(** [httpHdrRangeIsComplex]: the specs are not in strong order. *)
Fixpoint complex_from (o : Z) (range : list HttpHdrRangeSpec) : bool :=
  match range with
  | [] => false
  | sp :: range' => if offset sp <? o then true else complex_from (i64 (offset sp + length_ sp)) range'
  end.
Definition httpHdrRangeIsComplex (range : list HttpHdrRangeSpec) : bool := complex_from 0 range.

Fixpoint will_be_complex_from (o : Z) (range : list HttpHdrRangeSpec) : bool :=
  match range with
  | [] => false
  | sp :: range' =>
      if negb (known_spec (offset sp)) then will_be_complex_from o range'
      else if offset sp <? o then true
      else will_be_complex_from
             (if known_spec (length_ sp) then i64 (offset sp + length_ sp) else offset sp) range'
  end.
Definition httpHdrRangeWillBeComplex (range : list HttpHdrRangeSpec) : bool := will_be_complex_from 0 range.

Definition httpHdrRangeFirstOffset (range : list HttpHdrRangeSpec) : Z :=
  foldl (λ o sp, if (offset sp <? o) || negb (known_spec o) then offset sp else o) range_spec_unknown range.

Fixpoint lowest_offset_from (o size : Z) (range : list HttpHdrRangeSpec) : Z :=
  match range with
  | [] => if known_spec o then o else 0
  | sp :: range' =>
      if negb (known_spec (offset sp)) then
        if (size <? length_ sp) || negb (known_spec (length_ sp)) then 0
        else
          let current := i64 (size - length_ sp) in
          lowest_offset_from (if (current <? o) || negb (known_spec o) then current else o) size range'
      else
        lowest_offset_from
          (if (offset sp <? o) || negb (known_spec o) then offset sp else o) size range'
  end.
Definition httpHdrRangeLowestOffset (range : list HttpHdrRangeSpec) (size : Z) : Z :=
  lowest_offset_from range_spec_unknown size range.

(** [limit] is [Config.rangeOffsetLimit]; [None] a request without ranges. *)
Definition httpHdrRangeOffsetLimit (limit : Z) (range : option (list HttpHdrRangeSpec)) : bool :=
  match range with
  | None => false
  | Some r =>
      if limit =? 0 then true
      else if limit =? -1 then false
      else if httpHdrRangeFirstOffset r <=? limit then false
      else true
  end.

(** ** Content-Range *)

Record HttpHdrContRange := mkCont { spec : HttpHdrRangeSpec; elength : Z }.

Definition httpHdrRangeRespSpecParseInit (field : list Z) (flen : Z) : option HttpHdrRangeSpec :=
  if flen <? 2 then None
  else if bool_decide (head field = Some 42) then Some (mkSpec range_spec_unknown range_spec_unknown)
  else
    match strchr field 45 with
    | None => None
    | Some p =>
        if flen <=? p then None
        else
          o ← httpHeaderParseSize field;
          len ← (if p + 1 <? flen then
                   last_pos ← httpHeaderParseSize (drop (Z.to_nat (p + 1)) field);
                   Some (size_diff (i64 (last_pos + 1)) o)
                 else Some range_spec_unknown);
          if known_spec len && (len =? 0) then None else Some (mkSpec o len)
    end.

Definition httpHdrRangeRespSpecPackInto (sp : HttpHdrRangeSpec) : list Z :=
  if negb (known_spec (offset sp)) || negb (known_spec (length_ sp)) then [42]
  else bytes_of "bytes " ++ print_off (offset sp) ++ [45] ++ print_off (i64 (offset sp + length_ sp - 1)).

Definition httpHdrContRangeCreate : HttpHdrContRange :=
  mkCont (mkSpec range_spec_unknown range_spec_unknown) range_spec_unknown.

Definition httpHdrContRangeParseInit (str : list Z) : option HttpHdrContRange :=
  if case_prefix str (bytes_of "bytes ") then
    let s := drop 6 str in
    match strchr s 47 with
    | None => None
    | Some p =>
        sp ← (if bool_decide (head s = Some 42) then Some (mkSpec range_spec_unknown range_spec_unknown)
              else httpHdrRangeRespSpecParseInit s p);
        let q := drop (Z.to_nat (p + 1)) s in
        e ← (if bool_decide (head q = Some 42) then Some range_spec_unknown else httpHeaderParseSize q);
        Some (mkCont sp e)
    end
  else None.

Definition httpHdrContRangePackInto (r : HttpHdrContRange) : list Z :=
  httpHdrRangeRespSpecPackInto (spec r) ++
  (if negb (known_spec (elength r)) then [47; 42] else 47 :: print_off (elength r)).

Definition httpHdrContRangeDup (r : HttpHdrContRange) : HttpHdrContRange := mkCont (spec r) (elength r).

Definition httpHdrContRangeSet (sp : HttpHdrRangeSpec) (ent_len : Z) : option HttpHdrContRange :=
  if 0 <=? ent_len then Some (mkCont sp ent_len) else None.

End HttpRange.

(** Properties of the range headers: parsing what was printed, and what
    canonization keeps. *)

Import HttpRange.

(** ** Numbers *)

Lemma digits_cons n : 0 <= n → ∃ c r, dec_digits n = c :: r ∧ isdigit c = true ∧
  Forall (λ c, isdigit c = true) r.
Proof.
  intros Hn. destruct (dec_digits_digits n Hn) as [Hd Hne]. destruct (dec_digits n) as [|c r]; [done|].
  apply Forall_cons in Hd as [? ?]. by exists c, r.
Qed.

(** [httpHeaderParseSize] on a string that starts with a digit. *)
Lemma ParseSize_digit c s : isdigit c = true → httpHeaderParseSize (c :: s) = parse_digits false (c :: s).
Proof.
  intros Hc. unfold httpHeaderParseSize. cbn [skip_space].
  assert (isspace c = false) as -> by (unfold isdigit, isspace in *; lia).
  destruct c as [|p|p]; [done| |done].
  repeat (destruct p as [p|p|]; try reflexivity; try (by cbn in Hc)).
Qed.

Lemma ParseSize_print n l : 0 <= n <= OFF_MAX → ends_number l →
  httpHeaderParseSize (print_off n ++ l) = Some n.
Proof.
  intros Hn Hl. unfold print_off. destruct (Z.ltb_spec n 0); [lia|].
  pose proof (digits_val_dec n l ltac:(lia)) as Hv. rewrite (digits_val_end n l) in Hv by done.
  destruct (digits_cons n ltac:(lia)) as (c & r & E & Hc & _). rewrite E in *. cbn [app] in *.
  rewrite ParseSize_digit by done. unfold parse_digits. rewrite Hc, Hv. cbv zeta. rewrite Z.mul_1_l.
  unfold OFF_MIN, OFF_MAX in *. destruct (Z.leb_spec (-9223372036854775808) n); [|lia].
  destruct (Z.leb_spec n 9223372036854775807); [done|lia].
Qed.

Lemma print_off_digits n : 0 <= n → Forall (λ c, isdigit c = true) (print_off n) ∧ print_off n ≠ [].
Proof. intros. unfold print_off. destruct (Z.ltb_spec n 0); [lia|]. by apply dec_digits_digits. Qed.

Lemma strchr_digits ds l : Forall (λ c, isdigit c = true) ds → strchr (ds ++ 45 :: l) 45 = Some (zlen ds).
Proof.
  induction 1 as [|c ds Hc _ IH]; cbn [app strchr length]; [done|].
  destruct (Z.eqb_spec c 45) as [->|]; [done|]. rewrite IH. cbn. f_equal. lia.
Qed.

(** ** Specs *)

(** The specs a request can carry: suffix, trailer and range. *)
Inductive spec_ok : HttpHdrRangeSpec → Prop :=
| ok_suffix n : 0 < n <= OFF_MAX → spec_ok (mkSpec range_spec_unknown n)
| ok_trailer o : 0 <= o <= OFF_MAX → spec_ok (mkSpec o range_spec_unknown)
| ok_range o n : 0 <= o → 0 < n → o + n <= OFF_MAX → spec_ok (mkSpec o n).

Lemma known_nonneg n : 0 <= n → known_spec n = true.
Proof. unfold known_spec, range_spec_unknown. intros. destruct (Z.eqb_spec n (-1)); [lia|done]. Qed.

Definition spec_chars (c : Z) : Prop := isdigit c = true ∨ c = 45.

Lemma pack_chars sp : spec_ok sp →
  Forall spec_chars (httpHdrRangeSpecPackInto sp) ∧ 2 <= zlen (httpHdrRangeSpecPackInto sp).
Proof.
  assert (Hd : ∀ n, 0 <= n → Forall spec_chars (print_off n) ∧ 1 <= zlen (print_off n)).
  { intros n Hn. destruct (print_off_digits n Hn) as [H1 H2]. split.
    - eapply Forall_impl; [exact H1|]. by left.
    - destruct (print_off n); [done|cbn; lia]. }
  intros [n Hn|o Ho|o n Ho Hn Hs]; unfold httpHdrRangeSpecPackInto; cbn [offset length_].
  - cbn [known_spec negb]. change (known_spec range_spec_unknown) with false. cbn [negb].
    destruct (Hd n ltac:(lia)). split; [constructor; [by right|done]|cbn [length]; lia].
  - rewrite known_nonneg by lia. cbn [negb]. change (known_spec range_spec_unknown) with false. cbn [negb].
    destruct (Hd o ltac:(lia)). rewrite length_app. cbn [length]. split; [|lia].
    apply Forall_app. split; [done|]. constructor; [by right|by apply Forall_nil].
  - rewrite !known_nonneg by lia. cbn [negb]. unfold OFF_MAX in *. rewrite i64_small by lia.
    destruct (Hd o ltac:(lia)), (Hd (o + n - 1) ltac:(lia)). rewrite !length_app. cbn [length]. split; [|lia].
    apply Forall_app. split; [done|]. constructor; [by right|done].
Qed.

Lemma drop_after (ds l : list Z) c : drop (Z.to_nat (zlen ds + 1)) (ds ++ c :: l) = l.
Proof.
  replace (Z.to_nat (zlen ds + 1)) with (length (ds ++ [c])) by (rewrite length_app; cbn; lia).
  replace (ds ++ c :: l) with ((ds ++ [c]) ++ l) by by rewrite <- app_assoc. apply drop_app_length.
Qed.

Lemma head_digit ds l : Forall (λ c, isdigit c = true) ds → ds ≠ [] →
  bool_decide (head (ds ++ l) = Some 45) = false.
Proof.
  intros Hd Hne. destruct ds as [|c ds]; [done|]. apply Forall_cons in Hd as [Hc _].
  apply bool_decide_eq_false_2. cbn. intros [= ->]. done.
Qed.

(** A printed spec parses back. *)
Lemma SpecParse_pack sp l : spec_ok sp → ends_number l →
  httpHdrRangeSpecParseCreate (httpHdrRangeSpecPackInto sp ++ l) (zlen (httpHdrRangeSpecPackInto sp)) = Some sp.
Proof.
  intros Hok Hl. destruct (pack_chars sp Hok) as [_ Hlen]. revert Hlen.
  destruct Hok as [n Hn|o Ho|o n Ho Hn Hs]; unfold httpHdrRangeSpecPackInto, httpHdrRangeSpecParseCreate;
    cbn [offset length_]; intros Hlen.
  - change (known_spec range_spec_unknown) with false in *. cbn [negb] in *.
    destruct (Z.ltb_spec (zlen (45 :: print_off n)) 2); [lia|].
    rewrite (bool_decide_eq_true_2 (head _ = _)) by done.
    assert (httpHeaderParseSize (drop 1 ((45 :: print_off n) ++ l)) = Some n) as ->
      by (apply ParseSize_print; [lia|done]). cbn [mbind option_bind length_].
    rewrite known_nonneg by lia. destruct (Z.eqb_spec n 0); [lia|done].
  - rewrite known_nonneg in * by lia. cbn [negb] in *. change (known_spec range_spec_unknown) with false in *.
    cbn [negb] in *. destruct (print_off_digits o ltac:(lia)) as [Hd Hne].
    destruct (Z.ltb_spec (zlen (print_off o ++ [45])) 2); [lia|]. rewrite <- app_assoc. cbn [app].
    rewrite head_digit, strchr_digits by done. rewrite ParseSize_print by (done || lia). cbn [mbind option_bind].
    rewrite length_app. cbn [length]. destruct (Z.ltb_spec (zlen (print_off o) + 1) (Z.of_nat (length (print_off o) + 1))); [lia|].
    done.
  - rewrite !known_nonneg in * by lia. cbn [negb] in *. unfold OFF_MAX in *.
    rewrite i64_small in * by lia. destruct (print_off_digits o ltac:(lia)) as [Hd Hne].
    destruct (print_off_digits (o + n - 1) ltac:(lia)) as [Hd2 Hne2].
    match goal with |- context [zlen ?x <? 2] => set (w := x) in *; destruct (Z.ltb_spec (zlen w) 2); [lia|] end.
    unfold w. rewrite <- app_assoc. cbn [app]. rewrite head_digit, strchr_digits by done.
    rewrite ParseSize_print by (done || unfold OFF_MAX; lia). cbn [mbind option_bind].
    assert (1 <= zlen (print_off (o + n - 1))) by (destruct (print_off (o + n - 1)); [done|cbn; lia]).
    rewrite !length_app. cbn [length]. match goal with |- context [?x <? ?y] => destruct (Z.ltb_spec x y); [|lia] end.
    rewrite drop_after, ParseSize_print by (done || unfold OFF_MAX; lia). cbn [mbind option_bind length_].
    unfold size_diff. rewrite !i64_small by lia. destruct (Z.leb_spec o (o + n - 1 + 1)); [|lia].
    replace (o + n - 1 + 1 - o) with n by lia. rewrite known_nonneg by lia. destruct (Z.eqb_spec n 0); [lia|done].
Qed.

(** ** Lists of specs *)

Lemma spec_char_neq c : spec_chars c → c ≠ 34 ∧ c ≠ 44 ∧ isspace c = false ∧ c ≠ 92.
Proof. unfold spec_chars, isdigit, isspace. intros [H| ->]; [|done]. lia. Qed.

Lemma span_notin_app w l : Forall spec_chars w →
  match l with [] => True | c :: _ => c = 44 end →
  span_notin [34; 44; 44] (w ++ l) = (w, l).
Proof.
  intros Hw Hl. induction Hw as [|c w Hc _ IH]; cbn [app].
  - destruct l as [|d l]; [done|]. subst d. cbn [span_notin].
    by rewrite bool_decide_eq_true_2 by (right; left).
  - apply spec_char_neq in Hc as (H1 & H2 & _ & _). cbn [span_notin].
    rewrite bool_decide_eq_false_2 by (rewrite !elem_of_cons, elem_of_nil; tauto). by rewrite IH.
Qed.

Lemma rtrim_len_id w : Forall spec_chars w → rtrim_len w = zlen w.
Proof.
  intros Hw. unfold rtrim_len. rewrite <- (length_rev w).
  assert (Hr : Forall spec_chars (rev w)) by by apply Forall_rev.
  destruct (rev w) as [|c r]; [done|]. apply Forall_cons in Hr as [Hc _].
  apply spec_char_neq in Hc as (_ & _ & Hs & _). cbn [rtrim_rev]. by rewrite Hs.
Qed.

(** One item of a list, its start already skipped to, and after a comma. *)
Lemma skip_to_item w l : Forall spec_chars w → w ≠ [] →
  (span_in [32; 44; 44; 9; 13; 10] (w ++ l)).2 = w ++ l.
Proof.
  intros Hw Hne. destruct w as [|c w]; [done|]. apply Forall_cons in Hw as [Hc _]. cbn [app span_in].
  rewrite bool_decide_eq_false_2; [done|].
  rewrite !elem_of_cons, elem_of_nil. unfold spec_chars, isdigit in Hc. lia.
Qed.

Lemma GetItem_item w l pos : Forall spec_chars w → w ≠ [] →
  match l with [] => True | c :: _ => c = 44 end →
  (span_in [32; 44; 44; 9; 13; 10] pos).2 = w ++ l →
  strListGetItem 44 pos = Some (w ++ l, zlen w, l).
Proof.
  intros Hw Hne Hl Hpos. unfold strListGetItem. rewrite Hpos. cbn [scan_item].
  rewrite span_notin_app by done.
  destruct l as [|d l]; cbn [mbind option_bind]; [by rewrite rtrim_len_id|]. subst d.
  cbn [andb mbind option_bind]. by rewrite rtrim_len_id.
Qed.

Lemma GetItem_pack w l : Forall spec_chars w → w ≠ [] →
  match l with [] => True | c :: _ => c = 44 end →
  strListGetItem 44 (44 :: w ++ l) = Some (w ++ l, zlen w, l).
Proof.
  intros Hw Hne Hl. apply GetItem_item; [done..|]. cbn [span_in].
  rewrite bool_decide_eq_true_2 by (right; left). pose proof (skip_to_item w l Hw Hne) as E.
  destruct (span_in _ (w ++ l)). exact E.
Qed.

Lemma GetItem_end : strListGetItem 44 [] = Some ([], 0, []).
Proof. reflexivity. Qed.

Lemma PackInto_cons sp sps :
  httpHdrRangePackInto (sp :: sps) = 44 :: httpHdrRangeSpecPackInto sp ++ httpHdrRangePackInto sps.
Proof. reflexivity. Qed.

Lemma parse_items_pack sps : Forall spec_ok sps → ∀ fuel, (length sps <= fuel)%nat →
  parse_items fuel (httpHdrRangePackInto sps) = Some sps.
Proof.
  induction 1 as [|sp sps Hok _ IH]; intros fuel Hf.
  { destruct fuel; cbn [parse_items]; change (httpHdrRangePackInto []) with (@nil Z); by rewrite GetItem_end. }
  cbn [length] in Hf. destruct fuel as [|fuel]; [lia|]. rewrite PackInto_cons. cbn [parse_items].
  destruct (pack_chars sp Hok) as [Hch Hlen].
  assert (Hrest : match httpHdrRangePackInto sps with [] => True | c :: _ => c = 44 end) by by destruct sps.
  rewrite GetItem_pack; [|done|intros E; rewrite E in Hlen; cbn in Hlen; lia|done].
  cbn [mbind option_bind]. destruct (Z.ltb_spec 0 (zlen (httpHdrRangeSpecPackInto sp))); [|lia].
  rewrite IH by lia. cbn [mbind option_bind]. rewrite SpecParse_pack; [done|done|].
  destruct sps; [done|]. by rewrite PackInto_cons.
Qed.

Lemma length_PackInto sps : (length sps <= length (httpHdrRangePackInto sps))%nat.
Proof.
  induction sps as [|sp sps IH]; [cbn; lia|]. rewrite PackInto_cons. cbn [length]. rewrite length_app. lia.
Qed.

(** C30: the packed form of any list of valid specs, behind "bytes=", parses
    back to the same specs in the same order, the comma in front of the first
    one notwithstanding. *)
Theorem range_parse_pack sps :
  Forall spec_ok sps → sps ≠ [] →
  httpHdrRangeParseInit (s_bytes ++ httpHdrRangePackInto sps) = Some (sps, true).
Proof.
  intros Hok Hne. unfold httpHdrRangeParseInit, case_prefix.
  rewrite bool_decide_eq_true_2 by reflexivity.
  change (drop 6 (s_bytes ++ httpHdrRangePackInto sps)) with (httpHdrRangePackInto sps).
  rewrite parse_items_pack; [|done|].
  - cbn [mbind option_bind]. by rewrite bool_decide_eq_false_2.
  - rewrite length_app. pose proof (length_PackInto sps). lia.
Qed.

Lemma range_parse_pack_witness :
  httpHdrRangeParseInit (s_bytes ++ httpHdrRangePackInto [mkSpec 0 500; mkSpec (-1) 7; mkSpec 9 (-1)])
  = Some ([mkSpec 0 500; mkSpec (-1) 7; mkSpec 9 (-1)], true).
Proof.
  apply (range_parse_pack [mkSpec 0 500; mkSpec (-1) 7; mkSpec 9 (-1)]); [|discriminate].
  repeat constructor; cbn; lia || (unfold OFF_MAX; lia).
Defined.

(** ** Canonization *)

(** The positions of a body of [clen] bytes a spec asks for. *)
Definition in_spec (sp : HttpHdrRangeSpec) (clen x : Z) : Prop :=
  if negb (known_spec (offset sp)) then clen - length_ sp <= x
  else if negb (known_spec (length_ sp)) then offset sp <= x
  else offset sp <= x < offset sp + length_ sp.

Lemma size_diff_eq a b : 0 <= b → a <= OFF_MAX → size_diff a b = Z.max (a - b) 0.
Proof.
  intros Hb Ha. unfold size_diff, OFF_MAX in *. destruct (Z.leb_spec b a); [rewrite i64_small; lia|lia].
Qed.

Lemma SpecCanonize_ok sp clen : spec_ok sp → 0 <= clen <= OFF_MAX →
  ∃ sp' b, httpHdrRangeSpecCanonize sp clen = Some (sp', b) ∧ 0 <= offset sp' ∧ 0 <= length_ sp' ∧
    (0 < length_ sp' → offset sp' + length_ sp' <= clen) ∧ b = (0 <? length_ sp') ∧
    ∀ x, offset sp' <= x < offset sp' + length_ sp' ↔ 0 <= x < clen ∧ in_spec sp clen x.
Proof.
  intros Hok Hc. unfold httpHdrRangeSpecCanonize, size_min, in_spec.
  destruct Hok as [n Hn|o Ho|o n Ho Hn Hs]; cbn [offset length_].
  - change (known_spec range_spec_unknown) with false. cbn [negb offset length_].
    rewrite (size_diff_eq clen n) by lia. rewrite !known_nonneg by lia. cbn [andb].
    eexists _, _. split; [done|]. cbn [offset length_]. rewrite size_diff_eq by lia.
    match goal with |- context [?a <=? ?b] => destruct (Z.leb_spec a b) end; split_and!; try lia; try done; intros x; lia.
  - rewrite (known_nonneg o) by lia. change (known_spec range_spec_unknown) with false. cbn [negb offset length_].
    rewrite (size_diff_eq clen o) by lia. rewrite !known_nonneg by lia. cbn [andb].
    eexists _, _. split; [done|]. cbn [offset length_].
    match goal with |- context [?a <=? ?b] => destruct (Z.leb_spec a b) end; split_and!; try lia; try done; intros x; lia.
  - rewrite (known_nonneg o), (known_nonneg n) by lia. cbn [negb andb offset length_].
    rewrite (known_nonneg o), (known_nonneg n) by lia. cbn [andb]. eexists _, _. split; [done|].
    cbn [offset length_].
    rewrite size_diff_eq by lia.
    match goal with |- context [?a <=? ?b] => destruct (Z.leb_spec a b) end; split_and!; try lia; try done; intros x; lia.
Qed.

Lemma merge_loop_id goods : ∀ fuel specs, (length goods <= fuel)%nat →
  merge_loop fuel specs goods = Some (rev specs ++ goods).
Proof.
  induction goods as [|sp goods IH]; intros fuel specs Hf; [destruct fuel; cbn; by rewrite app_nil_r|].
  cbn [length] in Hf. destruct fuel as [|fuel]; [lia|]. cbn [merge_loop].
  assert (E : merge_loop fuel (sp :: specs) goods = Some (rev specs ++ sp :: goods)).
  { rewrite IH by lia. cbn [rev]. by rewrite <- app_assoc. }
  by destruct specs.
Qed.

(** C31: canonization against a body length keeps, in order, specs that lie
    inside the body and are not empty, and together they cover exactly the
    positions of the body the request asked for; it succeeds exactly when there
    is such a position. *)
Theorem range_canonize_exact range clen :
  Forall spec_ok range → 0 <= clen <= OFF_MAX →
  ∃ specs b, httpHdrRangeCanonize range clen = Some (specs, b) ∧
    Forall (λ sp, 0 <= offset sp ∧ 0 < length_ sp ∧ offset sp + length_ sp <= clen) specs ∧
    (∀ x, (∃ sp, sp ∈ specs ∧ offset sp <= x < offset sp + length_ sp) ↔
          0 <= x < clen ∧ ∃ sp, sp ∈ range ∧ in_spec sp clen x) ∧
    (b = true ↔ ∃ x sp, sp ∈ range ∧ 0 <= x < clen ∧ in_spec sp clen x).
Proof.
  intros Hr Hc.
  assert (G : ∃ goods, canonize_specs range clen = Some goods ∧
    Forall (λ sp, 0 <= offset sp ∧ 0 < length_ sp ∧ offset sp + length_ sp <= clen) goods ∧
    (∀ x, (∃ sp, sp ∈ goods ∧ offset sp <= x < offset sp + length_ sp) ↔
          0 <= x < clen ∧ ∃ sp, sp ∈ range ∧ in_spec sp clen x)).
  { induction Hr as [|sp range Hok _ IH].
    { exists []. split_and!; [done|done|]. intros x. split; [intros (s & Hs & _)|intros (_ & s & Hs & _)];
        by apply not_elem_of_nil in Hs. }
    destruct IH as (goods & E & Hg & Hx). cbn [canonize_specs].
    destruct (SpecCanonize_ok sp clen Hok Hc) as (sp' & b & -> & H1 & H2 & H3 & -> & H4).
    cbn [mbind option_bind]. rewrite E. cbn [mbind option_bind]. eexists. split; [done|].
    destruct (Z.ltb_spec 0 (length_ sp')).
    - split; [constructor; [split_and!; auto|done]|]. intros x. setoid_rewrite elem_of_cons. specialize (Hx x).
      specialize (H4 x). split.
      + intros (s & [->|Hs] & Hin); [apply H4 in Hin; naive_solver|]. destruct Hx as [Hx _].
        destruct Hx as (Hb & s' & Hs' & Hi'); [by exists s|]. split; [done|]. exists s'. auto.
      + intros (Hb & s & [->|Hs] & Hin); [exists sp'; split; [by left|]; by apply H4|].
        destruct Hx as [_ Hx]. destruct Hx as (s' & Hs' & Hi'); [split; [done|by exists s]|]. exists s'. auto.
    - split; [done|]. intros x. rewrite (Hx x). setoid_rewrite elem_of_cons. specialize (H4 x).
      split; [naive_solver|]. intros (Hb & s & [->|Hs] & Hin); [|by split; [|exists s]].
      exfalso. assert (offset sp' <= x < offset sp' + length_ sp') by by apply H4. lia. }
  destruct G as (goods & E & Hg & Hx). exists goods, (0 <? zlen goods).
  unfold httpHdrRangeCanonize. destruct (Z.ltb_spec clen 0); [lia|]. rewrite E. cbn [mbind option_bind].
  rewrite merge_loop_id by lia. cbn [mbind option_bind rev app]. split_and!; [done|done|done|].
  rewrite Z.ltb_lt. split.
  - intros Hl. destruct goods as [|sp goods]; [cbn in Hl; lia|]. apply Forall_cons in Hg as [(G1 & G2 & G3) _].
    destruct (Hx (offset sp)) as [Hx1 _]. destruct Hx1 as (Hb & s & Hs & Hi).
    { exists sp. split; [by left|lia]. }
    by exists (offset sp), s.
  - intros (x & sp & Hs & Hb & Hi). destruct (Hx x) as [_ Hx2]. destruct Hx2 as (s & Hs' & _); [split; [done|by exists sp]|].
    destruct goods; [by apply not_elem_of_nil in Hs'|cbn; lia].
Qed.

Lemma range_canonize_exact_witness :
  ∃ specs b, httpHdrRangeCanonize [mkSpec 0 500; mkSpec (-1) 7; mkSpec 900 (-1)] 600 = Some (specs, b) ∧
    Forall (λ sp, 0 <= offset sp ∧ 0 < length_ sp ∧ offset sp + length_ sp <= 600) specs ∧
    (∀ x, (∃ sp, sp ∈ specs ∧ offset sp <= x < offset sp + length_ sp) ↔
          0 <= x < 600 ∧ ∃ sp, sp ∈ [mkSpec 0 500; mkSpec (-1) 7; mkSpec 900 (-1)] ∧ in_spec sp 600 x) ∧
    (b = true ↔ ∃ x sp, sp ∈ [mkSpec 0 500; mkSpec (-1) 7; mkSpec 900 (-1)] ∧ 0 <= x < 600 ∧ in_spec sp 600 x).
Proof.
  apply (range_canonize_exact [mkSpec 0 500; mkSpec (-1) 7; mkSpec 900 (-1)] 600).
  - repeat constructor; cbn; lia || (unfold OFF_MAX; lia).
  - unfold OFF_MAX. lia.
Defined.

(** ** A spec without its dash *)

Lemma print_off_two n : 10 <= n → 2 <= zlen (print_off n).
Proof.
  intros Hn. unfold print_off. destruct (Z.ltb_spec n 0); [lia|].
  pose proof (digits_val_dec n [] ltac:(lia)) as Hv. destruct (dec_digits_digits n ltac:(lia)) as [Hd Hne].
  destruct (dec_digits n) as [|c [|d r]]; [done| |cbn; lia]. apply Forall_cons in Hd as [Hc _].
  cbn [digits_val app] in Hv. rewrite Hc in Hv. unfold isdigit in Hc. lia.
Qed.

Lemma strchr_skip ds l c : Forall (λ d, isdigit d = true ∨ d = 44) ds → isdigit c = false → c ≠ 44 →
  strchr (ds ++ c :: l) c = Some (zlen ds).
Proof.
  intros Hd Hc H44. induction Hd as [|d ds Hd _ IH]; cbn [app strchr length]; [by rewrite Z.eqb_refl|].
  destruct (Z.eqb_spec d c) as [->|]; [destruct Hd; congruence|]. rewrite IH. cbn. f_equal. lia.
Qed.

(** A spec of digits only is taken to be a trailer when some later part of the
    header has a dash. *)
Lemma SpecParse_no_dash o l : 10 <= o <= OFF_MAX →
  httpHdrRangeSpecParseCreate (print_off o ++ 44 :: 45 :: l) (zlen (print_off o))
  = Some (mkSpec o range_spec_unknown).
Proof.
  intros Ho. destruct (print_off_digits o ltac:(lia)) as [Hd Hne].
  unfold httpHdrRangeSpecParseCreate. pose proof (print_off_two o ltac:(lia)).
  destruct (Z.ltb_spec (zlen (print_off o)) 2); [lia|]. rewrite head_digit by done.
  assert (strchr (print_off o ++ 44 :: 45 :: l) 45 = Some (zlen (print_off o) + 1)) as ->.
  { change (print_off o ++ 44 :: 45 :: l) with (print_off o ++ [44] ++ 45 :: l). rewrite app_assoc, strchr_skip.
    - rewrite length_app. cbn [length]. f_equal. lia.
    - apply Forall_app. split; [|constructor; [by right|by apply Forall_nil]]. eapply Forall_impl; [exact Hd|]. by left.
    - done.
    - done. }
  rewrite ParseSize_print by (done || lia). cbn [mbind option_bind].
  destruct (Z.ltb_spec (zlen (print_off o) + 1 + 1) (zlen (print_off o))); [lia|done].
Qed.

Lemma digits_spec_chars n : 0 <= n → Forall spec_chars (print_off n).
Proof.
  intros Hn. destruct (print_off_digits n Hn) as [Hd _]. eapply Forall_impl; [exact Hd|]. by left.
Qed.

(** C32: a range item that is a bare number of two or more digits is refused on
    its own, for want of a dash, but in front of another item it is accepted as
    "everything from there on": the dash is found in the next item. *)
Theorem range_dash_of_next_item o n :
  10 <= o <= OFF_MAX → 0 < n <= OFF_MAX →
  httpHdrRangeParseInit (s_bytes ++ print_off o) = Some ([], false) ∧
  httpHdrRangeParseInit (s_bytes ++ print_off o ++ 44 :: httpHdrRangeSpecPackInto (mkSpec range_spec_unknown n))
  = Some ([mkSpec o range_spec_unknown; mkSpec range_spec_unknown n], true).
Proof.
  intros Ho Hn. destruct (print_off_digits o ltac:(lia)) as [Hd Hne].
  pose proof (print_off_two o ltac:(lia)) as H2. pose proof (digits_spec_chars o ltac:(lia)) as Hc.
  unfold httpHdrRangeParseInit, case_prefix. split.
  - rewrite bool_decide_eq_true_2 by reflexivity.
    change (drop 6 (s_bytes ++ print_off o)) with (print_off o).
    rewrite length_app. cbn [length Nat.add]. change (length s_bytes) with 6%nat. cbn [Nat.add parse_items].
    rewrite (GetItem_item (print_off o) []); [|done..|].
    2:{ rewrite <- (app_nil_r (print_off o)) at 1. by apply skip_to_item. }
    cbn [mbind option_bind]. destruct (Z.ltb_spec 0 (zlen (print_off o))); [|lia].
    rewrite GetItem_end. cbn [mbind option_bind]. change (0 <? 0) with false. cbn [mbind option_bind].
    rewrite app_nil_r. unfold httpHdrRangeSpecParseCreate. destruct (Z.ltb_spec (zlen (print_off o)) 2); [lia|].
    pose proof (head_digit (print_off o) [] Hd Hne) as Hh. rewrite app_nil_r in Hh. rewrite Hh.
    assert (strchr (print_off o) 45 = None) as ->; [|done].
    clear -Hd. induction Hd as [|d ds Hd _ IH]; [done|]. cbn [strchr].
    destruct (Z.eqb_spec d 45) as [->|]; [done|]. by rewrite IH.
  - set (rest := 44 :: httpHdrRangeSpecPackInto (mkSpec range_spec_unknown n)).
    rewrite bool_decide_eq_true_2 by reflexivity.
    change (drop 6 (s_bytes ++ print_off o ++ rest)) with (print_off o ++ rest).
    rewrite length_app. set (k := (5 + length (print_off o ++ rest))%nat).
    change (length s_bytes + length (print_off o ++ rest))%nat with (S k). cbn [parse_items].
    rewrite (GetItem_item (print_off o) rest) by (done || by apply skip_to_item).
    cbn [mbind option_bind]. destruct (Z.ltb_spec 0 (zlen (print_off o))); [|lia].
    assert (E : rest = httpHdrRangePackInto [mkSpec range_spec_unknown n]).
    { rewrite PackInto_cons. change (httpHdrRangePackInto []) with (@nil Z). by rewrite app_nil_r. }
    pose proof (parse_items_pack [mkSpec range_spec_unknown n]
                  ltac:(repeat constructor; lia) k ltac:(cbn; lia)) as Hp.
    rewrite <- E in Hp. rewrite Hp. cbn [mbind option_bind].
    unfold rest, httpHdrRangeSpecPackInto. cbn [offset length_].
    change (known_spec range_spec_unknown) with false. cbn [negb]. by rewrite SpecParse_no_dash.
Qed.

Lemma range_dash_of_next_item_witness :
  httpHdrRangeParseInit (s_bytes ++ print_off 55) = Some ([], false) ∧
  httpHdrRangeParseInit (s_bytes ++ print_off 55 ++ 44 :: httpHdrRangeSpecPackInto (mkSpec range_spec_unknown 3))
  = Some ([mkSpec 55 range_spec_unknown; mkSpec range_spec_unknown 3], true).
Proof. apply (range_dash_of_next_item 55 3); unfold OFF_MAX; lia. Defined.

(** ** Content-Range *)

(** The parts of a Content-Range the header can carry. *)
Definition cont_ok (r : HttpHdrContRange) : Prop :=
  0 <= offset (spec r) ∧ 0 < length_ (spec r) ∧ offset (spec r) + length_ (spec r) <= OFF_MAX ∧
  (elength r = range_spec_unknown ∨ 0 <= elength r <= OFF_MAX).

Lemma strchr_slash ds l : Forall (λ c, c ≠ 47) ds → strchr (ds ++ 47 :: l) 47 = Some (zlen ds).
Proof.
  induction 1 as [|d ds Hd _ IH]; cbn [app strchr length]; [done|].
  destruct (Z.eqb_spec d 47); [done|]. rewrite IH. cbn. f_equal. lia.
Qed.

Lemma RespSpecParse_pack sp l : 0 <= offset sp → 0 < length_ sp → offset sp + length_ sp <= OFF_MAX →
  ends_number l →
  let w := print_off (offset sp) ++ [45] ++ print_off (offset sp + length_ sp - 1) in
  httpHdrRangeRespSpecParseInit (w ++ l) (zlen w) = Some sp.
Proof.
  destruct sp as [o n]; cbn [offset length_]. intros Ho Hn Hs Hl. unfold OFF_MAX in *.
  destruct (print_off_digits o ltac:(lia)) as [Hd Hne].
  destruct (print_off_digits (o + n - 1) ltac:(lia)) as [Hd2 Hne2]. cbv zeta.
  unfold httpHdrRangeRespSpecParseInit.
  assert (1 <= zlen (print_off o)) by (destruct (print_off o); [done|cbn; lia]).
  assert (1 <= zlen (print_off (o + n - 1))) by (destruct (print_off (o + n - 1)); [done|cbn; lia]).
  rewrite !length_app. cbn [length]. rewrite <- app_assoc. cbn [app].
  match goal with |- context [?a <? 2] => destruct (Z.ltb_spec a 2); [lia|] end.
  assert (bool_decide (head (print_off o ++ 45 :: print_off (o + n - 1) ++ l) = Some 42) = false) as ->.
  { destruct (print_off o) as [|c r]; [done|]. apply Forall_cons in Hd as [Hc _].
    apply bool_decide_eq_false_2. cbn. intros [= ->]. done. }
  rewrite strchr_digits by done. match goal with |- context [?a <=? ?b] => destruct (Z.leb_spec a b); [lia|] end.
  rewrite ParseSize_print by (done || unfold OFF_MAX; lia). cbn [mbind option_bind].
  match goal with |- context [?a <? ?b] => destruct (Z.ltb_spec a b); [|lia] end.
  rewrite drop_after, ParseSize_print by (done || unfold OFF_MAX; lia). cbn [mbind option_bind].
  unfold size_diff. rewrite !i64_small by lia. destruct (Z.leb_spec o (o + n - 1 + 1)); [|lia].
  replace (o + n - 1 + 1 - o) with n by lia. rewrite known_nonneg by lia. destruct (Z.eqb_spec n 0); [lia|done].
Qed.

(** C33: a Content-Range with a known range parses back to itself whether or
    not the entity length is known; one without a range is printed without the
    "bytes " unit, and its own parser refuses it. *)
Theorem content_range_parse_pack r :
  cont_ok r →
  httpHdrContRangeParseInit (httpHdrContRangePackInto r) = Some r ∧
  ∀ e, httpHdrContRangeParseInit
         (httpHdrContRangePackInto (mkCont (mkSpec range_spec_unknown range_spec_unknown) e)) = None.
Proof.
  intros (Ho & Hn & Hs & He). split; [|intros e; unfold httpHdrContRangePackInto; by destruct (negb _)].
  destruct r as [[o n] e]; cbn [spec elength offset length_] in *.
  unfold httpHdrContRangePackInto, httpHdrRangeRespSpecPackInto. cbn [spec elength offset length_].
  rewrite (known_nonneg o), (known_nonneg n) by lia. cbn [negb orb].
  unfold httpHdrContRangeParseInit, case_prefix. unfold OFF_MAX in *. rewrite i64_small by lia.
  set (w := print_off o ++ [45] ++ print_off (o + n - 1)).
  set (el := if negb (known_spec e) then [42] else print_off e).
  assert (E : (if negb (known_spec e) then [47; 42] else 47 :: print_off e) = 47 :: el) by (unfold el; by destruct (negb _)).
  rewrite E, <- app_assoc. rewrite bool_decide_eq_true_2 by reflexivity.
  change (drop 6 (bytes_of "bytes " ++ w ++ 47 :: el)) with (w ++ 47 :: el). cbv zeta.
  assert (Hw : Forall spec_chars w).
  { unfold w. apply Forall_app. split; [apply digits_spec_chars; lia|].
    constructor; [by right|apply digits_spec_chars; lia]. }
  rewrite strchr_slash.
  2:{ eapply Forall_impl; [exact Hw|]. intros c Hc ->. by destruct Hc. }
  assert (bool_decide (head (w ++ 47 :: el) = Some 42) = false) as ->.
  { destruct w as [|c r]; [done|]. apply Forall_cons in Hw as [Hc _].
    apply bool_decide_eq_false_2. cbn. intros [= ->]. by destruct Hc. }
  pose proof (RespSpecParse_pack (mkSpec o n) (47 :: el) Ho Hn ltac:(unfold OFF_MAX; cbn; lia) ltac:(done)) as Hp.
  cbn [offset length_] in Hp. fold w in Hp. rewrite Hp. cbn [mbind option_bind]. rewrite drop_after.
  unfold el. destruct He as [->|He]; [done|]. rewrite known_nonneg by lia. cbn [negb].
  destruct (print_off_digits e ltac:(lia)) as [Hd Hne].
  assert (bool_decide (head (print_off e) = Some 42) = false) as ->.
  { destruct (print_off e) as [|c r]; [done|]. apply Forall_cons in Hd as [Hc _].
    apply bool_decide_eq_false_2. cbn. intros [= ->]. done. }
  rewrite <- (app_nil_r (print_off e)), ParseSize_print by (done || unfold OFF_MAX; lia). done.
Qed.

Lemma content_range_parse_pack_witness :
  httpHdrContRangeParseInit (httpHdrContRangePackInto (mkCont (mkSpec 5 10) 1000)) = Some (mkCont (mkSpec 5 10) 1000) ∧
  ∀ e, httpHdrContRangeParseInit
         (httpHdrContRangePackInto (mkCont (mkSpec range_spec_unknown range_spec_unknown) e)) = None.
Proof.
  apply (content_range_parse_pack (mkCont (mkSpec 5 10) 1000)).
  unfold cont_ok, OFF_MAX. cbn. lia.
Defined.
