(* ===== verification/Stmem.v ===== *)
(** In-memory object data (src/stmem.c): the chain of 4096-byte pages that holds
    the bytes of an object, appended at the tail and freed from the head.

    Pages live in a store addressed by their pointers; 0 is the null pointer.
    [memAllocate] gives a fresh page with any contents: [junk a] is what the
    page at [a] holds before it is written. [None] is a failed assertion, a read
    of a freed page or a copy outside its array. *)
From S2P Require Import Prelude CString.
Module Stmem.

Definition SM_PAGE_SIZE : Z := 4096.

Record mem_node := mkNode { data : list Z; len : Z; uses : Z; next : Z }.
Record mem_hdr := mkHdr { head : Z; tail : Z; origin_offset : Z }.

(** The pages, the global [store_mem_size] and the next free address. *)
Record mem := mkMem { nodes : gmap Z mem_node; store_mem_size : Z; brk : Z }.

Definition set_node (m : mem) (p : Z) (nd : mem_node) : mem :=
  mkMem (<[p := nd]> (nodes m)) (store_mem_size m) (brk m).

(** The [n] bytes at [s + off], as [xmemcpy] reads them. *)
Definition slice (s : list Z) (off n : Z) : option (list Z) :=
  if decide (0 <= off ∧ 0 <= n ∧ off + n <= zlen s)
  then Some (take (Z.to_nat n) (drop (Z.to_nat off) s)) else None.

Definition XMIN (a b : Z) : Z := if a <? b then a else b.

Section ops.
Variable junk : Z → list Z.

Definition stmemNodeFree (m : mem) (p : Z) : option mem :=
  nd ← nodes m !! p;
  if uses nd =? 0 then Some (mkMem (delete p (nodes m)) (store_mem_size m) (brk m))
  else Some (set_node m p (mkNode (data nd) (len nd) (i32 (uses nd - 1)) (next nd))).

Definition stmemNodeGet (m : mem) (p : Z) : option (mem * list Z) :=
  nd ← nodes m !! p;
  Some (set_node m p (mkNode (data nd) (len nd) (i32 (uses nd + 1)) (next nd)), data nd).

(** [store_mem_size -= SM_PAGE_SIZE] and the release of one page. *)
Definition release (m : mem) (p : Z) : option mem :=
  stmemNodeFree (mkMem (nodes m) (u64 (store_mem_size m - SM_PAGE_SIZE)) (brk m)) p.

Fixpoint free_all (fuel : nat) (m : mem) (p : Z) : option mem :=
  if p =? 0 then Some m
  else
    match fuel with
    | O => None
    | S fuel' => nd ← nodes m !! p; m' ← release m p; free_all fuel' m' (next nd)
    end.

(** A chain has no more pages than the store. *)
Definition chain_fuel (m : mem) : nat := size (nodes m).

Definition stmemFree (m : mem) (mem : mem_hdr) : option (Stmem.mem * mem_hdr) :=
  m' ← free_all (chain_fuel m) m (head mem);
  Some (m', mkHdr 0 0 0).

Fixpoint free_upto (fuel : nat) (m : mem) (mem : mem_hdr) (p current_offset target_offset : Z)
  : option (Stmem.mem * mem_hdr * Z) :=
  let done :=
    let mem' := mkHdr p (tail mem) current_offset in
    if current_offset <? target_offset then Some (m, mem', current_offset)
    else if current_offset =? target_offset then Some (m, mem', current_offset)
    else None in
  if p =? 0 then done
  else
    nd ← nodes m !! p;
    if i64 (current_offset + len nd) <=? target_offset then
      if p =? tail mem then Some (m, mkHdr (tail mem) (tail mem) current_offset, current_offset)
      else
        match fuel with
        | O => None
        | S fuel' =>
            m' ← release m p;
            free_upto fuel' m' mem (next nd) (i64 (current_offset + len nd)) target_offset
        end
    else done.

Definition stmemFreeDataUpto (m : mem) (mem : mem_hdr) (target_offset : Z)
  : option (Stmem.mem * mem_hdr * Z) :=
  free_upto (chain_fuel m) m mem (head mem) (origin_offset mem) target_offset.

(** The loop of [stmemAppend] over the remaining [data]. *)
Fixpoint append_loop (fuel : nat) (m : mem) (mem : mem_hdr) (dat : list Z) (ln : Z)
  : option (Stmem.mem * mem_hdr) :=
  if 0 <? ln then
    match fuel with
    | O => None
    | S fuel' =>
        let len_to_copy := XMIN ln SM_PAGE_SIZE in
        let p := brk m in
        src ← slice dat 0 len_to_copy;
        page ← memcpy (junk p) 0 src;
        let m1 := mkMem (<[p := mkNode page len_to_copy 0 0]> (nodes m))
                        (u64 (store_mem_size m + SM_PAGE_SIZE)) (p + 1) in
        '(m2, mem2) ←
          (if head mem =? 0 then Some (m1, mkHdr p p (origin_offset mem))
           else
             t ← nodes m1 !! tail mem;
             Some (set_node m1 (tail mem) (mkNode (data t) (len t) (uses t) p),
                   mkHdr (head mem) p (origin_offset mem)));
        append_loop fuel' m2 mem2 (drop (Z.to_nat len_to_copy) dat) (i32 (ln - len_to_copy))
    end
  else Some (m, mem).

Definition stmemAppend (m : mem) (mem : mem_hdr) (dat : list Z) (ln : Z)
  : option (Stmem.mem * mem_hdr) :=
  if (head mem =? 0) || (tail mem =? 0) then append_loop (Z.to_nat ln) m mem dat ln
  else
    t ← nodes m !! tail mem;
    if len t <? SM_PAGE_SIZE then
      let avail_len := i32 (SM_PAGE_SIZE - len t) in
      let len_to_copy := XMIN avail_len ln in
      src ← slice dat 0 len_to_copy;
      page ← memcpy (data t) (len t) src;
      let m1 := set_node m (tail mem) (mkNode page (i32 (len t + len_to_copy)) (uses t) (next t)) in
      append_loop (Z.to_nat ln) m1 mem (drop (Z.to_nat len_to_copy) dat) (i32 (ln - len_to_copy))
    else append_loop (Z.to_nat ln) m mem dat ln.

(** The seek of [stmemCopy]: the page and its offset; [Some None] is a return
    of 0 at the end of the chain. *)
Fixpoint seek (fuel : nat) (m : mem) (p t_off offset : Z) : option (option (Z * Z)) :=
  nd ← nodes m !! p;
  if i64 (t_off + len nd) <? offset then
    if next nd =? 0 then Some None
    else
      match fuel with
      | O => None
      | S fuel' => seek fuel' m (next nd) (i64 (t_off + len nd)) offset
      end
  else Some (Some (p, t_off)).

(** The copying loop: the buffer and the bytes still to go. *)
Fixpoint copy_loop (fuel : nat) (m : mem) (p bytes_to_go : Z) (buf : list Z) (ptr : Z)
  : option (list Z * Z) :=
  if negb (p =? 0) && (0 <? bytes_to_go) then
    match fuel with
    | O => None
    | S fuel' =>
        nd ← nodes m !! p;
        if u64 (len nd) <? bytes_to_go then
          src ← slice (data nd) 0 (len nd);
          buf' ← memcpy buf ptr src;
          copy_loop fuel' m (next nd) (u64 (bytes_to_go - len nd)) buf' (ptr + len nd)
        else
          src ← slice (data nd) 0 bytes_to_go;
          buf' ← memcpy buf ptr src;
          copy_loop fuel' m (next nd) 0 buf' ptr
    end
  else Some (buf, bytes_to_go).

Definition stmemCopy (m : mem) (mem : mem_hdr) (offset : Z) (buf : list Z) (size : Z)
  : option (list Z * Z) :=
  if head mem =? 0 then Some (buf, 0)
  else if 0 <? size then
    r ← seek (chain_fuel m) m (head mem) (origin_offset mem) offset;
    match r with
    | None => Some (buf, 0)
    | Some (p, t_off) =>
        nd ← nodes m !! p;
        let bytes_into_this_packet := i32 (offset - t_off) in
        let bytes_from_this_packet := i32 (XMIN size (u64 (len nd - bytes_into_this_packet))) in
        src ← slice (data nd) bytes_into_this_packet bytes_from_this_packet;
        buf' ← memcpy buf 0 src;
        '(buf'', bytes_to_go) ←
          copy_loop (chain_fuel m) m (next nd) (u64 (size - bytes_from_this_packet)) buf' bytes_from_this_packet;
        Some (buf'', i64 (size - bytes_to_go))
    end
  else None.

End ops.
End Stmem.

(** Properties of the in-memory object data: the pages hold the stream of bytes
    that was appended, from the origin offset on. *)

Import Stmem.

(** * The chain of pages *)

(** The pages [l] from pointer [p] to pointer [q]. *)
Fixpoint lseg (ns : gmap Z mem_node) (p : Z) (l : list (Z * mem_node)) (q : Z) : Prop :=
  match l with
  | [] => p = q
  | (a, nd) :: l' => p = a ∧ a ≠ 0 ∧ ns !! a = Some nd ∧ lseg ns (next nd) l' q
  end.

Definition bytes (nd : mem_node) : list Z := take (Z.to_nat (len nd)) (data nd).
Definition content (l : list (Z * mem_node)) : list Z := concat ((λ x, bytes x.2) <$> l).
Definition node_ok (x : Z * mem_node) : Prop :=
  zlen (data x.2) = SM_PAGE_SIZE ∧ 0 <= len x.2 <= SM_PAGE_SIZE.

Record st_ok (m : mem) (h : mem_hdr) (l : list (Z * mem_node)) : Prop := mkStOk {
  ok_seg : lseg (nodes m) (head h) l 0;
  ok_nodup : NoDup l.*1;
  ok_tail : l ≠ [] → last l.*1 = Some (tail h);
  ok_nodes : Forall node_ok l;
  ok_fresh : ∀ a nd, nodes m !! a = Some nd → a < brk m;
  ok_brk : 0 < brk m;
  ok_size : 0 <= store_mem_size m < 18446744073709551616 }.

Lemma lseg_app ns l1 l2 : ∀ p r, lseg ns p (l1 ++ l2) r ↔ ∃ q, lseg ns p l1 q ∧ lseg ns q l2 r.
Proof.
  induction l1 as [|[a nd] l1 IH]; intros p r; cbn [app lseg].
  - split; [intros H; by exists p|by intros (q & -> & H)].
  - rewrite IH. naive_solver.
Qed.

Lemma lseg_frame ns ns' l : ∀ p q, (∀ a, a ∈ l.*1 → ns' !! a = ns !! a) →
  lseg ns p l q → lseg ns' p l q.
Proof.
  induction l as [|[a nd] l IH]; intros p q Hf; cbn [lseg]; [done|]. intros (-> & Ha & Hn & Hl).
  split_and!; [done|done| |].
  - rewrite Hf by left. done.
  - apply IH; [|done]. intros b Hb. apply Hf. by right.
Qed.

Lemma lseg_dom ns l : ∀ p q a, lseg ns p l q → a ∈ l.*1 → is_Some (ns !! a).
Proof.
  induction l as [|[b nd] l IH]; intros p q a; cbn [lseg fmap list_fmap fst].
  - intros _ []%not_elem_of_nil.
  - intros (-> & _ & Hn & Hl) [->|Ha]%elem_of_cons; [by exists nd|by eapply IH].
Qed.

Lemma lseg_size ns p l q : lseg ns p l q → NoDup l.*1 → (length l <= size ns)%nat.
Proof.
  intros Hl Hn. rewrite <- (length_fmap fst), <- (size_list_to_set (C:=gset Z)) by done.
  rewrite <- size_dom. apply subseteq_size. intros a Ha. apply elem_of_list_to_set in Ha.
  apply elem_of_dom. by eapply lseg_dom.
Qed.

Lemma lseg_head ns p l : lseg ns p l 0 → (p =? 0) = bool_decide (l = []).
Proof.
  destruct l as [|[a nd] l]; cbn [lseg]; [by intros ->|].
  intros (-> & Ha & _). destruct (Z.eqb_spec a 0); [done|]. by rewrite bool_decide_eq_false_2.
Qed.

Lemma content_cons a nd l : content ((a, nd) :: l) = bytes nd ++ content l.
Proof. reflexivity. Qed.

Lemma content_app l1 l2 : content (l1 ++ l2) = content l1 ++ content l2.
Proof. unfold content. by rewrite fmap_app, concat_app. Qed.

Lemma bytes_len a nd : node_ok (a, nd) → zlen (bytes nd) = len nd.
Proof. intros [H1 H2]. cbn in *. unfold bytes. rewrite length_take. lia. Qed.

(** * Freeing *)

Lemma release_ok m p nd : nodes m !! p = Some nd →
  ∃ m', release m p = Some m' ∧ brk m' = brk m ∧
    store_mem_size m' = u64 (store_mem_size m - SM_PAGE_SIZE) ∧
    (∀ a, a ≠ p → nodes m' !! a = nodes m !! a) ∧ (∀ a, is_Some (nodes m' !! a) → is_Some (nodes m !! a)).
Proof.
  intros Hp. unfold release, stmemNodeFree. cbn [nodes store_mem_size brk]. rewrite Hp. cbn [mbind option_bind].
  destruct (uses nd =? 0); eexists; (split; [done|]); cbn [nodes store_mem_size brk set_node]; split_and!; try done; intros a.
  - intros Ha. by rewrite lookup_delete_ne.
  - rewrite lookup_delete_is_Some. by intros [_ H].
  - intros Ha. by rewrite lookup_insert_ne.
  - destruct (decide (a = p)) as [->|]; [by rewrite Hp|by rewrite lookup_insert_ne].
Qed.

Lemma i64_sum a b c : 0 <= a → 0 <= b → a + b <= c → c <= 9223372036854775807 → i64 (a + b) = a + b.
Proof. intros. apply i64_small. lia. Qed.

Definition first_addr (l : list (Z * mem_node)) : Z := default 0 (l.*1 !! 0%nat).

(** What freeing up to [target] from offset [cur] does: the pages [l1] are given
    back, the pages [l2] stay, at least one of them when there was one, and only
    the last page may lie before the target. *)
Record freed (m m' : mem) (cur target : Z) (l l1 l2 : list (Z * mem_node)) : Prop := mkFreed {
  fr_split : l = l1 ++ l2;
  fr_keep : l ≠ [] → l2 ≠ [];
  fr_target : cur + zlen (content l1) <= target;
  fr_all : ∀ x y l3, l2 = x :: y :: l3 → target < cur + zlen (content l1) + len x.2;
  fr_seg : lseg (nodes m') (first_addr l2) l2 0;
  fr_brk : brk m' = brk m;
  fr_size : store_mem_size m' = u64 (store_mem_size m - SM_PAGE_SIZE * zlen l1);
  fr_dom : ∀ a, is_Some (nodes m' !! a) → is_Some (nodes m !! a) }.

Lemma u64_range x : 0 <= u64 x < 18446744073709551616.
Proof. unfold u64. apply Z.mod_pos_bound. lia. Qed.

(** Nothing is freed. *)
Lemma freed_none m cur target l : lseg (nodes m) (first_addr l) l 0 → cur <= target →
  0 <= store_mem_size m < 18446744073709551616 →
  (∀ x y l3, l = x :: y :: l3 → target < cur + len x.2) → freed m m cur target l [] l.
Proof.
  intros Hs Hc Hsz Hx. constructor; cbn [content fmap list_fmap concat length]; try done.
  - lia.
  - intros x y l3 E. specialize (Hx x y l3 E). lia.
  - rewrite Z.mul_0_r, Z.sub_0_r. by rewrite u64_small.
Qed.

Lemma free_upto_ok h target : ∀ l fuel m p cur,
  lseg (nodes m) p l 0 → NoDup l.*1 → (l ≠ [] → last l.*1 = Some (tail h)) → Forall node_ok l →
  (length l <= fuel)%nat → 0 <= cur <= target → cur + zlen (content l) <= 9223372036854775807 →
  0 <= store_mem_size m < 18446744073709551616 →
  ∃ m' l1 l2, let o := cur + zlen (content l1) in
    free_upto fuel m h p cur target = Some (m', mkHdr (first_addr l2) (tail h) o, o) ∧
    freed m m' cur target l l1 l2.
Proof.
  induction l as [|[a nd] l IH]; intros fuel m p cur Hseg Hnd Htail Hok Hf Hcur Hmax Hsz.
  - exists m, [], []. cbn in Hseg. subst p. split; [|by apply freed_none; [|lia| |]].
    cbn [content fmap list_fmap concat length]. rewrite Z.add_0_r.
    destruct fuel; cbn [free_upto]; change (0 =? 0) with true; cbv iota;
      destruct (Z.ltb_spec cur target); try done; destruct (Z.eqb_spec cur target); try done; lia.
  - destruct Hseg as (-> & Ha & Hn & Hseg). apply Forall_cons in Hok as [Hnode Hok].
    pose proof (bytes_len a nd Hnode) as Hb. rewrite content_cons, length_app in Hmax.
    assert (Estay : l = [] ∨ target < cur + len nd →
      ∃ m' l1 l2, let o := cur + zlen (content l1) in
        Some (m, mkHdr a (tail h) cur, cur) = Some (m', mkHdr (first_addr l2) (tail h) o, o) ∧
        freed m m' cur target ((a, nd) :: l) l1 l2).
    { intros Hor. exists m, [], ((a, nd) :: l). split.
      - cbn [content fmap list_fmap concat length]. by rewrite Z.add_0_r.
      - apply freed_none; [done|lia|done|]. intros x y l3 [= <- E]. destruct Hor as [->|]; [done|]. cbn. lia. }
    destruct fuel as [|fuel]; [cbn in Hf; lia|]. cbn [free_upto]. destruct (Z.eqb_spec a 0); [done|].
    rewrite Hn. cbn [mbind option_bind]. rewrite i64_small by (destruct Hnode; cbn in *; lia).
    destruct (Z.leb_spec (cur + len nd) target) as [Hle|Hgt].
    2:{ destruct (Z.ltb_spec cur target); [by apply Estay; right|].
        destruct (Z.eqb_spec cur target); [by apply Estay; right|lia]. }
    destruct (Z.eqb_spec a (tail h)) as [->|Hne].
    { apply Estay. left. destruct l as [|[b nb] l]; [done|]. exfalso.
      cbn [fmap list_fmap fst] in Hnd, Htail. apply NoDup_cons in Hnd as [Hnin _]. apply Hnin.
      specialize (Htail ltac:(done)). rewrite last_cons_cons in Htail. by apply last_Some_elem_of in Htail. }
    destruct (release_ok m a nd Hn) as (m1 & -> & Hbrk & Hm1 & Hfr & Hdom). cbn [mbind option_bind].
    cbn [fmap list_fmap fst] in Hnd. apply NoDup_cons in Hnd as [Hnin Hnd].
    destruct (IH fuel m1 (next nd) (cur + len nd)) as (m' & l1 & l2 & E & [-> H1 H2 H3 H4 H5 H6 H7]).
    { eapply lseg_frame; [|exact Hseg]. intros b Hbi. apply Hfr. by intros ->. }
    { done. }
    { intros Hl0. specialize (Htail ltac:(done)). destruct l as [|x l]; [done|].
      cbn [fmap list_fmap] in *. by rewrite last_cons_cons in Htail. }
    { done. } { cbn in Hf. lia. } { destruct Hnode; cbn in *; lia. } { lia. }
    { rewrite Hm1. apply u64_range. }
    assert (Hl : l1 ++ l2 ≠ []). { intros E0. specialize (Htail ltac:(done)). rewrite E0 in Htail. cbn in Htail. congruence. }
    assert (Eo : cur + zlen (content ((a, nd) :: l1)) = cur + len nd + zlen (content l1))
      by (rewrite content_cons, length_app; lia).
    exists m', ((a, nd) :: l1), l2. cbv zeta. rewrite Eo. split; [exact E|].
    constructor; [done|auto|lia| |done|congruence| |auto].
    + intros x y l3 ->. rewrite Eo. by eapply H3.
    + rewrite H6, Hm1. unfold u64. rewrite Zminus_mod_idemp_l. f_equal. cbn [length]. lia.
Qed.

Lemma stmemFreeDataUpto_ok m h l target :
  st_ok m h l → 0 <= origin_offset h <= target →
  origin_offset h + zlen (content l) <= 9223372036854775807 →
  ∃ m' h' l1 l2, stmemFreeDataUpto m h target = Some (m', h', origin_offset h') ∧ st_ok m' h' l2 ∧
    freed m m' (origin_offset h) target l l1 l2 ∧ origin_offset h' = origin_offset h + zlen (content l1).
Proof.
  intros Hst Ho Hmax. pose proof Hst as [Hseg Hnd Ht Hn Hfr Hb Hs].
  destruct (free_upto_ok h target l (chain_fuel m) m (head h) (origin_offset h)) as (m' & l1 & l2 & E & F);
    try done. { by eapply lseg_size. }
  eexists m', _, l1, l2. split; [exact E|]. split; [|by split].
  pose proof F as [-> H1 H2 H3 H4 H5 H6 H7]. rewrite fmap_app in Hnd, Ht. apply NoDup_app in Hnd as (_ & _ & Hnd).
  apply Forall_app in Hn as [_ Hn]. constructor; cbn [head tail]; try done.
  - intros Hne. assert (l1 ++ l2 ≠ []) by (by destruct l1). specialize (Ht ltac:(done)).
    rewrite last_app in Ht. destruct (last l2.*1) eqn:El; [done|]. apply last_None in El.
    by apply fmap_nil_inv in El.
  - intros a nd Ha. rewrite H5. destruct (H7 a) as [nd' Hnd']; [by eexists|]. by eapply Hfr.
  - lia.
  - rewrite H6. apply u64_range.
Qed.

(** * Appending *)

Section append.
Variable junk : Z → list Z.
Hypothesis junk_page : ∀ a, zlen (junk a) = SM_PAGE_SIZE.

Lemma slice_take s n : 0 <= n <= zlen s → slice s 0 n = Some (take (Z.to_nat n) s).
Proof. intros Hn. unfold slice. by rewrite decide_True by lia. Qed.

Lemma memcpy_take d off s : 0 <= off → off + zlen s <= zlen d →
  ∃ d', memcpy d off s = Some d' ∧ length d' = length d ∧
        take (Z.to_nat (off + zlen s)) d' = take (Z.to_nat off) d ++ s.
Proof.
  intros Ho Hl. unfold memcpy. rewrite decide_True by lia. eexists. split; [done|].
  split; [rewrite !length_app, length_take, length_drop; lia|].
  rewrite app_assoc, take_app_le by (rewrite length_app, length_take; lia).
  apply take_ge. rewrite length_app, length_take. lia.
Qed.

(** A fresh page linked behind the chain. *)
Lemma st_ok_link m h l nd : st_ok m h l → node_ok (brk m, nd) → next nd = 0 →
  ∃ m2 h2 l2,
    (let m1 := mkMem (<[brk m := nd]> (nodes m)) (u64 (store_mem_size m + SM_PAGE_SIZE)) (brk m + 1) in
     if head h =? 0 then Some (m1, mkHdr (brk m) (brk m) (origin_offset h))
     else t ← nodes m1 !! tail h;
          Some (set_node m1 (tail h) (mkNode (data t) (len t) (uses t) (brk m)),
                mkHdr (head h) (brk m) (origin_offset h))) = Some (m2, h2) ∧
    st_ok m2 h2 l2 ∧ content l2 = content l ++ bytes nd ∧ length l2 = S (length l) ∧
    origin_offset h2 = origin_offset h ∧ store_mem_size m2 = u64 (store_mem_size m + SM_PAGE_SIZE).
Proof using.
  intros Hst Hnode Hnext. pose proof Hst as [Hseg Hnd Ht Hn Hfr Hb Hs].
  rewrite (lseg_head _ _ _ Hseg). cbn [nodes]. destruct (bool_decide (l = [])) eqn:Hl.
  - apply bool_decide_eq_true in Hl as ->. eexists _, _, [(brk m, nd)]. split; [done|].
    split; [|by cbn; rewrite app_nil_r]. constructor; cbn [nodes head tail brk store_mem_size lseg fmap list_fmap fst].
    + split_and!; [done|lia|by rewrite lookup_insert_eq|done].
    + apply NoDup_singleton.
    + done.
    + by apply Forall_singleton.
    + intros a x. destruct (decide (a = brk m)) as [->|]; [lia|]. rewrite lookup_insert_ne by done.
      intros Hx%Hfr. lia.
    + lia.
    + apply u64_range.
  - apply bool_decide_eq_false in Hl. specialize (Ht Hl).
    destruct (exists_last Hl) as (l0 & [t tn] & ->). rewrite fmap_app in Ht, Hnd. cbn [fmap list_fmap fst] in Ht, Hnd.
    rewrite last_snoc in Ht. injection Ht as Ht. rewrite <- Ht.
    apply lseg_app in Hseg as (q & Hseg & Hq). cbn [lseg] in Hq. destruct Hq as (-> & Htz & Htn & _).
    apply NoDup_app in Hnd as (Hnd0 & Hnin & _). apply Forall_app in Hn as [Hn0 Hntn].
    apply Forall_cons in Hntn as [Hntn _].
    assert (Hlt : t < brk m) by by eapply Hfr. rewrite lookup_insert_ne by lia. rewrite Htn. cbn [mbind option_bind].
    eexists _, _, (l0 ++ [(t, mkNode (data tn) (len tn) (uses tn) (brk m)); (brk m, nd)]). split; [done|].
    rewrite !content_app, !length_app. cbn [length].
    split; [|split_and!; [cbn; by rewrite !app_nil_r, <- app_assoc|lia|done|done]].
    assert (Hl0 : ∀ a, a ∈ l0.*1 → a ≠ t ∧ a < brk m).
    { intros a Ha. split; [intros ->; apply (Hnin t Ha); by left|].
      destruct (lseg_dom _ _ _ _ a Hseg Ha) as [x Hx]. by eapply Hfr. }
    constructor; cbn [nodes head tail brk store_mem_size set_node].
    + apply lseg_app. exists t. split.
      * eapply lseg_frame; [|exact Hseg]. intros a Ha. destruct (Hl0 a Ha).
        by rewrite !lookup_insert_ne by lia.
      * cbn [lseg next]. rewrite lookup_insert_eq, lookup_insert_ne, lookup_insert_eq by lia. split_and!; try done; lia.
    + rewrite fmap_app. cbn [fmap list_fmap fst]. apply NoDup_app. split_and!; [done| |].
      * intros a Ha. destruct (Hl0 a Ha). rewrite !elem_of_cons, elem_of_nil. lia.
      * apply NoDup_cons. split; [|apply NoDup_singleton]. rewrite elem_of_cons, elem_of_nil. lia.
    + intros _. rewrite fmap_app. cbn [fmap list_fmap fst]. by rewrite last_app.
    + apply Forall_app. split; [done|]. apply Forall_cons. split; [exact Hntn|by apply Forall_singleton].
    + intros a x. destruct (decide (a = t)) as [->|]; [lia|]. rewrite lookup_insert_ne by done.
      destruct (decide (a = brk m)) as [->|]; [lia|]. rewrite lookup_insert_ne by done. intros Hx%Hfr. lia.
    + lia.
    + apply u64_range.
Qed.

Lemma append_loop_ok : ∀ fuel m h l dat, st_ok m h l → zlen dat <= INT_MAX → zlen dat <= Z.of_nat fuel →
  ∃ m' h' l', append_loop junk fuel m h dat (zlen dat) = Some (m', h') ∧ st_ok m' h' l' ∧
    content l' = content l ++ dat ∧ origin_offset h' = origin_offset h ∧
    store_mem_size m' = u64 (store_mem_size m + SM_PAGE_SIZE * (zlen l' - zlen l)) ∧ (length l <= length l')%nat.
Proof using junk_page.
  induction fuel as [|fuel IH]; intros m h l dat Hst Hmax Hf; cbn [append_loop].
  { destruct (Z.ltb_spec 0 (zlen dat)); [lia|]. exists m, h, l. destruct dat; [|cbn in *; lia].
    rewrite app_nil_r, Z.sub_diag, Z.mul_0_r, Z.add_0_r. rewrite u64_small by apply Hst. done. }
  destruct (Z.ltb_spec 0 (zlen dat)) as [Hpos|Hz].
  2:{ exists m, h, l. destruct dat; [|cbn in *; lia].
      rewrite app_nil_r, Z.sub_diag, Z.mul_0_r, Z.add_0_r. rewrite u64_small by apply Hst. done. }
  set (n := XMIN (zlen dat) SM_PAGE_SIZE).
  assert (Hn : 0 < n <= zlen dat ∧ n <= SM_PAGE_SIZE).
  { unfold n, XMIN, SM_PAGE_SIZE. destruct (Z.ltb_spec (zlen dat) 4096); lia. }
  rewrite slice_take by lia. cbn [mbind option_bind]. pose proof (junk_page (brk m)) as Hj.
  destruct (memcpy_take (junk (brk m)) 0 (take (Z.to_nat n) dat)) as (page & -> & Hpl & Hpt);
    [lia|rewrite length_take; lia|]. cbn [mbind option_bind].
  destruct (st_ok_link m h l (mkNode page n 0 0) Hst) as (m2 & h2 & l2 & E & Hst2 & Hc2 & Hl2 & Ho2 & Hs2);
    [split; cbn; lia|done|]. cbv zeta in E. rewrite E. cbn [mbind option_bind].
  unfold INT_MAX in *. rewrite i32_small by lia.
  replace (zlen dat - n) with (zlen (drop (Z.to_nat n) dat)) by (rewrite length_drop; lia).
  destruct (IH m2 h2 l2 (drop (Z.to_nat n) dat) Hst2) as (m' & h' & l' & E' & Hst' & Hc' & Ho' & Hs' & Hl');
    [rewrite length_drop; lia..|].
  exists m', h', l'. split; [exact E'|]. split; [done|]. split_and!; [|congruence| |lia].
  - rewrite Hc', Hc2, <- app_assoc. f_equal. unfold bytes. cbn [len data].
    replace (0 + zlen (take (Z.to_nat n) dat)) with n in Hpt by (rewrite length_take; lia).
    rewrite Hpt. cbn [app]. apply take_drop.
  - rewrite Hs', Hs2. unfold u64. rewrite Zplus_mod_idemp_l. f_equal. lia.
Qed.

(** The page at the tail is filled. *)
Lemma st_ok_fill m h l0 t tn page k : st_ok m h (l0 ++ [(t, tn)]) → length page = length (data tn) →
  0 <= k <= SM_PAGE_SIZE →
  st_ok (set_node m t (mkNode page k (uses tn) (next tn))) h (l0 ++ [(t, mkNode page k (uses tn) (next tn))]).
Proof using.
  intros [Hseg Hnd Ht Hn Hfr Hb Hs] Hp Hk. rewrite fmap_app in Hnd, Ht.
  apply lseg_app in Hseg as (q & Hseg & Hq). cbn [lseg] in Hq. destruct Hq as (-> & Htz & Htn & Hq).
  constructor; cbn [nodes set_node brk store_mem_size]; try done; try rewrite fmap_app; try done.
  - apply lseg_app. exists t. split; [|cbn [lseg next]; by rewrite lookup_insert_eq].
    eapply lseg_frame; [|exact Hseg]. intros a Ha. rewrite lookup_insert_ne; [done|]. intros ->.
    apply NoDup_app in Hnd as (_ & Hnin & _). apply (Hnin a Ha). by left.
  - intros _. apply Ht. by destruct l0.
  - apply Forall_app in Hn as [Hn0 Hn1]. apply Forall_app. split; [done|]. apply Forall_singleton.
    apply Forall_cons in Hn1 as [[Hn1 _] _]. split; cbn in *; lia.
  - intros a x. destruct (decide (a = t)) as [->|]; [intros _; by eapply Hfr|].
    rewrite lookup_insert_ne by done. apply Hfr.
Qed.

Lemma stmemAppend_ok m h l dat : st_ok m h l → zlen dat <= INT_MAX →
  ∃ m' h' l', stmemAppend junk m h dat (zlen dat) = Some (m', h') ∧ st_ok m' h' l' ∧
    content l' = content l ++ dat ∧ origin_offset h' = origin_offset h ∧
    store_mem_size m' = u64 (store_mem_size m + SM_PAGE_SIZE * (zlen l' - zlen l)) ∧ (length l <= length l')%nat.
Proof using junk_page.
  intros Hst Hmax. unfold stmemAppend. rewrite (lseg_head _ _ _ (ok_seg _ _ _ Hst)).
  destruct (bool_decide (l = [])) eqn:Hl; cbn [orb]; [by apply append_loop_ok; [| |lia]|].
  apply bool_decide_eq_false in Hl. pose proof (ok_tail _ _ _ Hst Hl) as Ht.
  destruct (exists_last Hl) as (l0 & [t tn] & ->). rewrite fmap_app in Ht. cbn [fmap list_fmap fst] in Ht.
  rewrite last_snoc in Ht. injection Ht as Ht. rewrite <- Ht.
  pose proof (ok_seg _ _ _ Hst) as Hseg. apply lseg_app in Hseg as (q & _ & Hq). cbn [lseg] in Hq.
  destruct Hq as (-> & Htz & Htn & _). destruct (Z.eqb_spec t 0) as [|_]; [done|]. rewrite Htn. cbn [mbind option_bind].
  pose proof (ok_nodes _ _ _ Hst) as Hn. apply Forall_app in Hn as [_ Hn]. apply Forall_cons in Hn as [[Hd Hk] _].
  cbn in Hd, Hk. destruct (Z.ltb_spec (len tn) SM_PAGE_SIZE) as [Hlt|]; [|by apply append_loop_ok; [| |lia]].
  unfold SM_PAGE_SIZE, INT_MAX in *. rewrite (i32_small (4096 - len tn)) by lia. set (n := XMIN (4096 - len tn) (zlen dat)).
  assert (Hn : 0 <= n <= zlen dat ∧ n <= 4096 - len tn).
  { unfold n, XMIN. destruct (Z.ltb_spec (4096 - len tn) (zlen dat)); lia. }
  rewrite slice_take by lia. cbn [mbind option_bind].
  destruct (memcpy_take (data tn) (len tn) (take (Z.to_nat n) dat)) as (page & -> & Hpl & Hpt);
    [lia|rewrite length_take; lia|]. cbn [mbind option_bind]. rewrite (i32_small (len tn + n)), i32_small by lia.
  replace (zlen dat - n) with (zlen (drop (Z.to_nat n) dat)) by (rewrite length_drop; lia).
  pose proof (st_ok_fill m h l0 t tn page (len tn + n) Hst Hpl ltac:(unfold SM_PAGE_SIZE; lia)) as Hst1.
  destruct (append_loop_ok (Z.to_nat (zlen dat)) _ h _ (drop (Z.to_nat n) dat) Hst1)
    as (m' & h' & l' & E & Hst' & Hc & Ho & Hs & Hl'); [rewrite length_drop; unfold INT_MAX; lia..|].
  exists m', h', l'. split; [exact E|]. split; [done|].
  rewrite length_app in Hs, Hl' |- *. cbn [length] in *. split_and!; try done.
  rewrite Hc, !content_app. cbn [content fmap list_fmap concat snd]. rewrite !app_nil_r, <- !app_assoc. f_equal.
  unfold bytes at 1. cbn [len data]. replace (len tn + zlen (take (Z.to_nat n) dat)) with (len tn + n) in Hpt
    by (rewrite length_take; lia). rewrite Hpt, <- app_assoc, take_drop. done.
Qed.
End append.

(** * Copying *)

Lemma seek_ok offset m : ∀ l fuel p t, lseg (nodes m) p l 0 → l ≠ [] → Forall node_ok l →
  (length l <= fuel)%nat → 0 <= t <= offset → t + zlen (content l) <= 9223372036854775807 →
  ∃ r, seek fuel m p t offset = Some r ∧
    match r with
    | None => t + zlen (content l) < offset
    | Some (q, t') => ∃ l1 nd l2, l = l1 ++ (q, nd) :: l2 ∧ t' = t + zlen (content l1) ∧ t' <= offset <= t' + len nd
    end.
Proof.
  induction l as [|[a nd] l IH]; intros fuel p t Hseg Hne Hok Hf Ht Hmax; [done|].
  destruct Hseg as (-> & Ha & Hn & Hseg). apply Forall_cons in Hok as [Hnode Hok].
  pose proof (bytes_len a nd Hnode) as Hb. rewrite content_cons, length_app in Hmax.
  destruct fuel as [|fuel]; [cbn in Hf; lia|]. cbn [seek]. rewrite Hn. cbn [mbind option_bind].
  destruct Hnode as [Hd Hk]. cbn in Hd, Hk. rewrite i64_small by lia.
  destruct (Z.ltb_spec (t + len nd) offset) as [Hlt|Hge].
  - rewrite (lseg_head _ _ _ Hseg). destruct (bool_decide (l = [])) eqn:Hl.
    { apply bool_decide_eq_true in Hl as ->. exists None. split; [done|]. rewrite content_cons, length_app. cbn. lia. }
    apply bool_decide_eq_false in Hl.
    destruct (IH fuel (next nd) (t + len nd)) as (r & -> & Hr); [done|done|done|cbn in Hf; lia|lia|lia|].
    exists r. split; [done|]. destruct r as [[q t']|].
    + destruct Hr as (l1 & nd' & l2 & -> & -> & Hr). exists ((a, nd) :: l1), nd', l2.
      rewrite content_cons, length_app. split_and!; [done|lia|lia|lia].
    + rewrite content_cons, length_app. lia.
  - eexists. split; [done|]. exists [], nd, l. cbn. split_and!; [done|lia|lia|lia].
Qed.

(** Writing [w] at the start of [rest]. *)
Lemma memcpy_at pre rest w : (length w <= length rest)%nat →
  memcpy (pre ++ rest) (zlen pre) w = Some ((pre ++ w) ++ drop (length w) rest).
Proof.
  intros Hw. rewrite <- (take_drop (length w) rest) at 1.
  rewrite memcpy_app by (rewrite length_take; lia). by rewrite app_assoc.
Qed.

Lemma copy_loop_ok m : ∀ l fuel p go pre rest, lseg (nodes m) p l 0 → Forall node_ok l →
  (length l <= fuel)%nat → 0 <= go <= zlen rest → go <= 9223372036854775807 →
  let w := take (Z.to_nat go) (content l) in
  copy_loop fuel m p go (pre ++ rest) (zlen pre) = Some ((pre ++ w) ++ drop (length w) rest, go - zlen w).
Proof.
  induction l as [|[a nd] l IH]; intros fuel p go pre rest Hseg Hok Hf Hgo Hmax; cbv zeta.
  { cbn in Hseg. subst p. cbn [content fmap list_fmap concat]. rewrite take_nil. cbn [length].
    rewrite drop_0, app_nil_r, Z.sub_0_r. by destruct fuel. }
  destruct Hseg as (-> & Ha & Hn & Hseg). apply Forall_cons in Hok as [Hnode Hok].
  pose proof (bytes_len a nd Hnode) as Hb. destruct Hnode as [Hd Hk]. cbn in Hd, Hk.
  destruct fuel as [|fuel]; [cbn in Hf; lia|]. cbn [copy_loop]. destruct (Z.eqb_spec a 0); [done|]. cbn [negb andb].
  destruct (Z.ltb_spec 0 go) as [Hp|].
  2:{ replace go with 0 by lia. cbn [Z.to_nat take length]. by rewrite drop_0, app_nil_r. }
  rewrite Hn. cbn [mbind option_bind]. unfold SM_PAGE_SIZE in *. rewrite (u64_small (len nd)) by lia. rewrite content_cons.
  destruct (Z.ltb_spec (len nd) go) as [Hlt|Hge].
  - rewrite slice_take by lia. cbn [mbind option_bind]. fold (bytes nd).
    rewrite memcpy_at by lia. cbn [mbind option_bind]. rewrite u64_small by lia.
    replace (zlen pre + len nd) with (zlen (pre ++ bytes nd)) by (rewrite length_app; lia).
    rewrite IH; [|done|done|cbn in Hf; lia|rewrite length_drop; lia|lia].
    rewrite take_app_ge by lia. replace (Z.to_nat go - length (bytes nd))%nat with (Z.to_nat (go - len nd)) by lia.
    rewrite !length_app, drop_drop, <- !app_assoc. do 2 f_equal. lia.
  - rewrite slice_take by lia. cbn [mbind option_bind].
    assert (E : take (Z.to_nat go) (bytes nd ++ content l) = take (Z.to_nat go) (data nd)).
    { rewrite take_app_le by lia. unfold bytes. rewrite take_take. f_equal. lia. }
    rewrite E. rewrite memcpy_at by (rewrite length_take; lia). cbn [mbind option_bind].
    assert (copy_loop fuel m (next nd) 0 ((pre ++ take (Z.to_nat go) (data nd)) ++ drop (length (take (Z.to_nat go) (data nd))) rest) (zlen pre)
      = Some ((pre ++ take (Z.to_nat go) (data nd)) ++ drop (length (take (Z.to_nat go) (data nd))) rest, 0)) as ->.
    { destruct fuel; cbn [copy_loop]; by rewrite andb_false_r. }
    do 2 f_equal. rewrite length_take. lia.
Qed.

Lemma stmemCopy_ok m h l offset buf size : st_ok m h l → 0 <= origin_offset h <= offset →
  origin_offset h + zlen (content l) <= 9223372036854775807 → 0 < size <= zlen buf →
  size <= 9223372036854775807 →
  let w := take (Z.to_nat size) (drop (Z.to_nat (offset - origin_offset h)) (content l)) in
  stmemCopy m h offset buf size = Some (w ++ drop (length w) buf, zlen w).
Proof.
  intros Hst Ho Hmax Hsz Hsz2. cbv zeta. pose proof (ok_seg _ _ _ Hst) as Hseg.
  pose proof (lseg_size _ _ _ _ Hseg (ok_nodup _ _ _ Hst)) as Hfu. fold (chain_fuel m) in Hfu.
  unfold stmemCopy. rewrite (lseg_head _ _ _ Hseg). destruct (bool_decide (l = [])) eqn:Hl.
  { apply bool_decide_eq_true in Hl as ->. cbn [content fmap list_fmap concat]. by rewrite drop_nil, take_nil. }
  apply bool_decide_eq_false in Hl. destruct (Z.ltb_spec 0 size); [|lia].
  destruct (seek_ok offset m l (chain_fuel m) (head h) (origin_offset h)) as (r & -> & Hr);
    [done|done|apply Hst|done|lia|lia|]. cbn [mbind option_bind].
  destruct r as [[q t']|]; [|by rewrite drop_ge, take_nil by lia].
  destruct Hr as (l1 & nd & l2 & -> & -> & Hr). apply lseg_app in Hseg as (q' & _ & Hq). cbn [lseg] in Hq.
  destruct Hq as (-> & Hqz & Hn & Hseg). rewrite Hn. cbn [mbind option_bind].
  pose proof (ok_nodes _ _ _ Hst) as Hok. apply Forall_app in Hok as [_ Hok]. apply Forall_cons in Hok as [Hnode Hok].
  pose proof (bytes_len q nd Hnode) as Hb. destruct Hnode as [Hd Hk]. cbn in Hd, Hk. unfold SM_PAGE_SIZE in *.
  set (into := offset - (origin_offset h + zlen (content l1))) in *. rewrite (i32_small into) by lia.
  rewrite (u64_small (len nd - into)) by lia. set (n := XMIN size (len nd - into)).
  assert (Hnr : 0 <= n <= size ∧ n <= len nd - into ∧ (n = size ∨ n = len nd - into)).
  { unfold n, XMIN. destruct (Z.ltb_spec size (len nd - into)); lia. }
  rewrite (i32_small n) by lia. unfold slice. rewrite decide_True by lia. cbn [mbind option_bind].
  set (src := take (Z.to_nat n) (drop (Z.to_nat into) (data nd))).
  assert (Hsrc : zlen src = n) by (unfold src; rewrite length_take, length_drop; lia).
  change (memcpy buf 0 src) with (memcpy ([] ++ buf) (zlen (@nil Z)) src). rewrite memcpy_at by lia.
  cbn [mbind option_bind app]. rewrite u64_small by lia. rewrite <- Hsrc.
  rewrite (copy_loop_ok m l2); [|done|done|rewrite length_app in Hfu; cbn in Hfu; lia|rewrite length_drop; lia|lia].
  cbn [mbind option_bind]. rewrite content_app, content_cons.
  replace (Z.to_nat (offset - origin_offset h)) with (length (content l1) + Z.to_nat into)%nat by lia.
  rewrite drop_app_add, drop_app_le by lia.
  assert (Ew : take (Z.to_nat size) (drop (Z.to_nat into) (bytes nd) ++ content l2)
    = src ++ take (Z.to_nat (size - zlen src)) (content l2)).
  { assert (Hdb : drop (Z.to_nat into) (bytes nd) = take (Z.to_nat (len nd - into)) (drop (Z.to_nat into) (data nd))).
    { unfold bytes. rewrite take_drop_commute. do 2 f_equal. lia. }
    rewrite Hdb, take_app, take_take, length_take, length_drop. f_equal; [unfold src; f_equal; lia|]. f_equal. lia. }
  assert (zlen (take (Z.to_nat (size - zlen src)) (content l2)) <= size - zlen src) by (rewrite length_take; lia).
  rewrite Ew, drop_drop, !length_app. do 2 f_equal. rewrite i64_small; lia.
Qed.

(** * An object's stream *)

Inductive st_op := SAppend (dat : list Z) | SFreeUpto (target : Z).

Definition st_step (junk : Z → list Z) (st : mem * mem_hdr) (o : st_op) : option (mem * mem_hdr) :=
  let '(m, h) := st in
  match o with
  | SAppend dat => stmemAppend junk m h dat (zlen dat)
  | SFreeUpto target => '(m', h', _) ← stmemFreeDataUpto m h target; Some (m', h')
  end.

Definition st_run (junk : Z → list Z) (st : mem * mem_hdr) (os : list st_op) : option (mem * mem_hdr) :=
  foldl (λ r o, s ← r; st_step junk s o) (Some st) os.

Definition appended (os : list st_op) : list Z :=
  concat ((λ o, match o with SAppend dat => dat | SFreeUpto _ => [] end) <$> os).

(** Appends fit in an [int]; the offsets freed up to never go back. *)
Fixpoint st_ops_ok (t : Z) (os : list st_op) : Prop :=
  match os with
  | [] => True
  | SAppend dat :: os' => zlen dat <= INT_MAX ∧ st_ops_ok t os'
  | SFreeUpto target :: os' => t <= target ∧ st_ops_ok target os'
  end.
Definition last_target (t : Z) (os : list st_op) : Z :=
  foldl (λ t o, match o with SAppend _ => t | SFreeUpto target => target end) t os.

(** The state after [stream] was appended and data up to [t] at most freed. *)
Record st_inv (s0 t : Z) (stream : list Z) (m : mem) (h : mem_hdr) (l : list (Z * mem_node)) : Prop := mkStInv {
  inv_ok : st_ok m h l;
  inv_origin : 0 <= origin_offset h <= t;
  inv_content : content l = drop (Z.to_nat (origin_offset h)) stream;
  inv_end : origin_offset h <= zlen stream;
  inv_count : store_mem_size m = u64 (s0 + SM_PAGE_SIZE * zlen l) }.

Section run.
Variable junk : Z → list Z.
Hypothesis junk_page : ∀ a, zlen (junk a) = SM_PAGE_SIZE.

Lemma inv_content_length s0 t stream m h l : st_inv s0 t stream m h l →
  origin_offset h + zlen (content l) = zlen stream.
Proof using. intros [_ Ho Hc He _]. rewrite Hc, length_drop. lia. Qed.

Lemma st_run_inv os : ∀ s0 t stream m h l, st_inv s0 t stream m h l → st_ops_ok t os →
  zlen stream + zlen (appended os) <= 9223372036854775807 →
  ∃ m' h' l', st_run junk (m, h) os = Some (m', h') ∧ st_inv s0 (last_target t os) (stream ++ appended os) m' h' l'.
Proof using junk_page.
  induction os as [|o os IH]; intros s0 t stream m h l Hi Hok Hmax.
  { exists m, h, l. split; [done|]. by rewrite app_nil_r. }
  pose proof (inv_content_length _ _ _ _ _ _ Hi) as Hlen. pose proof Hi as [Hst Ho Hc He Hs].
  unfold st_run, appended in *. cbn [foldl mbind option_bind fmap list_fmap concat] in *. rewrite length_app in Hmax.
  destruct o as [dat|target]; cbn [st_ops_ok st_step] in *; destruct Hok as [Hop Hok].
  - destruct (stmemAppend_ok junk junk_page m h l dat Hst Hop) as (m1 & h1 & l1 & -> & Hst1 & Hc1 & Ho1 & Hs1 & Hl1).
    rewrite app_assoc. apply IH with l1; [|done|rewrite length_app; lia].
    constructor; [done|lia| |rewrite length_app; lia|].
    + rewrite Hc1, Hc, Ho1, drop_app_le by lia. done.
    + rewrite Hs1, Hs. unfold u64. rewrite Zplus_mod_idemp_l. f_equal. lia.
  - destruct (stmemFreeDataUpto_ok m h l target Hst ltac:(lia) ltac:(lia)) as (m1 & h1 & l1 & l2 & -> & Hst1 & F & Ho1).
    cbn [mbind option_bind]. cbn [app]. destruct F as [-> H1 H2 H3 H4 H5 H6 H7].
    rewrite content_app, length_app in *.
    apply IH with l2; [|done|cbn in Hmax; lia]. constructor; [done|lia| |lia|].
    + rewrite Ho1. replace (Z.to_nat (origin_offset h + zlen (content l1)))
        with (Z.to_nat (origin_offset h) + length (content l1))%nat by lia.
      by rewrite <- drop_drop, <- Hc, drop_app_length.
    + rewrite H6, Hs. unfold u64. rewrite Zminus_mod_idemp_l. f_equal. lia.
Qed.

Lemma st_inv_start m : st_ok m (mkHdr 0 0 0) [] → st_inv (store_mem_size m) 0 [] m (mkHdr 0 0 0) [].
Proof using.
  intros Hst. constructor; cbn; [done|lia|done|lia|]. rewrite Z.add_0_r, u64_small by apply Hst. done.
Qed.
End run.

Lemma free_all_ok : ∀ l fuel m p, lseg (nodes m) p l 0 → NoDup l.*1 → (length l <= fuel)%nat →
  0 <= store_mem_size m < 18446744073709551616 →
  ∃ m', free_all fuel m p = Some m' ∧ store_mem_size m' = u64 (store_mem_size m - SM_PAGE_SIZE * zlen l).
Proof.
  induction l as [|[a nd] l IH]; intros fuel m p Hseg Hnd Hf Hs.
  { cbn in Hseg. subst p. exists m. rewrite Z.mul_0_r, Z.sub_0_r, u64_small by done. by destruct fuel. }
  destruct Hseg as (-> & Ha & Hn & Hseg). destruct fuel as [|fuel]; [cbn in Hf; lia|]. cbn [free_all].
  destruct (Z.eqb_spec a 0); [done|]. rewrite Hn. cbn [mbind option_bind].
  destruct (release_ok m a nd Hn) as (m1 & -> & _ & Hm1 & Hfr & _). cbn [mbind option_bind].
  cbn [fmap list_fmap fst] in Hnd. apply NoDup_cons in Hnd as [Hnin Hnd].
  destruct (IH fuel m1 (next nd)) as (m' & -> & Hm'); [|done|cbn in Hf; lia|rewrite Hm1; apply u64_range|].
  { eapply lseg_frame; [|exact Hseg]. intros b Hb. apply Hfr. by intros ->. }
  exists m'. split; [done|]. rewrite Hm', Hm1. unfold u64. rewrite Zminus_mod_idemp_l. f_equal. cbn [length]. lia.
Qed.

(** C34: after any sequence of appends and frees of an object's data, in which
    the offsets freed up to do not go back, the origin is at most the last of
    them, and a copy at any offset from the origin on delivers exactly the bytes
    of the appended stream there, as many as asked for or as there are, and
    touches no other byte of the buffer. *)
Theorem stmem_holds_stream junk m0 os :
  (∀ a, zlen (junk a) = SM_PAGE_SIZE) → st_ok m0 (mkHdr 0 0 0) [] → st_ops_ok 0 os →
  zlen (appended os) <= 9223372036854775807 →
  ∃ m h, st_run junk (m0, mkHdr 0 0 0) os = Some (m, h) ∧ 0 <= origin_offset h <= last_target 0 os ∧
    ∀ offset size buf, origin_offset h <= offset → 0 < size <= zlen buf → size <= 9223372036854775807 →
      let w := take (Z.to_nat size) (drop (Z.to_nat offset) (appended os)) in
      stmemCopy m h offset buf size = Some (w ++ drop (length w) buf, zlen w).
Proof.
  intros Hj Hst Hok Hmax.
  destruct (st_run_inv junk Hj os _ 0 [] m0 _ [] (st_inv_start m0 Hst) Hok ltac:(cbn; lia)) as (m & h & l & E & Hi).
  cbn [app] in Hi. pose proof (inv_content_length _ _ _ _ _ _ Hi) as Hlen. destruct Hi as [Hst' Ho Hc He _].
  exists m, h. split; [exact E|]. split; [done|]. intros offset size buf Hoff Hsz Hsz2. cbv zeta.
  rewrite (stmemCopy_ok m h l) by (done || lia). rewrite Hc, drop_drop.
  by replace (Z.to_nat (origin_offset h) + Z.to_nat (offset - origin_offset h))%nat with (Z.to_nat offset) by lia.
Qed.

Definition ex_junk (a : Z) : list Z := replicate 4096 a.
Definition ex_mem : mem := mkMem ∅ 0 1.
Definition ex_ops : list st_op := [SAppend (replicate 5000 7); SFreeUpto 4500; SAppend [1; 2; 3]].

Lemma ex_mem_ok : st_ok ex_mem (mkHdr 0 0 0) [].
Proof.
  constructor; cbn; try done; try lia. by apply NoDup_nil.
Qed.

Lemma ex_ops_ok : st_ops_ok 0 ex_ops.
Proof. split; [vm_compute; discriminate|]. split; [lia|]. split; [vm_compute; discriminate|done]. Qed.

Lemma stmem_holds_stream_witness :
  ∃ m h, st_run ex_junk (ex_mem, mkHdr 0 0 0) ex_ops = Some (m, h) ∧ 0 <= origin_offset h <= 4500 ∧
    ∀ offset size buf, origin_offset h <= offset → 0 < size <= zlen buf → size <= 9223372036854775807 →
      let w := take (Z.to_nat size) (drop (Z.to_nat offset) (appended ex_ops)) in
      stmemCopy m h offset buf size = Some (w ++ drop (length w) buf, zlen w).
Proof.
  apply (stmem_holds_stream ex_junk ex_mem ex_ops).
  - intros a. unfold ex_junk. by rewrite length_replicate.
  - exact ex_mem_ok.
  - exact ex_ops_ok.
  - vm_compute. discriminate.
Defined.

(** the page accounting balances: whatever was appended and freed, freeing
    the whole object brings [store_mem_size] back to where it was and leaves an
    empty header. *)
Theorem stmem_accounting_balances junk m0 os :
  (∀ a, zlen (junk a) = SM_PAGE_SIZE) → st_ok m0 (mkHdr 0 0 0) [] → st_ops_ok 0 os →
  zlen (appended os) <= 9223372036854775807 →
  ∃ m h m', st_run junk (m0, mkHdr 0 0 0) os = Some (m, h) ∧
    stmemFree m h = Some (m', mkHdr 0 0 0) ∧ store_mem_size m' = store_mem_size m0.
Proof.
  intros Hj Hst Hok Hmax.
  destruct (st_run_inv junk Hj os _ 0 [] m0 _ [] (st_inv_start m0 Hst) Hok ltac:(cbn; lia)) as (m & h & l & E & Hi).
  destruct Hi as [Hst' _ _ _ Hs]. pose proof (ok_seg _ _ _ Hst') as Hseg. pose proof (ok_nodup _ _ _ Hst') as Hnd.
  destruct (free_all_ok l (chain_fuel m) m (head h) Hseg Hnd) as (m' & Ef & Hm'); [by eapply lseg_size|apply Hst'|].
  exists m, h, m'. split; [exact E|]. unfold stmemFree. rewrite Ef. split; [done|].
  rewrite Hm', Hs. unfold u64. rewrite Zminus_mod_idemp_l.
  replace (store_mem_size m0 + SM_PAGE_SIZE * zlen l - SM_PAGE_SIZE * zlen l) with (store_mem_size m0) by lia.
  apply Z.mod_small. apply Hst.
Qed.

Lemma stmem_accounting_balances_witness :
  ∃ m h m', st_run ex_junk (ex_mem, mkHdr 0 0 0) ex_ops = Some (m, h) ∧
    stmemFree m h = Some (m', mkHdr 0 0 0) ∧ store_mem_size m' = 0.
Proof.
  apply (stmem_accounting_balances ex_junk ex_mem ex_ops).
  - intros a. unfold ex_junk. by rewrite length_replicate.
  - exact ex_mem_ok.
  - exact ex_ops_ok.
  - vm_compute. discriminate.
Defined.
