(* ===== verification/Base64.v ===== *)
(** Base64 (lib/base64.c): [base64_init], [base64_decode], [base64_encode] and
    [base64_encode_bin].

    A C string is the list of its bytes before the terminator. The static result
    arrays hold 8192 bytes: [push] appends at the next index and is [None] when
    that lies outside the array. *)
From S2P Require Import Prelude CString.

Module Base64.

Definition BASE64_VALUE_SZ : Z := 256.
Definition BASE64_RESULT_SZ : Z := 8192.
Definition base64_code : list Z :=
  bytes_of "ABCDEFGHIJKLMNOPQRSTUVWXYZabcdefghijklmnopqrstuvwxyz0123456789+/".

(** The value table: -1 everywhere, then the 64 codes, then '='. *)
Fixpoint init_codes (t : list Z) (codes : list Z) (i : Z) : option (list Z) :=
  match codes with
  | [] => zset t 61 0
  | c :: codes' => t' ← zset t c i; init_codes t' codes' (i + 1)
  end.
Definition base64_init : list Z :=
  default [] (init_codes (replicate (Z.to_nat BASE64_VALUE_SZ) (-1)) base64_code 0).

Definition push (result : list Z) (c : Z) : option (list Z) :=
  if zlen result <? BASE64_RESULT_SZ then Some (result ++ [u8 c]) else None.

(** The terminator needs an index too. *)
Definition terminate (result : list Z) : option (list Z) :=
  if zlen result <? BASE64_RESULT_SZ then Some result else None.

Definition base64_value (k : Z) : option Z := base64_init.[k].

Fixpoint decode_loop (p : list Z) (val c : Z) (result : list Z) : option (list Z) :=
  match p with
  | [] => Some result
  | ch :: p' =>
      if zlen result + 4 <? BASE64_RESULT_SZ then
        v ← base64_value (u8 ch mod BASE64_VALUE_SZ);
        if v <? 0 then decode_loop p' val c result
        else
          let val := i64 (Z.shiftl val 6 + v) in
          if c + 1 <? 4 then decode_loop p' val (c + 1) result
          else
            r1 ← push result (Z.shiftr val 16);
            r2 ← push r1 (Z.land (Z.shiftr val 8) 255);
            r3 ← push r2 (Z.land val 255);
            decode_loop p' 0 0 r3
      else Some result
  end.

Definition base64_decode (p : list Z) : option (list Z) :=
  r ← decode_loop p 0 0 []; terminate r.

Definition code (k : Z) : option Z := base64_code.[k].

(** The body of the encoding loops: one byte [c] more. *)
Definition encode_byte (bits char_count : Z) (result : list Z) (c : Z) : option (Z * Z * list Z) :=
  let bits := i32 (bits + c) in
  if char_count + 1 =? 3 then
    a0 ← code (Z.shiftr bits 18); r0 ← push result a0;
    a1 ← code (Z.land (Z.shiftr bits 12) 63); r1 ← push r0 a1;
    a2 ← code (Z.land (Z.shiftr bits 6) 63); r2 ← push r1 a2;
    a3 ← code (Z.land bits 63); r3 ← push r2 a3;
    Some (0, 0, r3)
  else Some (i32 (Z.shiftl bits 8), char_count + 1, result).

(** What follows the loops: the last quantum and the terminator. *)
Definition encode_end (bits char_count : Z) (result : list Z) : option (list Z) :=
  if char_count =? 0 then terminate result
  else
    let bits := i32 (Z.shiftl bits (16 - 8 * char_count)) in
    a0 ← code (Z.shiftr bits 18); r0 ← push result a0;
    a1 ← code (Z.land (Z.shiftr bits 12) 63); r1 ← push r0 a1;
    r3 ← (if char_count =? 1 then r2 ← push r1 61; push r2 61
          else a2 ← code (Z.land (Z.shiftr bits 6) 63); r2 ← push r1 a2; push r2 61);
    terminate r3.

Fixpoint encode_loop (s : list Z) (bits char_count : Z) (result : list Z) : option (Z * Z * list Z) :=
  match s with
  | [] => Some (bits, char_count, result)
  | c :: s' =>
      if zlen result <? BASE64_RESULT_SZ - 5 then
        '(bits', n', r') ← encode_byte bits char_count result (u8 c);
        encode_loop s' bits' n' r'
      else Some (bits, char_count, result)
  end.

Definition base64_encode (decoded_str : list Z) : option (list Z) :=
  '(bits, n, r) ← encode_loop decoded_str 0 0 []; encode_end bits n r.

(** [len] counts down to 0; [None] when [data] ends first. *)
Fixpoint encode_bin_loop (data : list Z) (len bits char_count : Z) (result : list Z)
  : option (Z * Z * list Z) :=
  if (len =? 0) || negb (zlen result <? BASE64_RESULT_SZ - 5) then Some (bits, char_count, result)
  else
    match data with
    | [] => None
    | c :: data' =>
        '(bits', n', r') ← encode_byte bits char_count result (u8 c);
        encode_bin_loop data' (len - 1) bits' n' r'
    end.

Definition base64_encode_bin (data : list Z) (len : Z) : option (list Z) :=
  '(bits, n, r) ← encode_bin_loop data len 0 0 []; encode_end bits n r.

End Base64.

Import Base64.

(** * Codes *)

Lemma code_value_all :
  Forall (λ i, ∃ c, code i = Some c ∧ 0 < c < 128 ∧ base64_value c = Some i) (seqZ 0 64).
Proof.
  apply Forall_forall. intros i Hi%elem_of_seqZ.
  assert (Forall (λ i, match code i with
                       | Some c => (0 <? c) && (c <? 128) && bool_decide (base64_value c = Some i)
                       | None => false end = true) (seqZ 0 64)) as Hall
    by (apply (bool_decide_unpack _); vm_compute; exact I).
  rewrite Forall_forall in Hall. specialize (Hall i ltac:(by apply elem_of_seqZ)). cbn beta in Hall.
  destruct (code i) as [c|]; [|done]. apply andb_true_iff in Hall as [Hall1 Hall2].
  exists c. split; [done|]. split; [lia|]. by apply bool_decide_eq_true in Hall2.
Qed.

Lemma code_ok i : 0 <= i < 64 → ∃ c, code i = Some c ∧ 0 < c < 128 ∧ base64_value c = Some i.
Proof.
  intros Hi. pose proof code_value_all as H. rewrite Forall_forall in H. apply H, elem_of_seqZ. lia.
Qed.

(** * One quantum of four characters and three bytes *)

Lemma push_ok r c : zlen r < 8192 → push r c = Some (r ++ [u8 c]).
Proof. intros. unfold push, BASE64_RESULT_SZ. destruct (Z.ltb_spec (zlen r) 8192); [done|lia]. Qed.

Lemma shiftr_div a k : 0 <= k → Z.shiftr a k = a / 2 ^ k.
Proof. apply Z.shiftr_div_pow2. Qed.
Lemma land_63 a : Z.land a 63 = a mod 64.
Proof. exact (Z.land_ones a 6 ltac:(lia)). Qed.
Lemma land_255 a : Z.land a 255 = a mod 256.
Proof. exact (Z.land_ones a 8 ltac:(lia)). Qed.

(** The characters [cs] decode to the 24 bits [v]. *)
Definition quantum (v : Z) (cs : list Z) : Prop :=
  ∃ c0 c1 c2 c3, cs = [c0; c1; c2; c3] ∧ Forall (λ c, 0 < c < 256) cs ∧
    base64_value c0 = Some (v / 262144) ∧ base64_value c1 = Some (v / 4096 mod 64) ∧
    base64_value c2 = Some (v / 64 mod 64) ∧ base64_value c3 = Some (v mod 64).

Lemma decode_char ch p val c res v : 0 < ch < 256 → base64_value ch = Some v → 0 <= v →
  zlen res + 4 < 8192 →
  decode_loop (ch :: p) val c res =
    (let val := i64 (Z.shiftl val 6 + v) in
     if c + 1 <? 4 then decode_loop p val (c + 1) res
     else r1 ← push res (Z.shiftr val 16); r2 ← push r1 (Z.land (Z.shiftr val 8) 255);
          r3 ← push r2 (Z.land val 255); decode_loop p 0 0 r3).
Proof.
  intros Hch Hv Hv0 Hr. cbn [decode_loop]. unfold BASE64_RESULT_SZ, BASE64_VALUE_SZ.
  destruct (Z.ltb_spec (zlen res + 4) 8192); [|lia]. rewrite u8_small, Z.mod_small, Hv by lia. cbn [mbind option_bind].
  destruct (Z.ltb_spec v 0); [lia|done].
Qed.

Lemma decode_quantum v cs p res : 0 <= v < 16777216 → quantum v cs → zlen res + 4 < 8192 →
  decode_loop (cs ++ p) 0 0 res = decode_loop p 0 0 (res ++ [v / 65536; v / 256 mod 256; v mod 256]).
Proof.
  intros Hv (c0 & c1 & c2 & c3 & -> & Hc & H0 & H1 & H2 & H3) Hr. cbn [app].
  repeat (apply Forall_cons in Hc as [? Hc]).
  pose proof (Z.mod_pos_bound (v / 4096) 64 ltac:(lia)). pose proof (Z.mod_pos_bound (v / 64) 64 ltac:(lia)).
  pose proof (Z.mod_pos_bound v 64 ltac:(lia)).
  assert (0 <= v / 262144 < 64) by (split; [apply Z.div_pos; lia|apply Z.div_lt_upper_bound; lia]).
  rewrite (decode_char c0 _ _ _ _ _ ltac:(done) H0) by lia. cbv zeta. change (0 + 1 <? 4) with true. cbv iota.
  rewrite (decode_char c1 _ _ _ _ _ ltac:(done) H1) by lia. cbv zeta. change (0 + 1 + 1 <? 4) with true. cbv iota.
  rewrite (decode_char c2 _ _ _ _ _ ltac:(done) H2) by lia. cbv zeta. change (0 + 1 + 1 + 1 <? 4) with true. cbv iota.
  rewrite (decode_char c3 _ _ _ _ _ ltac:(done) H3) by lia. cbv zeta. change (0 + 1 + 1 + 1 + 1 <? 4) with false. cbv iota.
  rewrite !Z.shiftl_mul_pow2 by lia. change (2 ^ 6) with 64. rewrite Z.mul_0_l, Z.add_0_l.
  rewrite (i64_small (v / 262144)), (i64_small (v / 262144 * 64 + v / 4096 mod 64)),
    (i64_small ((v / 262144 * 64 + v / 4096 mod 64) * 64 + v / 64 mod 64)) by lia.
  assert (E : ((v / 262144 * 64 + v / 4096 mod 64) * 64 + v / 64 mod 64) * 64 + v mod 64 = v)
    by (Z.to_euclidean_division_equations; lia).
  rewrite E, i64_small, !shiftr_div, !land_255 by lia. change (2 ^ 16) with 65536. change (2 ^ 8) with 256.
  rewrite push_ok by lia. cbn [mbind option_bind]. rewrite push_ok by (rewrite length_app; cbn; lia).
  cbn [mbind option_bind]. rewrite push_ok by (rewrite !length_app; cbn; lia). cbn [mbind option_bind].
  rewrite <- !app_assoc. cbn [app]. pose proof (Z.mod_pos_bound (v / 256) 256 ltac:(lia)).
  pose proof (Z.mod_pos_bound v 256 ltac:(lia)).
  assert (0 <= v / 65536 < 256) by (split; [apply Z.div_pos; lia|apply Z.div_lt_upper_bound; lia]).
  by rewrite !u8_small by lia.
Qed.

(** The four characters of a full quantum. *)
Lemma encode_quantum v r : 0 <= v < 16777216 → zlen r <= 8184 →
  ∃ cs, quantum v cs ∧
    (a0 ← code (Z.shiftr v 18); r0 ← push r a0;
     a1 ← code (Z.land (Z.shiftr v 12) 63); r1 ← push r0 a1;
     a2 ← code (Z.land (Z.shiftr v 6) 63); r2 ← push r1 a2;
     a3 ← code (Z.land v 63); push r2 a3) = Some (r ++ cs).
Proof.
  intros Hv Hr. rewrite !shiftr_div, !land_63 by lia.
  change (2 ^ 18) with 262144. change (2 ^ 12) with 4096. change (2 ^ 6) with 64.
  pose proof (Z.mod_pos_bound (v / 4096) 64 ltac:(lia)). pose proof (Z.mod_pos_bound (v / 64) 64 ltac:(lia)).
  pose proof (Z.mod_pos_bound v 64 ltac:(lia)).
  assert (0 <= v / 262144 < 64) by (split; [apply Z.div_pos; lia|apply Z.div_lt_upper_bound; lia]).
  destruct (code_ok (v / 262144)) as (c0 & -> & B0 & V0); [lia|].
  destruct (code_ok (v / 4096 mod 64)) as (c1 & -> & B1 & V1); [lia|].
  destruct (code_ok (v / 64 mod 64)) as (c2 & -> & B2 & V2); [lia|].
  destruct (code_ok (v mod 64)) as (c3 & -> & B3 & V3); [lia|]. cbn [mbind option_bind].
  exists [c0; c1; c2; c3]. split.
  { exists c0, c1, c2, c3. split_and!; try done. repeat (apply Forall_cons; split; [lia|]). by apply Forall_nil. }
  repeat (rewrite push_ok by (rewrite ?length_app; cbn; lia); cbn [mbind option_bind]).
  rewrite <- !app_assoc. cbn [app]. by rewrite !u8_small by lia.
Qed.

(** * Whole strings *)

Lemma encode_byte_1 out x : 0 <= x < 256 → encode_byte 0 0 out x = Some (x * 256, 1, out).
Proof.
  intros. unfold encode_byte. change (0 + 1 =? 3) with false. cbv iota zeta.
  by rewrite Z.add_0_l, (i32_small x), Z.shiftl_mul_pow2, i32_small by lia.
Qed.
Lemma encode_byte_2 out b y : 0 <= b < 65536 → 0 <= y < 256 →
  encode_byte b 1 out y = Some ((b + y) * 256, 2, out).
Proof.
  intros. unfold encode_byte. change (1 + 1 =? 3) with false. cbv iota zeta.
  by rewrite (i32_small (b + y)), Z.shiftl_mul_pow2, i32_small by lia.
Qed.
Lemma encode_byte_3 out b z : 0 <= b + z < 16777216 → zlen out <= 8184 →
  ∃ cs, quantum (b + z) cs ∧ encode_byte b 2 out z = Some (0, 0, out ++ cs).
Proof.
  intros Hb Hout. destruct (encode_quantum (b + z) out Hb Hout) as (cs & Hq & E). exists cs. split; [done|].
  unfold encode_byte. change (2 + 1 =? 3) with true. cbv iota zeta. rewrite i32_small by lia. revert E.
  repeat (match goal with |- context [mbind _ ?e] => destruct e; cbn [mbind option_bind]; [|done] end).
  by intros [= ->].
Qed.

Lemma encode_loop_cons c s bits n out : 0 <= c < 256 → zlen out < 8187 →
  encode_loop (c :: s) bits n out = ('(bits', n', r') ← encode_byte bits n out c; encode_loop s bits' n' r').
Proof.
  intros. cbn [encode_loop]. unfold BASE64_RESULT_SZ. destruct (Z.ltb_spec (zlen out) (8192 - 5)); [|lia].
  by rewrite u8_small.
Qed.

(** The last quantum, of one and of two bytes. *)
Lemma encode_end_1 out x : 0 <= x < 256 → zlen out <= 8184 →
  ∃ cs, quantum (x * 65536) cs ∧ encode_end (x * 256) 1 out = Some (out ++ cs).
Proof.
  intros Hx Hout. destruct (code_ok (x * 65536 / 262144)) as (c0 & E0 & B0 & V0).
  { split; [apply Z.div_pos; lia|apply Z.div_lt_upper_bound; lia]. }
  destruct (code_ok (x * 65536 / 4096 mod 64)) as (c1 & E1 & B1 & V1); [apply Z.mod_pos_bound; lia|].
  exists [c0; c1; 61; 61]. split.
  { exists c0, c1, 61, 61. split_and!; try done.
    - repeat (apply Forall_cons; split; [lia|]). by apply Forall_nil.
    - replace (x * 65536 / 64 mod 64) with 0 by (Z.to_euclidean_division_equations; lia). reflexivity.
    - replace (x * 65536 mod 64) with 0 by (Z.to_euclidean_division_equations; lia). reflexivity. }
  unfold encode_end. change (1 =? 0) with false. change (1 =? 1) with true. cbv iota zeta.
  change (16 - 8 * 1) with 8. rewrite Z.shiftl_mul_pow2, i32_small by lia.
  replace (x * 256 * 2 ^ 8) with (x * 65536) by lia. rewrite !shiftr_div, land_63 by lia.
  change (2 ^ 18) with 262144. change (2 ^ 12) with 4096. rewrite E0, E1.
  repeat (cbn [mbind option_bind]; rewrite push_ok by (rewrite ?length_app; cbn; lia)). cbn [mbind option_bind].
  unfold terminate, BASE64_RESULT_SZ. rewrite !length_app. cbn [length].
  match goal with |- context [?a <? ?b] => destruct (Z.ltb_spec a b); [|lia] end.
  rewrite <- !app_assoc. cbn [app]. by rewrite !u8_small by lia.
Qed.

Lemma encode_end_2 out b : 0 <= b < 65536 → zlen out <= 8184 →
  ∃ cs, quantum (b * 256) cs ∧ encode_end (b * 256) 2 out = Some (out ++ cs).
Proof.
  intros Hb Hout. destruct (code_ok (b * 256 / 262144)) as (c0 & E0 & B0 & V0).
  { split; [apply Z.div_pos; lia|apply Z.div_lt_upper_bound; lia]. }
  destruct (code_ok (b * 256 / 4096 mod 64)) as (c1 & E1 & B1 & V1); [apply Z.mod_pos_bound; lia|].
  destruct (code_ok (b * 256 / 64 mod 64)) as (c2 & E2 & B2 & V2); [apply Z.mod_pos_bound; lia|].
  exists [c0; c1; c2; 61]. split.
  { exists c0, c1, c2, 61. split_and!; try done.
    - repeat (apply Forall_cons; split; [lia|]). by apply Forall_nil.
    - replace (b * 256 mod 64) with 0 by (Z.to_euclidean_division_equations; lia). reflexivity. }
  unfold encode_end. change (2 =? 0) with false. change (2 =? 1) with false. cbv iota zeta.
  change (16 - 8 * 2) with 0. rewrite Z.shiftl_0_r, i32_small by lia. rewrite !shiftr_div, !land_63 by lia.
  change (2 ^ 18) with 262144. change (2 ^ 12) with 4096. change (2 ^ 6) with 64. rewrite E0, E1, E2.
  repeat (cbn [mbind option_bind]; rewrite push_ok by (rewrite ?length_app; cbn; lia)). cbn [mbind option_bind].
  unfold terminate, BASE64_RESULT_SZ. rewrite !length_app. cbn [length].
  match goal with |- context [?a <? ?b] => destruct (Z.ltb_spec a b); [|lia] end.
  rewrite <- !app_assoc. cbn [app]. by rewrite !u8_small by lia.
Qed.

Lemma quantum_length v cs : quantum v cs → zlen cs = 4.
Proof. by intros (? & ? & ? & ? & -> & _). Qed.

Lemma decode_bytes x y z : 0 <= x < 256 → 0 <= y < 256 → 0 <= z < 256 →
  let v := (x * 256 + y) * 256 + z in
  [v / 65536; v / 256 mod 256; v mod 256] = [x; y; z] ∧ 0 <= v < 16777216.
Proof.
  intros Hx Hy Hz. cbv zeta. split; [|lia]. f_equal; [|f_equal; [|f_equal]];
    Z.to_euclidean_division_equations; lia.
Qed.

(** What is encoded behind [out] decodes behind [res]. *)
Lemma encode_decode : ∀ k s out res, (length s <= 3 * k)%nat → Forall is_byte s →
  zlen out + 4 * Z.of_nat k <= 8188 → zlen res + 3 * Z.of_nat k <= 6141 →
  ∃ e, ('(bits, n, r) ← encode_loop s 0 0 out; encode_end bits n r) = Some (out ++ e) ∧
    decode_loop e 0 0 res = Some (res ++ s ++ replicate (Z.to_nat ((- zlen s) mod 3)) 0).
Proof.
  unfold is_byte. induction k as [|k IH]; intros s out res Hk Hs Hout Hres.
  { destruct s; [|cbn in Hk; lia]. exists []. cbn. rewrite !app_nil_r. split; [|done].
    unfold encode_end, terminate, BASE64_RESULT_SZ. change (0 =? 0) with true. cbv iota.
    destruct (Z.ltb_spec (zlen out) 8192); [done|lia]. }
  destruct s as [|x [|y [|z s]]].
  - exists []. cbn. rewrite !app_nil_r. split; [|done].
    unfold encode_end, terminate, BASE64_RESULT_SZ. change (0 =? 0) with true. cbv iota.
    destruct (Z.ltb_spec (zlen out) 8192); [done|lia].
  - apply Forall_cons in Hs as [Hx _]. destruct (encode_end_1 out x) as (cs & Hq & E); [lia|lia|].
    exists cs. rewrite encode_loop_cons, encode_byte_1 by lia. split; [exact E|].
    destruct (decode_bytes x 0 0) as [Hd Hv]; [lia..|]. replace ((x * 256 + 0) * 256 + 0) with (x * 65536) in * by lia.
    rewrite <- (app_nil_r cs), decode_quantum with (v := x * 65536) by (done || lia). by rewrite Hd.
  - apply Forall_cons in Hs as [Hx Hs]. apply Forall_cons in Hs as [Hy _].
    destruct (encode_end_2 out (x * 256 + y)) as (cs & Hq & E); [lia|lia|].
    exists cs. rewrite encode_loop_cons, encode_byte_1 by lia. cbn [mbind option_bind].
    rewrite encode_loop_cons, encode_byte_2 by lia. split; [exact E|].
    destruct (decode_bytes x y 0) as [Hd Hv]; [lia..|]. rewrite Z.add_0_r in *.
    rewrite <- (app_nil_r cs), decode_quantum with (v := (x * 256 + y) * 256) by (done || lia). by rewrite Hd.
  - apply Forall_cons in Hs as [Hx Hs]. apply Forall_cons in Hs as [Hy Hs]. apply Forall_cons in Hs as [Hz Hs].
    rewrite encode_loop_cons, encode_byte_1 by lia. cbn [mbind option_bind].
    rewrite encode_loop_cons, encode_byte_2 by lia. cbn [mbind option_bind].
    rewrite encode_loop_cons by lia. destruct (decode_bytes x y z) as [Hd Hv]; [lia..|].
    destruct (encode_byte_3 out ((x * 256 + y) * 256) z) as (cs & Hq & E); [lia|lia|]. rewrite E. cbn [mbind option_bind].
    pose proof (quantum_length _ _ Hq) as Hl. cbn [length] in Hk.
    destruct (IH s (out ++ cs) (res ++ [x; y; z])) as (e & Ee & De);
      [lia|done|rewrite length_app; lia|rewrite length_app; cbn; lia|].
    exists (cs ++ e). rewrite app_assoc. split; [exact Ee|].
    rewrite decode_quantum with (v := (x * 256 + y) * 256 + z) by (done || lia). rewrite Hd, De, <- !app_assoc. cbn [app].
    do 5 f_equal. cbn [length]. replace (- Z.of_nat (S (S (S (length s))))) with (- zlen s + (-1) * 3) by lia.
    by rewrite Z.mod_add by lia.
Qed.

Lemma encode_bin_eq s rest : ∀ bits n out,
  encode_bin_loop (s ++ rest) (zlen s) bits n out = encode_loop s bits n out.
Proof.
  induction s as [|c s IH]; intros bits n out.
  { destruct rest; cbn [encode_bin_loop length app]; by change (Z.of_nat 0 =? 0) with true. }
  cbn [encode_bin_loop app encode_loop]. destruct (Z.eqb_spec (zlen (c :: s)) 0); [cbn in *; lia|]. cbn [orb].
  destruct (zlen out <? BASE64_RESULT_SZ - 5); [|done]. cbn [negb].
  destruct (encode_byte bits n out (u8 c)) as [[[b' n'] r']|]; [|done]. cbn [mbind option_bind].
  replace (zlen (c :: s) - 1) with (zlen s) by (cbn [length]; lia). apply IH.
Qed.

(** C35: base64 encoding of any bytes whose code fits the result array decodes
    to the same bytes, padded with NULs to whole quanta, and the string encoder
    gives the same code for a string as the binary encoder for its bytes; no
    write leaves the arrays. *)
Theorem base64_round_trip data rest :
  Forall is_byte data → zlen data <= 6141 →
  ∃ e, base64_encode_bin (data ++ rest) (zlen data) = Some e ∧ (is_cstring data → base64_encode data = Some e) ∧
    base64_decode e = Some (data ++ replicate (Z.to_nat ((- zlen data) mod 3)) 0).
Proof.
  intros Hb Hl. destruct (encode_decode 2047 data [] []) as (e & E & D); [lia|done|cbn; lia|cbn; lia|].
  exists e. unfold base64_encode_bin, base64_encode, base64_decode. rewrite encode_bin_eq, E. split_and!; [done|done|].
  rewrite D. cbn [app mbind option_bind]. unfold terminate, BASE64_RESULT_SZ.
  rewrite length_app, length_replicate. pose proof (Z.mod_pos_bound (- zlen data) 3 ltac:(lia)).
  match goal with |- context [?a <? ?b] => destruct (Z.ltb_spec a b); [done|lia] end.
Qed.

Lemma base64_round_trip_witness :
  ∃ e, base64_encode_bin ([1; 0; 255; 7] ++ [9]) 4 = Some e ∧ (is_cstring [1; 0; 255; 7] → base64_encode [1; 0; 255; 7] = Some e) ∧
    base64_decode e = Some ([1; 0; 255; 7] ++ replicate 2 0).
Proof.
  apply (base64_round_trip [1; 0; 255; 7] [9]); [|vm_compute; discriminate].
  repeat (apply Forall_cons; split; [unfold is_byte; lia|]). by apply Forall_nil.
Defined.
