(* ===== verification/Rfc1738.v ===== *)
(** URL escaping (lib/rfc1738.c): [rfc1738_do_escape] with its growing static
    buffer, its three callers, [fromhex] and the in-place [rfc1738_unescape].

    Bytes are 0 to 255. The static buffer is its size, 0 while it is not
    allocated, and the bytes written so far; a write outside it is [None]. *)
From S2P Require Import Prelude CString.

Module Rfc1738.

Definition rfc1738_unsafe_chars : list Z :=
  [60; 62; 34; 35; 123; 125; 124; 92; 94; 126; 91; 93; 96; 39; 32].
Definition rfc1738_reserved_chars : list Z := [59; 47; 63; 58; 64; 61; 38].

Definition needs_escape (encode_reserved c : Z) : bool :=
  bool_decide (c ∈ rfc1738_unsafe_chars) ||
  ((0 <=? encode_reserved) && (c =? 37)) ||
  (bool_decide (c ∈ rfc1738_reserved_chars) && (0 <? encode_reserved)) ||
  (c <=? 31) || (c =? 127) || (128 <=? c).

Definition hex_upper (n : Z) : Z := if n <? 10 then 48 + n else 55 + n.

(** ["%%%02X"] writes three characters and a NUL. *)
Fixpoint escape_loop (encode_reserved bufsize : Z) (url buf : list Z) : option (list Z) :=
  match url with
  | [] => if zlen buf <? bufsize then Some buf else None
  | c :: url' =>
      if needs_escape encode_reserved c then
        if zlen buf + 3 <? bufsize
        then escape_loop encode_reserved bufsize url' (buf ++ [37; hex_upper (c / 16); hex_upper (c mod 16)])
        else None
      else if zlen buf <? bufsize then escape_loop encode_reserved bufsize url' (buf ++ [c])
      else None
  end.

(** The escaped string and the new size of the buffer. *)
Definition rfc1738_do_escape (bufsize : Z) (url : list Z) (encode_reserved : Z) : option (list Z * Z) :=
  let bufsize' := if (bufsize =? 0) || (bufsize <? u64 (zlen url * 3)) then u64 (zlen url * 3 + 1) else bufsize in
  e ← escape_loop encode_reserved bufsize' url [];
  Some (e, bufsize').

Definition rfc1738_escape (bufsize : Z) (url : list Z) := rfc1738_do_escape bufsize url 0.
Definition rfc1738_escape_unescaped (bufsize : Z) (url : list Z) := rfc1738_do_escape bufsize url (-1).
Definition rfc1738_escape_part (bufsize : Z) (url : list Z) := rfc1738_do_escape bufsize url 1.

Definition fromhex (ch : Z) : Z :=
  if (48 <=? ch) && (ch <=? 57) then ch - 48
  else if (97 <=? ch) && (ch <=? 102) then ch - 97 + 10
  else if (65 <=? ch) && (ch <=? 70) then ch - 65 + 10
  else -1.

(** [i] is write, [j] is read, both [int]; [s] the whole array. *)
Fixpoint unescape_loop (fuel : nat) (s : list Z) (i j : Z) : option (list Z) :=
  c ← s.[j];
  if c =? 0 then zset s i 0
  else
    match fuel with
    | O => None
    | S fuel' =>
        s1 ← zset s i c;
        cj ← s1.[j];
        if negb (cj =? 37) then unescape_loop fuel' s1 (i32 (i + 1)) (i32 (j + 1))
        else
          c1 ← s1.[i32 (j + 1)];
          if c1 =? 37 then unescape_loop fuel' s1 (i32 (i + 1)) (i32 (i32 (j + 1) + 1))
          else
            let v1 := fromhex c1 in
            if v1 <? 0 then unescape_loop fuel' s1 (i32 (i + 1)) (i32 (j + 1))
            else
              c2 ← s1.[i32 (j + 2)];
              let v2 := fromhex c2 in
              if v2 <? 0 then unescape_loop fuel' s1 (i32 (i + 1)) (i32 (j + 1))
              else
                let x := Z.lor (Z.shiftl v1 4) v2 in
                if (0 <? x) && (x <=? 255) then
                  s2 ← zset s1 i x; unescape_loop fuel' s2 (i32 (i + 1)) (i32 (i32 (j + 2) + 1))
                else unescape_loop fuel' s1 (i32 (i + 1)) (i32 (j + 1))
    end.

Definition rfc1738_unescape (s : list Z) : option (list Z) := unescape_loop (length s) s 0 0.

End Rfc1738.
Import Rfc1738.

(** * Unescaping in place *)

Definition hex_pair (a b : Z) : option Z :=
  let x := Z.lor (Z.shiftl (fromhex a) 4) (fromhex b) in
  if (0 <=? fromhex a) && (0 <=? fromhex b) && (0 <? x) && (x <=? 255) then Some x else None.

(** What unescaping means, on strings. *)
Fixpoint unescape_spec (s : list Z) : list Z :=
  match s with
  | [] => []
  | c :: r =>
      if c =? 37 then
        match r with
        | [] => [37]
        | d :: r2 =>
            if d =? 37 then 37 :: unescape_spec r2
            else match r2 with
                 | [] => 37 :: unescape_spec r
                 | e :: r3 => match hex_pair d e with
                              | Some x => x :: unescape_spec r3
                              | None => 37 :: unescape_spec r
                              end
                 end
        end
      else c :: unescape_spec r
  end.

(** The array with [d] written before index [i] and [t] left to read at [j]. *)
Definition split_at (a : list Z) (i j : Z) (d t : list Z) : Prop :=
  0 <= i <= j ∧ take (Z.to_nat i) a = d ∧ zlen d = i ∧ drop (Z.to_nat j) a = t.

Lemma split_get a i j d t k x : split_at a i j d t → t !! k = Some x → a.[j + Z.of_nat k] = Some x.
Proof.
  intros (Hij & _ & _ & Ht) Hk. rewrite <- Ht, lookup_drop in Hk. rewrite zget_pos by lia.
  by replace (Z.to_nat (j + Z.of_nat k)) with (Z.to_nat j + k)%nat by lia.
Qed.

Lemma split_step a i j d t c x k : split_at a i j d (c :: t) → (0 < k <= S (length t))%nat →
  ∃ a', zset a i x = Some a' ∧ length a' = length a ∧
        split_at a' (i + 1) (j + Z.of_nat k) (d ++ [x]) (drop k (c :: t)) ∧
        (∀ n, (0 < n)%nat → a'.[j + Z.of_nat n] = a.[j + Z.of_nat n]).
Proof.
  intros (Hij & Hd & Hl & Ht) Hk. assert (Hj : j < zlen a).
  { assert (length (drop (Z.to_nat j) a) = S (length t)) as E by by rewrite Ht. rewrite length_drop in E. lia. }
  exists (<[Z.to_nat i := x]> a). rewrite zset_Some by lia. rewrite length_insert. split_and!; try done.
  - split_and!; [lia|lia| |rewrite length_app; cbn; lia|].
    + replace (Z.to_nat (i + 1)) with (S (Z.to_nat i)) by lia.
      rewrite (take_S_r _ _ x) by (apply list_lookup_insert_eq; lia). by rewrite take_insert_ge, Hd by lia.
    + rewrite drop_insert_lt by lia. replace (Z.to_nat (j + Z.of_nat k)) with (Z.to_nat j + k)%nat by lia.
      by rewrite <- drop_drop, Ht.
  - intros n Hn. rewrite !zget_pos by lia. apply list_lookup_insert_ne. lia.
Qed.

Lemma zset_zset (a s1 : list Z) i c x : zset a i c = Some s1 → zset s1 i x = zset a i x.
Proof.
  intros [Hi ->]%zset_inv. rewrite !zset_Some by (rewrite ?length_insert; lia). by rewrite list_insert_insert_eq.
Qed.

Lemma zset_same (a s1 : list Z) i j c : zset a i c = Some s1 → a.[j] = Some c → s1.[j] = Some c.
Proof. intros Hs Hj. rewrite (zget_zset _ _ _ _ _ Hs). by case_decide. Qed.

(** The continuation of the loop after [k] bytes were read and [x] written. *)
Definition unescapes (todo : list Z) (d : list Z) (o : option (list Z)) : Prop :=
  ∃ a' tl, o = Some a' ∧ a' = d ++ unescape_spec todo ++ 0 :: tl.

Lemma unescapes_cons x todo d o s : unescapes todo (d ++ [x]) o → unescape_spec s = x :: unescape_spec todo →
  unescapes s d o.
Proof. intros (a' & tl & -> & ->) Hs. exists (d ++ unescape_spec s ++ 0 :: tl), tl. rewrite Hs, <- app_assoc. done. Qed.

Lemma unescape_end fuel a i j d rest : split_at a i j d (0 :: rest) → unescapes [] d (unescape_loop fuel a i j).
Proof.
  intros Hsp. pose proof (split_get _ _ _ _ _ 0 0 Hsp eq_refl) as H0. rewrite Z.add_0_r in H0.
  destruct (split_step a i j d rest 0 0 1 Hsp ltac:(lia)) as (a' & E & _ & (H1 & H2 & H3 & _) & _).
  exists a', (drop (Z.to_nat (i + 1)) a'). split.
  - destruct fuel; cbn [unescape_loop]; rewrite H0; cbn [mbind option_bind]; by change (0 =? 0) with true.
  - rewrite <- (take_drop (Z.to_nat (i + 1)) a') at 1. rewrite H2, <- app_assoc. done.
Qed.

Lemma unescape_loop_ok : ∀ fuel todo a i j d rest, is_cstring todo → (length todo <= fuel)%nat → j + zlen todo <= INT_MAX →
  split_at a i j d (todo ++ 0 :: rest) → unescapes todo d (unescape_loop fuel a i j).
Proof.
  unfold INT_MAX. induction fuel as [|fuel IH]; intros todo a i j d rest Hc Hf Hm Hsp.
  { destruct todo as [|c r]; [|cbn in Hf; lia]. by eapply unescape_end. }
  destruct todo as [|c r]; [by eapply unescape_end|].
  unfold is_cstring in Hc. apply Forall_cons in Hc as [Hc0 Hc]. cbn [app length] in *. cbn [unescape_loop].
  assert (0 <= i <= j) as Hij by apply Hsp. rewrite !(i32_small (i + 1)), !(i32_small (j + 1)) by lia.
  pose proof (split_get _ _ _ _ _ 0 c Hsp eq_refl) as H0. rewrite Z.add_0_r in H0. rewrite H0. cbn [mbind option_bind].
  destruct (Z.eqb_spec c 0); [lia|].
  destruct (split_step a i j d (r ++ 0 :: rest) c c 1 Hsp) as (s1 & E1 & _ & Hsp1 & Hrd); [rewrite length_app; cbn; lia|].
  rewrite E1. cbn [mbind option_bind]. rewrite (zset_same _ _ _ _ _ E1 H0). cbn [mbind option_bind].
  change (drop 1 (c :: r ++ 0 :: rest)) with (r ++ 0 :: rest) in Hsp1. change (Z.of_nat 1) with 1 in Hsp1.
  assert (Hstay : unescape_spec (c :: r) = c :: unescape_spec r →
                  unescapes (c :: r) d (unescape_loop fuel s1 (i + 1) (j + 1))).
  { intros Hs. apply (unescapes_cons c r); [|done]. eapply IH; [exact Hc|lia|lia|exact Hsp1]. }
  destruct (Z.eqb_spec c 37) as [->|Hne]; cbn [negb].
  2:{ apply Hstay. cbn [unescape_spec]. destruct (Z.eqb_spec c 37); [done|done]. }
  assert (Hget : ∀ (k : nat) kz x, (0 < k)%nat → kz = Z.of_nat k → (37 :: r ++ 0 :: rest) !! k = Some x →
    s1.[j + kz] = Some x).
  { intros k kz x Hk -> Hx. rewrite Hrd by done. by eapply split_get. }
  destruct r as [|c1 r2]; cbn [app length] in *.
  { rewrite (Hget 1%nat 1 0 ltac:(lia) eq_refl eq_refl). cbn [mbind option_bind]. by apply Hstay. }
  rewrite (Hget 1%nat 1 c1 ltac:(lia) eq_refl eq_refl). cbn [mbind option_bind].
  apply Forall_cons in Hc as [Hc1 Hc].
  destruct (Z.eqb_spec c1 37) as [->|Hne1].
  { rewrite i32_small by lia. replace (j + 1 + 1) with (j + 2) by lia. apply (unescapes_cons 37 r2); [|done]. eapply IH; [exact Hc|lia|lia|].
    destruct (split_step a i j d (37 :: r2 ++ 0 :: rest) 37 37 2 Hsp) as (s1' & E1' & _ & Hsp2 & _); [cbn; lia|].
    replace s1 with s1' by congruence. exact Hsp2. }
  assert (Hspec : unescape_spec (37 :: c1 :: r2) =
    match r2 with
    | [] => 37 :: unescape_spec (c1 :: r2)
    | e :: r3 => match hex_pair c1 e with Some x => x :: unescape_spec r3 | None => 37 :: unescape_spec (c1 :: r2) end
    end).
  { cbn [unescape_spec]. by destruct (Z.eqb_spec c1 37). }
  unfold hex_pair in Hspec. destruct (Z.ltb_spec (fromhex c1) 0) as [Hn1|Hp1].
  { apply Hstay. rewrite Hspec. destruct r2; [done|]. by destruct (Z.leb_spec 0 (fromhex c1)); [lia|]. }
  destruct r2 as [|c2 r3]; cbn [app length] in *.
  { rewrite (i32_small (j + 2)), (Hget 2%nat 2 0 ltac:(lia) eq_refl eq_refl) by lia. cbn [mbind option_bind]. by apply Hstay. }
  rewrite (i32_small (j + 2)), (Hget 2%nat 2 c2 ltac:(lia) eq_refl eq_refl) by lia. cbn [mbind option_bind]. cbv zeta in Hspec.
  destruct (Z.leb_spec 0 (fromhex c1)); [|lia]. cbn [andb] in Hspec.
  destruct (Z.ltb_spec (fromhex c2) 0) as [Hn2|Hp2].
  { apply Hstay. rewrite Hspec. by destruct (Z.leb_spec 0 (fromhex c2)); [lia|]. }
  destruct (Z.leb_spec 0 (fromhex c2)); [|lia]. cbn [andb] in Hspec.
  set (x := Z.lor (Z.shiftl (fromhex c1) 4) (fromhex c2)) in *.
  destruct ((0 <? x) && (x <=? 255)) eqn:Hx; [|by apply Hstay].
  rewrite (zset_zset _ _ _ _ x E1).
  destruct (split_step a i j d (c1 :: c2 :: r3 ++ 0 :: rest) 37 x 3 Hsp) as (s2 & -> & _ & Hsp2 & _); [cbn; lia|].
  cbn [mbind option_bind]. rewrite (i32_small (j + 2 + 1)) by lia. replace (j + 2 + 1) with (j + 3) by lia.
  apply (unescapes_cons x r3); [|done]. apply Forall_cons in Hc as [_ Hc].
  eapply IH; [exact Hc|lia|lia|exact Hsp2].
Qed.

Lemma rfc1738_unescape_ok s rest : is_cstring s → zlen s <= INT_MAX →
  ∃ tl, rfc1738_unescape (s ++ 0 :: rest) = Some (unescape_spec s ++ 0 :: tl).
Proof.
  intros Hs Hm. destruct (unescape_loop_ok (length (s ++ 0 :: rest)) s (s ++ 0 :: rest) 0 0 [] rest)
    as (a' & tl & E & ->); [done|rewrite length_app; lia|lia|by split_and!|]. by exists tl.
Qed.

(** * Escaping *)

Lemma hex_upper_fromhex n : 0 <= n < 16 → fromhex (hex_upper n) = n ∧ hex_upper n ≠ 37 ∧ 0 < hex_upper n < 256.
Proof.
  intros Hn. assert (H : Forall (λ n, (fromhex (hex_upper n) =? n) && negb (hex_upper n =? 37) && (0 <? hex_upper n) && (hex_upper n <? 256) = true) (seqZ 0 16))
    by (apply (bool_decide_unpack _); vm_compute; exact I).
  rewrite Forall_forall in H. specialize (H n ltac:(apply elem_of_seqZ; lia)). cbn beta in H. lia.
Qed.

Definition esc (encode_reserved c : Z) : list Z :=
  if needs_escape encode_reserved c then [37; hex_upper (c / 16); hex_upper (c mod 16)] else [c].

Lemma nibbles c : 0 < c < 256 → 0 <= c / 16 < 16 ∧ 0 <= c mod 16 < 16 ∧ Z.lor (Z.shiftl (c / 16) 4) (c mod 16) = c.
Proof.
  intros Hc. assert (0 <= c / 16 < 16) by (split; [apply Z.div_pos; lia|apply Z.div_lt_upper_bound; lia]).
  pose proof (Z.mod_pos_bound c 16 ltac:(lia)). split_and!; try lia.
  rewrite Z.shiftl_mul_pow2, (lor_low_bits 4) by lia. change (2 ^ 4) with 16. rewrite (Z.div_mod c 16) at 3 by lia. lia.
Qed.

Lemma esc_unescape er c s : 0 <= er → 0 < c < 256 →
  unescape_spec (esc er c ++ s) = c :: unescape_spec s ∧ is_cstring (esc er c).
Proof.
  intros Her Hc. unfold esc. destruct (needs_escape er c) eqn:E.
  - destruct (nibbles c Hc) as (H1 & H2 & H3). destruct (hex_upper_fromhex _ H1) as (F1 & N1 & B1).
    destruct (hex_upper_fromhex _ H2) as (F2 & N2 & B2). split; [|repeat (apply Forall_cons; split; [lia|]); by apply Forall_nil].
    cbn [app unescape_spec]. change (37 =? 37) with true. cbv iota. destruct (Z.eqb_spec (hex_upper (c / 16)) 37); [done|].
    unfold hex_pair. rewrite F1, F2, H3.
    destruct (Z.leb_spec 0 (c / 16)); [|lia]. destruct (Z.leb_spec 0 (c mod 16)); [|lia].
    destruct (Z.ltb_spec 0 c); [|lia]. by destruct (Z.leb_spec c 255); [|lia].
  - split; [|apply Forall_cons; split; [lia|by apply Forall_nil]]. cbn [app unescape_spec].
    destruct (Z.eqb_spec c 37) as [->|]; [|done]. unfold needs_escape in E.
    destruct (Z.leb_spec 0 er); [|lia]. rewrite orb_true_r in E. done.
Qed.

Lemma escape_loop_ok er bs url : ∀ buf, is_cstring url → zlen buf + 3 * zlen url < bs →
  escape_loop er bs url buf = Some (buf ++ concat (esc er <$> url)).
Proof.
  induction url as [|c url IH]; intros buf Hu Hl; cbn [escape_loop].
  { cbn [fmap list_fmap concat]. rewrite app_nil_r. cbn in Hl. by destruct (Z.ltb_spec (zlen buf) bs); [|lia]. }
  cbn [length] in Hl. unfold is_cstring in Hu. apply Forall_cons in Hu as [_ Hu]. cbn [fmap list_fmap concat]. unfold esc at 1.
  destruct (needs_escape er c).
  - destruct (Z.ltb_spec (zlen buf + 3) bs); [|lia]. rewrite IH by (done || rewrite length_app; cbn [length]; lia).
    by rewrite <- app_assoc.
  - destruct (Z.ltb_spec (zlen buf) bs); [|lia]. rewrite IH by (done || rewrite length_app; cbn [length]; lia).
    by rewrite <- app_assoc.
Qed.

(** The sizes the static buffer can have. *)
Definition bufsize_ok (bs : Z) : Prop := bs = 0 ∨ ∃ n, 0 <= n ∧ bs = 3 * n + 1.

Lemma do_escape_ok bs url er : bufsize_ok bs → is_cstring url → zlen url <= 1152921504606846976 →
  ∃ bs', rfc1738_do_escape bs url er = Some (concat (esc er <$> url), bs') ∧ bufsize_ok bs'.
Proof.
  intros Hbs Hu Hl. unfold rfc1738_do_escape. rewrite !u64_small by lia.
  set (bs' := if (bs =? 0) || (bs <? zlen url * 3) then zlen url * 3 + 1 else bs).
  assert (Hbs' : bufsize_ok bs' ∧ zlen url * 3 < bs').
  { unfold bs'. destruct (Z.eqb_spec bs 0) as [->|]; cbn [orb].
    { split; [right; exists (zlen url); lia|lia]. }
    destruct (Z.ltb_spec bs (zlen url * 3)); [split; [right; exists (zlen url); lia|lia]|].
    split; [done|]. destruct Hbs as [|(k & Hk & ->)]; [done|lia]. }
  rewrite escape_loop_ok; [|done|cbn; lia]. cbn [mbind option_bind app]. eexists; split; [done|]. apply Hbs'.
Qed.

Lemma esc_all_length er url : zlen (concat (esc er <$> url)) <= 3 * zlen url.
Proof.
  induction url as [|c url IH]; [done|]. cbn [fmap list_fmap concat length]. rewrite length_app.
  assert (length (esc er c) <= 3)%nat by (unfold esc; destruct (needs_escape er c); cbn; lia). lia.
Qed.

Lemma esc_all_unescape er url : 0 <= er → is_cstring url →
  unescape_spec (concat (esc er <$> url)) = url ∧ is_cstring (concat (esc er <$> url)).
Proof.
  intros Her Hu. induction Hu as [|c url Hc _ IH]; [by split; [|apply Forall_nil]|]. cbn [fmap list_fmap concat].
  destruct IH as [IH1 IH2]. destruct (esc_unescape er c (concat (esc er <$> url)) Her Hc) as [-> Hce].
  split; [by rewrite IH1|]. by apply Forall_app.
Qed.

(** C36: whatever strings were escaped before, the static buffer of
    [rfc1738_do_escape] holds the escaped string and its terminator, and
    unescaping the result in place gives the string back when '%' is escaped, as
    long as three times its length is an [int], which indexes the bytes. *)
Theorem rfc1738_round_trip bs url encode_reserved rest :
  bufsize_ok bs → is_cstring url → 3 * zlen url <= INT_MAX → 0 <= encode_reserved →
  ∃ e bs' tl, rfc1738_do_escape bs url encode_reserved = Some (e, bs') ∧ bufsize_ok bs' ∧
    rfc1738_unescape (e ++ 0 :: rest) = Some (url ++ 0 :: tl).
Proof.
  intros Hbs Hu Hl Her. unfold INT_MAX in Hl. destruct (do_escape_ok bs url encode_reserved Hbs Hu ltac:(lia)) as (bs' & -> & Hbs').
  destruct (esc_all_unescape encode_reserved url Her Hu) as [Hsp Hcs].
  destruct (rfc1738_unescape_ok _ rest Hcs ltac:(pose proof (esc_all_length encode_reserved url); unfold INT_MAX; lia)) as (tl & Et). rewrite Hsp in Et.
  eexists _, _, tl. split; [done|]. split; [apply Hbs'|done].
Qed.

Lemma rfc1738_round_trip_witness :
  ∃ e bs' tl, rfc1738_do_escape 4 (bytes_of "a b%/~") 1 = Some (e, bs') ∧ bufsize_ok bs' ∧
    rfc1738_unescape (e ++ 0 :: [5]) = Some (bytes_of "a b%/~" ++ 0 :: tl).
Proof.
  apply (rfc1738_round_trip 4 (bytes_of "a b%/~") 1 [5]).
  - right. exists 1. lia.
  - apply (bool_decide_unpack _). vm_compute. exact I.
  - vm_compute. discriminate.
  - lia.
Defined.
