(* ===== verification/Splay.v ===== *)
(** Splay trees (lib/splay.c, include/splay.h), the search trees of the access
    lists: [splay_splay], [splay_insert], [splay_walk] and [splay_destroy].

    The nodes of a tree are not shared, so a tree is a value. In the top-down
    splay the trees under the local node [N] are open: [l] points at the last
    node of the left one, whose right link is still to be set, and [r] at the
    last of the right one. Each is the list of its nodes from that end, with the
    subtree every node keeps; [fill_l] and [fill_r] close it. [splayLastResult]
    is returned beside the tree; [None] is a null pointer followed or too little
    fuel. *)
From S2P Require Import Prelude.

Module Splay.
Section splay.
Context {A : Type}.

Inductive splayNode := Leaf | Node (left : splayNode) (data : A) (right : splayNode).

Variable compare : A → A → Z.

Fixpoint fill_l (l : list (splayNode * A)) (t : splayNode) : splayNode :=
  match l with [] => t | (tl, x) :: l' => fill_l l' (Node tl x t) end.
Fixpoint fill_r (r : list (A * splayNode)) (t : splayNode) : splayNode :=
  match r with [] => t | (x, tr) :: r' => fill_r r' (Node t x tr) end.

Fixpoint splay_loop (fuel : nat) (data : A) (top : splayNode)
    (l : list (splayNode * A)) (r : list (A * splayNode))
  : option (Z * splayNode * list (splayNode * A) * list (A * splayNode)) :=
  match top with
  | Leaf => None
  | Node tl x tr =>
      let res := compare data x in
      if res <? 0 then
        match tl with
        | Leaf => Some (res, top, l, r)
        | Node yl y yr =>
            let res := compare data y in
            if res <? 0 then                               (* rotate right *)
              match yl with
              | Leaf => Some (res, Node yl y (Node yr x tr), l, r)
              | Node _ _ _ =>
                  match fuel with
                  | O => None
                  | S fuel' => splay_loop fuel' data yl l ((y, Node yr x tr) :: r)
                  end
              end
            else
              match fuel with
              | O => None
              | S fuel' => splay_loop fuel' data tl l ((x, tr) :: r)
              end
        end
      else if 0 <? res then
        match tr with
        | Leaf => Some (res, top, l, r)
        | Node yl y yr =>
            let res := compare data y in
            if 0 <? res then                               (* rotate left *)
              match yr with
              | Leaf => Some (res, Node (Node tl x yl) y yr, l, r)
              | Node _ _ _ =>
                  match fuel with
                  | O => None
                  | S fuel' => splay_loop fuel' data yr ((Node tl x yl, y) :: l) r
                  end
              end
            else
              match fuel with
              | O => None
              | S fuel' => splay_loop fuel' data tr ((tl, x) :: l) r
              end
        end
      else Some (res, top, l, r)
  end.

Fixpoint tree_size (t : splayNode) : nat :=
  match t with Leaf => 0 | Node l _ r => S (tree_size l + tree_size r) end.

(** [splayLastResult] and the new top; every turn of the loop goes down. *)
Definition splay_splay (data : A) (top : splayNode) : option (Z * splayNode) :=
  match top with
  | Leaf => Some (-1, Leaf)
  | Node _ _ _ =>
      '(res, t, l, r) ← splay_loop (tree_size top) data top [] [];
      match t with
      | Leaf => None
      | Node tl x tr => Some (res, Node (fill_l l tl) x (fill_r r tr))
      end
  end.

Definition splay_insert (data : A) (top : splayNode) : option splayNode :=
  '(res, t) ← splay_splay data top;
  match t with
  | Leaf => Some (Node Leaf data Leaf)
  | Node tl x tr =>
      if res <? 0 then Some (Node tl data (Node Leaf x tr))
      else if 0 <? res then Some (Node (Node tl x Leaf) data tr)
      else Some t
  end.

(** The order in which [splay_walk] calls its walkee, and [splay_destroy] its
    free function. [splay_walk] looks at the left link of its argument first:
    it is not defined on the empty tree. *)
Fixpoint walk (top : splayNode) : list A :=
  match top with Leaf => [] | Node l x r => walk l ++ x :: walk r end.
Definition splay_walk (top : splayNode) : option (list A) :=
  match top with Leaf => None | Node _ _ _ => Some (walk top) end.
Fixpoint splay_destroy (top : splayNode) : list A :=
  match top with Leaf => [] | Node l x r => splay_destroy l ++ splay_destroy r ++ [x] end.

End splay.
Arguments splayNode : clear implicits.
End Splay.
Import Splay.

(** * The order of the elements *)

(** Normal form of concatenations of walks. *)
Ltac app_norm := cbn [walk app]; repeat (progress (rewrite <- ?app_assoc; cbn [app])); reflexivity.

Section proofs.
Context {A : Type} (compare : A → A → Z).
Implicit Types (t top : splayNode A) (L : list A).

(** The elements of [L] that are smaller than [data] come first and those that
    are greater last. *)
Definition split_by (data : A) L : Prop :=
  ∃ l1 l2 l3, L = l1 ++ l2 ++ l3 ∧ Forall (λ x, 0 < compare data x) l1 ∧
    Forall (λ x, compare data x = 0) l2 ∧ Forall (λ x, compare data x < 0) l3.

Lemma split_before data p x s : split_by data (p ++ x :: s) → 0 < compare data x →
  Forall (λ y, 0 < compare data y) p.
Proof.
  intros (l1 & l2 & l3 & E & H1 & H2 & H3) Hx.
  assert (Hin : (length p < length l1)%nat).
  { destruct (decide (length p < length l1)%nat); [done|]. exfalso.
    assert (Hl : (p ++ x :: s) !! length p = Some x) by (rewrite lookup_app_r, Nat.sub_diag by lia; done).
    rewrite E, lookup_app_r in Hl by lia. apply list_elem_of_lookup_2, elem_of_app in Hl as [Hl|Hl].
    - rewrite Forall_forall in H2. specialize (H2 x Hl). lia.
    - rewrite Forall_forall in H3. specialize (H3 x Hl). lia. }
  assert (Ep : p = take (length p) l1).
  { rewrite <- (take_app_le l1 (l2 ++ l3)) by lia. by rewrite <- E, take_app_length. }
  rewrite Ep. by apply Forall_take.
Qed.

Lemma split_after data p x s : split_by data (p ++ x :: s) → compare data x < 0 →
  Forall (λ y, compare data y < 0) s.
Proof.
  intros (l1 & l2 & l3 & E & H1 & H2 & H3) Hx.
  assert (Hin : (length (l1 ++ l2) <= length p)%nat).
  { destruct (decide (length (l1 ++ l2) <= length p)%nat); [done|]. exfalso.
    assert (Hl : (p ++ x :: s) !! length p = Some x) by (rewrite lookup_app_r, Nat.sub_diag by lia; done).
    rewrite E, app_assoc, lookup_app_l in Hl by lia. apply list_elem_of_lookup_2, elem_of_app in Hl as [Hl|Hl].
    - rewrite Forall_forall in H1. specialize (H1 x Hl). lia.
    - rewrite Forall_forall in H2. specialize (H2 x Hl). lia. }
  rewrite app_assoc in E.
  assert (Es : s = drop (S (length p) - length (l1 ++ l2)) l3).
  { assert (Hd : drop (S (length p)) (p ++ x :: s) = s).
    { replace (S (length p)) with (length (p ++ [x])) by (rewrite length_app; cbn; lia).
      change (p ++ x :: s) with (p ++ [x] ++ s). by rewrite app_assoc, drop_app_length. }
    rewrite <- Hd, E, drop_app_ge by lia. done. }
  rewrite Es. by apply Forall_drop.
Qed.

(** The elements of the open trees. *)
Definition elems_l (l : list (splayNode A * A)) : list A :=
  concat (rev ((λ x, walk x.1 ++ [x.2]) <$> l)).
Definition elems_r (r : list (A * splayNode A)) : list A :=
  concat ((λ x, x.1 :: walk x.2) <$> r).

Lemma elems_l_cons t x l : elems_l ((t, x) :: l) = elems_l l ++ walk t ++ [x].
Proof. unfold elems_l. cbn [fmap list_fmap rev fst snd]. rewrite concat_app. cbn [concat]. by rewrite app_nil_r. Qed.
Lemma elems_r_cons x t r : elems_r ((x, t) :: r) = x :: walk t ++ elems_r r.
Proof. reflexivity. Qed.

Lemma fill_l_walk l : ∀ t, walk (fill_l l t) = elems_l l ++ walk t.
Proof.
  induction l as [|[tl x] l IH]; intros t; [done|]. cbn [fill_l]. rewrite IH, elems_l_cons. cbn [walk].
  by rewrite <- !app_assoc.
Qed.
Lemma fill_r_walk r : ∀ t, walk (fill_r r t) = walk t ++ elems_r r.
Proof.
  induction r as [|[x tr] r IH]; intros t; [cbn; by rewrite app_nil_r|]. cbn [fill_r]. rewrite IH, elems_r_cons.
  cbn [walk]. by rewrite <- !app_assoc.
Qed.

(** What the loop ends with: the same elements in the same order, the result of
    the last comparison, and on both sides of the top only smaller and only
    greater elements when no equal one was met. *)
Definition splayed (data : A) L (res : Z) tl x tr l r : Prop :=
  elems_l l ++ walk (Node tl x tr) ++ elems_r r = L ∧ res = compare data x ∧
  (res ≠ 0 → Forall (λ y, 0 < compare data y) (elems_l l ++ walk tl) ∧
             Forall (λ y, compare data y < 0) (walk tr ++ elems_r r)).

Lemma splay_loop_ok data L : split_by data L → ∀ fuel top l r, top ≠ Leaf → (tree_size top <= fuel)%nat →
  elems_l l ++ walk top ++ elems_r r = L →
  Forall (λ y, 0 < compare data y) (elems_l l) → Forall (λ y, compare data y < 0) (elems_r r) →
  ∃ res tl x tr l' r', splay_loop compare fuel data top l r = Some (res, Node tl x tr, l', r') ∧
    splayed data L res tl x tr l' r'.
Proof.
  intros HL. induction fuel as [|fuel IH]; intros top l r Hne Hf HE Hl Hr.
  { destruct top; [done|cbn in Hf; lia]. }
  destruct top as [|tl x tr]; [done|]. cbn [splay_loop tree_size] in *. cbv zeta.
  assert (Htop : (elems_l l ++ walk tl) ++ x :: walk tr ++ elems_r r = L).
  { rewrite <- HE. app_norm. }
  destruct (Z.ltb_spec (compare data x) 0) as [Hlt|Hge].
  - assert (Hx : Forall (λ y, compare data y < 0) (walk tr ++ elems_r r)).
    { apply (split_after data (elems_l l ++ walk tl) x); [by rewrite Htop|done]. }
    destruct tl as [|yl y yr].
    { eexists _, _, _, _, _, _. split; [done|]. split; [done|]. split; [done|]. intros _.
      split; [by rewrite app_nil_r|done]. }
    destruct (Z.ltb_spec (compare data y) 0) as [Hly|Hgy].
    + assert (Hrot : elems_l l ++ walk yl ++ elems_r ((y, Node yr x tr) :: r) = L).
      { rewrite <- HE, elems_r_cons. app_norm. }
      assert (Hy : Forall (λ z, compare data z < 0) (elems_r ((y, Node yr x tr) :: r))).
      { rewrite elems_r_cons. apply Forall_cons. split; [done|].
        apply (split_after data (elems_l l ++ walk yl) y); [|done].
        by rewrite <- app_assoc, <- elems_r_cons, Hrot. }
      destruct yl as [|? ? ?].
      * eexists _, _, _, _, _, _. split; [done|]. split; [|split; [done|]].
        -- rewrite <- Hrot, elems_r_cons. app_norm.
        -- intros _. rewrite elems_r_cons in Hy. apply Forall_cons in Hy as [_ Hy]. split; [by rewrite app_nil_r|done].
      * apply IH; [done|cbn [tree_size] in *; lia|exact Hrot|done|done].
    + apply IH; [done|cbn [tree_size] in *; lia| |done|].
      * rewrite <- HE, elems_r_cons. app_norm.
      * rewrite elems_r_cons. by apply Forall_cons.
  - destruct (Z.ltb_spec 0 (compare data x)) as [Hgt|Heq].
    2:{ eexists _, _, _, _, _, _. split; [done|]. split; [done|]. split; [done|]. lia. }
    assert (Hx : Forall (λ y, 0 < compare data y) (elems_l l ++ walk tl)).
    { apply (split_before data _ x (walk tr ++ elems_r r)); [by rewrite Htop|done]. }
    destruct tr as [|yl y yr].
    { eexists _, _, _, _, _, _. split; [done|]. split; [done|]. split; [done|]. intros _. by split. }
    destruct (Z.ltb_spec 0 (compare data y)) as [Hgy|Hly].
    + assert (Hrot : elems_l ((Node tl x yl, y) :: l) ++ walk yr ++ elems_r r = L).
      { rewrite <- HE, elems_l_cons. app_norm. }
      assert (Hy : Forall (λ z, 0 < compare data z) (elems_l l ++ walk (Node tl x yl))).
      { apply (split_before data _ y (walk yr ++ elems_r r)); [|done].
        replace (_ ++ y :: _) with L; [done|]. rewrite <- Hrot, elems_l_cons. app_norm. }
      destruct yr as [|? ? ?].
      * eexists _, _, _, _, _, _. split; [done|]. split; [|split; [done|]].
        -- rewrite <- Hrot, elems_l_cons. app_norm.
        -- intros _. split; [done|]. apply Hr.
      * apply IH; [done|cbn [tree_size] in *; lia|exact Hrot| |done].
        rewrite elems_l_cons, app_assoc. apply Forall_app. split; [done|]. apply Forall_cons. by split; [|apply Forall_nil].
    + apply IH; [done|cbn [tree_size] in *; lia| | |done].
      * rewrite <- HE, elems_l_cons. app_norm.
      * rewrite elems_l_cons, app_assoc. apply Forall_app. split; [done|]. apply Forall_cons. by split; [|apply Forall_nil].
Qed.
End proofs.

(** * Searching *)

Section search.
Context {A : Type} (compare : A → A → Z).

Lemma splay_splay_ok data t : split_by compare data (walk t) → t ≠ Leaf →
  ∃ res tl x tr, splay_splay compare data t = Some (res, Node tl x tr) ∧ walk (Node tl x tr) = walk t ∧
    res = compare data x ∧
    (res ≠ 0 → Forall (λ y, 0 < compare data y) (walk tl) ∧ Forall (λ y, compare data y < 0) (walk tr)).
Proof.
  intros HL Hne.
  destruct (splay_loop_ok compare data (walk t) HL (tree_size t) t [] []) as (res & tl & x & tr & l & r & E & Hw & Hres & Hs);
    [done|done|cbn; by rewrite app_nil_r|by apply Forall_nil|by apply Forall_nil|].
  exists res, (fill_l l tl), x, (fill_r r tr). unfold splay_splay. destruct t; [done|]. rewrite E. cbn [mbind option_bind].
  split; [done|]. cbn [walk]. rewrite fill_l_walk, fill_r_walk. split; [|by split].
  cbn [walk] in Hw. rewrite <- Hw. app_norm.
Qed.
End search.

(** a splay keeps the elements in their order, and when the elements are
    ordered with respect to the data searched for, the last comparison is 0
    exactly when an equal element is in the tree, which then is at the top. *)
Theorem splay_search {A} (compare : A → A → Z) data t :
  split_by compare data (walk t) →
  ∃ res t', splay_splay compare data t = Some (res, t') ∧ walk t' = walk t ∧
    (res = 0 ↔ ∃ x, x ∈ walk t ∧ compare data x = 0) ∧
    (res = 0 → ∃ tl x tr, t' = Node tl x tr ∧ compare data x = 0).
Proof.
  intros HL. destruct t as [|tl0 x0 tr0].
  { exists (-1), Leaf. split_and!; try done. split; [done|]. by intros (x & []%not_elem_of_nil & _). }
  destruct (splay_splay_ok compare data (Node tl0 x0 tr0) HL) as (res & tl & x & tr & E & Hw & Hres & Hs); [done|].
  exists res, (Node tl x tr). rewrite <- Hw in *. split_and!; [done|done| |].
  - cbn [walk]. split.
    + intros ->. exists x. split; [|done]. apply elem_of_app. right. by left.
    + intros (y & Hy & Hc). destruct (decide (res = 0)) as [|Hn]; [done|]. destruct (Hs Hn) as [H1 H2].
      rewrite Forall_forall in H1, H2. apply elem_of_app in Hy as [Hy|[->|Hy]%elem_of_cons].
      * specialize (H1 y Hy). lia.
      * lia.
      * specialize (H2 y Hy). lia.
  - intros ->. by exists tl, x, tr.
Qed.

Definition ex_tree : splayNode Z := Node (Node Leaf 1 Leaf) 3 (Node (Node Leaf 5 Leaf) 8 Leaf).

Lemma splay_search_witness :
  ∃ res t', splay_splay Z.sub 5 ex_tree = Some (res, t') ∧ walk t' = walk ex_tree ∧
    (res = 0 ↔ ∃ x, x ∈ walk ex_tree ∧ 5 - x = 0) ∧
    (res = 0 → ∃ tl x tr, t' = Node tl x tr ∧ 5 - x = 0).
Proof.
  apply (splay_search Z.sub 5 ex_tree). exists [1; 3], [5], [8].
  split; [reflexivity|]. split_and!; repeat (apply Forall_cons; split; [lia|]); by apply Forall_nil.
Defined.

(** * Insertion *)

(** Insertion under any comparison that splits the elements: an equal element
    keeps the new one out, otherwise it goes between the smaller and the greater
    ones. *)
Lemma splay_insert_split {A} (compare : A → A → Z) data t :
  split_by compare data (walk t) →
  ∃ t', splay_insert compare data t = Some t' ∧
    ((∃ x, x ∈ walk t ∧ compare data x = 0) ∧ walk t' = walk t ∨
     ∃ l r, walk t = l ++ r ∧ walk t' = l ++ data :: r ∧
       Forall (λ y, 0 < compare data y) l ∧ Forall (λ y, compare data y < 0) r).
Proof.
  intros HL. unfold splay_insert. assert (t = Leaf ∨ t ≠ Leaf) as [->|Hne] by (destruct t; [by left|by right]).
  { exists (Node Leaf data Leaf). split; [done|]. right. exists [], []. split_and!; [done|done|by apply Forall_nil..]. }
  destruct (splay_splay_ok compare data t HL Hne) as (res & tl & x & tr & -> & Hw & Hres & Hs).
  cbn [mbind option_bind]. rewrite <- Hw. cbn [walk].
  destruct (Z.ltb_spec res 0).
  { destruct (Hs ltac:(lia)) as [H1 H2]. eexists. split; [done|]. right. exists (walk tl), (x :: walk tr). cbn [walk app].
    split_and!; [done|done|done|]. apply Forall_cons. split; [lia|done]. }
  destruct (Z.ltb_spec 0 res).
  { destruct (Hs ltac:(lia)) as [H1 H2]. eexists. split; [done|]. right. exists (walk tl ++ [x]), (walk tr). cbn [walk].
    rewrite <- !app_assoc. split_and!; [done|done| |done]. apply Forall_app. split; [done|].
    apply Forall_cons. split; [lia|by apply Forall_nil]. }
  eexists. split; [done|]. left. split; [|done]. exists x. split; [apply elem_of_app; right; by left|lia].
Qed.

(** What a comparison function promises the tree. *)
Class SplayOrder {A} (compare : A → A → Z) := {
  cmp_refl a : compare a a = 0;
  cmp_flip a b : compare a b < 0 ↔ 0 < compare b a;
  cmp_trans a b c : compare a b <= 0 → compare b c < 0 → compare a c < 0 }.

#[export] Instance SplayOrder_Z : SplayOrder Z.sub.
Proof. split; intros; lia. Qed.

Section insert.
Context {A : Type} (compare : A → A → Z) `{!SplayOrder compare}.

Definition ordered (L : list A) : Prop := StronglySorted (λ a b, compare a b < 0) L.

Lemma ordered_split data L : ordered L → split_by compare data L.
Proof using Type*.
  induction 1 as [|x L Hs IH Hx].
  { exists [], [], []. split_and!; [done|by apply Forall_nil..]. }
  destruct (Z.lt_trichotomy (compare data x) 0) as [Hlt|[Heq|Hgt]].
  - exists [], [], (x :: L). split_and!; [done|by apply Forall_nil|by apply Forall_nil|].
    apply Forall_cons. split; [done|]. eapply Forall_impl; [exact Hx|]. intros y Hy. cbn in Hy.
    apply (cmp_trans _ x); [lia|done].
  - exists [], [x], L. split_and!; [done|by apply Forall_nil|by apply Forall_singleton|].
    eapply Forall_impl; [exact Hx|]. intros y Hy. cbn in Hy. apply (cmp_trans _ x); [lia|done].
  - destruct IH as (l1 & l2 & l3 & -> & H1 & H2 & H3). exists (x :: l1), l2, l3. split_and!; [done| |done|done].
    by apply Forall_cons.
Qed.

(** [data] between smaller and greater elements. *)
Lemma ordered_insert data l r : ordered (l ++ r) → Forall (λ y, 0 < compare data y) l →
  Forall (λ y, compare data y < 0) r → ordered (l ++ data :: r).
Proof using Type*.
  unfold ordered. induction l as [|x l IH]; cbn [app]; intros Hs Hl Hr; [by apply SSorted_cons|].
  apply StronglySorted_inv in Hs as [Hs Hx]. apply Forall_cons in Hl as [Hlx Hl].
  apply SSorted_cons; [by apply IH|]. apply Forall_app in Hx as [Hx1 Hx2]. apply Forall_app. split; [done|].
  apply Forall_cons. split; [by apply cmp_flip|done].
Qed.

(** The elements of the tree after an insertion. *)
Lemma splay_insert_ok data t : ordered (walk t) →
  ∃ t', splay_insert compare data t = Some t' ∧
    ((∃ x, x ∈ walk t ∧ compare data x = 0) ∧ walk t' = walk t ∨
     (∀ x, x ∈ walk t → compare data x ≠ 0) ∧ ordered (walk t') ∧ walk t' ≡ₚ data :: walk t).
Proof using Type*.
  intros Ho. unfold splay_insert. assert (t = Leaf ∨ t ≠ Leaf) as [->|Hne] by (destruct t; [by left|by right]).
  { exists (Node Leaf data Leaf). split; [done|]. right. split_and!; [by intros x []%not_elem_of_nil| |done].
    cbn. apply SSorted_cons; [apply SSorted_nil|by apply Forall_nil]. }
  destruct (splay_splay_ok compare data t (ordered_split data _ Ho) Hne) as (res & tl & x & tr & -> & Hw & Hres & Hs).
  cbn [mbind option_bind]. rewrite <- Hw in *. cbn [walk] in *.
  assert (Hno : res ≠ 0 → ∀ y, y ∈ walk tl ++ x :: walk tr → compare data y ≠ 0).
  { intros Hn y Hy. destruct (Hs Hn) as [H1 H2]. rewrite Forall_forall in H1, H2.
    apply elem_of_app in Hy as [Hy|[->|Hy]%elem_of_cons]; [specialize (H1 y Hy); lia|lia|specialize (H2 y Hy); lia]. }
  destruct (Z.ltb_spec res 0).
  { destruct (Hs ltac:(lia)) as [H1 H2]. eexists. split; [done|]. right. split; [auto with lia|]. cbn [walk app].
    split; [|by rewrite <- Permutation_middle]. apply ordered_insert; [done|done|]. apply Forall_cons. split; [lia|done]. }
  destruct (Z.ltb_spec 0 res).
  { destruct (Hs ltac:(lia)) as [H1 H2]. eexists. split; [done|]. right. split; [auto with lia|]. cbn [walk].
    rewrite <- app_assoc. cbn [app]. split.
    - change (walk tl ++ x :: data :: walk tr) with (walk tl ++ [x] ++ data :: walk tr). rewrite app_assoc.
      apply ordered_insert; [by rewrite <- app_assoc| |done]. apply Forall_app. split; [done|].
      apply Forall_cons. split; [lia|by apply Forall_nil].
    - rewrite <- !Permutation_middle. apply perm_swap. }
  eexists. split; [done|]. left. split; [|done]. exists x. split; [apply elem_of_app; right; by left|lia].
Qed.
End insert.

(** C37: insertion into an ordered tree keeps it ordered; the new element is
    added when no equal one is there and otherwise nothing changes; a search for
    it then succeeds. *)
Theorem splay_insert_ordered {A} (compare : A → A → Z) `{!SplayOrder compare} data t :
  ordered compare (walk t) →
  ∃ t', splay_insert compare data t = Some t' ∧ ordered compare (walk t') ∧
    (walk t' = walk t ∧ (∃ x, x ∈ walk t ∧ compare data x = 0) ∨
     walk t' ≡ₚ data :: walk t ∧ ∀ x, x ∈ walk t → compare data x ≠ 0) ∧
    ∃ t'', splay_splay compare data t' = Some (0, t'').
Proof.
  intros Ho. destruct (splay_insert_ok compare data t Ho) as (t' & E & Hcase). exists t'. split; [done|].
  assert (Ho' : ordered compare (walk t')) by (destruct Hcase as [[_ ->]|(_ & ? & _)]; done).
  split; [done|]. split; [tauto|].
  assert (Hin : ∃ x, x ∈ walk t' ∧ compare data x = 0).
  { destruct Hcase as [[Hx ->]|(_ & _ & Hp)]; [done|]. exists data. split; [rewrite Hp; by left|apply cmp_refl]. }
  assert (Hne : t' ≠ Leaf). { intros ->. by destruct Hin as (x & []%not_elem_of_nil & _). }
  destruct (splay_splay_ok compare data t' (ordered_split compare data _ Ho') Hne)
    as (res & tl & x & tr & Es & Hw & Hres & Hs).
  rewrite Es. destruct (decide (res = 0)) as [->|Hn]; [by eexists|]. exfalso. destruct (Hs Hn) as [H1 H2].
  destruct Hin as (y & Hy & Hc). rewrite <- Hw in Hy. cbn [walk] in Hy. rewrite Forall_forall in H1, H2.
  apply elem_of_app in Hy as [Hy|[->|Hy]%elem_of_cons]; [specialize (H1 y Hy); lia|lia|specialize (H2 y Hy); lia].
Qed.

Lemma splay_insert_ordered_witness :
  ∃ t', splay_insert Z.sub 4 ex_tree = Some t' ∧ ordered Z.sub (walk t') ∧
    (walk t' = walk ex_tree ∧ (∃ x, x ∈ walk ex_tree ∧ 4 - x = 0) ∨
     walk t' ≡ₚ 4 :: walk ex_tree ∧ ∀ x, x ∈ walk ex_tree → 4 - x ≠ 0) ∧
    ∃ t'', splay_splay Z.sub 4 t' = Some (0, t'').
Proof.
  apply (splay_insert_ordered Z.sub 4 ex_tree).
  cbn. repeat (apply SSorted_cons; [|repeat (apply Forall_cons; split; [lia|]); by apply Forall_nil]). apply SSorted_nil.
Defined.
