(* ===== verification/Hash.v ===== *)
(** Hash tables (lib/hash.c, include/hash.h): chains of links owned by the
    caller, one per bucket, and a walk over them.

    The links live in a store addressed by their pointers, 0 is null; the table
    has the heads of the chains. [hash->cmp] and [hash->hash] are an interface,
    [HashFns]; [hash_string] and [hash4] are two hash functions for strings.
    [None] is a failed assertion or a pointer that is not valid. *)
From S2P Require Import Prelude CString.
(** What a table relies on: the comparison is 0 on equal keys only, and the hash
    is an index of the table. *)
Class HashFns (K : Type) := {
  hcmp : K → K → Z;
  hhash : K → Z → Z;
  hcmp_eq a b : hcmp a b = 0 ↔ a = b;
  hhash_range k n : 0 < n → 0 <= hhash k n < n }.

Module Hash.

(** A [char] is signed. *)
Definition schar (c : Z) : Z := if c <? 128 then c else c - 256.

(** The bytes of [s], then the length. *)
Definition hash_string_n (s : list Z) : Z :=
  foldl (λ n c, Z.lxor n (u32 (271 * u32 (schar c)))) 0 s.
Definition hash_string (s : list Z) (size : Z) : Z :=
  Z.lxor (hash_string_n s) (u32 (zlen s * 271)) mod size.

Definition HASH4 (h c : Z) : Z := u32 (u32 (u32 (Z.shiftl h 5) + h) + schar c).
Fixpoint hash4_steps (n : nat) (h : Z) (key : list Z) : Z * list Z :=
  match n, key with
  | S n', c :: key' => hash4_steps n' (HASH4 h c) key'
  | _, _ => (h, key)
  end.
(** The switch takes [len & 7] bytes, each turn of the loop 8 more. *)
Fixpoint hash4_loop (loop : nat) (h : Z) (key : list Z) : Z :=
  match loop with
  | O => h
  | S loop' => let '(h', key') := hash4_steps 8 h key in hash4_loop loop' h' key'
  end.
Definition hash4 (data : list Z) (size : Z) : Z :=
  let len := zlen data in
  let '(h, key) := hash4_steps (Z.to_nat (Z.land len 7)) 0 data in
  hash4_loop (Z.to_nat (Z.shiftr len 3)) h key mod size.

Definition DEFAULT_HASH_SIZE : Z := 7951.

Section table.
Context {K : Type} `{HashFns K}.

Record hash_link := mkLink { lkey : option K; lnext : Z }.
Record hash_table := mkTable {
  buckets : list Z; size : Z; current_slot : Z; next : Z; count : Z }.

Implicit Types (ls : gmap Z hash_link) (hid : hash_table).

Definition hash_create (hash_sz : Z) : hash_table :=
  let sz := if hash_sz =? 0 then DEFAULT_HASH_SIZE else u32 hash_sz in
  mkTable (replicate (Z.to_nat sz) 0) sz 0 0 0.

Definition hash_join ls hid (lnk : Z) : option (gmap Z hash_link * hash_table) :=
  lk ← ls !! lnk;
  k ← lkey lk;
  let i := i32 (hhash k (size hid)) in
  b ← (buckets hid).[i];
  bs ← zset (buckets hid) i lnk;
  Some (<[lnk := mkLink (lkey lk) b]> ls,
        mkTable bs (size hid) (current_slot hid) (next hid) (i32 (count hid + 1))).

(** 0 when there is none. *)
Fixpoint lookup_loop (fuel : nat) ls (k : K) (walker : Z) : option Z :=
  if walker =? 0 then Some 0
  else
    lk ← ls !! walker;
    match lkey lk with
    | None => Some 0
    | Some k' =>
        if hcmp k k' =? 0 then Some walker
        else if walker =? lnext lk then None
        else match fuel with
             | O => None
             | S fuel' => lookup_loop fuel' ls k (lnext lk)
             end
    end.
Definition hash_lookup ls hid (k : K) : option Z :=
  b ← (buckets hid).[i32 (hhash k (size hid))];
  lookup_loop (base.size ls) ls k b.

(** [++hid->current_slot < hid->size] while [next] is null. *)
Fixpoint hash_next_bucket (fuel : nat) hid : option hash_table :=
  if negb (next hid =? 0) then Some hid
  else
    let slot := u32 (current_slot hid + 1) in
    if slot <? size hid then
      match fuel with
      | O => None
      | S fuel' =>
          b ← (buckets hid).[slot];
          hash_next_bucket fuel' (mkTable (buckets hid) (size hid) slot b (count hid))
      end
    else Some (mkTable (buckets hid) (size hid) slot (next hid) (count hid)).

(** Every turn moves to a later slot. *)
Definition bucket_fuel hid : nat := Z.to_nat (size hid).

Definition hash_first hid : option hash_table :=
  if next hid =? 0 then
    b ← (buckets hid).[0];
    hash_next_bucket (bucket_fuel hid) (mkTable (buckets hid) (size hid) 0 b (count hid))
  else None.

Definition hash_next ls hid : option (Z * hash_table) :=
  let this := next hid in
  if this =? 0 then Some (0, hid)
  else
    lk ← ls !! this;
    hid' ← hash_next_bucket (bucket_fuel hid)
             (mkTable (buckets hid) (size hid) (current_slot hid) (lnext lk) (count hid));
    Some (this, hid').

Definition hash_last hid : hash_table := mkTable (buckets hid) (size hid) 0 0 (count hid).

(** [hash_link **P]: the head of a bucket or the [next] field of a link. *)
Inductive link_ref := RBucket (i : Z) | RNext (p : Z).
Definition ref_get ls hid (P : link_ref) : option Z :=
  match P with
  | RBucket i => (buckets hid).[i]
  | RNext p => lnext <$> ls !! p
  end.
Definition ref_set ls hid (P : link_ref) (v : Z) : option (gmap Z hash_link * hash_table) :=
  match P with
  | RBucket i =>
      bs ← zset (buckets hid) i v;
      Some (ls, mkTable bs (size hid) (current_slot hid) (next hid) (count hid))
  | RNext p =>
      lk ← ls !! p;
      Some (<[p := mkLink (lkey lk) v]> ls, hid)
  end.

Fixpoint remove_loop (fuel : nat) ls hid (P : link_ref) (hl : Z) : option (gmap Z hash_link * hash_table) :=
  cur ← ref_get ls hid P;
  if cur =? 0 then None
  else if cur =? hl then
    lk ← ls !! hl;
    '(ls', hid') ← ref_set ls hid P (lnext lk);
    hid'' ← (if next hid' =? hl then
               lk' ← ls' !! hl;
               hash_next_bucket (bucket_fuel hid)
                 (mkTable (buckets hid') (size hid') (current_slot hid') (lnext lk') (count hid'))
             else Some hid');
    Some (ls', mkTable (buckets hid'') (size hid'') (current_slot hid'') (next hid'') (i32 (count hid'' - 1)))
  else
    match fuel with
    | O => None
    | S fuel' => remove_loop fuel' ls hid (RNext cur) hl
    end.

Definition hash_remove_link ls hid (hl : Z) : option (gmap Z hash_link * hash_table) :=
  lk ← ls !! hl;
  k ← lkey lk;
  remove_loop (base.size ls) ls hid (RBucket (i32 (hhash k (size hid)))) hl.

Definition hash_get_bucket hid (bucket : Z) : option Z :=
  if size hid <=? bucket then Some 0 else (buckets hid).[bucket].

(** The loop of [hashFreeItems]: the links found, in the order they are freed. *)
Fixpoint collect (fuel : nat) ls hid (i : Z) : option (list Z) :=
  '(l, hid') ← hash_next ls hid;
  if (negb (l =? 0)) && (i <? count hid) then
    match fuel with
    | O => None
    | S fuel' => rest ← collect fuel' ls hid' (i + 1); Some (l :: rest)
    end
  else Some [].
Definition hashFreeItems ls hid : option (list Z) :=
  hid' ← hash_first hid;
  collect (Z.to_nat (count hid)) ls hid' 0.

End table.
Arguments hash_link : clear implicits.
End Hash.
Import Hash.

(** * Strings as keys *)

Lemma hash_string_range s n : 0 < n → 0 <= hash_string s n < n.
Proof. intros. apply Z.mod_pos_bound. lia. Qed.
Lemma hash4_range s n : 0 < n → 0 <= hash4 s n < n.
Proof. intros. unfold hash4. destruct (hash4_steps _ _ _). apply Z.mod_pos_bound. lia. Qed.

#[export] Instance string_HashFns : HashFns (list Z) :=
  {| hcmp := strcmp; hhash := hash_string; hcmp_eq := λ a b, strcmp_eq a b; hhash_range := hash_string_range |}.
Definition string_HashFns4 : HashFns (list Z) :=
  {| hcmp := strcmp; hhash := hash4; hcmp_eq := λ a b, strcmp_eq a b; hhash_range := hash4_range |}.

(** The hash table is the list of its links, the last one joined first: a lookup
    finds the first with an equal key, and a walk meets each once. *)

Import Hash.

Section chains.
Context {K : Type} `{HashFns K}.
Implicit Types (ls : gmap Z (hash_link K)) (hid : hash_table) (al : list (Z * K)).

(** The chain from pointer [p] is [ps]. *)
Fixpoint chain ls (p : Z) (ps : list Z) : Prop :=
  match ps with
  | [] => p = 0
  | a :: ps' => p = a ∧ a ≠ 0 ∧ ∃ lk, ls !! a = Some lk ∧ chain ls (lnext lk) ps'
  end.

Lemma chain_frame ls ls' ps : ∀ p, (∀ a, a ∈ ps → ls' !! a = ls !! a) → chain ls p ps → chain ls' p ps.
Proof using.
  induction ps as [|a ps IH]; intros p Hf; cbn [chain]; [done|]. intros (-> & Ha & lk & Hl & Hc).
  split_and!; [done|done|]. exists lk. rewrite Hf by left. split; [done|]. apply IH; [|done].
  intros b Hb. apply Hf. by right.
Qed.

Lemma chain_dom ls ps : ∀ p a, chain ls p ps → a ∈ ps → is_Some (ls !! a).
Proof using.
  induction ps as [|b ps IH]; intros p a; cbn [chain]; [by intros _ []%not_elem_of_nil|].
  intros (-> & _ & lk & Hl & Hc) [->|Ha]%elem_of_cons; [by exists lk|by eapply IH].
Qed.

Lemma chain_size ls p ps : chain ls p ps → NoDup ps → (length ps <= base.size ls)%nat.
Proof using.
  intros Hc Hn. rewrite <- (size_list_to_set (C:=gset Z)) by done. rewrite <- size_dom. apply subseteq_size.
  intros a Ha. apply elem_of_list_to_set in Ha. apply elem_of_dom. by eapply chain_dom.
Qed.

Lemma chain_not_self ls p a ps : chain ls p (a :: ps) → NoDup (a :: ps) → ∀ lk, ls !! a = Some lk → a ≠ lnext lk.
Proof using.
  intros (-> & Ha & lk' & Hl & Hc) Hn lk Hl' E. rewrite Hl in Hl'. injection Hl' as ->.
  apply NoDup_cons in Hn as [Hn _]. destruct ps as [|b ps]; cbn [chain] in Hc; [congruence|].
  destruct Hc as (Hb & _). apply Hn. rewrite E, Hb. by left.
Qed.

(** * Lookup *)

(** The first entry with a key equal to [k]. *)
Fixpoint assoc (k : K) al : Z :=
  match al with [] => 0 | (p, k') :: al' => if hcmp k k' =? 0 then p else assoc k al' end.

Definition keyed ls (x : Z * K) : Prop := x.1 ≠ 0 ∧ ∃ nx, ls !! x.1 = Some (mkLink (Some x.2) nx).

Lemma lookup_loop_ok ls k : ∀ l fuel p, chain ls p l.*1 → NoDup l.*1 → Forall (keyed ls) l →
  (length l <= fuel)%nat → lookup_loop fuel ls k p = Some (assoc k l).
Proof using.
  induction l as [|[a k'] l IH]; intros fuel p Hc Hn Hk Hf.
  { cbn in Hc. subst p. by destruct fuel. }
  pose proof (chain_not_self _ _ _ _ Hc Hn) as Hself. destruct Hc as (-> & Ha & lk & Hl & Hc).
  apply Forall_cons in Hk as [(Ha' & nx & Hnx) Hk]. cbn [fst snd] in *. rewrite Hl in Hnx. injection Hnx as ->.
  destruct fuel as [|fuel]; [cbn in Hf; lia|]. cbn [lookup_loop assoc].
  destruct (Z.eqb_spec a 0); [done|]. rewrite Hl. cbn [mbind option_bind lkey lnext].
  destruct (hcmp k k' =? 0); [done|]. destruct (Z.eqb_spec a nx) as [E|_]; [by destruct (Hself _ Hl)|].
  cbn [fmap list_fmap fst] in Hn. apply NoDup_cons in Hn as [_ Hn]. apply IH; [done|done|done|cbn in Hf; lia].
Qed.

Definition in_bucket (sz i : Z) (x : Z * K) : Prop := hhash x.2 sz = i.
#[export] Instance in_bucket_dec sz i x : Decision (in_bucket sz i x).
Proof. unfold in_bucket. apply _. Defined.
Definition bucket (sz : Z) al (i : Z) : list (Z * K) := filter (in_bucket sz i) al.

Lemma assoc_bucket sz k al : assoc k (bucket sz al (hhash k sz)) = assoc k al.
Proof using.
  induction al as [|[p k'] al IH]; [done|]. unfold bucket in *. rewrite filter_cons. cbn [assoc].
  case_decide as Hd; cbn [assoc]; [by rewrite IH|]. destruct (Z.eqb_spec (hcmp k k') 0) as [E|]; [|done].
  apply hcmp_eq in E. subst k'. by destruct Hd.
Qed.

(** * The invariant *)

Record hash_ok ls hid al : Prop := mkHashOk {
  hk_size : 0 < size hid <= INT_MAX;
  hk_len : zlen (buckets hid) = size hid;
  hk_nodup : NoDup al.*1;
  hk_keyed : Forall (keyed ls) al;
  hk_chain : ∀ i, 0 <= i < size hid → ∃ b, (buckets hid).[i] = Some b ∧ chain ls b (bucket (size hid) al i).*1;
  hk_count : count hid = zlen al;
  hk_max : zlen al <= INT_MAX;
  hk_idle : next hid = 0 }.

Lemma bucket_sub sz al i x : x ∈ bucket sz al i → x ∈ al.
Proof using. unfold bucket. rewrite list_elem_of_filter. tauto. Qed.

Lemma bucket_nodup sz al i : NoDup al.*1 → NoDup (bucket sz al i).*1.
Proof using.
  intros Hn. eapply sublist_NoDup; [exact Hn|]. apply fmap_sublist, sublist_filter.
Qed.

Lemma slot_ok hid k : 0 < size hid <= INT_MAX →
  i32 (hhash k (size hid)) = hhash k (size hid) ∧ 0 <= hhash k (size hid) < size hid.
Proof using.
  intros Hs. pose proof (hhash_range k (size hid) ltac:(lia)). unfold INT_MAX in *. split; [apply i32_small|]; lia.
Qed.

Lemma hash_lookup_ok ls hid al k : hash_ok ls hid al → hash_lookup ls hid k = Some (assoc k al).
Proof using.
  intros Hok. pose proof (slot_ok hid k (hk_size _ _ _ Hok)) as [Hi Hr]. unfold hash_lookup. rewrite Hi.
  destruct (hk_chain _ _ _ Hok _ Hr) as (b & -> & Hc). cbn [mbind option_bind].
  pose proof (bucket_nodup (size hid) al (hhash k (size hid)) (hk_nodup _ _ _ Hok)) as Hn.
  rewrite <- (assoc_bucket (size hid)). apply lookup_loop_ok; [done|done| |].
  - apply Forall_forall. intros x Hx%bucket_sub. pose proof (hk_keyed _ _ _ Hok) as Hk.
    rewrite Forall_forall in Hk. by apply Hk.
  - rewrite <- (length_fmap fst). by eapply chain_size.
Qed.

(** * Joining *)

(** The operations change the [next] fields of links only. *)
Definition same_keys ls ls' : Prop := ∀ q, lkey <$> ls' !! q = lkey <$> ls !! q.

Lemma keyed_same ls ls' x : same_keys ls ls' → keyed ls x → keyed ls' x.
Proof using.
  intros Hs (Hp & nx & Hl). split; [done|]. specialize (Hs x.1). rewrite Hl in Hs. cbn in Hs.
  destruct (ls' !! x.1) as [[k' nx']|]; cbn in Hs; [|done]. injection Hs as ->. by exists nx'.
Qed.

Lemma set_next_same ls a lk v : ls !! a = Some lk → same_keys ls (<[a := mkLink (lkey lk) v]> ls).
Proof using.
  intros Hl q. destruct (decide (q = a)) as [->|]; [by rewrite lookup_insert_eq, Hl|by rewrite lookup_insert_ne].
Qed.

Lemma hash_join_ok ls hid al p k : hash_ok ls hid al → keyed ls (p, k) → p ∉ al.*1 → zlen al < INT_MAX →
  ∃ ls' hid', hash_join ls hid p = Some (ls', hid') ∧ hash_ok ls' hid' ((p, k) :: al) ∧ same_keys ls ls'.
Proof using.
  intros Hok Hk Hp Hmax. destruct (Hk) as (Hp0 & nx & Hl). cbn [fst snd] in *. destruct Hok as [Hs Hlen Hn Hks Hc Hcnt _ Hi].
  pose proof (slot_ok hid k Hs) as [Hi32 Hr]. unfold hash_join. rewrite Hl. cbn [mbind option_bind lkey]. rewrite Hi32.
  destruct (Hc _ Hr) as (b & Hb & Hcb). rewrite Hb. cbn [mbind option_bind].
  destruct (zset (buckets hid) (hhash k (size hid)) p) as [bs|] eqn:Hset; [|rewrite zset_Some in Hset by lia; done].
  cbn [mbind option_bind]. eexists _, _. split; [done|].
  pose proof (set_next_same ls p _ b Hl) as Hsame. cbn [lkey] in Hsame. split; [|done].
  constructor; cbn [size buckets count next].
  - done.
  - by rewrite (zset_length _ _ _ _ Hset).
  - cbn [fmap list_fmap fst]. by apply NoDup_cons.
  - apply Forall_cons. split; [by eapply keyed_same|]. eapply Forall_impl; [exact Hks|]. intros x. by apply keyed_same.
  - intros i Hir. rewrite (zget_zset _ _ _ _ _ Hset). unfold bucket. rewrite filter_cons. unfold in_bucket at 1. cbn [snd].
    destruct (Hc i Hir) as (b' & Hb' & Hcb').
    assert (Hnot : ∀ j a, a ∈ (bucket (size hid) al j).*1 → a ≠ p).
    { intros j a (x & -> & Hx%bucket_sub)%list_elem_of_fmap E. apply Hp. rewrite <- E. by apply list_elem_of_fmap_2. }
    repeat case_decide; subst; try congruence.
    + exists p. split; [done|]. cbn [fmap list_fmap fst chain]. split_and!; [done|done|]. eexists.
      rewrite lookup_insert_eq. split; [done|]. cbn [lnext]. eapply chain_frame; [|exact Hcb].
      intros a Ha. rewrite lookup_insert_ne; [done|]. by apply not_eq_sym, (Hnot (hhash k (size hid))).
    + exists b'. split; [done|]. eapply chain_frame; [|exact Hcb'].
      intros a Ha. rewrite lookup_insert_ne; [done|]. by apply not_eq_sym, (Hnot i).
  - rewrite i32_small by (unfold INT_MAX in *; lia). cbn [length]. lia.
  - cbn [length]. lia.
  - done.
Qed.

(** * Removing *)

Definition without (p : Z) al : list (Z * K) := filter (λ x, x.1 ≠ p) al.

Lemma without_id p al : p ∉ al.*1 → without p al = al.
Proof using.
  induction al as [|x al IH]; [done|]. cbn [fmap list_fmap]. rewrite not_elem_of_cons. intros [Hx Hn].
  unfold without in *. rewrite filter_cons_True by done. by rewrite IH.
Qed.

Lemma without_app p k m1 m2 : NoDup (m1 ++ (p, k) :: m2).*1 → without p (m1 ++ (p, k) :: m2) = m1 ++ m2.
Proof using.
  rewrite fmap_app. cbn [fmap list_fmap fst]. intros (H1 & H2 & H3)%NoDup_app. unfold without.
  rewrite filter_app, filter_cons_False by (intros E; by apply E). apply NoDup_cons in H3 as [H3 H4].
  fold (without p m1) (without p m2). rewrite !without_id; [done|done|]. intros Hp. apply (H2 p Hp). by left.
Qed.

Lemma bucket_without sz p al i : bucket sz (without p al) i = without p (bucket sz al i).
Proof using. unfold bucket, without. rewrite !list_filter_filter. apply list_filter_iff. tauto. Qed.

(** Where the pointer to the removed link is. *)
Definition tail_ref (P : link_ref) (ps : list Z) : link_ref :=
  match last ps with Some a => RNext a | None => P end.

Lemma remove_loop_ok ls hid p ps2 lk : next hid = 0 → p ≠ 0 → ls !! p = Some lk →
  ∀ ps1 fuel P cur, ref_get ls hid P = Some cur → chain ls cur (ps1 ++ p :: ps2) → p ∉ ps1 →
  (length ps1 <= fuel)%nat →
  remove_loop fuel ls hid P p =
    ('(ls', hid') ← ref_set ls hid (tail_ref P ps1) (lnext lk);
     Some (ls', mkTable (buckets hid') (size hid') (current_slot hid') (next hid') (i32 (count hid' - 1)))).
Proof using.
  intros Hidle Hp Hl. induction ps1 as [|a ps1 IH]; intros fuel P cur Hg Hc Hn Hf.
  - cbn [app chain] in Hc. destruct Hc as (-> & _ & _).
    destruct fuel; cbn [remove_loop]; rewrite Hg; cbn [mbind option_bind]; (destruct (Z.eqb_spec p 0); [done|]);
      rewrite Z.eqb_refl, Hl; cbn [mbind option_bind tail_ref last];
      destruct (ref_set ls hid P (lnext lk)) as [[ls' hid']|] eqn:E; cbn [mbind option_bind]; try done;
      (assert (Hz : next hid' = 0) by (destruct P; cbn in E; bind_inv; by subst));
      (destruct (Z.eqb_spec (next hid') p); [congruence|]); reflexivity.
  - cbn [app chain] in Hc. destruct Hc as (-> & Ha & la & Hla & Hc). apply not_elem_of_cons in Hn as [Hpa Hn].
    destruct fuel as [|fuel]; [cbn in Hf; lia|]. cbn [remove_loop]. rewrite Hg. cbn [mbind option_bind].
    destruct (Z.eqb_spec a 0); [done|]. destruct (Z.eqb_spec a p); [congruence|].
    rewrite (IH fuel (RNext a) (lnext la)); [|cbn; by rewrite Hla|done|done|cbn in Hf; lia].
    unfold tail_ref. destruct ps1 as [|b ps1]; [done|]. rewrite last_cons_cons.
    destruct (last (b :: ps1)) eqn:El; [done|]. by apply last_None in El.
Qed.

Lemma chain_unlink ls lp la a p ps2 : ls !! p = Some lp → ls !! a = Some la → a ≠ 0 →
  ∀ ps0 b, chain ls b (ps0 ++ a :: p :: ps2) → NoDup (ps0 ++ a :: p :: ps2) →
  chain (<[a := mkLink (lkey la) (lnext lp)]> ls) b (ps0 ++ a :: ps2).
Proof using.
  intros Hlp Hla Ha. induction ps0 as [|c ps0 IH]; intros b Hc Hn; cbn [app chain] in *.
  - destruct Hc as (-> & _ & la' & Hla' & _ & _ & lp' & Hlp' & Hc). split_and!; [done|done|].
    eexists. rewrite lookup_insert_eq. split; [done|]. cbn [lnext]. replace lp with lp' by congruence.
    eapply chain_frame; [|exact Hc]. intros q Hq. rewrite lookup_insert_ne; [done|]. intros ->.
    apply NoDup_cons in Hn as [Hn _]. apply Hn. by right.
  - destruct Hc as (-> & Hc0 & lc & Hlc & Hc). apply NoDup_cons in Hn as [Hnc Hn]. split_and!; [done|done|].
    exists lc. rewrite lookup_insert_ne; [split; [done|by apply IH]|]. intros ->. apply Hnc.
    apply elem_of_app. right. by left.
Qed.

(** Links of different buckets are different. *)
Lemma bucket_disjoint sz al i j a : NoDup al.*1 → a ∈ (bucket sz al i).*1 → a ∈ (bucket sz al j).*1 → i = j.
Proof using.
  intros Hn (x & -> & Hx)%list_elem_of_fmap (y & E & Hy)%list_elem_of_fmap.
  unfold bucket in Hx, Hy. apply list_elem_of_filter in Hx as [Hxi Hx], Hy as [Hyj Hy].
  assert (x = y) as ->; [|unfold in_bucket in *; congruence].
  apply list_elem_of_lookup in Hx as [n Hx], Hy as [m Hy].
  assert (n = m) as ->; [|congruence]. eapply NoDup_lookup; [exact Hn|..]; rewrite list_lookup_fmap.
  - by rewrite Hx.
  - rewrite Hy. cbn. by rewrite E.
Qed.

Lemma hash_remove_ok ls hid al p k : hash_ok ls hid al → (p, k) ∈ al →
  ∃ ls' hid', hash_remove_link ls hid p = Some (ls', hid') ∧ hash_ok ls' hid' (without p al) ∧ same_keys ls ls'.
Proof using.
  intros Hok Hin. pose proof Hok as [Hs Hlen Hn Hks Hc Hcnt Hmax Hi].
  assert (Hkp : keyed ls (p, k)) by (rewrite Forall_forall in Hks; by apply Hks).
  destruct Hkp as (Hp0 & nx & Hl). cbn [fst snd] in *.
  pose proof (slot_ok hid k Hs) as [Hi32 Hr]. set (i := hhash k (size hid)) in *.
  unfold hash_remove_link. rewrite Hl. cbn [mbind option_bind lkey]. fold i. rewrite Hi32.
  destruct (Hc i Hr) as (b & Hb & Hcb).
  assert (Hbin : (p, k) ∈ bucket (size hid) al i) by (unfold bucket; by apply list_elem_of_filter).
  pose proof (bucket_nodup (size hid) al i Hn) as Hnb.
  destruct (list_elem_of_split _ _ Hbin) as (m1 & m2 & Em). rewrite Em in Hcb, Hnb.
  pose proof (chain_size _ _ _ Hcb Hnb) as Hsz. rewrite length_fmap, length_app in Hsz.
  pose proof Hnb as Hnb2. rewrite fmap_app in Hcb, Hnb2. cbn [fmap list_fmap fst] in Hcb, Hnb2.
  rewrite (remove_loop_ok ls hid p m2.*1 (mkLink (Some k) nx) Hi Hp0 Hl m1.*1 _ (RBucket i) b);
    [|done|done|apply NoDup_app in Hnb2 as (_ & H2 & _); intros Hp; apply (H2 p Hp); by left|rewrite length_fmap; lia].
  assert (Hw : without p (bucket (size hid) al i) = m1 ++ m2) by (rewrite Em; by apply without_app).
  assert (Hother : ∀ j, j ≠ i → without p (bucket (size hid) al j) = bucket (size hid) al j).
  { intros j Hj. apply without_id. intros Hp. apply Hj. eapply bucket_disjoint; [exact Hn|exact Hp|].
    apply list_elem_of_fmap. by exists (p, k). }
  assert (Hlw : zlen (without p al) = zlen al - 1).
  { destruct (list_elem_of_split _ _ Hin) as (a1 & a2 & Ea). rewrite Ea in Hn |- *.
    rewrite without_app by done. rewrite !length_app. cbn [length]. lia. }
  assert (Hnw : NoDup (without p al).*1).
  { eapply sublist_NoDup; [exact Hn|]. apply fmap_sublist, sublist_filter. }
  assert (Hkw : Forall (keyed ls) (without p al)).
  { apply Forall_forall. intros x Hx. apply list_elem_of_filter in Hx as [_ Hx]. rewrite Forall_forall in Hks. by apply Hks. }
  unfold tail_ref. cbn [lnext]. destruct (last m1.*1) as [a|] eqn:Hlast.
  - (* the pointer is in the link before *)
    apply last_Some in Hlast as (ps0 & Eps). rewrite Eps, <- app_assoc in Hcb, Hnb2. cbn [app] in Hcb, Hnb2.
    assert (Ha : a ∈ (bucket (size hid) al i).*1).
    { rewrite Em, fmap_app, Eps. apply elem_of_app. left. apply elem_of_app. right. by left. }
    assert (Hka : ∃ la, ls !! a = Some la ∧ a ≠ 0).
    { apply list_elem_of_fmap in Ha as (x & -> & Hx%bucket_sub). rewrite Forall_forall in Hks.
      destruct (Hks x Hx) as (Hx0 & nx' & Hx'). by eexists. }
    destruct Hka as (la & Hla & Ha0). cbn [ref_set]. rewrite Hla. cbn [mbind option_bind].
    eexists _, _. split; [done|]. pose proof (set_next_same ls a la nx Hla) as Hsame. split; [|done].
    constructor; cbn [size buckets count next]; try done.
    + eapply Forall_impl; [exact Hkw|]. intros x. by apply keyed_same.
    + intros j Hj. rewrite bucket_without. destruct (decide (j = i)) as [->|Hne].
      * exists b. split; [done|]. rewrite Hw, fmap_app, Eps, <- app_assoc. cbn [app].
        apply (chain_unlink ls (mkLink (Some k) nx) la a p); done.
      * destruct (Hc j Hj) as (b' & Hb' & Hcb'). exists b'. split; [done|]. rewrite Hother by done.
        eapply chain_frame; [|exact Hcb']. intros q Hq. rewrite lookup_insert_ne; [done|]. intros ->.
        apply Hne. eapply bucket_disjoint; [exact Hn|exact Hq|exact Ha].
    + rewrite i32_small by (unfold INT_MAX in *; lia). lia.
    + lia.
  - (* the pointer is the head of the bucket *)
    apply last_None, fmap_nil_inv in Hlast as ->. cbn [app fmap list_fmap chain] in *. destruct Hcb as (-> & _ & lp & Hlp & Hcb).
    rewrite Hl in Hlp. injection Hlp as <-. cbn [lnext] in Hcb. cbn [ref_set].
    destruct (zset (buckets hid) i nx) as [bs|] eqn:Hset; [|rewrite zset_Some in Hset by lia; done].
    cbn [mbind option_bind]. eexists _, _. split; [done|]. split; [|by intros q].
    constructor; cbn [size buckets count next]; try done.
    + by rewrite (zset_length _ _ _ _ Hset).
    + intros j Hj. rewrite bucket_without, (zget_zset _ _ _ _ _ Hset). case_decide as Hji; [subst j|].
      * exists nx. split; [done|]. by rewrite Hw.
      * destruct (Hc j Hj) as (b' & Hb' & Hcb'). exists b'. split; [done|]. by rewrite Hother.
    + rewrite i32_small by (unfold INT_MAX in *; lia). lia.
    + lia.
Qed.
End chains.

(** * Walking *)

Section walking.
Context {K : Type} `{HashFns K} (ls : gmap Z (hash_link K)) (hid0 : hash_table) (al : list (Z * K)).
Hypothesis Hok : hash_ok ls hid0 al.

Definition links (i : Z) : list Z := (bucket (size hid0) al i).*1.
(** The links in the buckets behind slot [i]. *)
Definition behind (i : Z) : list Z := concat (links <$> seqZ (i + 1) (size hid0 - i - 1)).

Definition same_table (hid : hash_table) : Prop :=
  buckets hid = buckets hid0 ∧ size hid = size hid0 ∧ count hid = count hid0.

(** [rem] is what a walk has yet to meet. *)
Definition walk_at (hid : hash_table) (rem : list Z) : Prop :=
  same_table hid ∧
  (rem = [] ∧ next hid = 0 ∨
   ∃ ps, ps ≠ [] ∧ chain ls (next hid) ps ∧ 0 <= current_slot hid < size hid0 ∧ rem = ps ++ behind (current_slot hid)).

Lemma behind_step i : 0 <= i → i + 1 < size hid0 → behind i = links (i + 1) ++ behind (i + 1).
Proof using.
  intros Hi Hs. unfold behind. replace (size hid0 - i - 1) with (Z.succ (size hid0 - (i + 1) - 1)) by lia.
  rewrite seqZ_cons by lia. cbn [fmap list_fmap concat]. by rewrite Z.pred_succ, Z.add_1_r.
Qed.

Lemma behind_end i : size hid0 <= i + 1 → behind i = [].
Proof using. intros Hi. unfold behind. rewrite seqZ_nil by lia. done. Qed.

(** From a slot whose chain [ps] starts at [next]. *)
Lemma next_bucket_ok : ∀ fuel hid ps, same_table hid → 0 <= current_slot hid < size hid0 →
  chain ls (next hid) ps → (Z.to_nat (size hid0 - current_slot hid) <= fuel)%nat →
  ∃ hid', hash_next_bucket fuel hid = Some hid' ∧ walk_at hid' (ps ++ behind (current_slot hid)).
Proof using Hok.
  pose proof (hk_size _ _ _ Hok) as Hsz. unfold INT_MAX in Hsz.
  induction fuel as [|fuel IH]; intros hid ps (Hb & Hs & Hc) Hslot Hch Hf; [lia|]. cbn [hash_next_bucket].
  destruct ps as [|p ps].
  - cbn [chain] in Hch. rewrite Hch. change (negb (0 =? 0)) with false. cbv iota zeta.
    unfold u32. rewrite Z.mod_small by lia. rewrite Hs. cbn [app].
    destruct (Z.ltb_spec (current_slot hid + 1) (size hid0)) as [Hlt|Hge].
    + destruct (hk_chain _ _ _ Hok (current_slot hid + 1) ltac:(lia)) as (b & Hbk & Hcb). rewrite Hb, Hbk.
      cbn [mbind option_bind]. rewrite (behind_step (current_slot hid)) by lia.
      destruct (IH (mkTable (buckets hid0) (size hid0) (current_slot hid + 1) b (count hid)) (links (current_slot hid + 1)))
        as (hid' & E & Hw); [by split_and!|cbn; lia|done|cbn; lia|]. by exists hid'.
    + rewrite behind_end by lia. eexists. split; [done|]. split; [by split_and!|]. by left.
  - pose proof Hch as (Hn & Hp & _). rewrite Hn. destruct (Z.eqb_spec p 0); [done|]. cbn [negb].
    exists hid. split; [done|]. split; [by split_and!|]. right. exists (p :: ps). split_and!; [done|exact Hch|lia|lia|done].
Qed.

Lemma hash_first_ok : ∃ hid', hash_first hid0 = Some hid' ∧ walk_at hid' (concat (links <$> seqZ 0 (size hid0))).
Proof using Hok.
  pose proof (hk_size _ _ _ Hok) as Hsz. unfold hash_first. rewrite (hk_idle _ _ _ Hok). change (0 =? 0) with true. cbv iota.
  destruct (hk_chain _ _ _ Hok 0 ltac:(lia)) as (b & -> & Hc). cbn [mbind option_bind].
  destruct (next_bucket_ok (bucket_fuel hid0) (mkTable (buckets hid0) (size hid0) 0 b (count hid0)) (links 0))
    as (hid' & E & Hw); [by split_and!|cbn; lia|done|unfold bucket_fuel; cbn; lia|].
  exists hid'. split; [exact E|]. cbn [current_slot] in Hw.
  replace (seqZ 0 (size hid0)) with (0 :: seqZ 1 (size hid0 - 0 - 1)); [done|].
  rewrite (seqZ_cons 0) by lia. f_equal. f_equal. lia.
Qed.

Lemma hash_next_ok hid rem : walk_at hid rem →
  match rem with
  | [] => hash_next ls hid = Some (0, hid)
  | p :: rem' => p ≠ 0 ∧ ∃ hid', hash_next ls hid = Some (p, hid') ∧ walk_at hid' rem'
  end.
Proof using Hok.
  pose proof (hk_size _ _ _ Hok) as Hsz.
  intros (Hst & [[-> Hn]|(ps & Hne & Hc & Hslot & ->)]); unfold hash_next; [by rewrite Hn|].
  destruct ps as [|p ps]; [done|]. destruct Hc as (Hn & Hp & lk & Hl & Hc). cbn [app]. split; [done|].
  rewrite Hn. destruct (Z.eqb_spec p 0); [done|]. rewrite Hl. cbn [mbind option_bind].
  destruct (next_bucket_ok (bucket_fuel hid) (mkTable (buckets hid) (size hid) (current_slot hid) (lnext lk) (count hid)) ps)
    as (hid' & -> & Hw); [done|done|done|destruct Hst as (_ & Hs & _); unfold bucket_fuel; rewrite Hs; cbn; lia|].
  cbn [mbind option_bind]. by exists hid'.
Qed.

Lemma collect_ok : ∀ rem fuel hid i, walk_at hid rem → count hid = i + zlen rem → (length rem <= fuel)%nat →
  collect fuel ls hid i = Some rem.
Proof using Hok.
  induction rem as [|p rem IH]; intros fuel hid i Hw Hi Hf; pose proof (hash_next_ok _ _ Hw) as Hn; cbn beta iota in Hn.
  - destruct fuel; cbn [collect]; rewrite Hn; done.
  - destruct Hn as (Hp & hid' & E & Hw'). destruct fuel as [|fuel]; [cbn in Hf; lia|]. cbn [collect]. rewrite E.
    cbn [mbind option_bind length] in *. destruct (Z.eqb_spec p 0); [done|]. destruct (Z.ltb_spec i (count hid)); [|lia].
    cbn [negb andb]. rewrite (IH fuel hid' (i + 1)); [done|done| |lia].
    destruct Hw as ((_ & _ & Hc) & _), Hw' as ((_ & _ & Hc') & _). lia.
Qed.
End walking.

Section trace.
Context {K : Type} `{HashFns K}.
Implicit Types (ls : gmap Z (hash_link K)) (al : list (Z * K)).

(** Distributing over the buckets loses nothing. *)
Lemma concat_insert (f g : Z → list Z) (h x : Z) is_ : NoDup is_ → h ∈ is_ →
  (∀ i, i ≠ h → g i = f i) → g h = x :: f h → concat (g <$> is_) ≡ₚ x :: concat (f <$> is_).
Proof using.
  intros Hn Hh Hne Heq. destruct (list_elem_of_split _ _ Hh) as (i1 & i2 & ->).
  apply NoDup_app in Hn as (_ & H1 & H2). apply NoDup_cons in H2 as [H2 _].
  assert (E : ∀ is' : list Z, h ∉ is' → g <$> is' = f <$> is').
  { intros is' Hni. apply list_fmap_ext. intros k i Hi. apply Hne. intros ->. by apply Hni, list_elem_of_lookup_2 with k. }
  rewrite !fmap_app, !concat_app. cbn [fmap list_fmap concat]. rewrite Heq, !E; [|done|intros Hi; apply (H1 h Hi); by left].
  cbn [app]. by rewrite <- Permutation_middle.
Qed.

Lemma all_links_perm sz al : 0 < sz → concat ((λ i, (bucket sz al i).*1) <$> seqZ 0 sz) ≡ₚ al.*1.
Proof using.
  intros Hsz. induction al as [|[p k] al IH].
  { cbn. induction (seqZ 0 sz) as [|i is_ IHs]; [done|]. cbn. exact IHs. }
  cbn [fmap list_fmap fst]. rewrite <- IH. pose proof (hhash_range k sz Hsz) as Hr.
  apply (concat_insert _ _ (hhash k sz)).
  - apply NoDup_seqZ.
  - apply elem_of_seqZ. lia.
  - intros i Hi. unfold bucket. rewrite filter_cons_False; [done|]. unfold in_bucket. cbn. congruence.
  - unfold bucket. by rewrite filter_cons_True.
Qed.

Inductive hash_op := HJoin (p : Z) (k : K) | HRemove (p : Z).

Definition hash_step (st : gmap Z (hash_link K) * hash_table) (o : hash_op) : option (gmap Z (hash_link K) * hash_table) :=
  match o with
  | HJoin p _ => hash_join st.1 st.2 p
  | HRemove p => hash_remove_link st.1 st.2 p
  end.
Definition hash_run ls (hash_sz : Z) (os : list hash_op) : option (gmap Z (hash_link K) * hash_table) :=
  foldl (λ r o, st ← r; hash_step st o) (Some (ls, hash_create hash_sz)) os.

(** The table as a list of its links. *)
Definition spec_step al (o : hash_op) : list (Z * K) :=
  match o with HJoin p k => (p, k) :: al | HRemove p => without p al end.

(** A joined link has its key and is not in the table; a removed one is. *)
Definition hash_op_ok ls al (o : hash_op) : Prop :=
  match o with
  | HJoin p k => keyed ls (p, k) ∧ p ∉ al.*1 ∧ zlen al < INT_MAX
  | HRemove p => p ∈ al.*1
  end.
Fixpoint hash_ops_ok ls al (os : list hash_op) : Prop :=
  match os with [] => True | o :: os' => hash_op_ok ls al o ∧ hash_ops_ok ls (spec_step al o) os' end.

Lemma hash_create_ok ls hash_sz : 0 <= hash_sz <= INT_MAX → hash_ok ls (hash_create hash_sz) [].
Proof using.
  intros Hs. unfold hash_create. set (sz := if hash_sz =? 0 then DEFAULT_HASH_SIZE else u32 hash_sz).
  assert (Hsz : 0 < sz <= INT_MAX).
  { unfold sz, INT_MAX in *. destruct (Z.eqb_spec hash_sz 0); [unfold DEFAULT_HASH_SIZE; lia|]. rewrite u32_small; lia. }
  constructor; cbn [size buckets next count];
    [done|rewrite length_replicate; lia|by apply NoDup_nil|by apply Forall_nil| |done|done|done].
  intros i Hi. exists 0. rewrite zget_replicate by lia. done.
Qed.

Lemma hash_run_ok os : ∀ ls0 ls hid al, hash_ok ls hid al → same_keys ls0 ls → hash_ops_ok ls0 al os →
  ∃ ls' hid', foldl (λ r o, st ← r; hash_step st o) (Some (ls, hid)) os = Some (ls', hid') ∧
    hash_ok ls' hid' (foldl spec_step al os).
Proof using.
  induction os as [|o os IH]; intros ls0 ls hid al Hok Hsame Hops; [by exists ls, hid|].
  destruct Hops as [Ho Hops]. cbn [foldl mbind option_bind].
  assert (Hstep : ∃ ls1 hid1, hash_step (ls, hid) o = Some (ls1, hid1) ∧ hash_ok ls1 hid1 (spec_step al o) ∧ same_keys ls ls1).
  { destruct o as [p k|p]; cbn [hash_step spec_step hash_op_ok] in *.
    - destruct Ho as (Hk & Hp & Hm). apply hash_join_ok; [done|by eapply keyed_same|done|done].
    - apply list_elem_of_fmap in Ho as ([p' k] & -> & Hin). by eapply hash_remove_ok. }
  destruct Hstep as (ls1 & hid1 & -> & Hok1 & Hs1). eapply IH; [exact Hok1| |exact Hops].
  intros q. by rewrite (Hs1 q).
Qed.
End trace.
Arguments hash_op : clear implicits.

(** C38: after any sequence of joins of new links and removals of joined ones, a
    lookup returns the link joined last among those with the key, and the null
    pointer when there is none; the count is the number of links. *)
Theorem hash_table_refines_list {K} `{HashFns K} (ls : gmap Z (hash_link K)) hash_sz os :
  0 <= hash_sz <= INT_MAX → hash_ops_ok ls [] os →
  ∃ ls' hid, hash_run ls hash_sz os = Some (ls', hid) ∧
    count hid = zlen (foldl spec_step [] os) ∧
    ∀ k, hash_lookup ls' hid k = Some (assoc k (foldl spec_step [] os)).
Proof.
  intros Hs Hops.
  destruct (hash_run_ok os ls ls _ [] (hash_create_ok ls hash_sz Hs) ltac:(done) Hops) as (ls' & hid & E & Hok).
  exists ls', hid. split; [exact E|]. split; [apply Hok|]. intros k. by apply hash_lookup_ok.
Qed.

Definition ex_links : gmap Z (hash_link (list Z)) :=
  <[1 := mkLink (Some [97]) 0]> (<[2 := mkLink (Some [98]) 0]> (<[3 := mkLink (Some [97]) 0]> ∅)).
Definition ex_hops : list (hash_op (list Z)) :=
  [HJoin 1 [97]; HJoin 2 [98]; HJoin 3 [97]; HRemove 2; HRemove 3].

Lemma ex_hops_ok : hash_ops_ok ex_links [] ex_hops.
Proof.
  cbn [hash_ops_ok hash_op_ok ex_hops].
  split_and!; try (split; [done|]; by eexists); try done; try (by vm_compute);
    apply (bool_decide_unpack _); vm_compute; exact I.
Qed.

Lemma hash_table_refines_list_witness :
  ∃ ls' hid, hash_run ex_links 7 ex_hops = Some (ls', hid) ∧
    count hid = zlen (foldl spec_step [] ex_hops) ∧
    ∀ k, hash_lookup ls' hid k = Some (assoc k (foldl spec_step [] ex_hops)).
Proof.
  apply (hash_table_refines_list ex_links 7 ex_hops); [unfold INT_MAX; lia|exact ex_hops_ok].
Defined.

(** C39: freeing the items of the table visits every link in it exactly once,
    whatever joins and removals came before. *)
Theorem hash_free_visits_all {K} `{HashFns K} (ls : gmap Z (hash_link K)) hash_sz os :
  0 <= hash_sz <= INT_MAX → hash_ops_ok ls [] os →
  ∃ ls' hid ps, hash_run ls hash_sz os = Some (ls', hid) ∧ hashFreeItems ls' hid = Some ps ∧
    NoDup ps ∧ ps ≡ₚ (foldl spec_step [] os).*1.
Proof.
  intros Hs Hops.
  destruct (hash_run_ok os ls ls _ [] (hash_create_ok ls hash_sz Hs) ltac:(done) Hops) as (ls' & hid & E & Hok).
  destruct (hash_first_ok ls' hid _ Hok) as (hid' & Ef & Hw).
  pose proof (all_links_perm (size hid) (foldl spec_step [] os) ltac:(apply Hok)) as Hp.
  exists ls', hid, (concat (links hid (foldl spec_step [] os) <$> seqZ 0 (size hid))).
  split; [exact E|]. split; [|split; [rewrite Hp; apply Hok|exact Hp]].
  unfold hashFreeItems. rewrite Ef. cbn [mbind option_bind].
  assert (Hl : zlen (concat (links hid (foldl spec_step [] os) <$> seqZ 0 (size hid))) = count hid).
  { rewrite (hk_count _ _ _ Hok), <- (length_fmap fst (foldl spec_step [] os)). f_equal. by apply Permutation_length. }
  eapply collect_ok; [exact Hok|exact Hw| |lia]. destruct Hw as ((_ & _ & ->) & _). lia.
Qed.

Lemma hash_free_visits_all_witness :
  ∃ ls' hid ps, hash_run ex_links 7 ex_hops = Some (ls', hid) ∧ hashFreeItems ls' hid = Some ps ∧
    NoDup ps ∧ ps ≡ₚ (foldl spec_step [] ex_hops).*1.
Proof.
  apply (hash_free_visits_all ex_links 7 ex_hops); [unfold INT_MAX; lia|exact ex_hops_ok].
Defined.
