(* ===== verification/SwapMeta.v ===== *)
(** The metadata in front of a cached object on disk (src/store_swapmeta.c): a
    list of type, length and value, packed behind a mark and the total length.

    A [tlv] list is a Rocq list; an [int] in a buffer is four bytes, low byte
    first. The unpacker is given no buffer size: [None] is a read past the end
    of the buffer, or a failed assertion. *)
From S2P Require Import Prelude CString.

Module SwapMeta.

Definition STORE_META_OK : Z := 3.
Definition STORE_META_VOID : Z := 0.
Definition STORE_META_KEY : Z := 3.
Definition STORE_META_URL : Z := 4.
Definition STORE_META_STD : Z := 5.
Definition STORE_META_VARY_HEADERS : Z := 8.
Definition STORE_META_OBJSIZE : Z := 10.
Definition STORE_META_STOREURL : Z := 11.
Definition STORE_META_END : Z := 12.
Definition SQUID_MD5_DIGEST_LENGTH : Z := 16.
Definition STORE_HDR_METASIZE : Z := 44.
Definition SWAPOUT_WRITING : Z := 1.

Record tlv := mkTlv { type : Z; length_ : Z; value : list Z }.

(** Integers in memory, low byte first. *)
Fixpoint le (n : nat) (x : Z) : list Z :=
  match n with O => [] | S n' => x mod 256 :: le n' (x / 256) end.
Fixpoint le_val (l : list Z) : Z :=
  match l with [] => 0 | b :: l' => b + 256 * le_val l' end.

Definition i8 (x : Z) : Z := let y := u8 x in if y <? 128 then y else y - 256.

(** [n] bytes at [off]. *)
Definition bytes_at (buf : list Z) (off n : Z) : option (list Z) :=
  if decide (0 <= off ∧ 0 <= n ∧ off + n <= zlen buf)
  then Some (take (Z.to_nat n) (drop (Z.to_nat off) buf)) else None.
Definition get_int (buf : list Z) (off : Z) : option Z :=
  b ← bytes_at buf off 4; Some (i32 (le_val b)).
Definition put_int (x : Z) : list Z := le 4 (u32 x).

(** The list with the new element at its tail. *)
Definition storeSwapTLVAdd (ty : Z) (ptr : list Z) (len : Z) (T : list tlv) : option (list tlv) :=
  v ← bytes_at ptr 0 len;
  Some (T ++ [mkTlv (i8 ty) (i32 len) v]).

(** The parts of an entry and its memory object that go to disk; the block from
    [timestamp] to [flags] is copied as it lies in memory. *)
Record StoreEntry := mkEntry {
  key : list Z; timestamp : Z; lastref : Z; expires : Z; lastmod : Z;
  swap_file_sz : Z; refcount : Z; flags : Z; swap_status : Z;
  url : list Z; object_sz : Z; vary_headers : option (list Z); store_url : option (list Z) }.

Definition std_block (e : StoreEntry) : list Z :=
  le 8 (u64 (timestamp e)) ++ le 8 (u64 (lastref e)) ++ le 8 (u64 (expires e)) ++ le 8 (u64 (lastmod e)) ++
  le 8 (u64 (swap_file_sz e)) ++ le 2 (refcount e) ++ le 2 (flags e).

(** A string with its terminator. *)
Definition add_string (ty : Z) (s : list Z) (T : list tlv) : option (list tlv) :=
  storeSwapTLVAdd ty (s ++ [0]) (zlen s + 1) T.

Definition storeSwapMetaBuild (e : StoreEntry) : option (list tlv) :=
  if negb (swap_status e =? SWAPOUT_WRITING) then None
  else
    T ← storeSwapTLVAdd STORE_META_KEY (key e) SQUID_MD5_DIGEST_LENGTH [];
    T ← storeSwapTLVAdd STORE_META_STD (std_block e) STORE_HDR_METASIZE T;
    T ← add_string STORE_META_URL (url e) T;
    T ← (if -1 <? object_sz e then storeSwapTLVAdd STORE_META_OBJSIZE (le 8 (u64 (object_sz e))) 8 T else Some T);
    T ← (match vary_headers e with Some v => add_string STORE_META_VARY_HEADERS v T | None => Some T end);
    match store_url e with Some s => add_string STORE_META_STOREURL s T | None => Some T end.

(** The header length of a list. *)
Fixpoint tlv_len (l : list tlv) : Z :=
  match l with [] => 0 | t :: l' => 1 + 4 + length_ t + tlv_len l' end.

Fixpoint pack_tlvs (l : list tlv) : option (list Z) :=
  match l with
  | [] => Some []
  | t :: l' =>
      v ← bytes_at (value t) 0 (length_ t);
      r ← pack_tlvs l';
      Some (u8 (type t) :: put_int (length_ t) ++ v ++ r)
  end.

(** The buffer and its length; the buffer is as long as the lengths say. *)
Definition storeSwapMetaPack (tlv_list : list tlv) : option (list Z * Z) :=
  let buflen := i32 (1 + 4 + tlv_len tlv_list) in
  r ← pack_tlvs tlv_list;
  let buf := u8 STORE_META_OK :: put_int buflen ++ r in
  if zlen buf =? buflen then Some (buf, buflen) else None.

(** The comparison of [buflen - j] with a [size_t] is unsigned. *)
Fixpoint unpack_loop (fuel : nat) (buf : list Z) (buflen j : Z) : option (list tlv) :=
  if 5 <=? u64 (buflen - j) then
    c ← buf.[j];
    let ty := i8 c in
    if (ty <=? STORE_META_VOID) || (STORE_META_END + 10 <? ty) then Some []
    else
      len ← get_int buf (j + 1);
      if (len <? 0) || (65536 <? len) then Some []
      else if buflen <? j + 5 + len then Some []
      else
        v ← bytes_at buf (j + 5) len;
        match fuel with
        | O => None
        | S fuel' => T ← unpack_loop fuel' buf buflen (j + 5 + len); Some (mkTlv ty len v :: T)
        end
  else Some [].

(** The list and [*hdr_len], which is not set on an early return. Every turn of
    the loop reads at a later place in the buffer. *)
Definition storeSwapMetaUnpack (buf : list Z) : option (list tlv * option Z) :=
  c ← buf.[0];
  if negb (i8 c =? STORE_META_OK) then Some ([], None)
  else
    buflen ← get_int buf 1;
    if u64 buflen <=? 5 then Some ([], None)
    else T ← unpack_loop (length buf) buf buflen 5; Some (T, Some buflen).

End SwapMeta.
Import SwapMeta.

(** * Integers in a buffer *)

Lemma le_val_le n : ∀ x, 0 <= x < 256 ^ Z.of_nat n → le_val (le n x) = x.
Proof.
  induction n as [|n IH]; intros x Hx; cbn [le le_val]; [cbn in Hx; lia|].
  rewrite Nat2Z.inj_succ, Z.pow_succ_r in Hx by lia. rewrite IH.
  - pose proof (Z.div_mod x 256 ltac:(lia)). lia.
  - split; [apply Z.div_pos; lia|apply Z.div_lt_upper_bound; lia].
Qed.

Lemma length_le n : ∀ x, length (le n x) = n.
Proof. induction n; intros x; cbn; auto. Qed.

Lemma bytes_at_app pre v rest : bytes_at (pre ++ v ++ rest) (zlen pre) (zlen v) = Some v.
Proof.
  unfold bytes_at. rewrite decide_True by (rewrite !length_app; lia).
  by rewrite !Nat2Z.id, drop_app_length, take_app_length.
Qed.

Lemma get_int_put pre x rest : INT_MIN <= x <= INT_MAX → get_int (pre ++ put_int x ++ rest) (zlen pre) = Some x.
Proof.
  intros Hx. unfold get_int, INT_MIN, INT_MAX in *. pose proof (bytes_at_app pre (put_int x) rest) as E.
  unfold put_int in E at 2. rewrite length_le in E. change (Z.of_nat 4) with 4 in E. rewrite E. cbn [mbind option_bind].
  unfold put_int. rewrite le_val_le; [|change (256 ^ Z.of_nat 4) with 4294967296; apply u32_range].
  f_equal. rewrite <- (i32_small x) at 2 by lia. unfold i32, u32. by rewrite Zmod_mod.
Qed.

(** * Round trip *)

(** An element the unpacker accepts. *)
Definition tlv_ok (t : tlv) : Prop :=
  0 < type t <= 22 ∧ length_ t = zlen (value t) ∧ zlen (value t) <= 65536.

Lemma pack_tlvs_ok l : Forall tlv_ok l → ∃ r, pack_tlvs l = Some r ∧ zlen r = tlv_len l.
Proof.
  induction 1 as [|t l (Ht & Hl & Hm) _ IH]; [by exists []|]. destruct IH as (r & E & Hr). cbn [pack_tlvs tlv_len].
  pose proof (bytes_at_app [] (value t) []) as Ev. rewrite app_nil_r in Ev. cbn [app length] in Ev.
  change (Z.of_nat 0) with 0 in Ev. rewrite Hl, Ev, E. cbn [mbind option_bind]. eexists. split; [done|].
  cbn [length]. rewrite !length_app. unfold put_int. rewrite length_le. lia.
Qed.

Lemma pack_tlvs_cons t l r : tlv_ok t → pack_tlvs (t :: l) = Some r →
  ∃ r', pack_tlvs l = Some r' ∧ r = type t :: put_int (length_ t) ++ value t ++ r'.
Proof.
  intros (Ht & Hl & Hm). cbn [pack_tlvs]. pose proof (bytes_at_app [] (value t) []) as Ev.
  rewrite app_nil_r in Ev. cbn [app length] in Ev. change (Z.of_nat 0) with 0 in Ev. rewrite Hl, Ev. cbn [mbind option_bind].
  destruct (pack_tlvs l) as [r'|]; [|done]. cbn [mbind option_bind]. intros [= <-]. exists r'. rewrite u8_small by lia. done.
Qed.

Lemma i8_small x : 0 <= x < 128 → i8 x = x.
Proof. intros. unfold i8. rewrite u8_small by lia. by destruct (Z.ltb_spec x 128); [|lia]. Qed.

(** The fields of the element at [zlen pre]. *)
Lemma tlv_reads pre t r : tlv_ok t → let buf := pre ++ type t :: put_int (length_ t) ++ value t ++ r in
  buf.[zlen pre] = Some (type t) ∧ get_int buf (zlen pre + 1) = Some (length_ t) ∧
  bytes_at buf (zlen pre + 5) (length_ t) = Some (value t).
Proof.
  intros (Ht & Hl & Hm). cbv zeta. split; [rewrite zget_app_r by lia; by rewrite Z.sub_diag|].
  change (pre ++ type t :: put_int (length_ t) ++ value t ++ r)
    with (pre ++ [type t] ++ put_int (length_ t) ++ value t ++ r). rewrite app_assoc. split.
  - replace (zlen pre + 1) with (zlen (pre ++ [type t])) by (rewrite length_app; cbn; lia).
    apply get_int_put. unfold INT_MIN, INT_MAX. lia.
  - rewrite app_assoc, Hl.
    replace (zlen pre + 5) with (zlen ((pre ++ [type t]) ++ put_int (zlen (value t))))
      by (rewrite !length_app; unfold put_int; rewrite length_le; cbn; lia).
    apply bytes_at_app.
Qed.

(** One element at [j]. *)
Lemma unpack_step fuel pre t r buflen : tlv_ok t → buflen <= INT_MAX →
  zlen pre + 5 + length_ t <= buflen →
  unpack_loop (S fuel) (pre ++ type t :: put_int (length_ t) ++ value t ++ r) buflen (zlen pre) =
    (T ← unpack_loop fuel (pre ++ type t :: put_int (length_ t) ++ value t ++ r) buflen (zlen pre + 5 + length_ t);
     Some (t :: T)).
Proof.
  intros Hok Hbl Hj. pose proof Hok as (Ht & Hl & Hm). set (buf := pre ++ _). cbn [unpack_loop]. unfold INT_MAX in *.
  rewrite u64_small by lia. destruct (Z.leb_spec 5 (buflen - zlen pre)); [|lia].
  destruct (tlv_reads pre t r ltac:(done)) as (E0 & E1 & E2). fold buf in E0, E1, E2.
  rewrite E0. cbn [mbind option_bind]. cbv zeta. rewrite i8_small by lia. unfold STORE_META_VOID, STORE_META_END.
  destruct (Z.leb_spec (type t) 0); [lia|]. destruct (Z.ltb_spec (12 + 10) (type t)); [lia|]. cbn [orb].
  rewrite E1. cbn [mbind option_bind]. destruct (Z.ltb_spec (length_ t) 0); [lia|].
  destruct (Z.ltb_spec 65536 (length_ t)); [lia|]. cbn [orb].
  destruct (Z.ltb_spec buflen (zlen pre + 5 + length_ t)); [lia|].
  rewrite E2. cbn [mbind option_bind]. by destruct t.
Qed.

Lemma unpack_loop_ok : ∀ l fuel pre r rest buflen, Forall tlv_ok l → pack_tlvs l = Some r →
  buflen = zlen pre + zlen r → buflen <= INT_MAX → (length l <= fuel)%nat →
  unpack_loop fuel (pre ++ r ++ rest) buflen (zlen pre) = Some l.
Proof.
  induction l as [|t l IH]; intros fuel pre r rest buflen Hok Hp Hb Hmax Hf.
  { cbn in Hp. injection Hp as <-. cbn [length] in Hb. replace buflen with (zlen pre) by lia.
    destruct fuel; cbn [unpack_loop]; rewrite Z.sub_diag; done. }
  apply Forall_cons in Hok as [Ht Hok]. destruct (pack_tlvs_cons t l r Ht Hp) as (r' & Hp' & ->).
  destruct fuel as [|fuel]; [cbn in Hf; lia|]. pose proof Ht as (_ & Hl & _).
  assert (Hlen : zlen (type t :: put_int (length_ t) ++ value t ++ r') = 5 + length_ t + zlen r').
  { cbn [length]. rewrite !length_app. unfold put_int. rewrite length_le. lia. }
  rewrite Hlen in Hb. cbn [app]. rewrite <- !app_assoc. rewrite unpack_step by (done || lia).
  assert (E : pre ++ type t :: put_int (length_ t) ++ value t ++ r' ++ rest
    = (pre ++ type t :: put_int (length_ t) ++ value t) ++ r' ++ rest).
  { rewrite <- !app_assoc. cbn [app]. by rewrite <- !app_assoc. }
  assert (Hpre : zlen pre + 5 + length_ t = zlen (pre ++ type t :: put_int (length_ t) ++ value t)).
  { rewrite length_app. cbn [length]. rewrite length_app. unfold put_int. rewrite length_le. lia. }
  rewrite E, Hpre, (IH fuel _ r' rest buflen); [done|done|done|lia|done|cbn in Hf; lia].
Qed.

(** * A buffer that ends early *)

Lemma bytes_at_None buf off n : 0 <= n → zlen buf < off + n → bytes_at buf off n = None.
Proof. intros. unfold bytes_at. by rewrite decide_False by lia. Qed.

(** Reads that stay inside a prefix of the buffer give the same. *)
Lemma zget_take (buf : list Z) k j : j < k → (take (Z.to_nat k) buf).[j] = buf.[j].
Proof.
  intros Hj. unfold zget. destruct (Z.leb_spec 0 j); [|done]. apply lookup_take_lt. lia.
Qed.

Lemma bytes_at_take buf k off n : 0 <= k <= zlen buf → off + n <= k →
  bytes_at (take (Z.to_nat k) buf) off n = bytes_at buf off n.
Proof.
  intros Hk Ho. unfold bytes_at. rewrite length_take. case_decide as H1.
  - rewrite decide_True by lia. f_equal. rewrite <- (take_drop (Z.to_nat k) buf) at 2.
    rewrite drop_app_le by (rewrite length_take; lia). rewrite take_app_le; [done|]. rewrite length_drop, length_take. lia.
  - rewrite decide_False; [done|]. lia.
Qed.

Lemma unpack_loop_cut : ∀ l fuel pre r rest buflen k, Forall tlv_ok l → pack_tlvs l = Some r →
  buflen = zlen pre + zlen r → buflen <= INT_MAX → zlen pre <= k < buflen →
  unpack_loop fuel (take (Z.to_nat k) (pre ++ r ++ rest)) buflen (zlen pre) = None.
Proof.
  induction l as [|t l IH]; intros fuel pre r rest buflen k Hok Hp Hb Hmax Hk.
  { cbn in Hp. injection Hp as <-. cbn [length] in Hb. lia. }
  apply Forall_cons in Hok as [Ht Hok]. destruct (pack_tlvs_cons t l r Ht Hp) as (r' & Hp' & ->).
  pose proof Ht as (Hty & Hl & Hm).
  assert (Hlen : zlen (type t :: put_int (length_ t) ++ value t ++ r') = 5 + length_ t + zlen r').
  { cbn [length]. rewrite !length_app. unfold put_int. rewrite length_le. lia. }
  rewrite Hlen in Hb. cbn [app]. rewrite <- !app_assoc.
  assert (Etl : zlen (pre ++ type t :: put_int (length_ t) ++ value t ++ r' ++ rest) = buflen + zlen rest).
  { rewrite length_app. cbn [length]. rewrite !length_app. unfold put_int. rewrite length_le. lia. }
  destruct (tlv_reads pre t (r' ++ rest) Ht) as (E0 & E1 & _).
  set (buf := pre ++ type t :: put_int (length_ t) ++ value t ++ r' ++ rest) in *.
  assert (Hbk : zlen (take (Z.to_nat k) buf) = k) by (rewrite length_take; lia).
  unfold INT_MAX in *. assert (Hgo : (5 <=? u64 (buflen - zlen pre)) = true) by (rewrite u64_small by lia; lia).
  destruct fuel as [|fuel]; cbn [unpack_loop]; rewrite Hgo.
  all: destruct (decide (zlen pre < k)) as [Hk0|]; [|by rewrite (zget_ge _ (zlen pre)) by lia].
  all: rewrite zget_take, E0 by lia; cbn [mbind option_bind]; cbv zeta; rewrite i8_small by lia;
    unfold STORE_META_VOID, STORE_META_END.
  all: destruct (Z.leb_spec (type t) 0); [lia|]; destruct (Z.ltb_spec (12 + 10) (type t)); [lia|]; cbn [orb].
  all: destruct (decide (zlen pre + 5 <= k)) as [Hk1|]; [|unfold get_int; by rewrite bytes_at_None by lia].
  all: unfold get_int in E1 |- *; rewrite bytes_at_take by lia; rewrite E1; cbn [mbind option_bind].
  all: destruct (Z.ltb_spec (length_ t) 0); [lia|]; destruct (Z.ltb_spec 65536 (length_ t)); [lia|]; cbn [orb].
  all: destruct (Z.ltb_spec buflen (zlen pre + 5 + length_ t)); [lia|].
  all: destruct (decide (zlen pre + 5 + length_ t <= k)) as [Hk2|]; [|by rewrite (bytes_at_None _ (zlen pre + 5)) by lia].
  all: destruct (bytes_at (take (Z.to_nat k) buf) (zlen pre + 5) (length_ t)); cbn [mbind option_bind]; try done.
  assert (E : buf = (pre ++ type t :: put_int (length_ t) ++ value t) ++ r' ++ rest).
  { unfold buf. rewrite <- !app_assoc. cbn [app]. by rewrite <- !app_assoc. }
  assert (Hpre : zlen pre + 5 + length_ t = zlen (pre ++ type t :: put_int (length_ t) ++ value t)).
  { rewrite length_app. cbn [length]. rewrite length_app. unfold put_int. rewrite length_le. lia. }
  rewrite E, Hpre, (IH fuel _ r' rest buflen k) by (done || unfold INT_MAX; lia). done.
Qed.

(** * What is built can be packed *)

Lemma storeSwapTLVAdd_ok ty v T : 0 < ty <= 22 → zlen v <= 65536 → Forall tlv_ok T →
  ∃ T', storeSwapTLVAdd ty v (zlen v) T = Some T' ∧ Forall tlv_ok T' ∧ T' ≠ [].
Proof.
  intros Hty Hv HT. unfold storeSwapTLVAdd. pose proof (bytes_at_app [] v []) as E.
  rewrite app_nil_r in E. cbn [app length] in E. change (Z.of_nat 0) with 0 in E. rewrite E. cbn [mbind option_bind].
  eexists. split; [done|]. split; [|by destruct T]. apply Forall_app. split; [done|]. apply Forall_singleton.
  unfold tlv_ok. cbn [type length_ value]. rewrite i8_small, i32_small by lia. lia.
Qed.

(** An entry about to be written, its strings short enough to be read back. *)
Definition entry_ok (e : StoreEntry) : Prop :=
  swap_status e = SWAPOUT_WRITING ∧ zlen (key e) = 16 ∧
  Forall (λ s, zlen s < 65536) (url e :: option_list (vary_headers e) ++ option_list (store_url e)).

Lemma add_string_ok ty s T : 0 < ty <= 22 → zlen s < 65536 → Forall tlv_ok T →
  ∃ T', add_string ty s T = Some T' ∧ Forall tlv_ok T' ∧ T' ≠ [].
Proof.
  intros Hty Hs HT. unfold add_string. replace (zlen s + 1) with (zlen (s ++ [0])) by (rewrite length_app; cbn; lia).
  apply storeSwapTLVAdd_ok; [done|rewrite length_app; cbn; lia|done].
Qed.

Lemma storeSwapMetaBuild_ok e : entry_ok e → ∃ l, storeSwapMetaBuild e = Some l ∧ Forall tlv_ok l ∧ l ≠ [].
Proof.
  intros (Hst & Hk & Hss). apply Forall_cons in Hss as [Hu Hss]. apply Forall_app in Hss as [Hv Hs].
  unfold storeSwapMetaBuild. rewrite Hst, Z.eqb_refl. cbn [negb]. unfold SQUID_MD5_DIGEST_LENGTH. rewrite <- Hk.
  destruct (storeSwapTLVAdd_ok STORE_META_KEY (key e) []) as (T1 & -> & H1 & _); [done|lia|by apply Forall_nil|].
  cbn [mbind option_bind]. assert (Hb : STORE_HDR_METASIZE = zlen (std_block e)).
  { unfold std_block. by rewrite !length_app, !length_le. }
  rewrite Hb. destruct (storeSwapTLVAdd_ok STORE_META_STD (std_block e) T1) as (T2 & -> & H2 & _);
    [done|by rewrite <- Hb|done|]. cbn [mbind option_bind].
  destruct (add_string_ok STORE_META_URL (url e) T2) as (T3 & -> & H3 & N3); [done|done|done|]. cbn [mbind option_bind].
  assert (∃ T4, (if -1 <? object_sz e then storeSwapTLVAdd STORE_META_OBJSIZE (le 8 (u64 (object_sz e))) 8 T3 else Some T3)
    = Some T4 ∧ Forall tlv_ok T4 ∧ T4 ≠ []) as (T4 & -> & H4 & N4).
  { destruct (-1 <? object_sz e); [|by exists T3].
    exact (storeSwapTLVAdd_ok STORE_META_OBJSIZE (le 8 (u64 (object_sz e))) T3 ltac:(done) ltac:(done) H3). }
  cbn [mbind option_bind].
  assert (∃ T5, (match vary_headers e with Some v => add_string STORE_META_VARY_HEADERS v T4 | None => Some T4 end)
    = Some T5 ∧ Forall tlv_ok T5 ∧ T5 ≠ []) as (T5 & -> & H5 & N5).
  { destruct (vary_headers e) as [v|]; [|by exists T4]. apply Forall_cons in Hv as [Hv _].
    by apply add_string_ok. }
  cbn [mbind option_bind]. destruct (store_url e) as [s|]; [|by exists T5]. apply Forall_cons in Hs as [Hs _].
  by apply add_string_ok.
Qed.

(** C40: packed metadata, whatever follows it in the file, unpacks to the same
    list and its length; every proper prefix of it makes the unpacker, which
    takes the length from the buffer, read past the prefix's end. *)
Theorem swap_meta_round_trip l rest :
  Forall tlv_ok l → l ≠ [] → 5 + tlv_len l <= INT_MAX →
  ∃ buf n, storeSwapMetaPack l = Some (buf, n) ∧ n = zlen buf ∧
    storeSwapMetaUnpack (buf ++ rest) = Some (l, Some n) ∧
    ∀ k, 0 <= k < n → storeSwapMetaUnpack (take (Z.to_nat k) buf) = None.
Proof.
  intros Hok Hne Hmax. destruct (pack_tlvs_ok l Hok) as (r & Hp & Hr).
  assert (Hpos : 5 <= zlen r).
  { destruct l as [|t l]; [done|]. apply Forall_cons in Hok as [Ht Hok].
    destruct (pack_tlvs_cons t l r Ht Hp) as (r' & _ & ->). cbn [length]. rewrite length_app. unfold put_int.
    rewrite length_le. lia. }
  unfold storeSwapMetaPack. unfold INT_MAX in *. rewrite i32_small by lia. rewrite Hp. cbn [mbind option_bind]. cbv zeta.
  set (n := 1 + 4 + tlv_len l). set (hd := u8 STORE_META_OK :: put_int n).
  assert (Hhd : zlen hd = 5) by (unfold hd, put_int; cbn [length]; rewrite length_le; lia).
  change (u8 STORE_META_OK :: put_int n ++ r) with (hd ++ r).
  assert (Hn : n = zlen (hd ++ r)) by (rewrite length_app; unfold n; lia).
  destruct (Z.eqb_spec (zlen (hd ++ r)) n) as [_|]; [|lia]. exists (hd ++ r), n. split; [done|]. split; [done|].
  assert (Hint : ∀ x, get_int (hd ++ x) 1 = Some n).
  { intros x. change (hd ++ x) with ([u8 STORE_META_OK] ++ put_int n ++ x).
    apply (get_int_put [u8 STORE_META_OK]). unfold INT_MIN, INT_MAX. lia. }
  split.
  - unfold storeSwapMetaUnpack. rewrite <- app_assoc. change ((hd ++ r ++ rest).[0]) with (Some (u8 STORE_META_OK)).
    cbn [mbind option_bind]. change (negb (i8 (u8 STORE_META_OK) =? STORE_META_OK)) with false. cbv iota.
    rewrite Hint. cbn [mbind option_bind]. rewrite u64_small by lia. destruct (Z.leb_spec n 5); [lia|].
    rewrite <- Hhd, (unpack_loop_ok l) with (r := r); [done|done|done|rewrite Hn, length_app; lia|unfold INT_MAX; lia|].
    assert (length l <= length r)%nat; [|rewrite !length_app; lia].
    clear -Hok Hp. revert r Hp. induction Hok as [|t l Ht _ IH]; intros r Hp; [cbn; lia|].
    destruct (pack_tlvs_cons t l r Ht Hp) as (r' & Hp' & ->). specialize (IH r' Hp'). cbn [length]. rewrite !length_app. lia.
  - intros k Hk. unfold storeSwapMetaUnpack.
    destruct (decide (k = 0)) as [->|]; [done|]. rewrite (zget_take _ k) by lia.
    change ((hd ++ r).[0]) with (Some (u8 STORE_META_OK)). cbn [mbind option_bind].
    change (negb (i8 (u8 STORE_META_OK) =? STORE_META_OK)) with false. cbv iota.
    destruct (decide (k < 5)).
    { unfold get_int. rewrite bytes_at_None; [done|lia|rewrite length_take; lia]. }
    unfold get_int in Hint |- *. rewrite bytes_at_take by lia. rewrite Hint. cbn [mbind option_bind].
    rewrite u64_small by lia. destruct (Z.leb_spec n 5); [lia|]. rewrite <- Hhd, <- (app_nil_r r).
    rewrite (unpack_loop_cut l) with (r := r); [done|done|done|rewrite Hn, length_app; lia|unfold INT_MAX; lia|lia].
Qed.

Definition ex_entry : StoreEntry :=
  mkEntry (seqZ 0 16) 100 200 (-1) 50 300 1 0 1 (bytes_of "http://a/") 1000 None (Some (bytes_of "http://b/")).
Definition ex_tlvs : list tlv := default [] (storeSwapMetaBuild ex_entry).

Lemma ex_tlvs_ok : Forall tlv_ok ex_tlvs.
Proof.
  unfold ex_tlvs. destruct (storeSwapMetaBuild_ok ex_entry) as (l & -> & Hl & _); [|exact Hl].
  split_and!; [done|done|]. cbn. repeat (apply Forall_cons; split; [done|]). by apply Forall_nil.
Qed.

Lemma swap_meta_round_trip_witness :
  ∃ buf n, storeSwapMetaPack ex_tlvs = Some (buf, n) ∧ n = zlen buf ∧
    storeSwapMetaUnpack (buf ++ [72; 84]) = Some (ex_tlvs, Some n) ∧
    ∀ k, 0 <= k < n → storeSwapMetaUnpack (take (Z.to_nat k) buf) = None.
Proof.
  apply (swap_meta_round_trip ex_tlvs [72; 84]).
  - exact ex_tlvs_ok.
  - vm_compute. discriminate.
  - vm_compute. discriminate.
Defined.
