(* ===== verification/ArrayStack.v ===== *)
(** Growing arrays and the stacks made of them (lib/Array.c, lib/Stack.c).

    [items] is the allocated block, of [capacity] pointers, empty while the
    pointer is null; [None] is a failed assertion or an access outside it. The
    bytes of a block that [xrealloc] adds are cleared by the [memset] that
    follows. *)
From S2P Require Import Prelude CString.

Module ArrayStack.

Record Array := mkArray { capacity : Z; count : Z; items : list Z }.

Definition arrayInit : Array := mkArray 0 0 [].
Definition arrayCreate : Array := arrayInit.

(** [items] becomes null, the counts stay. *)
Definition arrayClean (a : Array) : Array := mkArray (capacity a) (count a) [].

Definition arrayGrow (a : Array) (min_capacity : Z) : option Array :=
  if capacity a <? min_capacity then
    let min_delta := 16 in
    let delta := i32 (Z.quot (i32 (min_capacity + (min_delta - 1))) min_delta * min_delta) in
    if 0 <? delta then
      let cap := i32 (capacity a + delta) in
      if (0 <=? count a) && (count a <=? cap) then
        Some (mkArray cap (count a)
                (take (Z.to_nat (count a)) (items a ++ replicate (Z.to_nat cap) 0) ++
                 replicate (Z.to_nat (cap - count a)) 0))
      else None
    else None
  else None.

Definition arrayAppend (a : Array) (obj : Z) : option Array :=
  a' ← (if capacity a <=? count a then arrayGrow a (i32 (count a + 1)) else Some a);
  its ← zset (items a') (count a') obj;
  Some (mkArray (capacity a') (i32 (count a' + 1)) its).

Definition arrayInsert (a : Array) (obj position : Z) : option Array :=
  a' ← (if capacity a <=? count a then arrayGrow a (i32 (count a + 1)) else Some a);
  let position := if count a' <? position then count a' else position in
  its ← (if position <? count a' then
           if 0 <=? position then
             memcpy (items a') (position + 1)
               (take (Z.to_nat (count a' - position)) (drop (Z.to_nat position) (items a')))
           else None
         else Some (items a'));
  its' ← zset its position obj;
  Some (mkArray (capacity a') (i32 (count a' + 1)) its').

Definition arrayPreAppend (a : Array) (app_count : Z) : option Array :=
  if capacity a <? i32 (count a + app_count) then arrayGrow a (i32 (count a + app_count)) else Some a.

Definition arrayShrink (a : Array) (new_count : Z) : option Array :=
  if (new_count <=? capacity a) && (0 <=? new_count)
  then Some (mkArray (capacity a) new_count (items a)) else None.

(** 0 is the null pointer returned for an empty stack. *)
Definition stackPop (s : Array) : option (Z * Array) :=
  if count s =? 0 then Some (0, s)
  else x ← (items s).[count s - 1]; Some (x, mkArray (capacity s) (count s - 1) (items s)).

Definition stackTop (s : Array) : option Z :=
  if count s =? 0 then Some 0 else (items s).[count s - 1].

End ArrayStack.
Import ArrayStack.

(** * Arrays as lists *)

(** The array holds [l]. *)
Record arr_ok (a : Array) (l : list Z) : Prop := mkArrOk {
  ar_count : count a = zlen l;
  ar_cap : zlen (items a) = capacity a;
  ar_fits : zlen l <= capacity a;
  ar_items : take (length l) (items a) = l }.

Lemma arrayInit_ok : arr_ok arrayInit [].
Proof. by constructor. Qed.

(** Growth at least doubles, so it stays inside an [int] below a quarter of it. *)
Lemma arrayGrow_ok a l n : arr_ok a l → capacity a < n → n <= 536870911 →
  ∃ a', arrayGrow a n = Some a' ∧ arr_ok a' l ∧ n <= capacity a' ∧ capacity a' <= capacity a + n + 15.
Proof.
  intros [Hc Hcap Hf Hi] Hlt Hn. unfold arrayGrow. destruct (Z.ltb_spec (capacity a) n); [|lia]. cbv zeta.
  rewrite (i32_small (n + (16 - 1))) by lia. rewrite Z.quot_div_nonneg by lia.
  pose proof (Z.div_mod (n + (16 - 1)) 16 ltac:(lia)). pose proof (Z.mod_pos_bound (n + (16 - 1)) 16 ltac:(lia)).
  set (q := (n + (16 - 1)) / 16) in *. rewrite (i32_small (q * 16)) by lia.
  destruct (Z.ltb_spec 0 (q * 16)); [|lia]. rewrite i32_small by lia.
  destruct (Z.leb_spec 0 (count a)); [|lia]. destruct (Z.leb_spec (count a) (capacity a + q * 16)); [|lia]. cbn [andb].
  eexists. split; [done|]. cbn [capacity]. split; [|lia].
  assert (Ht : take (Z.to_nat (count a)) (items a ++ replicate (Z.to_nat (capacity a + q * 16)) 0) = l).
  { rewrite take_app_le by lia. by rewrite Hc, Nat2Z.id. }
  constructor; cbn [capacity count items]; rewrite ?Ht; [done| |lia|].
  - rewrite length_app, length_replicate. lia.
  - by rewrite take_app_length.
Qed.

(** Room for one more. *)
Lemma array_room a l : arr_ok a l → zlen l <= 536870910 →
  ∃ a', (if capacity a <=? count a then arrayGrow a (i32 (count a + 1)) else Some a) = Some a' ∧
    arr_ok a' l ∧ zlen l < capacity a'.
Proof.
  intros Hok Hl. pose proof Hok as [Hc Hcap Hf Hi]. rewrite Hc, i32_small by lia.
  destruct (Z.leb_spec (capacity a) (zlen l)).
  - destruct (arrayGrow_ok a l (zlen l + 1) Hok) as (a' & -> & Hok' & Hg & _); [lia|lia|]. exists a'. split_and!; [done|done|lia].
  - by exists a.
Qed.

Lemma arrayAppend_ok a l x : arr_ok a l → zlen l <= 536870910 →
  ∃ a', arrayAppend a x = Some a' ∧ arr_ok a' (l ++ [x]).
Proof.
  intros Hok Hl. unfold arrayAppend. destruct (array_room a l Hok Hl) as (a1 & -> & [Hc Hcap Hf Hi] & Hlt).
  cbn [mbind option_bind]. rewrite zset_Some by lia. cbn [mbind option_bind]. eexists. split; [done|].
  rewrite Hc, i32_small by lia. constructor; cbn [capacity count items]; rewrite ?length_app; cbn [length]; try lia.
  - rewrite length_insert. lia.
  - rewrite Nat2Z.id, Nat.add_1_r, (take_S_r _ _ x) by (apply list_lookup_insert_eq; lia).
    by rewrite take_insert_ge, Hi by lia.
Qed.

(** Insertion in the middle moves the rest up. *)
Lemma arrayInsert_ok a l x pos : arr_ok a l → zlen l <= 536870910 → 0 <= pos →
  ∃ a', arrayInsert a x pos = Some a' ∧
    arr_ok a' (take (Z.to_nat pos) l ++ x :: drop (Z.to_nat pos) l).
Proof.
  intros Hok Hl Hp. unfold arrayInsert. destruct (array_room a l Hok Hl) as (a1 & -> & [Hc Hcap Hf Hi] & Hlt).
  cbn [mbind option_bind]. rewrite Hc. cbv zeta.
  set (p := if zlen l <? pos then zlen l else pos).
  assert (Hpr : 0 <= p <= zlen l ∧ take (Z.to_nat pos) l = take (Z.to_nat p) l ∧ drop (Z.to_nat pos) l = drop (Z.to_nat p) l).
  { unfold p. destruct (Z.ltb_spec (zlen l) pos); [|split_and!; [lia|lia|done|done]].
    rewrite !take_ge, !drop_ge by lia. split_and!; [lia|lia|done|done]. }
  destruct Hpr as (Hpb & -> & ->). set (n := Z.to_nat p).
  assert (Eits : items a1 = take n l ++ drop n l ++ drop (length l) (items a1)).
  { rewrite app_assoc, take_drop. rewrite <- Hi at 1. by rewrite take_drop. }
  assert (Hsp : ∃ y rest, drop (length l) (items a1) = y :: rest).
  { destruct (drop (length l) (items a1)) as [|y rest] eqn:E; [|by exists y, rest].
    assert (length (drop (length l) (items a1)) = 0%nat) as E0 by by rewrite E. rewrite length_drop in E0. lia. }
  destruct Hsp as (y & rest & Ey). rewrite Ey in Eits.
  assert (Hmove : ∃ its, (if p <? zlen l then if 0 <=? p then
      memcpy (items a1) (p + 1) (take (Z.to_nat (zlen l - p)) (drop n (items a1))) else None else Some (items a1)) = Some its ∧
      ∃ z, its = take n l ++ z :: drop n l ++ rest).
  { destruct (Z.ltb_spec p (zlen l)) as [Hpl|].
    - destruct (Z.leb_spec 0 p); [|lia].
      assert (Htd : take (Z.to_nat (zlen l - p)) (drop n (items a1)) = drop n l).
      { rewrite Eits. assert (Hn : n = length (take n l)) by (rewrite length_take; lia). rewrite Hn at 1. rewrite drop_app_length.
        rewrite take_app_le by (rewrite length_drop; lia). apply take_ge. rewrite length_drop. lia. }
      rewrite Htd. destruct (drop n l) as [|z d] eqn:Ed; [apply (f_equal length) in Ed; rewrite length_drop in Ed; cbn in Ed; lia|].
      exists ((take n l ++ [z]) ++ (z :: d) ++ rest). split; [|exists z; by rewrite <- app_assoc].
      replace (p + 1) with (zlen (take n l ++ [z])) by (rewrite length_app, length_take; cbn; lia).
      assert (E1 : items a1 = (take n l ++ [z]) ++ (d ++ [y]) ++ rest) by (rewrite Eits, <- !app_assoc; cbn [app]; by rewrite <- ?app_assoc).
      rewrite E1. apply memcpy_app. rewrite length_app. cbn. lia.
    - exists (items a1). split; [done|]. exists y. rewrite Eits. rewrite (drop_ge l n) by lia. done. }
  destruct Hmove as (its & -> & z & ->). cbn [mbind option_bind].
  assert (Hn : zlen (take n l) = p) by (rewrite length_take; lia).
  rewrite zset_Some by (rewrite length_app; cbn [length]; lia). cbn [mbind option_bind]. eexists. split; [done|].
  rewrite i32_small by lia.
  assert (Eins : <[Z.to_nat p := x]> (take n l ++ z :: drop n l ++ rest) = (take n l ++ x :: drop n l) ++ rest).
  { replace (Z.to_nat p) with (length (take n l) + 0)%nat by lia. rewrite insert_app_r. cbn. by rewrite <- app_assoc. }
  rewrite Eins. assert (Hll : length (take n l ++ x :: drop n l) = S (length l))
    by (rewrite length_app; cbn [length]; rewrite length_take, length_drop; lia).
  constructor; cbn [capacity count items]; rewrite ?Hll; try lia.
  - apply (f_equal length) in Eits. rewrite !length_app in Eits |- *. cbn [length] in *. lia.
  - rewrite <- Hll. apply take_app_length.
Qed.

(** A stack returns what was pushed last. *)
Lemma stackPop_push a l x : arr_ok a (l ++ [x]) → ∃ a', stackPop a = Some (x, a') ∧ arr_ok a' l ∧ stackTop a = Some x.
Proof.
  intros [Hc Hcap Hf Hi]. rewrite length_app in *. cbn [length] in *. unfold stackPop, stackTop.
  destruct (Z.eqb_spec (count a) 0); [lia|].
  assert (Hx : (items a).[count a - 1] = Some x).
  { rewrite zget_pos by lia. rewrite <- (take_drop (length l + 1) (items a)), Hi.
    replace (Z.to_nat (count a - 1)) with (length l) by lia. rewrite lookup_app_l by (rewrite length_app; cbn; lia).
    by rewrite lookup_app_r, Nat.sub_diag by lia. }
  rewrite Hx. cbn [mbind option_bind]. eexists. split; [done|]. split; [|done].
  constructor; cbn [capacity count items]; [lia|done|lia|].
  apply (f_equal (take (length l))) in Hi. rewrite take_take, take_app_length in Hi.
  by replace (length l `min` (length l + 1))%nat with (length l) in Hi by lia.
Qed.
