(* ===== verification/HtmlQuote.v ===== *)
(** Quoting of text in generated pages (lib/html_quote.c): [html_quote] with its
    growing static buffer, the entity table and the six-byte copies.

    The buffer is its size, 0 while it is not allocated; [None] is a write
    outside it. *)
From S2P Require Import Prelude CString.

Module HtmlQuote.

Definition htmlstandardentities : list (Z * list Z) :=
  [(60, bytes_of "&lt;"); (62, bytes_of "&gt;"); (34, bytes_of "&quot;");
   (38, bytes_of "&amp;"); (39, bytes_of "&#39;")].

(** The inner loop: the quote of the first entry with the code. *)
Fixpoint find_entity (t : list (Z * list Z)) (ch : Z) : option (list Z) :=
  match t with
  | [] => None
  | (code, quote) :: t' => if ch =? code then Some quote else find_entity t' ch
  end.

(** [strncpy(dst, escape, 6)] writes six bytes; [dst] moves by the quote. *)
Fixpoint quote_loop (bufsize : Z) (src buf : list Z) : option (list Z) :=
  match src with
  | [] => if zlen buf <? bufsize then Some buf else None
  | ch :: src' =>
      match find_entity htmlstandardentities ch with
      | Some escape =>
          if zlen buf + 6 <=? bufsize then quote_loop bufsize src' (buf ++ take 6 escape) else None
      | None => if zlen buf <? bufsize then quote_loop bufsize src' (buf ++ [ch]) else None
      end
  end.

(** The quoted string and the new size of the buffer. *)
Definition html_quote (bufsize : Z) (s : list Z) : option (list Z * Z) :=
  let bufsize' := if (bufsize =? 0) || (bufsize <? u64 (zlen s * 6)) then u64 (zlen s * 6 + 1) else bufsize in
  r ← quote_loop bufsize' s [];
  Some (r, bufsize').

End HtmlQuote.
Import HtmlQuote.

Definition quoted (ch : Z) : list Z := default [ch] (find_entity htmlstandardentities ch).

Lemma quoted_length ch : (length (quoted ch) <= 6)%nat.
Proof.
  unfold quoted, htmlstandardentities. cbn [find_entity].
  repeat (match goal with |- context [?a =? ?b] => destruct (a =? b) end; [cbn; lia|]). cbn. lia.
Qed.

(** No quoted form contains a character that opens or closes markup or a
    quoted attribute. *)
Lemma quoted_safe ch c : c ∈ quoted ch → c ∉ [60; 62; 34; 39].
Proof.
  unfold quoted, htmlstandardentities. cbn [find_entity].
  repeat (match goal with |- context [ch =? ?b] => destruct (Z.eqb_spec ch b) as [->|] end;
    [revert c; apply Forall_forall; apply (bool_decide_unpack _); vm_compute; exact I|]).
  cbn [default]. rewrite elem_of_cons, elem_of_nil. intros [->|[]]. rewrite !elem_of_cons, elem_of_nil. lia.
Qed.

Lemma quote_loop_ok bs src : ∀ buf, zlen buf + 6 * zlen src < bs →
  quote_loop bs src buf = Some (buf ++ concat (quoted <$> src)).
Proof.
  induction src as [|ch src IH]; intros buf Hl; cbn [quote_loop fmap list_fmap concat].
  { cbn in Hl. destruct (Z.ltb_spec (zlen buf) bs); [|lia]. by rewrite app_nil_r. }
  cbn [length] in Hl. pose proof (quoted_length ch) as Hq. rewrite app_assoc.
  destruct (find_entity htmlstandardentities ch) as [e|] eqn:E.
  - assert (Eq : quoted ch = e) by (unfold quoted; by rewrite E). rewrite Eq in *.
    destruct (Z.leb_spec (zlen buf + 6) bs); [|lia]. rewrite take_ge by lia. apply IH. rewrite length_app. lia.
  - assert (Eq : quoted ch = [ch]) by (unfold quoted; by rewrite E). rewrite Eq.
    destruct (Z.ltb_spec (zlen buf) bs); [|lia]. apply IH. rewrite length_app. cbn [length]. lia.
Qed.

(** Whatever was quoted before, the buffer is large enough, and the result
    holds none of the characters that end text or an attribute. *)
Lemma html_quote_safe bs s : (bs = 0 ∨ ∃ n, 0 <= n ∧ bs = 6 * n + 1) → zlen s <= 1152921504606846976 →
  ∃ r bs', html_quote bs s = Some (r, bs') ∧ (bs' = 0 ∨ ∃ n, 0 <= n ∧ bs' = 6 * n + 1) ∧
    ∀ c, c ∈ r → c ∉ [60; 62; 34; 39].
Proof.
  intros Hbs Hl. unfold html_quote. rewrite !u64_small by lia.
  set (bs' := if (bs =? 0) || (bs <? zlen s * 6) then zlen s * 6 + 1 else bs).
  assert (Hbs' : (bs' = 0 ∨ ∃ n, 0 <= n ∧ bs' = 6 * n + 1) ∧ zlen s * 6 < bs').
  { unfold bs'. destruct (Z.eqb_spec bs 0) as [->|]; cbn [orb]; [split; [right; exists (zlen s); lia|lia]|].
    destruct (Z.ltb_spec bs (zlen s * 6)); [split; [right; exists (zlen s); lia|lia]|].
    split; [done|]. destruct Hbs as [|(k & Hk & ->)]; [done|lia]. }
  rewrite quote_loop_ok by (cbn; lia). cbn [mbind option_bind app]. eexists _, _. split; [done|]. split; [apply Hbs'|].
  intros c Hc. apply list_elem_of_In, in_concat in Hc as (l & Hl' & Hc).
  apply list_elem_of_In, list_elem_of_fmap in Hl' as (ch & -> & _). apply list_elem_of_In in Hc. by eapply quoted_safe.
Qed.
