(* ===== verification/Rfc1035.v ===== *)
(** DNS messages (lib/rfc1035.c, include/rfc1035.h): building queries and
    unpacking replies, with name compression.

    A received message is the list of bytes of its buffer, of which [sz] are the
    message; a name array is the list of its bytes, and a pointer into it an
    offset. [None] is an access outside the buffer or an array, or a failed
    assertion; a result of 0 or 1 is the code's own success or error. What
    [xmalloc] leaves in the array of a PTR record is the argument [junk]. *)
From S2P Require Import Prelude CString.
Module Rfc1035.

Definition RFC1035_MAXHOSTNAMESZ : Z := 256.
Definition RFC1035_MAXLABELSZ : Z := 63.
Definition rfc1035_unpack_error : Z := 15.
Definition RFC1035_TYPE_A : Z := 1.
Definition RFC1035_TYPE_PTR : Z := 12.
Definition RFC1035_CLASS_IN : Z := 1.

Definition u16 (x : Z) : Z := x mod 65536.

Record rfc1035_rr := mkRR {
  rname : list Z; rtype : Z; rclass : Z; ttl : Z; rdlength : Z; rdata : option (list Z) }.
Record rfc1035_query := mkQuery { qname : list Z; qtype : Z; qclass : Z }.
Record rfc1035_message := mkMsg {
  id : Z; qr : Z; opcode : Z; aa : Z; tc : Z; rd : Z; ra : Z; rcode : Z;
  qdcount : Z; ancount : Z; nscount : Z; arcount : Z;
  query : list rfc1035_query; answer : list rfc1035_rr }.

(** ** Packing *)

(** [htons] and a copy of the two bytes. *)
Definition put16 (x : Z) : list Z := [u16 x / 256; u16 x mod 256].

Definition rfc1035HeaderPack (sz : Z) (hdr : rfc1035_message) : option (list Z) :=
  if sz <? 12 then None
  else
    let t := 0 in
    let t := u16 (Z.lor t (Z.shiftl (qr hdr) 15)) in
    let t := u16 (Z.lor t (Z.shiftl (opcode hdr) 11)) in
    let t := u16 (Z.lor t (Z.shiftl (aa hdr) 10)) in
    let t := u16 (Z.lor t (Z.shiftl (tc hdr) 9)) in
    let t := u16 (Z.lor t (Z.shiftl (rd hdr) 8)) in
    let t := u16 (Z.lor t (Z.shiftl (ra hdr) 7)) in
    let t := u16 (Z.lor t (rcode hdr)) in
    Some (put16 (id hdr) ++ put16 t ++ put16 (qdcount hdr) ++ put16 (ancount hdr) ++
          put16 (nscount hdr) ++ put16 (arcount hdr)).

(** The null label is [None]. *)
Definition rfc1035LabelPack (sz : Z) (label : option (list Z)) : option (list Z) :=
  let s := default [] label in
  if bool_decide (46 ∈ s) then None
  else
    let len := if RFC1035_MAXLABELSZ <? zlen s then RFC1035_MAXLABELSZ else zlen s in
    if sz <? len + 1 then None else Some (len :: take (Z.to_nat len) s).

(** The tokens [strtok] finds between dots: empty ones are skipped. [cur] holds
    the bytes of the token being read, last one first. *)
Fixpoint strtok_dots (s cur : list Z) : list (list Z) :=
  let emit := match cur with [] => [] | _ => [rev cur] end in
  match s with
  | [] => emit
  | c :: s' => if c =? 46 then emit ++ strtok_dots s' [] else strtok_dots s' (c :: cur)
  end.

Fixpoint pack_labels (sz : Z) (labels : list (list Z)) (out : list Z) : option (list Z) :=
  match labels with
  | [] => Some out
  | l :: labels' => b ← rfc1035LabelPack (u64 (sz - zlen out)) (Some l); pack_labels sz labels' (out ++ b)
  end.

Definition rfc1035NamePack (sz : Z) (name : list Z) : option (list Z) :=
  out ← pack_labels sz (strtok_dots name []) [];
  b ← rfc1035LabelPack (u64 (sz - zlen out)) None;
  if zlen (out ++ b) <=? sz then Some (out ++ b) else None.

Definition rfc1035QuestionPack (sz : Z) (name : list Z) (type class : Z) : option (list Z) :=
  b ← rfc1035NamePack sz name;
  let out := b ++ put16 type ++ put16 class in
  if zlen out <=? sz then Some out else None.

(** ** Unpacking *)

(** A copy of two bytes, or four, and [ntohs] or [ntohl]. *)
Definition get16 (buf : list Z) (off : Z) : option Z :=
  a ← buf.[off]; b ← buf.[off + 1]; Some (a * 256 + b).
Definition get32 (buf : list Z) (off : Z) : option Z :=
  a ← get16 buf off; b ← get16 buf (off + 2); Some (a * 65536 + b).

Definition bit (t k m : Z) : Z := Z.land (Z.shiftr t k) m.

(** [Some None] is a result of 1. *)
Definition rfc1035HeaderUnpack (buf : list Z) (sz : Z) : option (option rfc1035_message) :=
  if sz <? 12 then Some None
  else
    i ← get16 buf 0; t ← get16 buf 2;
    qd ← get16 buf 4; an ← get16 buf 6; ns ← get16 buf 8; ar ← get16 buf 10;
    Some (Some (mkMsg i (bit t 15 1) (bit t 11 15) (bit t 10 1) (bit t 9 1) (bit t 8 1) (bit t 7 1)
                  (Z.land t 15) qd an ns ar [] [])).

(** The [n] bytes at [s + off]. *)
Definition slice (s : list Z) (off n : Z) : option (list Z) :=
  if decide (0 <= off ∧ 0 <= n ∧ off + n <= zlen s)
  then Some (take (Z.to_nat n) (drop (Z.to_nat off) s)) else None.

(** The state of an unpacked name: result, [*off], [*rdlength] when it is
    counted, and the name array. *)
Record name_res := mkName { nres : Z; noff : Z; nrdlength : option Z; narr : list Z }.

(** [rfc1035NameUnpack(buf, sz, off, rdlength, name + nb, ns, rdepth)] in the
    turn of its loop where [no] bytes are written. A pointer starts the name
    afresh at [name + nb + no]; [*off] then stays behind the pointer. *)
Fixpoint name_loop (fuel : nat) (buf : list Z) (sz off : Z) (rdlen : option Z) (name : list Z)
    (nb ns no rdepth : Z) : option name_res :=
  match fuel with
  | O => None
  | S fuel' =>
      let finish off rdlen name :=
        name' ← zset name (if no =? 0 then nb else nb + no - 1) 0;
        if no <=? ns then Some (mkName 0 off rdlen name') else None in
      if sz <=? off then Some (mkName 1 off rdlen name)
      else
        c ← buf.[off];
        if 191 <? c then
          if 64 <? rdepth then Some (mkName 1 off rdlen name)
          else
            s ← get16 buf off;
            let off := off + 2 in
            if sz <? off then Some (mkName 1 off rdlen name)
            else
              let ptr := Z.land s 16383 in
              if sz <=? ptr then Some (mkName 1 off rdlen name)
              else if 0 <? ns - no then
                r ← name_loop fuel' buf sz ptr rdlen name (nb + no) (ns - no) 0 (rdepth + 1);
                Some (mkName (nres r) off (nrdlength r) (narr r))
              else None
        else if RFC1035_MAXLABELSZ <? c then Some (mkName 1 off rdlen name)
        else
          let off := off + 1 in
          let len := c in
          if len =? 0 then finish off rdlen name
          else if u64 (ns - no - 1) <? len then Some (mkName 1 off rdlen name)
          else if sz <=? off + len then Some (mkName 1 off rdlen name)
          else
            lab ← slice buf off len;
            name1 ← memcpy name (nb + no) lab;
            name2 ← zset name1 (nb + no + len) 46;
            let off := off + len in
            let rdlen := (λ r, u16 (r + len + 1)) <$> rdlen in
            if no + len + 1 <? ns then name_loop fuel' buf sz off rdlen name2 nb ns (no + len + 1) rdepth
            else
              name3 ← zset name2 (nb + (no + len + 1) - 1) 0;
              if no + len + 1 <=? ns then Some (mkName 0 off rdlen name3) else None
  end.

(** At most 66 names are nested, and in each the offset moves forward. *)
Definition name_fuel (sz : Z) : nat := 66 * S (Z.to_nat sz).

Definition rfc1035NameUnpack (buf : list Z) (sz off : Z) (rdlen : option Z) (name : list Z) (nb ns : Z)
  : option name_res :=
  if 0 <? ns then name_loop (name_fuel sz) buf sz off rdlen name nb ns 0 0 else None.

Definition zero_name : list Z := replicate (Z.to_nat RFC1035_MAXHOSTNAMESZ) 0.
Definition zero_rr : rfc1035_rr := mkRR zero_name 0 0 0 0 None.

(** Result, [*off] and the record. *)
Definition rfc1035RRUnpack (junk : list Z) (buf : list Z) (sz off : Z) (RR : rfc1035_rr)
  : option (Z * Z * rfc1035_rr) :=
  n ← rfc1035NameUnpack buf sz off None (rname RR) 0 RFC1035_MAXHOSTNAMESZ;
  let off := noff n in
  if negb (nres n =? 0) then Some (1, off, zero_rr)
  else if sz <? off + 10 then Some (1, off, zero_rr)
  else
    ty ← get16 buf off;
    cl ← get16 buf (off + 2);
    tt ← get32 buf (off + 4);
    rdl ← get16 buf (off + 8);
    let off := off + 10 in
    if sz <? off + rdl then Some (1, off, zero_rr)
    else if ty =? RFC1035_TYPE_PTR then
      r ← rfc1035NameUnpack buf sz off (Some 0) junk 0 RFC1035_MAXHOSTNAMESZ;
      let RR' := mkRR (narr n) ty cl tt (default 0 (nrdlength r)) (Some (narr r)) in
      if negb (nres r =? 0) then Some (1, off, RR')
      else if off + rdl <? noff r then Some (1, off, zero_rr)
      else if off + rdl <=? sz then Some (0, off + rdl, RR') else None
    else
      d ← slice buf off rdl;
      if off + rdl <=? sz then Some (0, off + rdl, mkRR (narr n) ty cl tt rdl (Some d)) else None.

Definition zero_query : rfc1035_query := mkQuery zero_name 0 0.

Definition rfc1035QueryUnpack (buf : list Z) (sz off : Z) (q : rfc1035_query)
  : option (Z * Z * rfc1035_query) :=
  n ← rfc1035NameUnpack buf sz off None (qname q) 0 RFC1035_MAXHOSTNAMESZ;
  let off := noff n in
  if negb (nres n =? 0) then Some (1, off, zero_query)
  else if sz <? off + 4 then Some (1, off, zero_query)
  else
    ty ← get16 buf off;
    cl ← get16 buf (off + 2);
    Some (0, off + 4, mkQuery (narr n) ty cl).

(** The loop over the answers: their number and the records, those not
    unpacked zero. *)
Fixpoint unpack_answers (k : nat) (junk : list Z) (buf : list Z) (sz off : Z) : option (Z * list rfc1035_rr) :=
  match k with
  | O => Some (0, [])
  | S k' =>
      if sz <=? off then Some (0, replicate k zero_rr)
      else
        '(res, off', RR) ← rfc1035RRUnpack junk buf sz off zero_rr;
        if negb (res =? 0) then Some (0, RR :: replicate k' zero_rr)
        else '(nr, recs) ← unpack_answers k' junk buf sz off'; Some (nr + 1, RR :: recs)
  end.

(** The result and what [*answer] is set to, if it is. [rfc1035_errno] is the
    negated result when that is negative. *)
Definition rfc1035MessageUnpack (junk : list Z) (buf : list Z) (sz : Z)
  : option (Z * option rfc1035_message) :=
  h ← rfc1035HeaderUnpack buf sz;
  match h with
  | None => Some (- rfc1035_unpack_error, None)
  | Some msg =>
      if negb (qdcount msg =? 1) then Some (- rfc1035_unpack_error, None)
      else
        '(res, off, q) ← rfc1035QueryUnpack buf sz 12 zero_query;
        if negb (res =? 0) then Some (- rfc1035_unpack_error, None)
        else
          let with_answer recs :=
            mkMsg (id msg) (qr msg) (opcode msg) (aa msg) (tc msg) (rd msg) (ra msg) (rcode msg)
              (qdcount msg) (ancount msg) (nscount msg) (arcount msg) [q] recs in
          if negb (rcode msg =? 0) then Some (- rcode msg, Some (with_answer []))
          else if ancount msg =? 0 then Some (0, Some (with_answer []))
          else
            '(nr, recs) ← unpack_answers (Z.to_nat (ancount msg)) junk buf sz off;
            if nr =? 0 then Some (- rfc1035_unpack_error, None)
            else Some (nr, Some (with_answer recs))
  end.

(** ** Comparing *)

Fixpoint trim_dots_rev (s : list Z) : list Z :=
  match s with c :: s' => if c =? 46 then trim_dots_rev s' else s | [] => [] end.
Definition trim_dots (s : list Z) : list Z := rev (trim_dots_rev (rev s)).

(** [strncasecmp] of strings of the same length. *)
Fixpoint strcasecmp_eqlen (a b : list Z) : Z :=
  match a, b with
  | x :: a', y :: b' => if tolower x =? tolower y then strcasecmp_eqlen a' b' else tolower x - tolower y
  | _, _ => 0
  end.

Definition rfc1035QueryCompare (a b : rfc1035_query) : Z :=
  if negb (qtype a =? qtype b) then 1
  else if negb (qclass a =? qclass b) then 1
  else
    let na := cstr (qname a) in
    let nb := cstr (qname b) in
    let na' := if zlen na =? zlen nb then na else trim_dots na in
    let nb' := if zlen na =? zlen nb then nb else trim_dots nb in
    if negb (zlen na' =? zlen nb') then 1 else strcasecmp_eqlen na' nb'.

(** ** Queries *)

(** [xstrncpy(dst, src, n)]: at most [n - 1] bytes and a NUL. *)
Definition xstrncpy (dst src : list Z) (n : Z) : option (list Z) :=
  if n =? 0 then Some dst else memcpy dst 0 (take (Z.to_nat (n - 1)) src ++ [0]).

Definition query_header (qid : Z) : rfc1035_message := mkMsg qid 0 0 0 0 1 0 0 1 0 0 0 [] [].

(** The message and the question to compare replies with. *)
Definition build_query (hostname : list Z) (sz qid type : Z) (q : rfc1035_query) : option (list Z * rfc1035_query) :=
  h ← rfc1035HeaderPack sz (query_header qid);
  b ← rfc1035QuestionPack (u64 (sz - zlen h)) hostname type RFC1035_CLASS_IN;
  n ← xstrncpy (qname q) hostname RFC1035_MAXHOSTNAMESZ;
  if zlen (h ++ b) <=? sz then Some (h ++ b, mkQuery n type RFC1035_CLASS_IN) else None.

Definition rfc1035BuildAQuery (hostname : list Z) (sz qid : Z) (q : rfc1035_query) :=
  build_query hostname sz qid RFC1035_TYPE_A q.

(** The address is in host byte order after [ntohl]; the name of the reverse
    zone has at most 29 bytes and fits [rev]. *)
Definition reverse_name (i : Z) : list Z :=
  dec_digits (Z.land i 255) ++ [46] ++ dec_digits (Z.land (Z.shiftr i 8) 255) ++ [46] ++
  dec_digits (Z.land (Z.shiftr i 16) 255) ++ [46] ++ dec_digits (Z.land (Z.shiftr i 24) 255) ++
  bytes_of ".in-addr.arpa.".
Definition rfc1035BuildPTRQuery (addr : Z) (sz qid : Z) (q : rfc1035_query) :=
  build_query (take 31 (reverse_name addr)) sz qid RFC1035_TYPE_PTR q.

Definition rfc1035SetQueryID (buf : list Z) (qid : Z) : option (list Z) := memcpy buf 0 (put16 qid).

End Rfc1035.

(** Properties of the DNS message code: no packet makes the unpacker leave its
    buffers or loop, and a query that comes back is recognised. *)

Import Rfc1035.

(** * Safety *)

Lemma get16_ok buf off : 0 <= off → off + 2 <= zlen buf → Forall is_byte buf →
  ∃ s, get16 buf off = Some s ∧ 0 <= s < 65536.
Proof.
  intros Ho Hl Hb. unfold get16, is_byte in *. destruct (zget_is_Some buf off ltac:(lia)) as [a Ha].
  destruct (zget_is_Some buf (off + 1) ltac:(lia)) as [b Hb']. rewrite Ha, Hb'. cbn [mbind option_bind].
  rewrite zget_pos in Ha, Hb' by lia. rewrite Forall_lookup in Hb.
  pose proof (Hb _ _ Ha). pose proof (Hb _ _ Hb'). eexists. split; [done|]. lia.
Qed.

Lemma get32_ok buf off : 0 <= off → off + 4 <= zlen buf → Forall is_byte buf → is_Some (get32 buf off).
Proof.
  intros Ho Hl Hb. unfold get32. destruct (get16_ok buf off) as (a & -> & _); [lia|lia|done|].
  destruct (get16_ok buf (off + 2)) as (b & -> & _); [lia|lia|done|]. by eexists.
Qed.

Lemma byte_ok buf off : 0 <= off < zlen buf → Forall is_byte buf → ∃ c, buf.[off] = Some c ∧ 0 <= c < 256.
Proof.
  intros Ho Hb. destruct (zget_is_Some buf off Ho) as [c Hc]. exists c. split; [done|].
  rewrite zget_pos in Hc by lia. rewrite Forall_lookup in Hb. exact (Hb _ _ Hc).
Qed.

(** [name'] differs from [name] between [lo] and [hi] only. *)
Definition within (lo hi : Z) (name name' : list Z) : Prop :=
  length name' = length name ∧ ∀ k, k < lo ∨ hi <= k → name'.[k] = name.[k].

Lemma within_refl lo hi name : within lo hi name name.
Proof. by split. Qed.

Lemma within_trans lo hi a b c : within lo hi a b → within lo hi b c → within lo hi a c.
Proof. intros [H1 H2] [H3 H4]. split; [congruence|]. intros k Hk. by rewrite H4, H2. Qed.

Lemma within_mono lo hi lo' hi' a b : lo' <= lo → hi <= hi' → within lo hi a b → within lo' hi' a b.
Proof. intros Hl Hh [H1 H2]. split; [done|]. intros k Hk. apply H2. lia. Qed.

Lemma within_zset lo hi name i x name' : lo <= i < hi → zset name i x = Some name' → within lo hi name name'.
Proof.
  intros Hi Hs. split; [by eapply zset_length|]. intros k Hk. rewrite (zget_zset _ _ _ _ k Hs), decide_False by lia. done.
Qed.

Lemma within_memcpy lo hi name off s name' : lo <= off → off + zlen s <= hi →
  memcpy name off s = Some name' → within lo hi name name'.
Proof.
  intros Hlo Hhi Hm. split; [by eapply memcpy_length|]. revert Hm. unfold memcpy. case_decide as Hd; [|done].
  intros [= <-] k Hk. unfold zget. destruct (Z.leb_spec 0 k); [|done].
  assert (Htl : length (take (Z.to_nat off) name) = Z.to_nat off) by (rewrite length_take; lia).
  destruct Hk as [Hk|Hk].
  - rewrite lookup_app_l by lia. apply lookup_take_lt. lia.
  - rewrite lookup_app_r, lookup_app_r by lia. rewrite lookup_drop. f_equal. lia.
Qed.

Lemma memcpy_is_Some (d : list Z) off s : 0 <= off → off + zlen s <= zlen d → is_Some (memcpy d off s).
Proof. intros. unfold memcpy. rewrite decide_True by lia. by eexists. Qed.

(** What an unpacked name leaves: a result, the offset further on and inside
    the message when it is 0, a terminated string, and all other bytes of the
    array as they were. *)
Record name_ok (sz off : Z) (name : list Z) (nb ns : Z) (r : name_res) : Prop := mkNameOk {
  nk_res : nres r = 0 ∨ nres r = 1;
  nk_off : off <= noff r;
  nk_in : nres r = 0 → off < noff r <= sz;
  nk_arr : within nb (nb + ns) name (narr r);
  nk_nul : nres r = 0 → ∃ k, nb <= k < nb + ns ∧ (narr r).[k] = Some 0 }.

Lemma name_fail sz off off' rdlen name name' nb ns : off <= off' → within nb (nb + ns) name name' →
  name_ok sz off name nb ns (mkName 1 off' rdlen name').
Proof. intros Ho Hw. by constructor; cbn; [right|..]. Qed.

(** The last byte of the name becomes the terminator. *)
Lemma name_end sz off off' rdlen name name' nb ns k : 0 <= nb → nb + ns <= zlen name → nb <= k < nb + ns →
  off < off' <= sz → within nb (nb + ns) name name' →
  ∃ name'', zset name' k 0 = Some name'' ∧ name_ok sz off name nb ns (mkName 0 off' rdlen name'').
Proof.
  intros Hnb Hns Hk Ho [Hl Hw]. destruct (zset_is_Some name' k 0) as [name'' E]; [lia|]. exists name''. split; [done|].
  constructor; cbn; [by left|lia|done| |].
  - eapply within_trans; [by split|]. by eapply within_zset.
  - intros _. exists k. split; [done|]. by eapply zget_zset_eq.
Qed.

Lemma name_loop_ok buf sz : Forall is_byte buf → 0 <= sz < zlen buf → sz <= INT_MAX →
  ∀ fuel off rdlen name nb ns no rdepth, 0 <= off → 0 <= no < ns → 0 <= nb → nb + ns <= zlen name → ns <= INT_MAX →
  0 <= rdepth <= 65 → 1 <= Z.of_nat fuel → (66 - rdepth) * (sz + 1) - off <= Z.of_nat fuel →
  ∃ r, name_loop fuel buf sz off rdlen name nb ns no rdepth = Some r ∧ name_ok sz off name nb ns r.
Proof.
  intros Hb Hsz Hszm. induction fuel as [|fuel IH]; intros off rdlen name nb ns no rdepth Ho Hno Hnb Hns Hnsm Hrd Hf1 Hf; [lia|].
  cbn [name_loop]. cbv zeta. destruct (Z.leb_spec sz off) as [|Hoff]; [eexists; split; [done|by apply name_fail, within_refl]|].
  destruct (byte_ok buf off) as (c & -> & Hc); [lia|done|]. cbn [mbind option_bind].
  assert (Hring : (66 - (rdepth + 1)) * (sz + 1) = (66 - rdepth) * (sz + 1) - (sz + 1)) by ring.
  destruct (Z.ltb_spec 191 c).
  { destruct (Z.ltb_spec 64 rdepth); [eexists; split; [done|by apply name_fail, within_refl]|].
    destruct (get16_ok buf off) as (s & -> & Hs); [lia|lia|done|]. cbn [mbind option_bind].
    destruct (Z.ltb_spec sz (off + 2)); [eexists; split; [done|apply name_fail; [lia|apply within_refl]]|].
    assert (Hptr : 0 <= Z.land s 16383) by (apply Z.land_nonneg; lia).
    destruct (Z.leb_spec sz (Z.land s 16383)); [eexists; split; [done|apply name_fail; [lia|apply within_refl]]|].
    destruct (Z.ltb_spec 0 (ns - no)); [|lia]. assert (2 * (sz + 1) <= (66 - rdepth) * (sz + 1)) by nia.
    destruct (IH (Z.land s 16383) rdlen name (nb + no) (ns - no) 0 (rdepth + 1)) as (r & -> & [G1 G2 G3 G4 G5]); [lia..|].
    cbn [mbind option_bind]. eexists. split; [done|]. constructor; cbn [nres noff narr]; [done|lia|lia| |].
    - eapply within_mono; [| |exact G4]; lia.
    - intros E. destruct (G5 E) as (k & Hk & Hz). exists k. split; [lia|done]. }
  unfold RFC1035_MAXLABELSZ. destruct (Z.ltb_spec 63 c); [eexists; split; [done|by apply name_fail, within_refl]|].
  destruct (Z.eqb_spec c 0) as [->|Hc0].
  { destruct (name_end sz off (off + 1) rdlen name name nb ns (if no =? 0 then nb else nb + no - 1)) as (name' & -> & Hok);
      [lia|lia|destruct (Z.eqb_spec no 0); lia|lia|apply within_refl|]. cbn [mbind option_bind].
    destruct (Z.leb_spec no ns); [|lia]. by eexists. }
  unfold INT_MAX in *. rewrite u64_small by lia.
  destruct (Z.ltb_spec (ns - no - 1) c); [eexists; split; [done|apply name_fail; [lia|apply within_refl]]|].
  destruct (Z.leb_spec sz (off + 1 + c)); [eexists; split; [done|apply name_fail; [lia|apply within_refl]]|].
  unfold slice. rewrite decide_True by lia. cbn [mbind option_bind].
  set (lab := take (Z.to_nat c) (drop (Z.to_nat (off + 1)) buf)).
  assert (Hlab : zlen lab = c) by (unfold lab; rewrite length_take, length_drop; lia).
  destruct (memcpy_is_Some name (nb + no) lab) as [name1 E1]; [lia|lia|]. rewrite E1. cbn [mbind option_bind].
  assert (W1 : within nb (nb + ns) name name1) by (eapply within_memcpy; [| |exact E1]; lia).
  destruct (zset_is_Some name1 (nb + no + c) 46) as [name2 E2]; [destruct W1; lia|]. rewrite E2. cbn [mbind option_bind].
  assert (W2 : within nb (nb + ns) name name2) by (eapply within_trans; [exact W1|]; eapply within_zset; [|exact E2]; lia).
  destruct (Z.ltb_spec (no + c + 1) ns).
  - destruct (IH (off + 1 + c) ((λ r, u16 (r + c + 1)) <$> rdlen) name2 nb ns (no + c + 1) rdepth) as (r & -> & [G1 G2 G3 G4 G5]);
      [lia|lia|lia|destruct W2; lia|lia|lia| |lia|].
    { assert (1 * (sz + 1) <= (66 - rdepth) * (sz + 1)) by nia. lia. }
    exists r. split; [done|]. constructor; [done|lia|lia|by eapply within_trans|done].
  - destruct (name_end sz off (off + 1 + c) ((λ r, u16 (r + c + 1)) <$> rdlen) name name2 nb ns (nb + (no + c + 1) - 1)) as (name3 & -> & Hok);
      [lia|lia|lia|lia|done|]. cbn [mbind option_bind]. destruct (Z.leb_spec (no + c + 1) ns); [|lia]. by eexists.
Qed.

(** A terminated name in a whole array. *)
Definition name_array (a : list Z) : Prop := zlen a = 256 ∧ ∃ k, 0 <= k < 256 ∧ a.[k] = Some 0.

(** A record the caller can use: a terminated name, and data as long as it
    says or, in a PTR record, a terminated name again. *)
Definition rr_ok (RR : rfc1035_rr) : Prop :=
  name_array (rname RR) ∧
  ∃ d, rdata RR = Some d ∧ if rtype RR =? RFC1035_TYPE_PTR then name_array d else zlen d = rdlength RR.

Section safety.
Context (junk buf : list Z) (sz : Z).
Hypothesis Hjunk : zlen junk = 256.
Hypothesis Hbuf : Forall is_byte buf.
Hypothesis Hsz : 0 <= sz < zlen buf.
Hypothesis Hmax : sz <= INT_MAX.

Lemma NameUnpack_ok off rdlen name : 0 <= off → zlen name = 256 →
  ∃ r, rfc1035NameUnpack buf sz off rdlen name 0 RFC1035_MAXHOSTNAMESZ = Some r ∧
    (nres r = 0 ∨ nres r = 1) ∧ off <= noff r ∧ zlen (narr r) = 256 ∧
    (nres r = 0 → off < noff r <= sz ∧ name_array (narr r)).
Proof using Hbuf Hsz Hmax.
  clear Hjunk junk. intros Ho Hn. unfold rfc1035NameUnpack, RFC1035_MAXHOSTNAMESZ. change (0 <? 256) with true. cbv iota.
  destruct (name_loop_ok buf sz Hbuf Hsz Hmax (name_fuel sz) off rdlen name 0 256 0 0) as (r & -> & [H1 H2 H3 [H4 _] H5]);
    [lia|lia|lia|lia|unfold INT_MAX; lia|lia|unfold name_fuel; lia|unfold name_fuel; lia|].
  exists r. split_and!; [done|done|done|lia|]. intros E. split; [by apply H3|]. split; [lia|].
  destruct (H5 E) as (k & Hk & Hz). exists k. split; [lia|done].
Qed.

Lemma QueryUnpack_ok off q : 0 <= off → zlen (qname q) = 256 →
  ∃ res off' q', rfc1035QueryUnpack buf sz off q = Some (res, off', q') ∧
    (res = 0 ∨ res = 1) ∧ 0 <= off' ∧ (res = 0 → name_array (qname q')).
Proof using Hbuf Hsz Hmax.
  clear Hjunk junk. intros Ho Hq. unfold rfc1035QueryUnpack. destruct (NameUnpack_ok off None (qname q) Ho Hq) as (r & -> & Hres & Hoff & Hl & Hok).
  cbn [mbind option_bind]. destruct (Z.eqb_spec (nres r) 0) as [E|]; cbn [negb].
  2:{ eexists _, _, _. split; [done|]. split; [by right|]. split; [lia|done]. }
  destruct (Hok E) as [Hin Hname]. destruct (Z.ltb_spec sz (noff r + 4)).
  { eexists _, _, _. split; [done|]. split; [by right|]. split; [lia|done]. }
  destruct (get16_ok buf (noff r)) as (ty & -> & _); [lia|lia|done|].
  destruct (get16_ok buf (noff r + 2)) as (cl & -> & _); [lia|lia|done|]. cbn [mbind option_bind].
  eexists _, _, _. split; [done|]. split; [by left|]. split; [lia|done].
Qed.

Lemma RRUnpack_ok off RR : 0 <= off → zlen (rname RR) = 256 →
  ∃ res off' RR', rfc1035RRUnpack junk buf sz off RR = Some (res, off', RR') ∧
    (res = 0 ∨ res = 1) ∧ 0 <= off' ∧ (res = 0 → off < off' <= sz ∧ rr_ok RR').
Proof using Hjunk Hbuf Hsz Hmax.
  assert (Hfail : ∀ o RR', 0 <= o → ∃ res off' R, Some (1, o, RR') = Some (res, off', R) ∧
    (res = 0 ∨ res = 1) ∧ 0 <= off' ∧ (res = 0 → off < off' <= sz ∧ rr_ok R)).
  { intros o RR' Ho. eexists _, _, _. split; [done|]. split; [by right|]. split; [done|lia]. }
  intros Ho Hq. unfold rfc1035RRUnpack. destruct (NameUnpack_ok off None (rname RR) Ho Hq) as (n & -> & Hres & Hoff & Hl & Hok).
  cbn [mbind option_bind]. destruct (Z.eqb_spec (nres n) 0) as [E|]; cbn [negb]; [|apply Hfail; lia].
  destruct (Hok E) as [Hin Hname]. destruct (Z.ltb_spec sz (noff n + 10)); [apply Hfail; lia|].
  destruct (get16_ok buf (noff n)) as (ty & -> & _); [lia|lia|done|].
  destruct (get16_ok buf (noff n + 2)) as (cl & -> & _); [lia|lia|done|].
  destruct (get32_ok buf (noff n + 4)) as [tt ->]; [lia|lia|done|].
  destruct (get16_ok buf (noff n + 8)) as (rdl & -> & Hrdl); [lia|lia|done|]. cbn [mbind option_bind].
  destruct (Z.ltb_spec sz (noff n + 10 + rdl)); [apply Hfail; lia|].
  destruct (Z.eqb_spec ty RFC1035_TYPE_PTR) as [->|Hty].
  - destruct (NameUnpack_ok (noff n + 10) (Some 0) junk ltac:(lia) Hjunk) as (r & -> & Hres' & Hoff' & Hl' & Hok').
    cbn [mbind option_bind]. destruct (Z.eqb_spec (nres r) 0) as [E'|]; cbn [negb]; [|apply Hfail; lia].
    destruct (Z.ltb_spec (noff n + 10 + rdl) (noff r)); [apply Hfail; lia|].
    destruct (Z.leb_spec (noff n + 10 + rdl) sz); [|lia]. eexists _, _, _. split; [done|]. split; [by left|]. split; [lia|].
    intros _. split; [lia|]. split; [done|]. cbn. exists (narr r). split; [done|]. by apply Hok'.
  - unfold slice. rewrite decide_True by lia. cbn [mbind option_bind].
    destruct (Z.leb_spec (noff n + 10 + rdl) sz); [|lia]. eexists _, _, _. split; [done|]. split; [by left|]. split; [lia|].
    intros _. split; [lia|]. split; [done|]. cbn [rdata rtype rdlength]. eexists. split; [done|].
    destruct (Z.eqb_spec ty RFC1035_TYPE_PTR); [done|]. rewrite length_take, length_drop. lia.
Qed.

Lemma unpack_answers_ok : ∀ k off, 0 <= off →
  ∃ nr recs, unpack_answers k junk buf sz off = Some (nr, recs) ∧ 0 <= nr <= Z.of_nat k ∧ length recs = k ∧
    Forall rr_ok (take (Z.to_nat nr) recs).
Proof using Hjunk Hbuf Hsz Hmax.
  induction k as [|k IH]; intros off Ho; cbn [unpack_answers].
  { exists 0, []. split_and!; [done|lia|lia|done|by apply Forall_nil]. }
  destruct (Z.leb_spec sz off).
  { exists 0, (replicate (S k) zero_rr). split_and!; [done|lia|lia|by rewrite length_replicate|by apply Forall_nil]. }
  destruct (RRUnpack_ok off zero_rr Ho) as (res & off' & RR & -> & Hres & Hoff & Hok); [done|]. cbn [mbind option_bind].
  destruct (Z.eqb_spec res 0) as [->|]; cbn [negb].
  - destruct (IH off' Hoff) as (nr & recs & -> & Hnr & Hl & Hf). cbn [mbind option_bind].
    exists (nr + 1), (RR :: recs). split_and!; [done|lia|lia|cbn; lia|].
    replace (Z.to_nat (nr + 1)) with (S (Z.to_nat nr)) by lia. cbn [take]. apply Forall_cons. split; [by apply Hok|done].
  - eexists 0, _. split; [done|]. split_and!; [lia|lia|cbn; by rewrite length_replicate|by apply Forall_nil].
Qed.
End safety.

Lemma HeaderUnpack_ok buf sz : Forall is_byte buf → 0 <= sz < zlen buf →
  ∃ h, rfc1035HeaderUnpack buf sz = Some h ∧ ∀ msg, h = Some msg → 0 <= ancount msg < 65536 ∧ 0 <= rcode msg < 16.
Proof.
  intros Hb Hsz. unfold rfc1035HeaderUnpack. destruct (Z.ltb_spec sz 12); [by eexists|].
  destruct (get16_ok buf 0) as (a & -> & _); [lia|lia|done|]. destruct (get16_ok buf 2) as (t & -> & Ht); [lia|lia|done|].
  destruct (get16_ok buf 4) as (qd & -> & _); [lia|lia|done|]. destruct (get16_ok buf 6) as (an & -> & Han); [lia|lia|done|].
  destruct (get16_ok buf 8) as (ns & -> & _); [lia|lia|done|]. destruct (get16_ok buf 10) as (ar & -> & _); [lia|lia|done|].
  cbn [mbind option_bind]. eexists. split; [done|]. intros msg [= <-]. cbn [ancount rcode]. split; [done|].
  assert (E : Z.land t 15 = t mod 16) by exact (Z.land_ones t 4 ltac:(lia)). rewrite E. apply Z.mod_pos_bound. lia.
Qed.

(** What an unpacked reply satisfies: its number of records and these, and the one
    question it has. *)
Definition unpacked (n : Z) (ans : option rfc1035_message) : Prop :=
  -15 <= n <= 65535 ∧ (0 <= n → ∃ msg, ans = Some msg ∧ n <= ancount msg ∧ Forall rr_ok (take (Z.to_nat n) (answer msg))) ∧
  (∀ msg, ans = Some msg → ∃ q, query msg = [q]).

Lemma unpack_any junk buf sz : zlen junk = 256 → Forall is_byte buf → 0 <= sz < zlen buf → sz <= INT_MAX →
  ∃ n ans, rfc1035MessageUnpack junk buf sz = Some (n, ans) ∧ unpacked n ans.
Proof.
  intros Hj Hb Hsz Hm. unfold rfc1035MessageUnpack, rfc1035_unpack_error.
  assert (Hbad : ∃ n ans, Some (-(15), @None rfc1035_message) = Some (n, ans) ∧ unpacked n ans) by (eexists _, _; split; [done|]; split_and!; [lia|lia|lia|done]).
  destruct (HeaderUnpack_ok buf sz Hb Hsz) as (h & -> & Hh). cbn [mbind option_bind].
  destruct h as [msg|]; [|done]. destruct (Hh msg eq_refl) as [Han Hrc].
  destruct (qdcount msg =? 1); cbn [negb]; [|done].
  destruct (QueryUnpack_ok buf sz Hb Hsz Hm 12 zero_query ltac:(lia) eq_refl) as (res & off & q & -> & _ & Hoff & _).
  cbn [mbind option_bind]. destruct (res =? 0); cbn [negb]; [|done].
  assert (Hq : ∀ m recs, Some (mkMsg (id msg) (qr msg) (opcode msg) (aa msg) (tc msg) (rd msg) (ra msg) (rcode msg) (qdcount msg) (ancount msg) (nscount msg) (arcount msg) [q] recs) = Some m → ∃ q', query m = [q'])
    by (intros m recs [= <-]; by exists q).
  destruct (Z.eqb_spec (rcode msg) 0); cbn [negb]; [|eexists _, _; split; [done|]; split_and!; [lia|lia|lia|intros m; by apply (Hq m)]].
  destruct (Z.eqb_spec (ancount msg) 0).
  { eexists _, _. split; [done|]. split_and!; [lia|lia| |intros m; by apply (Hq m)]. intros _. eexists. split; [done|]. cbn. split; [lia|by apply Forall_nil]. }
  destruct (unpack_answers_ok junk buf sz Hj Hb Hsz Hm (Z.to_nat (ancount msg)) off Hoff) as (nr & recs & -> & Hnr & Hl & Hf).
  cbn [mbind option_bind]. destruct (Z.eqb_spec nr 0); [done|]. eexists _, _. split; [done|]. split_and!; [lia|lia| |intros m; by apply (Hq m)].
  intros _. eexists. split; [done|]. cbn. split; [lia|done].
Qed.

(** C12: whatever bytes a DNS reply consists of, unpacking it terminates and
    stays inside its buffers, provided one byte can be read behind the message:
    it returns an error, or a number of records not larger than the header's,
    each with a terminated name and data of the stated length. *)
Theorem dns_unpack_safe junk buf sz :
  zlen junk = 256 → Forall is_byte buf → 0 <= sz < zlen buf → sz <= INT_MAX →
  ∃ n ans, rfc1035MessageUnpack junk buf sz = Some (n, ans) ∧ -15 <= n <= 65535 ∧
    (0 <= n → ∃ msg, ans = Some msg ∧ n <= ancount msg ∧ Forall rr_ok (take (Z.to_nat n) (answer msg))).
Proof. intros Hj Hb Hsz Hm. destruct (unpack_any junk buf sz Hj Hb Hsz Hm) as (n & ans & E & Hn & Ha & _). exists n, ans. split; [exact E|]. by split. Qed.

Definition ex_reply : list Z :=
  [0; 7; 129; 128; 0; 1; 0; 1; 0; 0; 0; 0; 1; 97; 0; 0; 1; 0; 1;
   192; 12; 0; 1; 0; 1; 0; 0; 0; 60; 0; 4; 10; 0; 0; 1].

Lemma dns_unpack_safe_witness :
  ∃ n ans, rfc1035MessageUnpack (replicate 256 170) (ex_reply ++ [255]) 35 = Some (n, ans) ∧ -15 <= n <= 65535 ∧
    (0 <= n → ∃ msg, ans = Some msg ∧ n <= ancount msg ∧ Forall rr_ok (take (Z.to_nat n) (answer msg))).
Proof.
  apply (dns_unpack_safe (replicate 256 170) (ex_reply ++ [255]) 35).
  - by rewrite length_replicate.
  - apply (bool_decide_unpack _). vm_compute. exact I.
  - cbn. lia.
  - unfold INT_MAX. lia.
Defined.

(** A compression pointer in the last byte of a message is copied before its
    second byte is known to be there. *)
Lemma dns_pointer_reads_past_end pre c rdlen name : 191 < c →
  rfc1035NameUnpack (pre ++ [c]) (zlen (pre ++ [c])) (zlen pre) rdlen name 0 256 = None.
Proof.
  intros Hc. unfold rfc1035NameUnpack. change (0 <? 256) with true. cbv iota. unfold name_fuel.
  destruct (66 * S _)%nat eqn:E; [lia|]. cbn [name_loop]. rewrite length_app. cbn [length].
  destruct (Z.leb_spec (Z.of_nat (length pre + 1)) (zlen pre)); [lia|].
  assert (Ec : (pre ++ [c]).[zlen pre] = Some c) by (rewrite zget_app_r, Z.sub_diag by lia; done).
  rewrite Ec. cbn [mbind option_bind]. destruct (Z.ltb_spec 191 c); [|lia]. change (64 <? 0) with false. cbv iota.
  unfold get16. rewrite Ec. cbn [mbind option_bind]. rewrite (zget_ge _ (zlen pre + 1)); [done|].
  rewrite length_app. cbn. lia.
Qed.

(** * Queries *)

(** Labels a name can have, the name they make and its packed form. *)
Definition label_ok (l : list Z) : Prop := l ≠ [] ∧ zlen l <= 63 ∧ 46 ∉ l ∧ is_cstring l.
Definition dotted (ls : list (list Z)) : list Z := concat ((λ l, l ++ [46]) <$> ls).
Definition packed (ls : list (list Z)) : list Z := concat ((λ l, zlen l :: l) <$> ls).
(** The name without the last dot. *)
Definition hostname (ls : list (list Z)) : list Z := take (length (dotted ls) - 1) (dotted ls).

Lemma dotted_cons l ls : dotted (l :: ls) = l ++ 46 :: dotted ls.
Proof. unfold dotted. cbn [fmap list_fmap concat]. by rewrite <- app_assoc. Qed.

Lemma dotted_hostname ls : ls ≠ [] → dotted ls = hostname ls ++ [46].
Proof.
  intros Hne. destruct (exists_last Hne) as (ls0 & l & ->). unfold hostname.
  assert (E : dotted (ls0 ++ [l]) = (dotted ls0 ++ l) ++ [46]).
  { unfold dotted. rewrite fmap_app, concat_app. cbn [fmap list_fmap concat]. by rewrite app_nil_r, app_assoc. }
  rewrite E, length_app. cbn [length]. rewrite take_app_le by lia. rewrite take_ge by lia. done.
Qed.

Lemma length_packed ls : length (packed ls) = length (dotted ls).
Proof.
  induction ls as [|l ls IH]; [done|]. unfold packed, dotted in *. cbn [fmap list_fmap concat length].
  rewrite !length_app, IH. cbn [length]. lia.
Qed.

(** [strtok] cuts the name into its labels. *)
Lemma strtok_label l : 46 ∉ l → ∀ s cur, strtok_dots (l ++ s) cur = strtok_dots s (rev l ++ cur).
Proof.
  induction l as [|c l IH]; intros Hl s cur; [done|]. apply not_elem_of_cons in Hl as [Hc Hl]. cbn [app strtok_dots rev].
  destruct (Z.eqb_spec c 46); [congruence|]. rewrite IH by done. by rewrite <- app_assoc.
Qed.

Lemma strtok_dotted ls : Forall label_ok ls → strtok_dots (dotted ls) [] = ls.
Proof.
  induction 1 as [|l ls (Hne & _ & Hl & _) _ IH]; [done|]. rewrite dotted_cons, strtok_label by done.
  cbn [strtok_dots]. change (46 =? 46) with true. cbv iota. rewrite app_nil_r, IH.
  destruct (rev l) as [|c r] eqn:E; [|by rewrite <- E, rev_involutive].
  apply (f_equal (@rev Z)) in E. rewrite rev_involutive in E. done.
Qed.

Lemma strtok_last_dot s : ∀ cur, strtok_dots (s ++ [46]) cur = strtok_dots s cur.
Proof.
  induction s as [|c s IH]; intros cur; cbn [app strtok_dots]; [by rewrite app_nil_r|].
  destruct (c =? 46); by rewrite IH.
Qed.

Lemma strtok_hostname ls : Forall label_ok ls → strtok_dots (hostname ls) [] = ls.
Proof.
  intros Hok. destruct (decide (ls = [])) as [->|Hne]; [done|]. rewrite <- (strtok_dotted ls Hok) at 2.
  by rewrite (dotted_hostname ls Hne), strtok_last_dot.
Qed.

Lemma LabelPack_ok sz l : label_ok l → zlen l + 1 <= sz → rfc1035LabelPack sz (Some l) = Some (zlen l :: l).
Proof.
  intros (_ & Hl & Hd & _) Hs. unfold rfc1035LabelPack, RFC1035_MAXLABELSZ. change (default [] (Some l)) with l. cbv zeta.
  rewrite bool_decide_eq_false_2 by done. destruct (Z.ltb_spec 63 (zlen l)); [lia|].
  destruct (Z.ltb_spec sz (zlen l + 1)); [lia|]. by rewrite take_ge by lia.
Qed.

Lemma pack_labels_ok sz ls : Forall label_ok ls → ∀ out, zlen out + zlen (packed ls) <= sz → sz <= INT_MAX →
  pack_labels sz ls out = Some (out ++ packed ls).
Proof.
  induction 1 as [|l ls Hl _ IH]; intros out Hs Hm; cbn [pack_labels].
  { by rewrite app_nil_r. }
  unfold packed in *. cbn [fmap list_fmap concat] in *. cbn [app length] in Hs. rewrite length_app in Hs. unfold INT_MAX in *.
  rewrite u64_small, LabelPack_ok by (done || lia). cbn [mbind option_bind].
  rewrite IH by (rewrite ?length_app; cbn [length]; lia). by rewrite <- app_assoc.
Qed.

Lemma NamePack_ok sz ls : Forall label_ok ls → zlen (packed ls) + 1 <= sz → sz <= INT_MAX →
  rfc1035NamePack sz (hostname ls) = Some (packed ls ++ [0]).
Proof.
  intros Hok Hs Hm. unfold rfc1035NamePack. rewrite strtok_hostname by done.
  rewrite pack_labels_ok by (done || cbn; lia). cbn [mbind option_bind app]. unfold INT_MAX in *. rewrite u64_small by lia.
  unfold rfc1035LabelPack. change (default [] None) with (@nil Z). rewrite bool_decide_eq_false_2 by apply not_elem_of_nil.
  cbv zeta. cbn [length].
  change (RFC1035_MAXLABELSZ <? Z.of_nat 0) with false. cbv iota zeta. change (Z.of_nat 0 + 1) with 1.
  destruct (Z.ltb_spec (sz - zlen (packed ls)) 1); [lia|]. cbn [mbind option_bind].
  change (Z.of_nat 0 :: take (Z.to_nat (Z.of_nat 0)) []) with [0]. rewrite length_app. cbn [length].
  match goal with |- context [?a <=? ?b] => destruct (Z.leb_spec a b); [done|lia] end.
Qed.

(** Unpacking reads the labels back behind what is already in the array. *)
Lemma unpack_labels_ok ls : Forall label_ok ls → ∀ fuel pre rest w t sz rd,
  (length ls < fuel)%nat → zlen pre + zlen (packed ls) < sz → zlen (w ++ t) = 256 → zlen w + zlen (dotted ls) < 256 →
  ∃ t', name_loop fuel (pre ++ packed ls ++ 0 :: rest) sz (zlen pre) None (w ++ t) 0 256 (zlen w) rd
    = (let a := w ++ dotted ls ++ t' in
       n ← zset a (if zlen (w ++ dotted ls) =? 0 then 0 else zlen (w ++ dotted ls) - 1) 0;
       Some (mkName 0 (zlen pre + zlen (packed ls) + 1) None n)) ∧
    zlen (w ++ dotted ls ++ t') = 256.
Proof.
  induction 1 as [|l ls Hl _ IH]; intros fuel pre rest w t sz rd Hf Hs Hn Hw; (destruct fuel as [|fuel]; [cbn in Hf; lia|]).
  { exists t. split; [|done]. cbn [packed fmap list_fmap concat app length dotted] in *. cbn [name_loop]. cbv zeta.
    destruct (Z.leb_spec sz (zlen pre)); [lia|]. rewrite (zget_app_r pre), Z.sub_diag by lia. change ((0 :: rest).[0]) with (Some 0).
    cbn [mbind option_bind]. change (191 <? 0) with false. change (RFC1035_MAXLABELSZ <? 0) with false. change (0 =? 0) with true.
    cbv iota. rewrite app_nil_r, !Z.add_0_l, Z.add_0_r.
    destruct (zset (w ++ t) (if zlen w =? 0 then 0 else zlen w - 1) 0); [|done]. cbn [mbind option_bind].
    destruct (Z.leb_spec (zlen w) 256); [done|lia]. }
  destruct Hl as (Hne & Hl63 & Hdot & Hcs). assert (Hl1 : 1 <= zlen l) by (destruct l; [done|cbn; lia]).
  assert (Ep : packed (l :: ls) = zlen l :: l ++ packed ls) by done. rewrite Ep in *. rewrite dotted_cons in *.
  rewrite !length_app in Hw, Hn. cbn [length app] in *. rewrite length_app in Hs. rewrite <- app_assoc.
  cbn [name_loop]. cbv zeta. destruct (Z.leb_spec sz (zlen pre)); [lia|].
  rewrite (zget_app_r pre), Z.sub_diag by lia. change ((zlen l :: l ++ packed ls ++ 0 :: rest).[0]) with (Some (zlen l)).
  cbn [mbind option_bind]. destruct (Z.ltb_spec 191 (zlen l)); [lia|]. unfold RFC1035_MAXLABELSZ.
  destruct (Z.ltb_spec 63 (zlen l)); [lia|]. destruct (Z.eqb_spec (zlen l) 0); [lia|]. rewrite u64_small by lia.
  destruct (Z.ltb_spec (256 - zlen w - 1) (zlen l)); [lia|]. destruct (Z.leb_spec sz (zlen pre + 1 + zlen l)); [lia|].
  set (buf := pre ++ zlen l :: l ++ packed ls ++ 0 :: rest).
  assert (Ebuf : buf = (pre ++ zlen l :: l) ++ packed ls ++ 0 :: rest) by (unfold buf; by rewrite <- app_assoc).
  assert (Hsl : slice buf (zlen pre + 1) (zlen l) = Some l).
  { unfold slice, buf. rewrite decide_True by (rewrite length_app; cbn [length]; rewrite length_app; lia).
    replace (Z.to_nat (zlen pre + 1)) with (length (pre ++ [zlen l])) by (rewrite length_app; cbn; lia).
    change (pre ++ zlen l :: l ++ packed ls ++ 0 :: rest) with (pre ++ [zlen l] ++ l ++ packed ls ++ 0 :: rest).
    by rewrite app_assoc, drop_app_length, Nat2Z.id, take_app_length. }
  rewrite Hsl. cbn [mbind option_bind].
  set (t1 := take (length l) t). set (t2 := take 1 (drop (length l) t)). set (t3 := drop 1 (drop (length l) t)).
  assert (Ht1 : length t1 = length l) by (unfold t1; rewrite length_take; lia).
  assert (Ht2 : length t2 = 1%nat) by (unfold t2; rewrite length_take, length_drop; lia).
  assert (Et : t = t1 ++ t2 ++ t3) by (unfold t1, t2, t3; by rewrite !take_drop).
  assert (Hm : memcpy (w ++ t) (0 + zlen w) l = Some (w ++ l ++ t2 ++ t3)).
  { rewrite Z.add_0_l, Et. apply memcpy_app. lia. }
  rewrite Hm. cbn [mbind option_bind].
  assert (Hz : zset (w ++ l ++ t2 ++ t3) (0 + zlen w + zlen l) 46 = Some ((w ++ l ++ [46]) ++ t3)).
  { rewrite Z.add_0_l, zset_Some by (rewrite !length_app; lia). f_equal. destruct t2 as [|x [|]]; cbn in Ht2; try lia.
    replace (Z.to_nat (zlen w + zlen l)) with (length (w ++ l) + 0)%nat by (rewrite length_app; lia).
    rewrite !app_assoc, <- (app_assoc (w ++ l)), insert_app_r. cbn. by rewrite <- !app_assoc. }
  rewrite Hz. cbn [mbind option_bind].
  destruct (Z.ltb_spec (zlen w + zlen l + 1) 256); [|lia]. rewrite Ebuf. cbn [option_fmap option_map fmap].
  replace (zlen pre + 1 + zlen l) with (zlen (pre ++ zlen l :: l)) by (rewrite length_app; cbn [length]; lia).
  replace (zlen w + zlen l + 1) with (zlen (w ++ l ++ [46])) by (rewrite !length_app; cbn [length]; lia).
  assert (Ht3 : (length t3 + length l + 1 = length t)%nat).
  { rewrite Et, !length_app. lia. }
  destruct (IH fuel (pre ++ zlen l :: l) rest (w ++ l ++ [46]) t3 sz rd) as (t' & E & Hlen).
  { lia. } { rewrite length_app. cbn [length]. lia. } { rewrite !length_app. cbn [length]. lia. }
  { rewrite !length_app. cbn [length]. lia. }
  assert (Ew : ∀ x, (w ++ l ++ [46]) ++ dotted ls ++ x = w ++ (l ++ 46 :: dotted ls) ++ x).
  { intros x. rewrite <- !app_assoc. cbn [app]. by rewrite <- ?app_assoc. }
  pose proof (Ew []) as Ew0. rewrite !app_nil_r in Ew0. rewrite Ew in E, Hlen. rewrite Ew0 in E.
  exists t'. split; [|done]. rewrite E. rewrite !length_app. cbn [length].
  replace (Z.of_nat (length pre + S (length l)) + zlen (packed ls) + 1)
    with (zlen pre + Z.of_nat (S (length l + length (packed ls))) + 1) by lia. done.
Qed.

Lemma hostname_cstring ls : Forall label_ok ls → is_cstring (hostname ls).
Proof.
  intros Hok. unfold hostname. apply Forall_take. induction Hok as [|l ls (_ & _ & _ & Hl) _ IH]; [by apply Forall_nil|].
  rewrite dotted_cons. apply Forall_app. split; [done|]. apply Forall_cons. split; [lia|done].
Qed.

Lemma get16_put pre x rest : 0 <= x < 65536 → get16 (pre ++ put16 x ++ rest) (zlen pre) = Some x.
Proof.
  intros Hx. unfold get16, put16. assert (Hu : u16 x = x) by by apply Z.mod_small. rewrite Hu.
  rewrite (zget_app_r pre _ (zlen pre)), (zget_app_r pre _ (zlen pre + 1)) by lia. rewrite Z.sub_diag. replace (zlen pre + 1 - zlen pre) with 1 by lia.
  change (([x / 256; x mod 256] ++ rest).[0]) with (Some (x / 256)).
  change (([x / 256; x mod 256] ++ rest).[1]) with (Some (x mod 256)). cbn [mbind option_bind].
  f_equal. pose proof (Z.div_mod x 256 ltac:(lia)). lia.
Qed.

Lemma HeaderPack_query sz qid : 12 <= sz →
  rfc1035HeaderPack sz (query_header qid) = Some (put16 qid ++ [1; 0; 0; 1; 0; 0; 0; 0; 0; 0]).
Proof. intros. unfold rfc1035HeaderPack. destruct (Z.ltb_spec sz 12); [lia|]. reflexivity. Qed.


Lemma packed_labels ls : (length ls <= length (packed ls))%nat.
Proof. induction ls as [|l ls IH]; [done|]. unfold packed in *. cbn [fmap list_fmap concat length app]. rewrite length_app. lia. Qed.

(** A packed name is unpacked as it was. *)
Lemma NameUnpack_labels ls pre rest t sz fuel rd : Forall label_ok ls → ls ≠ [] → zlen (hostname ls) <= 254 → (length ls < fuel)%nat →
  zlen pre + zlen (packed ls) < sz → zlen t = 256 →
  ∃ a, name_loop fuel (pre ++ packed ls ++ 0 :: rest) sz (zlen pre) None t 0 256 0 rd = Some (mkName 0 (zlen pre + zlen (packed ls) + 1) None a) ∧
    cstr a = hostname ls.
Proof.
  intros Hok Hne Hh Hf Hs Ht. pose proof (dotted_hostname ls Hne) as Hd.
  assert (Hdl : zlen (dotted ls) = zlen (hostname ls) + 1) by (rewrite Hd, length_app; cbn; lia).
  destruct (unpack_labels_ok ls Hok fuel pre rest [] t sz rd) as (t' & E & Hlen); [done|done|done|cbn [length]; lia|].
  cbn [app length] in E, Hlen. change (Z.of_nat 0) with 0 in E. rewrite E. clear E. cbv zeta.
  destruct (Z.eqb_spec (zlen (dotted ls)) 0); [lia|]. rewrite Hdl. replace (zlen (hostname ls) + 1 - 1) with (zlen (hostname ls)) by lia.
  rewrite length_app in Hlen. exists (hostname ls ++ 0 :: t').
  assert (Ez : zset (dotted ls ++ t') (zlen (hostname ls)) 0 = Some (hostname ls ++ 0 :: t')).
  { rewrite zset_Some by (rewrite length_app; lia). f_equal. rewrite Hd, <- app_assoc.
    replace (Z.to_nat (zlen (hostname ls))) with (length (hostname ls) + 0)%nat by lia. by rewrite insert_app_r. }
  rewrite Ez. split; [done|]. rewrite cstr_app by by apply hostname_cstring. cbn. by rewrite app_nil_r.
Qed.

Lemma get16_at buf pre x rest off : buf = pre ++ put16 x ++ rest → off = zlen pre → 0 <= x < 65536 → get16 buf off = Some x.
Proof. intros -> -> Hx. by apply get16_put. Qed.

(** The question is unpacked as it was packed. *)
Lemma QueryUnpack_question ls pre rest ty cl sz : Forall label_ok ls → ls ≠ [] → zlen (hostname ls) <= 254 →
  0 <= ty < 65536 → 0 <= cl < 65536 → zlen pre + zlen (packed ls) + 5 <= sz →
  ∃ a, rfc1035QueryUnpack (pre ++ packed ls ++ 0 :: put16 ty ++ put16 cl ++ rest) sz (zlen pre) zero_query
    = Some (0, zlen pre + zlen (packed ls) + 5, mkQuery a ty cl) ∧ cstr a = hostname ls.
Proof.
  intros Hok Hne Hh Hty Hcl Hs. pose proof (packed_labels ls). unfold rfc1035QueryUnpack, rfc1035NameUnpack, RFC1035_MAXHOSTNAMESZ. change (0 <? 256) with true. cbv iota.
  destruct (NameUnpack_labels ls pre (put16 ty ++ put16 cl ++ rest) (qname zero_query) sz (name_fuel sz) 0) as (a & E & Ha); [done..|unfold name_fuel; lia|lia|done|].
  rewrite E. clear E. cbn [mbind option_bind nres noff narr]. change (negb (0 =? 0)) with false. cbv iota.
  destruct (Z.ltb_spec sz (zlen pre + zlen (packed ls) + 1 + 4)); [lia|].
  set (buf := pre ++ packed ls ++ 0 :: put16 ty ++ put16 cl ++ rest).
  rewrite (get16_at buf (pre ++ packed ls ++ [0]) ty (put16 cl ++ rest) (zlen pre + zlen (packed ls) + 1)) by (done || (rewrite !length_app; cbn [length put16]; lia) || (unfold buf; rewrite <- !app_assoc; done)). cbn [mbind option_bind].
  rewrite (get16_at buf (pre ++ packed ls ++ [0] ++ put16 ty) cl rest (zlen pre + zlen (packed ls) + 1 + 2)) by (done || (rewrite !length_app; cbn [length put16]; lia) || (unfold buf; rewrite <- !app_assoc; done)). cbn [mbind option_bind].
  exists a. split; [do 2 f_equal; f_equal; lia|done].
Qed.

(** ** Replies *)

(** An address record for the name of the question, which the pointer 0xC00C is to, with
    the time to live and the data of [r]; and a reply with a header, a question and what
    follows. *)
Definition record (r : Z * list Z) : list Z :=
  [192; 12] ++ put16 RFC1035_TYPE_A ++ put16 RFC1035_CLASS_IN ++ put16 (r.1 / 65536) ++ put16 (r.1 mod 65536) ++ put16 (zlen r.2) ++ r.2.
Definition record_ok (r : Z * list Z) : Prop := 0 <= r.1 < 4294967296 ∧ zlen r.2 < 65536.
Definition reply (qid flags an ns ar : Z) (question records : list Z) : list Z :=
  (put16 qid ++ put16 flags ++ put16 1 ++ put16 an ++ put16 ns ++ put16 ar) ++ question ++ records.
Definition unpacked_as (ls : list (list Z)) (r : Z * list Z) (RR : rfc1035_rr) : Prop :=
  cstr (rname RR) = hostname ls ∧ rtype RR = RFC1035_TYPE_A ∧ rclass RR = RFC1035_CLASS_IN ∧ ttl RR = r.1 ∧ rdlength RR = zlen r.2 ∧ rdata RR = Some r.2.

Lemma length_record r : zlen (record r) = zlen r.2 + 12.
Proof. unfold record. rewrite !length_app. cbn [length put16]. lia. Qed.

Section Records.
Context (ls : list (list Z)) (Hok : Forall label_ok ls) (Hne : ls ≠ []) (Hh : zlen (hostname ls) <= 254).
Context (buf hd tail junk : list Z) (sz : Z) (Hbuf : buf = hd ++ packed ls ++ 0 :: tail) (Hhd : zlen hd = 12) (Hsz : 12 + zlen (packed ls) < sz).
#[local] Set Default Proof Using "All".

Lemma NameUnpack_pointer pre post x : buf = pre ++ [192; 12] ++ post → zlen pre + 2 <= sz → zlen x = 256 →
  ∃ a, rfc1035NameUnpack buf sz (zlen pre) None x 0 256 = Some (mkName 0 (zlen pre + 2) None a) ∧ cstr a = hostname ls.
Proof.
  intros Hp Hs Hx. pose proof (packed_labels ls). unfold rfc1035NameUnpack. change (0 <? 256) with true. cbv iota.
  destruct (name_fuel sz) as [|fuel] eqn:Ef; [unfold name_fuel in Ef; lia|]. assert (Hfl : (length ls < fuel)%nat) by (unfold name_fuel in Ef; lia).
  cbn [name_loop]. cbv zeta. destruct (Z.leb_spec sz (zlen pre)); [lia|].
  assert (Hc : buf.[zlen pre] = Some 192) by (rewrite Hp, zget_app_r, Z.sub_diag by lia; done). rewrite Hc. cbn [mbind option_bind]. change (191 <? 192) with true. change (64 <? 0) with false. cbv iota.
  rewrite (get16_at buf pre 49164 post (zlen pre)) by (done || lia). cbn [mbind option_bind]. destruct (Z.ltb_spec sz (zlen pre + 2)); [lia|]. change (Z.land 49164 16383) with 12.
  destruct (Z.leb_spec sz 12); [lia|]. change (0 <? 256 - 0) with true. cbv iota. rewrite !Z.add_0_l, Z.sub_0_r.
  destruct (NameUnpack_labels ls hd tail x sz fuel 1) as (a & E & Ha); [done..|lia|done|]. rewrite <- Hbuf, Hhd in E. rewrite E. cbn [mbind option_bind nres nrdlength narr]. by exists a.
Qed.

Lemma RRUnpack_record pre post r : buf = pre ++ record r ++ post → zlen pre + zlen (record r) <= sz → record_ok r →
  ∃ RR, rfc1035RRUnpack junk buf sz (zlen pre) zero_rr = Some (0, zlen (pre ++ record r), RR) ∧ unpacked_as ls r RR.
Proof.
  intros Hp Hs [Ht Hd]. rewrite length_record in Hs. destruct r as [t d]. cbn [fst snd] in *. unfold rfc1035RRUnpack, RFC1035_MAXHOSTNAMESZ.
  destruct (NameUnpack_pointer pre (drop 2 (record (t, d)) ++ post) (rname zero_rr)) as (a & E & Ha); [rewrite Hp; done|lia|done|]. rewrite E. cbn [mbind option_bind noff nres narr]. change (negb (0 =? 0)) with false. cbv iota.
  destruct (Z.ltb_spec sz (zlen pre + 2 + 10)); [lia|].
  pose proof (Z.mod_pos_bound t 65536 ltac:(lia)). assert (0 <= t / 65536 < 65536) by (split; [apply Z.div_pos; lia|apply Z.div_lt_upper_bound; lia]).
  assert (G : ∀ p x q off, record (t, d) = p ++ put16 x ++ q → off = zlen pre + zlen p → 0 <= x < 65536 → get16 buf off = Some x).
  { intros p x q off Hr -> Hx. apply (get16_at buf (pre ++ p) x (q ++ post)); [|rewrite length_app; lia|done]. rewrite Hp, Hr. by rewrite <- !app_assoc. }
  rewrite (G [192; 12] RFC1035_TYPE_A (drop 4 (record (t, d))) (zlen pre + 2)) by (done || (cbn; lia)). cbn [mbind option_bind].
  rewrite (G (take 4 (record (t, d))) RFC1035_CLASS_IN (drop 6 (record (t, d))) (zlen pre + 2 + 2)) by (done || (cbn; lia)). cbn [mbind option_bind].
  unfold get32. rewrite (G (take 6 (record (t, d))) (t / 65536) (drop 8 (record (t, d))) (zlen pre + 2 + 4)) by (done || (cbn; lia)). cbn [mbind option_bind].
  rewrite (G (take 8 (record (t, d))) (t mod 65536) (drop 10 (record (t, d))) (zlen pre + 2 + 4 + 2)) by (done || (cbn; lia)). cbn [mbind option_bind].
  rewrite (G (take 10 (record (t, d))) (zlen d) d (zlen pre + 2 + 8)) by (done || (cbn; lia)). cbn [mbind option_bind].
  destruct (Z.ltb_spec sz (zlen pre + 2 + 10 + zlen d)); [lia|]. change (RFC1035_TYPE_A =? RFC1035_TYPE_PTR) with false. cbv iota.
  assert (Hsl : slice buf (zlen pre + 2 + 10) (zlen d) = Some d).
  { unfold slice. assert (Eb : buf = (pre ++ take 12 (record (t, d))) ++ d ++ post) by (rewrite Hp, <- !app_assoc; done).
    rewrite decide_True by (rewrite Eb, !length_app; cbn [length take record app put16 fst snd]; lia). rewrite Eb.
    replace (Z.to_nat (zlen pre + 2 + 10)) with (length (pre ++ take 12 (record (t, d)))) by (rewrite length_app; change (length (take 12 (record (t, d)))) with 12%nat; lia). by rewrite drop_app_length, Nat2Z.id, take_app_length. }
  rewrite Hsl. cbn [mbind option_bind]. destruct (Z.leb_spec (zlen pre + 2 + 10 + zlen d) sz); [|lia].
  assert (zlen pre + 2 + 10 + zlen d = zlen (pre ++ record (t, d))) as -> by (rewrite length_app, Nat2Z.inj_add, length_record; cbn [snd]; lia).
  eexists. split; [done|]. unfold unpacked_as. cbn [rname rtype rclass ttl rdlength rdata fst snd]. pose proof (Z.div_mod t 65536 ltac:(lia)). split_and!; [exact Ha|done|done|lia|done|done].
Qed.

Lemma unpack_answers_records rs : Forall record_ok rs → ∀ pre post, buf = pre ++ concat (record <$> rs) ++ post → zlen pre + zlen (concat (record <$> rs)) <= sz →
  ∃ recs, unpack_answers (length rs) junk buf sz (zlen pre) = Some (zlen rs, recs) ∧ Forall2 (unpacked_as ls) rs recs.
Proof.
  induction 1 as [|r rs Hr _ IH]; intros pre post Hp Hs; cbn [length unpack_answers]; [by exists []|]. cbn [fmap list_fmap concat] in Hp, Hs. rewrite length_app in Hs. pose proof (length_record r).
  destruct (Z.leb_spec sz (zlen pre)); [lia|]. rewrite <- app_assoc in Hp. destruct (RRUnpack_record pre _ r Hp) as (RR & E & HRR); [lia|done|]. rewrite E. cbn [mbind option_bind]. change (negb (0 =? 0)) with false. cbv iota.
  destruct (IH (pre ++ record r) post) as (recs & E2 & Hrecs); [by rewrite <- app_assoc|rewrite length_app; lia|]. rewrite E2. cbn [mbind option_bind]. exists (RR :: recs). split; [do 2 f_equal; lia|by constructor].
Qed.
End Records.

Lemma HeaderUnpack_reply sz qid flags an ns ar rest : 12 <= sz → 0 <= qid < 65536 → 0 <= flags < 65536 → 0 <= an < 65536 →
  ∃ h, rfc1035HeaderUnpack ((put16 qid ++ put16 flags ++ put16 1 ++ put16 an ++ put16 ns ++ put16 ar) ++ rest) sz = Some (Some h) ∧
    id h = qid ∧ rcode h = Z.land flags 15 ∧ qdcount h = 1 ∧ ancount h = an.
Proof.
  intros Hs Hq Hf Ha. unfold rfc1035HeaderUnpack. destruct (Z.ltb_spec sz 12); [lia|]. set (b := _ ++ rest).
  assert (Hu : ∀ x, put16 x = put16 (u16 x)) by (intros x; unfold put16; assert (u16 (u16 x) = u16 x) as -> by (by apply Z.mod_mod); done).
  assert (Eb : b = put16 qid ++ put16 flags ++ put16 1 ++ put16 an ++ put16 (u16 ns) ++ put16 (u16 ar) ++ rest) by (unfold b; rewrite (Hu ns), (Hu ar); by rewrite <- !app_assoc).
  assert (0 <= u16 ns < 65536 ∧ 0 <= u16 ar < 65536) as [? ?] by (split; by apply Z.mod_pos_bound).
  rewrite (get16_at b [] qid (drop 2 b) 0) by done. cbn [mbind option_bind]. rewrite (get16_at b (take 2 b) flags (drop 4 b) 2) by (done || by rewrite Eb). cbn [mbind option_bind].
  rewrite (get16_at b (take 4 b) 1 (drop 6 b) 4) by (done || by rewrite Eb). cbn [mbind option_bind]. rewrite (get16_at b (take 6 b) an (drop 8 b) 6) by (done || by rewrite Eb). cbn [mbind option_bind].
  rewrite (get16_at b (take 8 b) (u16 ns) (drop 10 b) 8) by (done || by rewrite Eb). cbn [mbind option_bind]. rewrite (get16_at b (take 10 b) (u16 ar) rest 10) by (done || by rewrite Eb). cbn [mbind option_bind].
  eexists. by split_and!.
Qed.

Lemma strcasecmp_refl s : strcasecmp_eqlen s s = 0.
Proof. induction s as [|c s IH]; [done|]. cbn. by rewrite Z.eqb_refl. Qed.

(** The query and the question that is stored. *)
Lemma build_query_ok ls sz qid q0 : Forall label_ok ls → ls ≠ [] → zlen (hostname ls) <= 254 → zlen (hostname ls) + 18 <= sz → sz <= INT_MAX →
  0 <= qid < 65536 → zlen (qname q0) = 256 →
  ∃ n, rfc1035BuildAQuery (hostname ls) sz qid q0 =
    Some ((put16 qid ++ [1; 0; 0; 1; 0; 0; 0; 0; 0; 0]) ++ (packed ls ++ [0]) ++ put16 RFC1035_TYPE_A ++ put16 RFC1035_CLASS_IN, mkQuery n RFC1035_TYPE_A RFC1035_CLASS_IN) ∧
    cstr n = hostname ls.
Proof.
  intros Hok Hne Hh Hs Hm Hq Hq0. pose proof (length_packed ls) as Hpl.
  assert (Hdl : zlen (dotted ls) = zlen (hostname ls) + 1) by (rewrite (dotted_hostname ls Hne), length_app; cbn; lia).
  unfold rfc1035BuildAQuery, build_query. rewrite HeaderPack_query by lia. cbn [mbind option_bind].
  set (hd := put16 qid ++ [1; 0; 0; 1; 0; 0; 0; 0; 0; 0]). assert (Hhd : zlen hd = 12) by done. rewrite Hhd.
  unfold INT_MAX in *. rewrite u64_small by lia. unfold rfc1035QuestionPack.
  rewrite NamePack_ok by (done || unfold INT_MAX; lia). cbn [mbind option_bind].
  set (b := (packed ls ++ [0]) ++ put16 RFC1035_TYPE_A ++ put16 RFC1035_CLASS_IN).
  assert (Hb : zlen b = zlen (hostname ls) + 6) by (unfold b; rewrite !length_app; cbn [length put16]; lia).
  destruct (Z.leb_spec (zlen b) (sz - 12)); [|lia]. cbn [mbind option_bind].
  unfold xstrncpy, RFC1035_MAXHOSTNAMESZ. change (256 =? 0) with false. cbv iota. rewrite take_ge by lia.
  destruct (memcpy (qname q0) 0 (hostname ls ++ [0])) as [n|] eqn:En.
  2:{ unfold memcpy in En. rewrite decide_True in En by (rewrite length_app; cbn; lia). done. }
  cbn [mbind option_bind]. assert (Hm1 : zlen (hd ++ b) = zlen (hostname ls) + 18) by (rewrite length_app; lia).
  rewrite Hm1. destruct (Z.leb_spec (zlen (hostname ls) + 18) sz); [|lia]. exists n. split; [done|].
  unfold memcpy in En. case_decide; [|done]. injection En as <-. cbn [Z.to_nat take app]. rewrite <- app_assoc. cbn [app].
  rewrite cstr_app by by apply hostname_cstring. cbn. by rewrite app_nil_r.
Qed.

(** C22: a query built for a name of proper labels fits its buffer; and whatever flags and
    address records a server puts around its question, the reply is unpacked to the same
    identifier and a question that compares equal to the one that was stored, with the
    error code of the header, or with every record, under the name that was asked for. *)
Theorem dns_query_recognised ls sz qid q0 :
  Forall label_ok ls → ls ≠ [] → zlen (hostname ls) <= 254 → zlen (hostname ls) + 18 <= sz → sz <= INT_MAX →
  0 <= qid < 65536 → zlen (qname q0) = 256 →
  ∃ m q, rfc1035BuildAQuery (hostname ls) sz qid q0 = Some (m, q) ∧ zlen m = zlen (hostname ls) + 18 ∧
    ∀ junk flags ns ar rs rest, 0 <= flags < 65536 → Forall record_ok rs → zlen rs < 65536 →
      let b := reply qid flags (zlen rs) ns ar (drop 12 m) (concat (record <$> rs)) in
      zlen b <= INT_MAX →
      ∃ msg q', rfc1035MessageUnpack junk (b ++ rest) (zlen b) = Some (if Z.land flags 15 =? 0 then zlen rs else - Z.land flags 15, Some msg) ∧
        id msg = qid ∧ query msg = [q'] ∧ cstr (qname q') = hostname ls ∧ rfc1035QueryCompare q q' = 0 ∧
        (Z.land flags 15 = 0 → Forall2 (unpacked_as ls) rs (answer msg)).
Proof.
  intros Hok Hne Hh Hs Hm Hq Hq0. pose proof (length_packed ls) as Hpl.
  assert (Hdl : zlen (dotted ls) = zlen (hostname ls) + 1) by (rewrite (dotted_hostname ls Hne), length_app; cbn; lia).
  destruct (build_query_ok ls sz qid q0) as (n & E & Hn); [done..|]. set (b := (packed ls ++ [0]) ++ put16 RFC1035_TYPE_A ++ put16 RFC1035_CLASS_IN) in E.
  assert (Hb : zlen b = zlen (hostname ls) + 6) by (unfold b; rewrite !length_app; cbn [length put16]; lia).
  eexists _, _. split; [exact E|]. split; [rewrite length_app; cbn [length app put16]; lia|]. intros junk flags ns ar rs rest Hfl Hrs Hnr.
  change (drop 12 ((put16 qid ++ [1; 0; 0; 1; 0; 0; 0; 0; 0; 0]) ++ b)) with b. cbv zeta. intros Hmax.
  set (hd := put16 qid ++ put16 flags ++ put16 1 ++ put16 (zlen rs) ++ put16 ns ++ put16 ar). assert (Hhd : zlen hd = 12) by done.
  set (recs := concat (record <$> rs)). assert (Hr : zlen (reply qid flags (zlen rs) ns ar b recs) = zlen (hostname ls) + 18 + zlen recs) by (unfold reply; fold hd; rewrite !length_app; lia).
  unfold rfc1035MessageUnpack. rewrite Hr. set (n0 := zlen (hostname ls) + 18 + zlen recs).
  assert (Eq : reply qid flags (zlen rs) ns ar b recs ++ rest = hd ++ packed ls ++ 0 :: put16 RFC1035_TYPE_A ++ put16 RFC1035_CLASS_IN ++ recs ++ rest) by (unfold reply, b; fold hd; by rewrite <- !app_assoc).
  rewrite Eq. destruct (HeaderUnpack_reply n0 qid flags (zlen rs) ns ar (packed ls ++ 0 :: put16 RFC1035_TYPE_A ++ put16 RFC1035_CLASS_IN ++ recs ++ rest)) as (h & Eh & Hid & Hrc & Hqd & Han); [lia|done|done|lia|].
  fold hd in Eh. rewrite Eh. cbn [mbind option_bind]. rewrite Hqd. change (negb (1 =? 1)) with false. cbv iota.
  destruct (QueryUnpack_question ls hd (recs ++ rest) RFC1035_TYPE_A RFC1035_CLASS_IN n0) as (a & Ea & Ha); [done|done|done|done|done|lia|]. rewrite Hhd in Ea. rewrite Ea. cbn [mbind option_bind]. change (negb (0 =? 0)) with false. cbv iota zeta.
  assert (Hcmp : rfc1035QueryCompare (mkQuery n RFC1035_TYPE_A RFC1035_CLASS_IN) (mkQuery a RFC1035_TYPE_A RFC1035_CLASS_IN) = 0).
  { unfold rfc1035QueryCompare. cbn [qname qtype qclass]. rewrite !Z.eqb_refl. cbn [negb]. cbv zeta. rewrite Hn, Ha, Z.eqb_refl. cbn [negb]. rewrite Z.eqb_refl. cbn [negb]. apply strcasecmp_refl. }
  rewrite Hrc, Han. destruct (Z.eqb_spec (Z.land flags 15) 0) as [Hz|Hz]; cbn [negb]; [|eexists _, _; by split_and!].
  destruct (Z.eqb_spec (zlen rs) 0) as [Hz0|Hz0]; [destruct rs; [|by cbn in Hz0]; eexists _, _; split_and!; try done; by constructor|].
  rewrite Nat2Z.id. set (buf := hd ++ packed ls ++ 0 :: put16 RFC1035_TYPE_A ++ put16 RFC1035_CLASS_IN ++ recs ++ rest) in *.
  destruct (unpack_answers_records ls Hok Hne Hh buf hd (put16 RFC1035_TYPE_A ++ put16 RFC1035_CLASS_IN ++ recs ++ rest) junk n0 eq_refl Hhd ltac:(lia) rs Hrs (hd ++ packed ls ++ [0] ++ put16 RFC1035_TYPE_A ++ put16 RFC1035_CLASS_IN) rest) as (RRs & Er & HRR).
  { unfold buf. by rewrite <- !app_assoc. } { rewrite !length_app. fold recs. cbn [length put16]. lia. }
  replace (zlen (hd ++ packed ls ++ [0] ++ put16 RFC1035_TYPE_A ++ put16 RFC1035_CLASS_IN)) with (12 + zlen (packed ls) + 5) in Er by (rewrite !length_app; cbn [length put16]; lia).
  rewrite Er. cbn [mbind option_bind]. destruct (Z.eqb_spec (zlen rs) 0); [done|]. eexists _, _. by split_and!.
Qed.

Definition ex_labels : list (list Z) := [bytes_of "www"; bytes_of "example"; bytes_of "org"].

Lemma dns_query_recognised_witness :
  ∃ m q, rfc1035BuildAQuery (hostname ex_labels) 512 7 zero_query = Some (m, q) ∧
    ∃ msg q', rfc1035MessageUnpack [] (reply 7 33152 1 0 0 (drop 12 m) (record (60, [1; 2; 3; 4])) ++ [0]) (zlen (reply 7 33152 1 0 0 (drop 12 m) (record (60, [1; 2; 3; 4])))) = Some (1, Some msg) ∧
      query msg = [q'] ∧ rfc1035QueryCompare q q' = 0 ∧ Forall2 (unpacked_as ex_labels) [(60, [1; 2; 3; 4])] (answer msg).
Proof.
  destruct (dns_query_recognised ex_labels 512 7 zero_query) as (m & q & E & Hl & H).
  - repeat (apply Forall_cons; split; [split_and!; [done|vm_compute; discriminate|apply (bool_decide_unpack _); vm_compute; exact I|
      apply (bool_decide_unpack _); vm_compute; exact I]|]). by apply Forall_nil.
  - discriminate.
  - vm_compute. discriminate.
  - vm_compute. discriminate.
  - unfold INT_MAX. lia.
  - lia.
  - reflexivity.
  - exists m, q. split; [exact E|].
    destruct (H [] 33152 0 0 [(60, [1; 2; 3; 4])] [0]) as (msg & q' & Hu & _ & Hq & _ & Hc & Ha); [lia|apply Forall_singleton; split; cbn; lia|cbn; lia| |].
    + change (zlen (hostname ex_labels)) with 15 in Hl. unfold reply. change (concat (record <$> [(60, [1; 2; 3; 4])])) with [192; 12; 0; 1; 0; 1; 0; 0; 0; 60; 0; 4; 1; 2; 3; 4].
      rewrite !length_app, length_drop. cbn [length put16]. unfold INT_MAX. lia.
    + exists msg, q'. split; [exact Hu|]. split; [exact Hq|]. split; [exact Hc|]. by apply Ha.
Defined.
