(* ===== verification/CbData.v ===== *)
(** * Callback data (src/cbdata.c)

    Squid registers the argument of a callback before it starts an operation
    that may finish after the argument's owner is gone. The registry is modelled
    as the store of the headers that precede the registered blocks, addressed by
    the block's pointer, 0 the null pointer; a block that has been returned to
    its pool is not in the store, so any access to it is [None]. The model is of
    the build without HASHED_CBDATA and CBDATA_DEBUG. The second half states the
    protocol of the file's opening comment as a step relation and shows that it
    is safe under every interleaving. *)
From S2P Require Import Prelude.

Module CbData.

(** [cbdata_index[type]]: the pool's block size, [None] while no pool exists, and
    the function to run on a block before it is released, 0 for none. *)
Record cbindex := mkIndex { pool : option Z; free_func : Z }.

Record cbdata := mkCb { valid : bool; locks : Z; type : Z; y : Z }.

(** The globals of the file, the blocks, and the calls made to free functions,
    latest first. *)
Record state := mkState {
  cbdataCount : Z;
  cbdata_index : list cbindex;
  blocks : gmap Z cbdata;
  freed : list (Z * Z) }.

Definition cbdata_types (s : state) : Z := zlen (cbdata_index s).
Definition set_blocks (s : state) (b : gmap Z cbdata) : state :=
  mkState (cbdataCount s) (cbdata_index s) b (freed s).
Definition set_index (s : state) (i : list cbindex) : state :=
  mkState (cbdataCount s) i (blocks s) (freed s).

Definition CBDATA_COOKIE (p : Z) : Z := Z.lxor p 3735928559.

(** The fixed part of a header: valid, locks, type and the cookie. *)
Definition header_size : Z := 24.

Definition cbdataInitType (s : state) (ty size func : Z) : option state :=
  let idx := if cbdata_types s <=? ty
             then cbdata_index s ++ replicate (Z.to_nat (ty + 1 - cbdata_types s)) (mkIndex None 0)
             else cbdata_index s in
  e ← zget idx ty;
  match pool e with
  | Some _ => Some (set_index s idx)
  | None => idx' ← zset idx ty (mkIndex (Some (size + header_size)) func); Some (set_index s idx')
  end.

Definition cbdataAddType (s : state) (ty size func : Z) : option (Z * state) :=
  if negb (ty =? 0) then Some (ty, s)
  else let ty := cbdata_types s in
       s' ← cbdataInitType s ty size func; Some (ty, s').

(** [p] is the address the pool hands out. *)
Definition cbdataInternalAlloc (s : state) (ty p : Z) : option (Z * state) :=
  if (0 <? ty) && (ty <? cbdata_types s) then
    e ← zget (cbdata_index s) ty;
    match pool e with
    | None => None
    | Some _ =>
        Some (p, mkState (i32 (cbdataCount s + 1)) (cbdata_index s)
                   (<[p := mkCb true 0 ty (CBDATA_COOKIE p)]> (blocks s)) (freed s))
    end
  else None.

(** What [cbdataInternalFree] and [cbdataUnlock] share: run the free function and
    give the block back. *)
Definition release (s : state) (p : Z) (c : cbdata) : option state :=
  e ← zget (cbdata_index s) (type c);
  let log := if negb (free_func e =? 0) then (free_func e, p) :: freed s else freed s in
  Some (mkState (i32 (cbdataCount s - 1)) (cbdata_index s) (delete p (blocks s)) log).

Definition cbdataInternalFree (s : state) (p : Z) : option state :=
  c ← blocks s !! p;
  if negb (y c =? CBDATA_COOKIE p) then None else
  if negb (valid c) then None else
  let c := mkCb false (locks c) (type c) (y c) in
  if negb (locks c =? 0) then Some (set_blocks s (<[p := c]> (blocks s)))
  else release s p c.

Definition cbdataLocked (s : state) (p : Z) : option Z :=
  c ← blocks s !! p;
  if negb (y c =? CBDATA_COOKIE p) then None else
  if negb (locks c =? 0) || valid c then Some (locks c) else None.

Definition cbdataLock (s : state) (p : Z) : option state :=
  if p =? 0 then Some s else
  c ← blocks s !! p;
  if negb (y c =? CBDATA_COOKIE p) then None else
  if negb (negb (locks c =? 0) || valid c) then None else
  if INT_MAX <=? locks c then None else
  Some (set_blocks s (<[p := mkCb (valid c) (locks c + 1) (type c) (y c)]> (blocks s))).

Definition cbdataUnlock (s : state) (p : Z) : option state :=
  if p =? 0 then Some s else
  c ← blocks s !! p;
  if negb (y c =? CBDATA_COOKIE p) then None else
  if negb (0 <? locks c) then None else
  let c := mkCb (valid c) (locks c - 1) (type c) (y c) in
  let s := set_blocks s (<[p := c]> (blocks s)) in
  if valid c || negb (locks c =? 0) then Some s
  else release s p c.

Definition cbdataValid (s : state) (p : Z) : option bool :=
  if p =? 0 then Some true else
  c ← blocks s !! p;
  if negb (y c =? CBDATA_COOKIE p) then None else
  if negb (0 <? locks c) then None else Some (valid c).

(** * The protocol

    Owners allocate and free blocks; an operation in flight holds one lock on
    its callback's argument and, when it completes, makes the callback only if
    the argument is still valid. [owned] is the set of arguments not freed yet,
    [pending] the arguments of the operations in flight and [made] the callbacks
    that were made. *)
Record system := mkSys {
  reg : state; owned : gset Z; pending : list Z; made : list (Z * bool) }.

(** [made] records for each callback whether its argument was owned when it was
    made. *)
Definition start_op (S : system) (p : Z) : option system :=
  r ← cbdataLock (reg S) p; Some (mkSys r (owned S) (p :: pending S) (made S)).

Definition finish_op (S : system) (i : nat) : option system :=
  p ← pending S !! i;
  v ← cbdataValid (reg S) p;
  let m := if (v : bool) then (p, bool_decide (p ∈ owned S)) :: made S else made S in
  r ← cbdataUnlock (reg S) p;
  Some (mkSys r (owned S) (delete i (pending S)) m).

Definition owner_alloc (S : system) (ty p : Z) : option system :=
  '(p, r) ← cbdataInternalAlloc (reg S) ty p;
  Some (mkSys r ({[p]} ∪ owned S) (pending S) (made S)).

Definition owner_free (S : system) (p : Z) : option system :=
  r ← cbdataInternalFree (reg S) p; Some (mkSys r (owned S ∖ {[p]}) (pending S) (made S)).

(** The actions the participants may take: a pool hands out an address that is
    not in use, an operation is started on an owned argument or by another
    operation that holds it, an owner frees what it owns. *)
Inductive action := Alloc (ty p : Z) | Start (p : Z) | Finish (i : nat) | Free (p : Z).

Definition enabled (S : system) (a : action) : Prop :=
  match a with
  | Alloc ty p => p ≠ 0 ∧ blocks (reg S) !! p = None ∧
      (0 < ty < cbdata_types (reg S) ∧ ∃ e n, zget (cbdata_index (reg S)) ty = Some e ∧ pool e = Some n)
  | Start p => (p ∈ owned S ∨ p ∈ pending S) ∧ zlen (pending S) < INT_MAX
  | Finish i => (i < length (pending S))%nat
  | Free p => p ∈ owned S
  end.

Definition act (S : system) (a : action) : option system :=
  match a with
  | Alloc ty p => owner_alloc S ty p
  | Start p => start_op S p
  | Finish i => finish_op S i
  | Free p => owner_free S p
  end.

Inductive reachable (S0 : system) : system → Prop :=
  | reach_start : reachable S0 S0
  | reach_step S a S' : reachable S0 S → enabled S a → act S a = Some S' → reachable S0 S'.

(** The number of operations in flight on [p]. *)
Definition in_flight (l : list Z) (p : Z) : nat := length (filter (eq p) l).
Arguments in_flight : simpl never.
Arguments CBDATA_COOKIE : simpl never.

Record inv (S : system) : Prop := {
  inv_null : blocks (reg S) !! 0 = None;
  inv_dom : ∀ p, is_Some (blocks (reg S) !! p) ↔ p ∈ owned S ∨ p ∈ pending S;
  inv_block : ∀ p c, blocks (reg S) !! p = Some c →
    y c = CBDATA_COOKIE p ∧ (valid c = true ↔ p ∈ owned S) ∧
    locks c = Z.of_nat (in_flight (pending S) p) ∧ is_Some (zget (cbdata_index (reg S)) (type c));
  inv_count : cbdataCount (reg S) = i32 (Z.of_nat (size (blocks (reg S))));
  inv_made : Forall (λ e, e.2 = true) (made S) }.

Lemma in_flight_cons p q l : in_flight (q :: l) p = ((if decide (p = q) then 1 else 0) + in_flight l p)%nat.
Proof. unfold in_flight. rewrite filter_cons. case_decide; done. Qed.

Lemma in_flight_le l p : (in_flight l p <= length l)%nat.
Proof. apply length_filter. Qed.

Lemma in_flight_pos l p : p ∈ l ↔ (0 < in_flight l p)%nat.
Proof.
  unfold in_flight. rewrite <- (Nat.neq_0_lt_0 (length _)), length_zero_iff_nil. split.
  - intros Hin E. assert (p ∈ filter (eq p) l) as H by (by apply list_elem_of_filter).
    rewrite E in H. by apply not_elem_of_nil in H.
  - intros E. destruct (filter (eq p) l) as [|q r] eqn:F; [done|].
    assert (q ∈ filter (eq p) l) as H by (rewrite F; left).
    apply list_elem_of_filter in H as [-> H]. done.
Qed.

Lemma in_flight_delete l i q p :
  l !! i = Some q → in_flight (delete i l) p = (in_flight l p - (if decide (p = q) then 1 else 0))%nat.
Proof.
  intros Hi. rewrite delete_take_drop. rewrite <- (take_drop_middle l i q Hi) at 3.
  unfold in_flight. rewrite !filter_app, !length_app, filter_cons.
  case_decide; subst; cbn; lia.
Qed.

(** Steps of the registry that leave a block at [p]: everything the invariant
    says of the other blocks stays. *)
Lemma cb_release_ok s p c :
  is_Some (zget (cbdata_index s) (type c)) →
  ∃ s', release s p c = Some s' ∧ cbdataCount s' = i32 (cbdataCount s - 1) ∧
    cbdata_index s' = cbdata_index s ∧ blocks s' = delete p (blocks s).
Proof. intros [e He]. unfold release. rewrite He. cbn. eauto. Qed.

Lemma lock_step S p :
  inv S → (p ∈ owned S ∨ p ∈ pending S) → zlen (pending S) < INT_MAX →
  ∃ S', start_op S p = Some S' ∧ inv S'.
Proof.
  intros I Hp Hmax. destruct (proj2 (inv_dom S I p) Hp) as [c Hc].
  destruct (inv_block S I p c Hc) as (Hy & Hv & Hl & Ht).
  assert (p ≠ 0) by (intros ->; rewrite (inv_null S I) in Hc; done).
  unfold start_op, cbdataLock. destruct (Z.eqb_spec p 0); [done|]. rewrite Hc. cbn [mbind option_bind].
  rewrite Hy, Z.eqb_refl. cbn [negb].
  assert (negb (locks c =? 0) || valid c = true) as ->.
  { destruct Hp as [Hp|Hp]; [rewrite (proj2 Hv Hp); apply orb_true_r|].
    apply in_flight_pos in Hp. destruct (Z.eqb_spec (locks c) 0); [lia|done]. }
  pose proof (in_flight_le (pending S) p). destruct (Z.leb_spec INT_MAX (locks c)); [lia|]. cbn [negb].
  eexists; split; [done|]. destruct I as [I0 ID IB IC IM]. split; cbn; try done.
  - rewrite lookup_insert_ne; done.
  - intros q. rewrite lookup_insert_is_Some', ID, elem_of_cons. naive_solver.
  - intros q cq. rewrite in_flight_cons, lookup_insert_Some.
    intros [[-> <-]|[Hq Hcq]]; cbn.
    + rewrite decide_True by done. repeat split; try done; try apply Hv. lia.
    + rewrite decide_False by done. by apply IB.
  - rewrite IC, map_size_insert_Some by done. done.
Qed.

Lemma finish_step S i :
  inv S → (i < length (pending S))%nat → ∃ S', finish_op S i = Some S' ∧ inv S'.
Proof.
  intros I Hi. destruct (lookup_lt_is_Some_2 _ _ Hi) as [p Hp].
  assert (Hpin : p ∈ pending S) by (by eapply list_elem_of_lookup_2).
  destruct (proj2 (inv_dom S I p) (or_intror Hpin)) as [c Hc].
  destruct (inv_block S I p c Hc) as (Hy & Hv & Hl & Ht).
  assert (p ≠ 0) by (intros ->; rewrite (inv_null S I) in Hc; done).
  pose proof (proj1 (in_flight_pos _ _) Hpin) as Hpos.
  unfold finish_op, cbdataValid, cbdataUnlock. rewrite Hp. cbn [mbind option_bind].
  destruct (Z.eqb_spec p 0); [done|]. rewrite Hc. cbn [mbind option_bind].
  rewrite Hy, Z.eqb_refl. cbn [negb]. destruct (Z.ltb_spec 0 (locks c)); [|lia]. cbn [negb mbind option_bind].
  cbn [valid locks type y].
  assert (HM : Forall (λ e : Z * bool, e.2 = true)
    (if valid c then (p, bool_decide (p ∈ owned S)) :: made S else made S)).
  { destruct (valid c) eqn:Ev; [|apply (inv_made S I)]. constructor; [|apply (inv_made S I)].
    cbn. by apply bool_decide_eq_true_2, Hv. }
  destruct I as [I0 ID IB IC IM].
  destruct (valid c || negb (locks c - 1 =? 0)) eqn:Ek; cbn [mbind option_bind].
  - eexists; split; [done|]. split; cbn; try done.
    + rewrite lookup_insert_ne; done.
    + intros q. rewrite lookup_insert_is_Some', ID.
      rewrite !in_flight_pos, (in_flight_delete _ _ _ q Hp). destruct (decide (q = p)) as [->|].
      2: { rewrite Nat.sub_0_r. split; [by intros [->|?]|by right]. }
      split; [intros _|by left]. apply orb_true_iff in Ek as [Ek|Ek]; [left; by apply Hv|right].
      apply negb_true_iff, Z.eqb_neq in Ek. lia.
    + intros q cq. rewrite (in_flight_delete _ _ _ q Hp), lookup_insert_Some.
      intros [[-> <-]|[Hq Hcq]]; cbn.
      * rewrite decide_True by done. repeat split; try done; try apply Hv. lia.
      * rewrite decide_False by done. rewrite Nat.sub_0_r. by apply IB.
    + rewrite IC, map_size_insert_Some by done. done.
  - apply orb_false_iff in Ek as [Ek El]. apply negb_false_iff, Z.eqb_eq in El.
    destruct (cb_release_ok (set_blocks (reg S) (<[p := mkCb (valid c) (locks c - 1) (type c) (CBDATA_COOKIE p)]> (blocks (reg S)))) p
      (mkCb (valid c) (locks c - 1) (type c) (CBDATA_COOKIE p))) as (s' & -> & Hn & Hx & Hb); [done|].
    cbn [mbind option_bind]. cbn in Hn, Hx, Hb. rewrite delete_insert_eq in Hb.
    eexists; split; [done|]. assert (Ho : p ∉ owned S) by (rewrite <- Hv, Ek; done).
    split; cbn; rewrite ?Hn, ?Hx, ?Hb; try done.
    + rewrite lookup_delete_ne; done.
    + intros q. rewrite !in_flight_pos, (in_flight_delete _ _ _ q Hp). destruct (decide (q = p)) as [->|Hq].
      * rewrite lookup_delete_eq. split; [by intros []|]. intros [?|?]; [done|lia].
      * rewrite lookup_delete_ne, ID, in_flight_pos by done. rewrite Nat.sub_0_r. done.
    + intros q cq. rewrite (in_flight_delete _ _ _ q Hp), lookup_delete_Some. intros [Hq Hcq].
      rewrite decide_False by done. rewrite Nat.sub_0_r. by apply IB.
    + rewrite IC, <- Z.add_opp_r, i32_add_l, map_size_delete_Some by done. f_equal.
      assert (size (blocks (reg S)) ≠ 0%nat); [|lia].
      intros E. apply map_size_empty_inv in E. rewrite E in Hc. done.
Qed.

Lemma alloc_step S ty p : inv S → enabled S (Alloc ty p) → ∃ S', owner_alloc S ty p = Some S' ∧ inv S'.
Proof.
  intros I (Hp & Hnone & Hty & e & n & He & Hpool). unfold owner_alloc, cbdataInternalAlloc.
  destruct (Z.ltb_spec 0 ty); [|lia]. destruct (Z.ltb_spec ty (cbdata_types (reg S))); [|lia].
  cbn [andb]. rewrite He. cbn [mbind option_bind]. rewrite Hpool. cbn [mbind option_bind].
  eexists; split; [done|]. pose proof (inv_dom S I p) as Hd. rewrite Hnone in Hd.
  assert (¬ (p ∈ owned S ∨ p ∈ pending S)) as Hno by (rewrite <- Hd; by intros []).
  destruct I as [I0 ID IB IC IM]. split; cbn; try done.
  - by rewrite lookup_insert_ne.
  - intros q. rewrite lookup_insert_is_Some', ID. set_solver.
  - intros q cq. rewrite lookup_insert_Some. intros [[<- <-]|[Hq Hcq]]; cbn.
    + split_and!; [done| | |by exists e]; [rewrite elem_of_union, elem_of_singleton; naive_solver|]. symmetry. apply Nat2Z.inj_iff with (m := 0%nat).
      destruct (in_flight (pending S) p) eqn:E; [done|]. exfalso. apply Hno. right. apply in_flight_pos. lia.
    + destruct (IB q cq Hcq) as (? & Hvq & ? & ?). split_and!; try done.
      rewrite Hvq, elem_of_union, elem_of_singleton. naive_solver.
  - rewrite IC, i32_add_l, map_size_insert_None by done. f_equal. lia.
Qed.

Lemma free_step S p : inv S → p ∈ owned S → ∃ S', owner_free S p = Some S' ∧ inv S' ∧
  owned S' = owned S ∖ {[p]} ∧ pending S' = pending S.
Proof.
  intros I Hp. destruct (proj2 (inv_dom S I p) (or_introl Hp)) as [c Hc].
  destruct (inv_block S I p c Hc) as (Hy & Hv & Hl & Ht).
  assert (Hp0 : p ≠ 0) by (intros ->; rewrite (inv_null S I) in Hc; done).
  unfold owner_free, cbdataInternalFree. rewrite Hc. cbn [mbind option_bind]. rewrite Hy, Z.eqb_refl.
  rewrite (proj2 Hv Hp). cbn [negb locks type y]. destruct I as [I0 ID IB IC IM].
  destruct (Z.eqb_spec (locks c) 0) as [E|E]; cbn [negb mbind option_bind].
  - destruct (cb_release_ok (reg S) p (mkCb false (locks c) (type c) (CBDATA_COOKIE p))) as (s' & -> & Hn & Hx & Hb); [done|].
    cbn [mbind option_bind]. eexists; split; [done|]. split; [|done].
    split; cbn; rewrite ?Hn, ?Hx, ?Hb; try done.
    + by rewrite lookup_delete_ne.
    + intros q. rewrite elem_of_difference, elem_of_singleton. destruct (decide (q = p)) as [->|Hq].
      * rewrite lookup_delete_eq. split; [by intros []|]. intros [?|?%in_flight_pos]; [naive_solver|lia].
      * rewrite lookup_delete_ne, ID by done. naive_solver.
    + intros q cq. rewrite lookup_delete_Some. intros [Hq Hcq].
      destruct (IB q cq Hcq) as (? & Hvq & ? & ?). split_and!; try done.
      rewrite Hvq, elem_of_difference, elem_of_singleton. naive_solver.
    + rewrite IC, <- Z.add_opp_r, i32_add_l, map_size_delete_Some by done. f_equal. assert (size (blocks (reg S)) ≠ 0%nat); [|lia].
      intros E'. apply map_size_empty_inv in E'. by rewrite E' in Hc.
  - eexists; split; [done|]. split; [|done]. split; cbn; try done.
    + by rewrite lookup_insert_ne.
    + intros q. rewrite lookup_insert_is_Some', ID. rewrite elem_of_difference, elem_of_singleton.
      destruct (decide (q = p)) as [->|Hq]; [|naive_solver]. split; [intros _; right|naive_solver].
      apply in_flight_pos. lia.
    + intros q cq. rewrite lookup_insert_Some. intros [[<- <-]|[Hq Hcq]]; cbn.
      { split_and!; try done. rewrite elem_of_difference, elem_of_singleton. naive_solver. }
      destruct (IB q cq Hcq) as (? & Hvq & ? & ?). split_and!; try done.
      rewrite Hvq, elem_of_difference, elem_of_singleton. naive_solver.
    + by rewrite IC, map_size_insert_Some.
Qed.

Lemma act_ok S a : inv S → enabled S a → ∃ S', act S a = Some S' ∧ inv S'.
Proof.
  intros I. destruct a as [ty p|p|i|p]; cbn.
  - by apply alloc_step.
  - intros [? ?]. by apply lock_step.
  - by apply finish_step.
  - intros Hp. destruct (free_step S p I Hp) as (S' & ? & ? & _). eauto.
Qed.

(** A system in which nothing is registered yet. *)
Definition initial (idx : list cbindex) : system := mkSys (mkState 0 idx ∅ []) ∅ [] [].

Lemma initial_inv idx : inv (initial idx).
Proof. split; cbn; try done. intros p. rewrite lookup_empty. split; [by intros []|]. set_solver. Qed.

Lemma reachable_keeps S0 S : inv S0 → reachable S0 S → inv S.
Proof.
  intros I0. induction 1 as [|S a S' _ IH En Hs]; [done|].
  destruct (act_ok S a IH En) as (S2 & E & I). congruence.
Qed.

Lemma reachable_inv idx S : reachable (initial idx) S → inv S.
Proof. apply reachable_keeps, initial_inv. Qed.

(** C18: In every reachable state any enabled action goes through without
    a failed assertion or an access to a released block, no callback has been
    made with an argument its owner had freed, and the blocks in memory are
    exactly those still owned or awaited, and cbdataCount counts them at the width of
    [int]. *)
Theorem cbdata_protocol_safe idx S :
  reachable (initial idx) S →
  (∀ a, enabled S a → is_Some (act S a)) ∧
  Forall (λ e, e.2 = true) (made S) ∧
  (∀ p, is_Some (blocks (reg S) !! p) ↔ p ∈ owned S ∨ p ∈ pending S) ∧
  cbdataCount (reg S) = i32 (Z.of_nat (size (blocks (reg S)))).
Proof.
  intros I%reachable_inv. split; [|split; [apply I|split; [apply I|apply I]]].
  intros a En. destruct (act_ok S a I En) as (S' & -> & _). by eexists.
Qed.

(** Freeing and finishing alone. *)
Lemma drain_owned S0 n S : size (owned S) = n → inv S → reachable S0 S →
  ∃ S', reachable S0 S' ∧ inv S' ∧ owned S' = ∅ ∧ pending S' = pending S.
Proof.
  revert S. induction n as [|n IH]; intros S Hn I R.
  - exists S. split_and!; try done. apply leibniz_equiv. by apply size_empty_inv.
  - destruct (size_pos_elem_of (owned S)) as [p Hp]; [lia|].
    destruct (free_step S p I Hp) as (S' & E & I' & Ho & Hq).
    destruct (IH S') as (S2 & ? & ? & ? & ?); [|done| |exists S2; split_and!; congruence].
    + rewrite Ho, size_difference, size_singleton, Hn by set_solver. lia.
    + by eapply (reach_step _ S (Free p)).
Qed.

Lemma finish_pending S i S' : finish_op S i = Some S' → owned S' = owned S ∧ pending S' = delete i (pending S).
Proof. unfold finish_op. intros E. bind_inv. by subst. Qed.

Lemma drain_pending S0 l S : pending S = l → inv S → reachable S0 S →
  ∃ S', reachable S0 S' ∧ inv S' ∧ owned S' = owned S ∧ pending S' = [].
Proof.
  revert S. induction l as [|p l IH]; intros S Hl I R; [exists S; by split_and!|].
  destruct (finish_step S 0 I) as (S' & E & I'); [rewrite Hl; cbn; lia|].
  destruct (finish_pending _ _ _ E) as [Ho Hq].
  destruct (IH S') as (S2 & ? & ? & ? & ?); [|done| |exists S2; split_and!; congruence].
  - by rewrite Hq, Hl.
  - eapply (reach_step _ S (Finish 0)); [done| |done]. cbn. rewrite Hl. cbn. lia.
Qed.

(** From every reachable state the participants can finish, and once the
    owners have freed what they own and the operations have completed, in
    whatever order, no block is left and the count is zero. *)
Theorem cbdata_no_leak idx S :
  reachable (initial idx) S →
  (∃ S', reachable S S' ∧ owned S' = ∅ ∧ pending S' = []) ∧
  (∀ S', reachable S S' → owned S' = ∅ → pending S' = [] →
     blocks (reg S') = ∅ ∧ cbdataCount (reg S') = 0).
Proof.
  intros R. pose proof (reachable_inv _ _ R) as I. split.
  - destruct (drain_owned S (size (owned S)) S) as (S1 & R1 & I1 & O1 & P1); [done..|constructor|].
    destruct (drain_pending S (pending S1) S1) as (S2 & R2 & I2 & O2 & P2); [done..|].
    exists S2. split_and!; congruence.
  - intros S' R' Ho Hp. pose proof (reachable_keeps S S' I R') as I'.
    assert (E : blocks (reg S') = ∅).
    { apply map_eq. intros p. rewrite lookup_empty. destruct (blocks (reg S') !! p) eqn:E; [|done].
      destruct (proj1 (inv_dom S' I' p)) as [H|H]; [by eexists| |]; rewrite ?Ho, ?Hp in H; set_solver. }
    split; [done|]. rewrite (inv_count S' I'), E. done.
Qed.

(** A type registered by [cbdataAddType] can be allocated from, and the types
    registered before keep their index and entry. *)
Lemma addType_alloc s size func p :
  0 < cbdata_types s →
  ∃ ty s', cbdataAddType s 0 size func = Some (ty, s') ∧
    (∀ i e, zget (cbdata_index s) i = Some e → zget (cbdata_index s') i = Some e) ∧
    is_Some (cbdataInternalAlloc s' ty p).
Proof.
  intros Hs. unfold cbdataAddType, cbdataInitType, cbdata_types in *. cbn [Z.eqb negb].
  rewrite Z.leb_refl. replace (zlen (cbdata_index s) + 1 - zlen (cbdata_index s)) with 1 by lia.
  change (replicate (Z.to_nat 1) (mkIndex None 0)) with [mkIndex None 0].
  rewrite zget_app_r by lia. rewrite Z.sub_diag. cbn [zget Z.leb Z.compare Z.to_nat lookup list_lookup mbind option_bind pool].
  rewrite zset_Some by (rewrite length_app; cbn; lia). cbn [mbind option_bind].
  eexists _, _; split; [done|]. cbn [set_index cbdata_index]. rewrite Nat2Z.id, insert_app_r_alt, Nat.sub_diag by lia.
  cbn [insert list_insert]. split.
  - intros i e He. rewrite zget_app_l; [done|]. apply zget_Some_range in He. lia.
  - unfold cbdataInternalAlloc, cbdata_types. cbn [set_index cbdata_index]. rewrite length_app. cbn [length].
    destruct (Z.ltb_spec 0 (zlen (cbdata_index s))); [|lia].
    destruct (Z.ltb_spec (zlen (cbdata_index s)) (Z.of_nat (length (cbdata_index s) + 1))); [|lia]. cbn [andb].
    rewrite zget_app_r by lia. rewrite Z.sub_diag. cbn. by eexists.
Qed.

(** One owner, one operation: the owner frees while the operation is in flight,
    the callback is not made and the block goes when the operation finishes. *)
Definition ex_idx : list cbindex := [mkIndex None 0; mkIndex (Some 100) 7].
Definition ex_run (l : list action) : option system :=
  foldl (λ o a, S ← o; act S a) (Some (initial ex_idx)) l.

Definition do_act (S : system) (a : action) : system := default S (act S a).

Lemma reach_act S0 S a : reachable S0 S → enabled S a → bool_decide (is_Some (act S a)) = true → reachable S0 (do_act S a).
Proof. intros R En [S' E]%bool_decide_eq_true. unfold do_act. rewrite E. by eapply reach_step. Defined.

Definition ex_state : system := do_act (do_act (do_act (initial ex_idx) (Alloc 1 64)) (Start 64)) (Free 64).

Lemma ex_reach : reachable (initial ex_idx) ex_state.
Proof.
  apply reach_act; [apply reach_act; [apply reach_act; [apply reach_start| |reflexivity]| |reflexivity]| |reflexivity].
  - cbn. split; [lia|]. split; [reflexivity|]. split; [split; reflexivity|].
    exists (mkIndex (Some 100) 7), 100. split; reflexivity.
  - split; [left; cbn; set_solver|reflexivity].
  - cbn. set_solver.
Defined.

Lemma cbdata_protocol_safe_witness :
  is_Some (act ex_state (Finish 0)) ∧ cbdataCount (reg ex_state) = 1.
Proof.
  destruct (cbdata_protocol_safe ex_idx ex_state ex_reach) as (H & _ & _ & _).
  split; [apply (H (Finish 0)); exact (Nat.lt_0_succ 0)|reflexivity].
Defined.

Lemma cbdata_no_leak_witness :
  pending ex_state = [64] ∧ ∃ S', reachable ex_state S' ∧ owned S' = ∅ ∧ pending S' = [].
Proof. split; [reflexivity|]. apply (cbdata_no_leak ex_idx ex_state ex_reach). Defined.

Example ex_finish : ex_run [Alloc 1 64; Start 64; Free 64; Finish 0] =
  Some (mkSys (mkState 0 ex_idx ∅ [(7, 64)]) ∅ [] []).
Proof. vm_compute. reflexivity. Qed.
End CbData.
