(* ===== verification/Store.v ===== *)
(** * The store manager (src/store.c, src/store_swapout.c, src/store_client.c)

    Entries with their locks, keys, memory objects and flags, the table they are
    found in and the list of the memory policy. An address is a number; the
    entries that are allocated are those of the map, and [None] is a failed
    assertion or an access to a freed entry.

    The hash table is the list of its links ([Hash] shows that lib/hash.c
    is), the memory policy the list of its entries by last use ([ReplLru]). The
    keys and what of the request they depend on are the class [StoreKeys]. What
    the clients do when their handlers are invoked, the writes to the swap file
    and the index of variants ([storeAddVary]) are events in [log]. The model is of
    a process that is not shutting down. The [int] counters and the 16-bit lock
    count wrap; sizes, offsets and times are 64-bit in the code and are taken not to
    reach 2^63, which the steps of [StoreProtocol] require of the offsets. *)
From S2P Require Import Prelude CString.

Module Store.

(** Keys are digests: of a URL and method, of a request, or of these and a
    number for an entry only one transfer may use. *)
Class StoreKeys (K R : Type) := {
  storeKeyPublic : list Z → Z → K;
  storeKeyPublicByRequest : R → K;
  storeKeyPrivate : list Z → Z → Z → K;
  (** [request->flags.cachable], [request->vary_headers], its release, and
      [httpMakeVaryMark] *)
  r_cachable : R → bool;
  r_vary_headers : R → option (list Z);
  r_free_vary : R → R;
  r_make_vary : R → option R }.

(** No two of these digests collide. *)
Class StoreKeysOk (K R : Type) `{StoreKeys K R} := {
  private_inj u m i u' m' i' : storeKeyPrivate u m i = storeKeyPrivate u' m' i' → i = i';
  private_not_public u m i u' m' : storeKeyPrivate u m i ≠ storeKeyPublic u' m';
  private_not_request u m i r : storeKeyPrivate u m i ≠ storeKeyPublicByRequest r }.

Inductive flag :=
  ENTRY_SPECIAL | ENTRY_REVALIDATE | DELAY_SENDING | RELEASE_REQUEST | REFRESH_FAILURE | ENTRY_CACHABLE
  | ENTRY_DISPATCHED | KEY_PRIVATE | ENTRY_FWD_HDR_WAIT | ENTRY_NEGCACHED | ENTRY_VALIDATED | ENTRY_BAD_LENGTH
  | ENTRY_ABORTED | ENTRY_DEFER_READ | KEY_EARLY_PUBLIC.
#[export] Instance flag_eq_dec : EqDecision flag.
Proof. solve_decision. Defined.

Inductive swap_status_t := SWAPOUT_NONE | SWAPOUT_WRITING | SWAPOUT_DONE.
#[export] Instance swap_status_eq_dec : EqDecision swap_status_t.
Proof. solve_decision. Defined.

Inductive event :=
  | RefObj (e : Z) | UnrefObj (e : Z) | SwapLogAdd (e : Z) | SwapLogDel (e : Z) | Unlink (e : Z)
  | SwapSize (dirn size sign : Z) | LogRelease (e : Z) | Handlers (e : Z) | AddVary (e : Z) | CloseSwap (e : Z)
  | AbortCallback (e : Z).

Definition METHOD_NONE : Z := 0.

(** What is read of the reply. *)
Record HttpReply := mkReply { hdr_sz : Z; content_length : Z; status : Z; ver_major : Z }.

Section Store.
Context {K R : Type} `{EqDecision K} `{StoreKeys K R}.

Record MemObject := mkMemObject {
  method : Z; url : list Z; store_url : option (list Z);
  (** [data_hdr.head] is not null *)
  has_data : bool;
  inmem_hi : Z; inmem_lo : Z; object_sz : Z; nclients : Z;
  (** [swapout.sio] is not null *)
  sio : bool; swap_hdr_sz : Z; queue_offset : Z;
  request : option R; abort_callback : bool; vary_headers : option (list Z);
  ims_entry : option Z; old_entry : option Z; refresh_timestamp : Z;
  reply : HttpReply }.

Record StoreEntry := mkStoreEntry {
  key : option K; mem_obj : option MemObject;
  timestamp : Z; lastref : Z; expires : Z; lastmod : Z; swap_file_sz : Z;
  flags : flag → bool; swap_filen : Z; swap_dirn : Z; lock_count : Z;
  in_memory : bool; pending : bool; swap_status : swap_status_t }.

Record store := mkStore {
  entries : gmap Z StoreEntry; table : list (K * Z); key_counter : Z;
  mem_lru : list Z; hot_obj_count : Z; LateReleaseStack : list Z; rebuilding : bool;
  squid_curtime : Z; log : list event }.

(** ** Updates *)

Definition set_entries (s : store) m := mkStore m (table s) (key_counter s) (mem_lru s) (hot_obj_count s) (LateReleaseStack s) (rebuilding s) (squid_curtime s) (log s).
Definition set_table (s : store) t := mkStore (entries s) t (key_counter s) (mem_lru s) (hot_obj_count s) (LateReleaseStack s) (rebuilding s) (squid_curtime s) (log s).
Definition set_counter (s : store) c := mkStore (entries s) (table s) c (mem_lru s) (hot_obj_count s) (LateReleaseStack s) (rebuilding s) (squid_curtime s) (log s).
Definition set_lru (s : store) l h := mkStore (entries s) (table s) (key_counter s) l h (LateReleaseStack s) (rebuilding s) (squid_curtime s) (log s).
Definition set_late (s : store) l := mkStore (entries s) (table s) (key_counter s) (mem_lru s) (hot_obj_count s) l (rebuilding s) (squid_curtime s) (log s).
Definition emit (s : store) (ev : event) := mkStore (entries s) (table s) (key_counter s) (mem_lru s) (hot_obj_count s) (LateReleaseStack s) (rebuilding s) (squid_curtime s) (log s ++ [ev]).

Definition with_key (x : StoreEntry) k := mkStoreEntry k (mem_obj x) (timestamp x) (lastref x) (expires x) (lastmod x) (swap_file_sz x) (flags x) (swap_filen x) (swap_dirn x) (lock_count x) (in_memory x) (pending x) (swap_status x).
Definition with_mem (x : StoreEntry) m := mkStoreEntry (key x) m (timestamp x) (lastref x) (expires x) (lastmod x) (swap_file_sz x) (flags x) (swap_filen x) (swap_dirn x) (lock_count x) (in_memory x) (pending x) (swap_status x).
Definition with_times (x : StoreEntry) t r e l := mkStoreEntry (key x) (mem_obj x) t r e l (swap_file_sz x) (flags x) (swap_filen x) (swap_dirn x) (lock_count x) (in_memory x) (pending x) (swap_status x).
Definition with_flag (x : StoreEntry) (f : flag) (b : bool) := mkStoreEntry (key x) (mem_obj x) (timestamp x) (lastref x) (expires x) (lastmod x) (swap_file_sz x) (λ g, if decide (g = f) then b else flags x g) (swap_filen x) (swap_dirn x) (lock_count x) (in_memory x) (pending x) (swap_status x).
Definition with_swap (x : StoreEntry) sz fn dn st := mkStoreEntry (key x) (mem_obj x) (timestamp x) (lastref x) (expires x) (lastmod x) sz (flags x) fn dn (lock_count x) (in_memory x) (pending x) st.
Definition with_lock (x : StoreEntry) c := mkStoreEntry (key x) (mem_obj x) (timestamp x) (lastref x) (expires x) (lastmod x) (swap_file_sz x) (flags x) (swap_filen x) (swap_dirn x) c (in_memory x) (pending x) (swap_status x).
Definition with_memory (x : StoreEntry) b := mkStoreEntry (key x) (mem_obj x) (timestamp x) (lastref x) (expires x) (lastmod x) (swap_file_sz x) (flags x) (swap_filen x) (swap_dirn x) (lock_count x) b (pending x) (swap_status x).
Definition with_pending (x : StoreEntry) b := mkStoreEntry (key x) (mem_obj x) (timestamp x) (lastref x) (expires x) (lastmod x) (swap_file_sz x) (flags x) (swap_filen x) (swap_dirn x) (lock_count x) (in_memory x) b (swap_status x).

Definition mem_data (m : MemObject) d hi lo := mkMemObject (method m) (url m) (store_url m) d hi lo (object_sz m) (nclients m) (sio m) (swap_hdr_sz m) (queue_offset m) (request m) (abort_callback m) (vary_headers m) (ims_entry m) (old_entry m) (refresh_timestamp m) (reply m).
Definition mem_size (m : MemObject) sz ts := mkMemObject (method m) (url m) (store_url m) (has_data m) (inmem_hi m) (inmem_lo m) sz (nclients m) (sio m) (swap_hdr_sz m) (queue_offset m) (request m) (abort_callback m) (vary_headers m) (ims_entry m) (old_entry m) ts (reply m).
Definition mem_clients (m : MemObject) n := mkMemObject (method m) (url m) (store_url m) (has_data m) (inmem_hi m) (inmem_lo m) (object_sz m) n (sio m) (swap_hdr_sz m) (queue_offset m) (request m) (abort_callback m) (vary_headers m) (ims_entry m) (old_entry m) (refresh_timestamp m) (reply m).
Definition mem_sio (m : MemObject) b h q := mkMemObject (method m) (url m) (store_url m) (has_data m) (inmem_hi m) (inmem_lo m) (object_sz m) (nclients m) b h q (request m) (abort_callback m) (vary_headers m) (ims_entry m) (old_entry m) (refresh_timestamp m) (reply m).
Definition mem_request (m : MemObject) r cb := mkMemObject (method m) (url m) (store_url m) (has_data m) (inmem_hi m) (inmem_lo m) (object_sz m) (nclients m) (sio m) (swap_hdr_sz m) (queue_offset m) r cb (vary_headers m) (ims_entry m) (old_entry m) (refresh_timestamp m) (reply m).
Definition mem_refs (m : MemObject) i o := mkMemObject (method m) (url m) (store_url m) (has_data m) (inmem_hi m) (inmem_lo m) (object_sz m) (nclients m) (sio m) (swap_hdr_sz m) (queue_offset m) (request m) (abort_callback m) (vary_headers m) i o (refresh_timestamp m) (reply m).

Definition get (s : store) (e : Z) : option StoreEntry := entries s !! e.
Definition put (s : store) (e : Z) (x : StoreEntry) : store := set_entries s (<[e := x]> (entries s)).
Definition upd (s : store) (e : Z) (f : StoreEntry → StoreEntry) : option store := x ← get s e; Some (put s e (f x)).
Definition upd_mem (s : store) (e : Z) (f : MemObject → MemObject) : option store :=
  x ← get s e; m ← mem_obj x; Some (put s e (with_mem x (Some (f m)))).
Definition EBIT_SET (s : store) (e : Z) (f : flag) : option store := upd s e (λ x, with_flag x f true).
Definition EBIT_CLR (s : store) (e : Z) (f : flag) : option store := upd s e (λ x, with_flag x f false).

(** ** The hash table *)

Definition hash_lookup (s : store) (k : K) : option Z := snd <$> find (λ p, bool_decide (p.1 = k)) (table s).

Definition storeHashInsert (s : store) (e : Z) (k : K) : option store :=
  s ← upd s e (λ x, with_key x (Some k)); Some (set_table s ((k, e) :: table s)).

(** [hash_remove_link] asserts that the link is there. *)
Definition storeHashDelete (s : store) (e : Z) : option store :=
  x ← get s e; k ← key x;
  if bool_decide ((k, e) ∈ table s) then
    Some (set_table (put s e (with_key x None)) (filter (λ p, p.2 ≠ e) (table s)))
  else None.

Definition storeGet (s : store) (k : K) : option Z := hash_lookup s k.
Definition storeGetPublic (s : store) (uri : list Z) (m : Z) : option Z := storeGet s (storeKeyPublic uri m).

Definition storeLookupUrl (m : MemObject) : list Z := match store_url m with Some u => u | None => url m end.

(** ** References *)

(** [lru_referenced]. *)
Definition lru_touch (l : list Z) (e : Z) : list Z := if bool_decide (e ∈ l) then filter (λ d, d ≠ e) l ++ [e] else l.

Definition storeEntryReferenced (s : store) (e : Z) : option store :=
  x ← get s e;
  let s := if -1 <? swap_dirn x then emit s (RefObj e) else s in
  Some (match mem_obj x with Some _ => set_lru s (lru_touch (mem_lru s) e) (hot_obj_count s) | None => s end).

Definition storeEntryDereferenced (s : store) (e : Z) : option store :=
  x ← get s e;
  let s := if -1 <? swap_filen x then emit s (UnrefObj e) else s in
  Some (match mem_obj x with Some _ => set_lru s (lru_touch (mem_lru s) e) (hot_obj_count s) | None => s end).

(** [lru_add] asserts that the entry is not in the list. *)
Definition storeSetMemStatus (s : store) (e : Z) (new_status : bool) : option store :=
  x ← get s e;
  if eqb new_status (in_memory x) then Some s else
  m ← mem_obj x;
  s ← (if new_status then
         if negb (inmem_lo m =? 0) then None else
         if flags x ENTRY_SPECIAL then Some (set_lru s (mem_lru s) (i32 (hot_obj_count s + 1))) else
         if bool_decide (e ∈ mem_lru s) then None else Some (set_lru s (mem_lru s ++ [e]) (i32 (hot_obj_count s + 1)))
       else Some (if flags x ENTRY_SPECIAL then set_lru s (mem_lru s) (i32 (hot_obj_count s - 1))
                  else set_lru s (filter (λ d, d ≠ e) (mem_lru s)) (i32 (hot_obj_count s - 1))));
  upd s e (λ x, with_memory x new_status).

Definition u16 (x : Z) : Z := x mod 65536.

Definition storeLockObject (s : store) (e : Z) : option store :=
  x ← get s e;
  storeEntryReferenced
    (put s e (with_times (with_lock x (u16 (lock_count x + 1))) (timestamp x) (squid_curtime s) (expires x) (lastmod x))) e.

(** ** Keys *)

Definition getKeyCounter (s : store) : Z * store :=
  let c := i32 (key_counter s + 1) in let c := if c <? 0 then 1 else c in (c, set_counter s c).

(** [storeDirSwapLog]. *)
Definition storeDirSwapLog (s : store) (e : Z) (ev : event) : option store :=
  x ← get s e;
  if flags x KEY_PRIVATE || (swap_filen x <? 0) then None else
  Some (if flags x ENTRY_SPECIAL then s else emit s ev).

Definition storeSetPrivateKey (s : store) (e : Z) : option store :=
  x ← get s e;
  if bool_decide (is_Some (key x)) && flags x KEY_PRIVATE then Some s else
  s ← (if bool_decide (is_Some (key x)) then
         s ← (if -1 <? swap_filen x then storeDirSwapLog s e (SwapLogDel e) else Some s);
         storeHashDelete s e
       else Some s);
  let '(c, s) := getKeyCounter s in
  let newkey := match mem_obj x with
                | Some m => storeKeyPrivate (url m) (method m) c
                | None => storeKeyPrivate (bytes_of "JUNK") METHOD_NONE c
                end in
  match hash_lookup s newkey with
  | Some _ => None
  | None => s ← EBIT_SET s e KEY_PRIVATE; storeHashInsert s e newkey
  end.

Definition storeReleaseRequest (s : store) (e : Z) : option store :=
  x ← get s e;
  if flags x RELEASE_REQUEST then Some s else
  s ← EBIT_SET s e RELEASE_REQUEST;
  s ← EBIT_CLR s e ENTRY_CACHABLE;
  storeSetPrivateKey s e.

Definition storeExpireNow (s : store) (e : Z) : option store :=
  upd s e (λ x, with_times x (timestamp x) (lastref x) (squid_curtime s) (lastmod x)).

Definition storeEntryLocked (x : StoreEntry) : bool :=
  negb (lock_count x =? 0) || bool_decide (swap_status x = SWAPOUT_WRITING) || pending x ||
  (flags x ENTRY_SPECIAL && negb (flags x KEY_PRIVATE)).

Definition storeKeepInMemory (x : StoreEntry) : bool :=
  match mem_obj x with Some m => has_data m && (inmem_lo m =? 0) | None => false end.

Definition storePendingNClients (x : StoreEntry) : Z := match mem_obj x with Some m => nclients m | None => 0 end.

(** ** Releasing

    The functions that free a memory object unlock the entries it refers to,
    which may free them in turn: [unlock] is that call. *)

Section Release.
Context (unlock : store → Z → option store).

Definition unlock_opt (s : store) (o : option Z) : option store := match o with Some d => unlock s d | None => Some s end.

Definition destroy_MemObject (s : store) (e : Z) : option store :=
  x ← get s e; m ← mem_obj x;
  if sio m then None else
  s ← unlock_opt (put s e (with_mem x None)) (ims_entry m);
  unlock_opt s (old_entry m).

Definition destroy_StoreEntry (s : store) (e : Z) : option store :=
  x ← get s e;
  s ← match mem_obj x with Some _ => destroy_MemObject s e | None => Some s end;
  s ← storeHashDelete s e;
  Some (set_entries s (delete e (entries s))).

Definition storeRelease (s : store) (e : Z) : option store :=
  x ← get s e;
  if storeEntryLocked x then s ← storeExpireNow s e; storeReleaseRequest s e else
  if rebuilding s && (-1 <? swap_filen x) then
    s ← storeSetPrivateKey s e;
    s ← match mem_obj x with Some _ => s ← storeSetMemStatus s e false; destroy_MemObject s e | None => Some s end;
    s ← upd s e (λ x, with_lock x (u16 (lock_count x + 1)));
    s ← EBIT_SET s e RELEASE_REQUEST;
    Some (set_late s (e :: LateReleaseStack s))
  else
    let s := emit s (LogRelease e) in
    s ← (if -1 <? swap_filen x then
           let s := emit s (Unlink e) in
           let s := if bool_decide (swap_status x = SWAPOUT_DONE) && flags x ENTRY_VALIDATED
                    then emit s (SwapSize (swap_dirn x) (swap_file_sz x) (-1)) else s in
           if negb (flags x KEY_PRIVATE) then storeDirSwapLog s e (SwapLogDel e) else Some s
         else Some s);
    s ← storeSetMemStatus s e false;
    destroy_StoreEntry s e.

Definition storePurgeMem (s : store) (e : Z) : option store :=
  x ← get s e;
  match mem_obj x with
  | None => Some s
  | Some _ =>
      s ← storeSetMemStatus s e false;
      s ← destroy_MemObject s e;
      x ← get s e;
      if bool_decide (swap_status x = SWAPOUT_DONE) then Some s else storeRelease s e
  end.

Definition unlock_body (s : store) (e : Z) : option store :=
  x ← get s e;
  let x := with_lock x (u16 (lock_count x - 1)) in
  let s := put s e x in
  if negb (lock_count x =? 0) then Some s else
  s ← (if pending x then EBIT_SET s e RELEASE_REQUEST else Some s);
  x ← get s e;
  if negb (storePendingNClients x =? 0) then None else
  if flags x RELEASE_REQUEST then storeRelease s e else
  if storeKeepInMemory x then
    s ← storeEntryDereferenced s e;
    s ← storeSetMemStatus s e true;
    upd_mem s e (λ m, mem_request m None (abort_callback m))
  else
    s ← storePurgeMem s e;
    storeEntryDereferenced s e.
End Release.

(** [fuel] bounds how deep entries free one another. *)
Fixpoint storeUnlockObject (fuel : nat) (s : store) (e : Z) : option store :=
  match fuel with O => None | S fuel => unlock_body (storeUnlockObject fuel) s e end.

(** Every level of the recursion frees a memory object. *)
Definition depth (s : store) : nat := S (size (entries s)).
Definition unlock (s : store) (e : Z) : option store := storeUnlockObject (depth s) s e.
Definition release (s : store) (e : Z) : option store := storeRelease (storeUnlockObject (depth s)) s e.

(** ** Public keys *)

(** The request's variance before the key is made: [Some None] when the variance
    cannot be stored. *)
Definition settle_variance (s : store) (e : Z) (m : MemObject) (r : R) : option (option (store * R)) :=
  match vary_headers m with
  | None => Some (Some (s, r_free_vary r))
  | Some v =>
      match r_vary_headers r with
      | Some w =>
          if bool_decide (w = v) then Some (Some (s, r)) else
          s ← match storeGetPublic s (storeLookupUrl m) (method m) with
              | Some pe => release s pe
              | None => Some s
              end;
          Some (Some (s, r_free_vary r))
      | None => Some (match r_make_vary r with Some r => Some (s, r) | None => None end)
      end
  end.

(** The last part, with the new key at hand. *)
Definition take_key (s : store) (e : Z) (newkey : K) : option store :=
  s ← match hash_lookup s newkey with
      | Some e2 => s ← storeSetPrivateKey s e2; release s e2
      | None => Some s
      end;
  x ← get s e;
  s ← (if bool_decide (is_Some (key x)) then storeHashDelete s e else Some s);
  s ← EBIT_CLR s e KEY_PRIVATE;
  s ← storeHashInsert s e newkey;
  if -1 <? swap_filen x then storeDirSwapLog s e (SwapLogAdd e) else Some s.

Definition storeSetPublicKey (s : store) (e : Z) : option store :=
  x ← get s e;
  if bool_decide (is_Some (key x)) && negb (flags x KEY_PRIVATE) && negb (flags x KEY_EARLY_PUBLIC) then Some s else
  s ← (if bool_decide (is_Some (key x)) && negb (flags x KEY_PRIVATE)
       then s ← EBIT_CLR s e KEY_EARLY_PUBLIC; storeSetPrivateKey s e else Some s);
  x ← get s e; m ← mem_obj x;
  if flags x RELEASE_REQUEST then None else
  match request m with
  | None => take_key s e (storeKeyPublic (storeLookupUrl m) (method m))
  | Some r =>
      o ← settle_variance s e m r;
      match o with
      | None => storeReleaseRequest s e
      | Some (s, r) =>
          s ← upd_mem s e (λ m, mem_request m (Some r) (abort_callback m));
          let s := match vary_headers m with
                   | Some _ => if negb (flags x KEY_EARLY_PUBLIC) then emit s (AddVary e) else s
                   | None => s
                   end in
          take_key s e (storeKeyPublicByRequest r)
      end
  end.

(** [httpMakePublic] and [httpMakePrivate] of src/http.c. *)
Definition httpMakePublic (s : store) (e : Z) : option store :=
  x ← get s e; if flags x ENTRY_CACHABLE then storeSetPublicKey s e else Some s.
Definition httpMakePrivate (s : store) (e : Z) : option store := s ← storeExpireNow s e; storeReleaseRequest s e.

(** ** Creating *)

Definition no_flags : flag → bool := λ _, false.
Definition new_MemObject (u : list Z) : MemObject :=
  mkMemObject 0 u None false 0 0 (-1) 0 false 0 0 None false None None None 0 (mkReply 0 (-1) 0 0).
Definition new_StoreEntry (u : list Z) : StoreEntry :=
  mkStoreEntry None (Some (new_MemObject u)) (-1) (-1) (-1) (-1) 0 no_flags (-1) (-1) 0 false false SWAPOUT_NONE.

(** [video] says whether the keyword search finds the URL to be a video's, with
    what [ConvertCaseEX] needs of it; [e] is the address the pool hands out. *)
Definition storeCreateEntry (video : list Z → option bool) (neighbors_do_private_keys : bool) (s : store) (e : Z)
    (u : list Z) (hierarchical cachable : bool) (m : Z) : option store :=
  let x := new_StoreEntry u in
  let mem := new_MemObject u in
  let mem := mkMemObject m (url mem) (store_url mem) (has_data mem) (inmem_hi mem) (inmem_lo mem) (object_sz mem) (nclients mem)
    (sio mem) (swap_hdr_sz mem) (queue_offset mem) (request mem) (abort_callback mem) (vary_headers mem) (ims_entry mem)
    (old_entry mem) (refresh_timestamp mem) (reply mem) in
  let s := put s e (with_mem (with_lock x 1) (Some mem)) in
  v ← video u;
  s ← (if (v : bool) then storeSetPublicKey s e
       else if neighbors_do_private_keys || negb hierarchical then storeSetPrivateKey s e
       else storeSetPublicKey s e);
  s ← (if cachable then s ← EBIT_SET s e ENTRY_CACHABLE; EBIT_CLR s e RELEASE_REQUEST
       else s ← EBIT_CLR s e ENTRY_CACHABLE; storeReleaseRequest s e);
  s ← upd s e (λ x, with_pending x true);
  s ← storeSetMemStatus s e false;
  s ← upd s e (λ x, with_swap x (swap_file_sz x) (-1) (-1) SWAPOUT_NONE);
  s ← upd s e (λ x, with_times x (-1) (squid_curtime s) (expires x) (lastmod x));
  EBIT_SET s e ENTRY_VALIDATED.

(** [storeUfsDirAddDiskRestore] of src/fs/ufs/store_dir_ufs.c: an entry found on
    disk. *)
Definition storeUfsDirAddDiskRestore (s : store) (e : Z) (dirn : Z) (k : K) (file_number sz exp ts lref lmod : Z) (fl : flag → bool)
    : option store :=
  let x := mkStoreEntry None None ts lref exp lmod sz fl file_number dirn 0 false false SWAPOUT_DONE in
  let x := with_flag x ENTRY_CACHABLE true in
  let x := with_flag (with_flag (with_flag x RELEASE_REQUEST false) KEY_PRIVATE false) ENTRY_VALIDATED false in
  storeHashInsert (put s e x) e k.

Definition storeCreateMemObject (s : store) (e : Z) (u : list Z) : option store :=
  x ← get s e;
  match mem_obj x with Some _ => Some s | None => Some (put s e (with_mem x (Some (new_MemObject u)))) end.

(** What a refresh makes of the entries ([clientProcessExpired] of
    src/client_side.c): the new one refers to the old one, and the other way. *)
Definition set_old_entry (s : store) (e o : Z) : option store :=
  s ← upd_mem s e (λ m, mem_refs m (ims_entry m) (Some o)); storeLockObject s o.
Definition set_ims_entry (s : store) (e o : Z) : option store :=
  s ← upd_mem s e (λ m, mem_refs m (Some o) (old_entry m)); storeLockObject s o.

(** ** Transfers *)

Definition storeBuffer (s : store) (e : Z) : option store := EBIT_SET s e DELAY_SENDING.
Definition storeBufferFlush (s : store) (e : Z) : option store :=
  x ← get s e;
  if flags x DELAY_SENDING then s ← EBIT_CLR s e DELAY_SENDING; Some (emit s (Handlers e)) else Some s.


(** What [storeAppend] does to the entry; making room ([storeGetMemSpace]) and
    swapping out are steps of their own. *)
Definition storeAppend (s : store) (e : Z) (n : Z) : option store :=
  x ← get s e; m ← mem_obj x;
  if negb (0 <=? n) || negb (pending x) then None else
  let m := mem_size m (object_sz m) (squid_curtime s) in
  let m := if 0 <? n then mem_data m true (inmem_hi m + n) (inmem_lo m) else m in
  let s := put s e (with_mem x (Some m)) in
  Some (if flags x DELAY_SENDING then s else emit s (Handlers e)).

Definition httpReplyBodySize (m : Z) (r : HttpReply) : Z :=
  if ver_major r <? 1 then -1 else if m =? 4 then 0 else
  if status r =? 200 then content_length r else
  if status r =? 204 then 0 else if status r =? 304 then 0 else if status r <? 200 then 0 else content_length r.

Definition storeEntryValidLength (m : MemObject) : bool :=
  let clen := httpReplyBodySize (method m) (reply m) in
  if clen <? 0 then true else hdr_sz (reply m) + clen - object_sz m =? 0.

Definition storeComplete (s : store) (e : Z) : option store :=
  x ← get s e;
  if negb (pending x) then
    if flags x ENTRY_ABORTED then m ← mem_obj x; if nclients m =? 0 then Some s else None else None
  else
  m ← mem_obj x;
  let m := mem_size m (inmem_hi m) (refresh_timestamp m) in
  let s := put s e (with_pending (with_mem x (Some m)) false) in
  if in_memory x then None else
  s ← (if negb (storeEntryValidLength m) then s ← EBIT_SET s e ENTRY_BAD_LENGTH; storeReleaseRequest s e else Some s);
  s ← upd_mem s e (λ m, mem_size m (object_sz m) 0);
  s ← match old_entry m with
      | Some o => y ← get s o; match mem_obj y with Some _ => upd_mem s o (λ m, mem_size m (object_sz m) 0) | None => Some s end
      | None => Some s
      end;
  Some (emit s (Handlers e)).

(** Closing the file is asynchronous: [storeSwapOutFileClosed] comes later. *)
Definition storeSwapOutFileClose (s : store) (e : Z) : option store :=
  x ← get s e; m ← mem_obj x;
  if sio m then s ← upd_mem s e (λ m, mem_sio m false (swap_hdr_sz m) (queue_offset m)); Some (emit s (CloseSwap e)) else Some s.

Definition storeAbort (s : store) (e : Z) : option store :=
  x ← get s e; m ← mem_obj x;
  if negb (pending x) then None else
  s ← storeLockObject s e;
  s ← storeExpireNow s e;
  s ← storeReleaseRequest s e;
  s ← EBIT_SET s e ENTRY_ABORTED;
  s ← storeSetMemStatus s e false;
  s ← upd s e (λ x, with_pending x false);
  s ← upd_mem s e (λ m, mem_size m (inmem_hi m) (refresh_timestamp m));
  s ← (if abort_callback m then s ← upd_mem s e (λ m, mem_request m (request m) false); Some (emit s (AbortCallback e)) else Some s);
  s ← storeSwapOutFileClose (emit s (Handlers e)) e;
  unlock s e.

(** ** Swapping out *)

Record limits := mkLimits { maxObjectSize : Z; minObjectSize : Z; maxInMemObjSize : Z }.

Definition storeCheckTooSmall (cf : limits) (x : StoreEntry) (m : MemObject) : bool :=
  if flags x ENTRY_SPECIAL then false else
  if negb (pending x) && (object_sz m <? minObjectSize cf) then true else
  if (-1 <? content_length (reply m)) && (content_length (reply m) <? minObjectSize cf) then true else false.

(** [busy]: too many files are open, or too few descriptors are left. *)
Definition storeCheckCachable (cf : limits) (busy : bool) (s : store) (e : Z) : option (bool * store) :=
  x ← get s e;
  let no := s ← storeReleaseRequest s e; s ← EBIT_CLR s e ENTRY_CACHABLE; Some (false, s) in
  if negb (pending x) && flags x ENTRY_BAD_LENGTH then no else
  if flags x RELEASE_REQUEST then no else
  if negb (flags x ENTRY_CACHABLE) then no else
  if flags x ENTRY_NEGCACHED then Some (false, s) else
  m ← mem_obj x;
  if ((0 <? content_length (reply m)) && (maxObjectSize cf <? content_length (reply m))) || (maxObjectSize cf <? inmem_hi m) then no else
  if storeCheckTooSmall cf x m then no else
  if flags x KEY_PRIVATE then no else
  if negb (bool_decide (swap_status x = SWAPOUT_NONE)) then Some (true, s) else
  if busy then no else Some (true, s).

(** [file]: the file [storeCreate] opened, with the numbers it has by then. *)
Definition storeSwapOutStart (s : store) (e : Z) (swap_hdr : Z) (file : option (Z * Z)) : option store :=
  x ← get s e; m ← mem_obj x;
  let m := mem_sio m (sio m) swap_hdr (queue_offset m) in
  match file with
  | None => Some (put s e (with_swap (with_mem x (Some (mem_sio m false swap_hdr (queue_offset m)))) (swap_file_sz x) (swap_filen x) (swap_dirn x) SWAPOUT_NONE))
  | Some (fn, dn) =>
      s ← storeLockObject (put s e (with_swap (with_mem x (Some (mem_sio m true swap_hdr (queue_offset m)))) (swap_file_sz x) (swap_filen x) (swap_dirn x) SWAPOUT_WRITING)) e;
      upd s e (λ x, with_swap x (swap_file_sz x) fn dn (swap_status x))
  end.

(** What [storeSwapOut] does once an entry may be swapped out and no file is open
    for it. *)
Definition swap_out_begin (cf : limits) (busy : bool) (s : store) (e : Z) (swap_hdr : Z) (file : option (Z * Z)) : option store :=
  x ← get s e; m ← mem_obj x;
  if sio m || negb (inmem_lo m =? 0) then None else
  '(ok, s) ← storeCheckCachable cf busy s e;
  if (ok : bool) then storeSwapOutStart s e swap_hdr file else Some s.

(** One turn of its loop, for a page of [len] bytes. *)
Definition swap_out_write (s : store) (e : Z) (len : Z) : option store :=
  x ← get s e; m ← mem_obj x;
  if negb (sio m) || negb (0 <? len) then None else upd_mem s e (λ m, mem_sio m (sio m) (swap_hdr_sz m) (queue_offset m + len)).

(** Its end: of a complete entry everything has been written. *)
Definition swap_out_finish (s : store) (e : Z) : option store :=
  x ← get s e; m ← mem_obj x;
  if negb (sio m) then Some s else
  if pending x then Some s else
  if inmem_hi m =? queue_offset m then storeSwapOutFileClose s e else None.

Definition storeSwapOutAble (cf : limits) (x : StoreEntry) (m : MemObject) : bool :=
  if maxObjectSize cf <? inmem_hi m then false else
  if negb (flags x ENTRY_CACHABLE) then false else
  if sio m then true else
  if negb (queue_offset m =? 0) && (queue_offset m =? inmem_hi m) then true else
  if 0 <? inmem_lo m then false else true.

(** [lowest]: the lowest offset a client still reads; [offset]: how much is in the
    open file; [free_upto]: what freeing the pages below an offset leaves. *)
Definition storeSwapOutMaintainMemObject (cf : limits) (lowest offset : Z) (free_upto : Z → bool * Z) (s : store) (e : Z)
    : option store :=
  x ← get s e;
  if flags x ENTRY_SPECIAL then Some s else
  if in_memory x then Some s else
  m ← mem_obj x;
  let able := storeSwapOutAble cf x m in
  s ← (if negb able then s ← storeReleaseRequest s e; if sio m then storeSwapOutFileClose s e else Some s else Some s);
  x ← get s e; m ← mem_obj x;
  let lo := if negb able then lowest
            else if maxInMemObjSize cf <? inmem_hi m then lowest
            else if maxInMemObjSize cf <? content_length (reply m) then lowest
            else inmem_lo m in
  let on_disk := if negb (sio m) then queue_offset m else if offset <=? swap_hdr_sz m then 0 else offset - swap_hdr_sz m in
  let lo := if able && negb (lo =? 0) && (on_disk - 1 <? lo) then on_disk - 1 else lo in
  let lo := if lo <? inmem_lo m then inmem_lo m else lo in
  if inmem_lo m =? lo then Some s else
  let '(d, lo) := free_upto lo in
  Some (put s e (with_mem x (Some (mem_data m d (inmem_hi m) lo)))).

(** [err]: the file could not be written. [trim] is the call of
    [storeSwapOutMaintainMemObject]. *)
Definition storeSwapOutFileClosed (cf : limits) (trim : store → Z → option store) (err : bool) (s : store) (e : Z) : option store :=
  x ← get s e;
  if negb (bool_decide (swap_status x = SWAPOUT_WRITING)) then None else
  s ← (if err then
         let s := if 0 <? swap_filen x then emit s (Unlink e) else s in
         storeReleaseRequest (put s e (with_swap x (swap_file_sz x) (-1) (-1) SWAPOUT_NONE)) e
       else
         m ← mem_obj x;
         let sz := object_sz m + swap_hdr_sz m in
         let s := emit (put s e (with_swap x sz (swap_filen x) (swap_dirn x) SWAPOUT_DONE)) (SwapSize (swap_dirn x) sz 1) in
         '(ok, s) ← storeCheckCachable cf false s e;
         if (ok : bool) then storeDirSwapLog s e (SwapLogAdd e) else Some s);
  s ← upd_mem s e (λ m, mem_sio m false (swap_hdr_sz m) (queue_offset m));
  s ← trim s e;
  unlock s e.

(** ** Clients *)

Definition storeClientRegister (s : store) (e : Z) : option store :=
  s ← upd_mem s e (λ m, mem_clients m (i32 (nclients m + 1))); storeLockObject s e.

Record quick_abort := mkQuickAbort { qa_min : Z; qa_pct : Z; qa_max : Z }.

(** Whether a transfer no client waits for any more is to be stopped. *)
Definition CheckQuickAbort2 (qa : quick_abort) (x : StoreEntry) (m : MemObject) : bool :=
  let uncachable := match request m with Some r => negb (r_cachable r) | None => false end in
  let expectlen := httpReplyBodySize (method m) (reply m) + hdr_sz (reply m) in
  let curlen := inmem_hi m in
  let minlen := Z.shiftl (qa_min qa) 10 in
  if uncachable then true else
  if expectlen =? curlen then false else
  if flags x KEY_PRIVATE then true else
  if minlen <? 0 then false else
  if expectlen <? curlen then true else
  if expectlen - curlen <? minlen then false else
  if Z.shiftl (qa_max qa) 10 <? expectlen - curlen then true else
  if expectlen <? 100 then false else
  if qa_pct qa <? Z.quot curlen (Z.quot expectlen 100) then false else true.

Definition CheckQuickAbort (qa : quick_abort) (s : store) (e : Z) : option store :=
  x ← get s e;
  if 0 <? storePendingNClients x then Some s else
  if negb (pending x) then Some s else
  if flags x ENTRY_SPECIAL then Some s else
  m ← mem_obj x;
  if CheckQuickAbort2 qa x m then storeAbort s e else Some s.

(** Swapping out, the client's own file and its callback are steps of their own;
    [trim] is the call of [storeSwapOutMaintainMemObject]. *)
Definition storeClientUnregister (qa : quick_abort) (trim : store → Z → option store) (s : store) (e : Z) : option store :=
  s ← upd_mem s e (λ m, mem_clients m (i32 (nclients m - 1)));
  s ← trim s e;
  x ← get s e; m ← mem_obj x;
  s ← (if nclients m =? 0 then CheckQuickAbort qa s e else Some s);
  unlock s e.

(** One turn of the loop of [storeLateRelease]. *)
Definition late_release_one (s : store) : option store :=
  match LateReleaseStack s with
  | e :: rest => unlock (set_late s rest) e
  | [] => Some s
  end.
Fixpoint late_release_loop (n : nat) (s : store) : option store :=
  match n with O => Some s | S n => s ← late_release_one s; late_release_loop n s end.
Definition storeLateRelease (s : store) : option store := if rebuilding s then Some s else late_release_loop 10 s.

(** One turn of the loop of [storeGetMemSpace], for the entry the policy's walker
    takes out of its list. *)
Definition purge_one (s : store) (e : Z) : option store :=
  storePurgeMem (storeUnlockObject (depth s)) (set_lru s (filter (λ d, d ≠ e) (mem_lru s)) (hot_obj_count s)) e.

(** ** Times *)

(** [age]: the reply's Age field; [date], [exp], [last_modified]: its times. *)
Definition storeTimestampsSet (now date age exp last_modified : Z) (x : StoreEntry) : StoreEntry :=
  let served := if (date <? 0) || (now <? date) then now else date in
  let served := if (now - served <? age) && (age <? now) then now - age else served in
  with_times x served (lastref x) (if (0 <? exp) && (-1 <? date) then served + (exp - date) else exp) last_modified.

Definition expiresMoreThan (now exp when : Z) : bool := if exp <? 0 then true else now + when <? exp.

(** 1: may be sent; 0: may not; -1: still in transfer. *)
Definition storeEntryValidToSend (now : Z) (x : StoreEntry) : Z :=
  if flags x RELEASE_REQUEST then 0 else
  if flags x ENTRY_NEGCACHED && (expires x <=? now) then 0 else
  if flags x ENTRY_ABORTED then 0 else
  if pending x then
    match mem_obj x with
    | None => 0
    | Some m => if refresh_timestamp m + 30 <? now then 0 else -1
    end
  else 1.
End Store.
End Store.
