(* ===== verification/StoreProof.v ===== *)
(** * The store's bookkeeping (src/store.c)

    The invariant of the store over the locks that are held: the table holds each
    entry once, under its own key, and no key twice; the lock count of an entry
    is the number of its holders; what is not locked and not kept is gone. *)
From S2P Require Import Prelude CString Store.
Import Store.
#[local] Set Default Proof Using "Type*".

(** ** Sums over the entries *)

Section Sums.
Context {A : Type}.
Definition msum (f : A → Z) (m : gmap Z A) : Z := map_fold (λ _ x a, f x + a) 0 m.

Lemma msum_empty f : msum f ∅ = 0.
Proof. unfold msum. by rewrite map_fold_empty. Qed.
Lemma msum_insert f m e x : m !! e = None → msum f (<[e := x]> m) = f x + msum f m.
Proof. intros He. unfold msum. apply (map_fold_insert_L (λ _ x a, f x + a)); [intros; lia|done]. Qed.
Lemma msum_delete f m e x : m !! e = Some x → msum f m = f x + msum f (delete e m).
Proof. intros He. rewrite <- (insert_id m e x) at 1 by done. rewrite <- insert_delete_eq. apply msum_insert, lookup_delete_eq. Qed.
Lemma msum_put f m e x y : m !! e = Some x → msum f (<[e := y]> m) = msum f m - f x + f y.
Proof.
  intros He. rewrite (msum_delete f m e x He), <- insert_delete_eq, msum_insert by apply lookup_delete_eq. lia.
Qed.
Lemma msum_nonneg f m : (∀ x, 0 <= f x) → 0 <= msum f m.
Proof.
  intros Hf. induction m as [|e x m He IH] using map_ind; [by rewrite msum_empty|]. rewrite msum_insert by done.
  specialize (Hf x). lia.
Qed.
Lemma msum_ge f m e x : (∀ x, 0 <= f x) → m !! e = Some x → f x <= msum f m.
Proof. intros Hf He. rewrite (msum_delete f m e x He). pose proof (msum_nonneg f (delete e m) Hf). lia. Qed.
Lemma msum_size f m : (∀ x, f x <= 1) → msum f m <= Z.of_nat (size m).
Proof.
  intros Hf. induction m as [|e x m He IH] using map_ind; [by rewrite msum_empty|]. rewrite msum_insert, map_size_insert_None by done.
  specialize (Hf x). lia.
Qed.
Lemma msum_ext f g m : (∀ x, f x = g x) → msum f m = msum g m.
Proof.
  intros Hf. induction m as [|e x m He IH] using map_ind; [by rewrite !msum_empty|]. rewrite !msum_insert by done.
  by rewrite Hf, IH.
Qed.
End Sums.

Section Proofs.
Context {K R : Type} `{EqDecision K} `{!StoreKeys K R} `{!StoreKeysOk K R}.
Notation store := (@store K R).
Notation StoreEntry := (@StoreEntry K R).
Notation MemObject := (@MemObject R).

(** ** The invariant *)

Definition opt_count (o : option Z) (d : Z) : Z := if decide (o = Some d) then 1 else 0.
(** How often an entry's memory object refers to [d]. *)
Definition refs_of (d : Z) (x : StoreEntry) : Z :=
  match mem_obj x with Some m => opt_count (ims_entry m) d + opt_count (old_entry m) d | None => 0 end.
Definition refs (s : store) (d : Z) : Z := msum (refs_of d) (entries s).
Definition late (s : store) (d : Z) : Z := Z.of_nat (length (filter (λ e, e = d) (LateReleaseStack s))).
Definition writing (x : StoreEntry) : Z := if decide (swap_status x = SWAPOUT_WRITING) then 1 else 0.

(** Memory objects, and the keys that may still have to be made. *)
Definition has_mem (x : StoreEntry) : Z := match mem_obj x with Some _ => 1 | None => 0 end.
Definition is_public (x : StoreEntry) : Z := if flags x KEY_PRIVATE then 0 else 1.
Definition mems (s : store) : Z := msum has_mem (entries s).
Definition keys_needed (s : store) : Z := key_counter s + msum is_public (entries s).

Definition private_key (k : K) (i : Z) : Prop := ∃ u m, k = storeKeyPrivate u m i.

(** What holds of an entry by itself, but for some of it while its file is being
    closed ([c]). *)
Record entry_ok (c : Prop) (x : StoreEntry) : Prop := {
  eo_memory : in_memory x = true → is_Some (mem_obj x);
  eo_pending : pending x = true → is_Some (mem_obj x);
  eo_transfer : pending x = true → in_memory x = false;
  eo_writing : swap_status x = SWAPOUT_WRITING → is_Some (mem_obj x) ∧ 0 <= swap_filen x;
  eo_sio : ¬ c → ∀ m, mem_obj x = Some m → sio m = true → swap_status x = SWAPOUT_WRITING;
  eo_clients : 0 <= storePendingNClients x;
  eo_hi : ∀ m, mem_obj x = Some m → 0 <= inmem_hi m ∧ 0 <= inmem_lo m;
  eo_data : ¬ c → ∀ m, mem_obj x = Some m → flags x RELEASE_REQUEST = false → swap_status x = SWAPOUT_NONE →
    inmem_lo m = 0 ∧ queue_offset m = 0 ∧ (0 < inmem_hi m → has_data m = true) }.

(** A complete entry that is neither on disk nor to be released is in memory. *)
Definition stored (x : StoreEntry) : Prop :=
  pending x = false → flags x RELEASE_REQUEST = false → swap_status x = SWAPOUT_NONE →
  ∃ m, mem_obj x = Some m ∧ 0 < inmem_hi m.

(** [new]: the entry that is being made and may have no key yet; [closing]: the one
    whose swap file is being closed; [X]: the entries that are being freed. *)
Context (new closing : option Z).
Definition moving (e : Z) : Prop := closing = Some e ∨ new = Some e.

Record Inv (X : list Z) (held : Z → Z) (s : store) : Prop := {
  iv_key e x k : get s e = Some x → key x = Some k → (k, e) ∈ table s ∧
    if flags x KEY_PRIVATE then ∃ i, private_key k i ∧ 0 < i <= key_counter s else ∀ i, ¬ private_key k i;
  iv_keyed e x : get s e = Some x → is_Some (key x) ∨ new = Some e ∧ flags x KEY_PRIVATE = false;
  iv_new e : new = Some e → 1 <= held e ∧ refs s e = 0;
  iv_table k e : (k, e) ∈ table s → ∃ x, get s e = Some x ∧ key x = Some k;
  iv_keys : NoDup (table s).*1;
  iv_links : NoDup (table s).*2;
  iv_counter : 0 <= key_counter s;
  iv_lru e : e ∈ mem_lru s → ∃ x, get s e = Some x ∧ in_memory x = true ∧ flags x ENTRY_SPECIAL = false;
  iv_lock e x : get s e = Some x → lock_count x = held e + storePendingNClients x + refs s e + late s e + writing x ∧ lock_count x < 65536;
  iv_entry e x : get s e = Some x → entry_ok (closing = Some e) x;
  iv_stored e x : get s e = Some x → e ∉ X → ¬ moving e → stored x;
  iv_held e : 0 <= held e;
  iv_dead e : get s e = None → held e = 0 ∧ refs s e = 0 ∧ late s e = 0;
  iv_freeing e : e ∈ X → held e = 0 ∧ refs s e = 0 }.

Lemma opt_count_nonneg o d : 0 <= opt_count o d.
Proof. unfold opt_count. destruct (decide _); lia. Qed.
Lemma refs_of_nonneg d x : 0 <= refs_of d x.
Proof.
  unfold refs_of. destruct (mem_obj x) as [m|]; [|lia]. pose proof (opt_count_nonneg (ims_entry m) d).
  pose proof (opt_count_nonneg (old_entry m) d). lia.
Qed.
Lemma refs_nonneg s d : 0 <= refs s d.
Proof. apply msum_nonneg, refs_of_nonneg. Qed.
Lemma writing_nonneg x : 0 <= writing x.
Proof. unfold writing. destruct (decide _); lia. Qed.
Lemma has_mem_nonneg x : 0 <= has_mem x.
Proof. unfold has_mem. destruct (mem_obj x); lia. Qed.
Lemma is_public_nonneg x : 0 <= is_public x.
Proof. unfold is_public. destruct (flags x KEY_PRIVATE); lia. Qed.

Lemma get_put (s : store) e x d : get (put s e x) d = if decide (d = e) then Some x else get s d.
Proof. unfold get, put. cbn. destruct (decide (d = e)) as [->|]; [by rewrite lookup_insert_eq|by rewrite lookup_insert_ne]. Qed.
Lemma get_put_eq (s : store) e x : get (put s e x) e = Some x.
Proof. by rewrite get_put, decide_True. Qed.
Lemma get_put_ne (s : store) e x d : d ≠ e → get (put s e x) d = get s d.
Proof. intros. by rewrite get_put, decide_False. Qed.

(** Only these parts of the store matter. *)
Lemma inv_same X held s s' : entries s' = entries s → table s' = table s → key_counter s' = key_counter s →
  mem_lru s' = mem_lru s → LateReleaseStack s' = LateReleaseStack s → Inv X held s → Inv X held s'.
Proof.
  destruct s, s'. cbn. intros -> -> -> -> -> []. split; done.
Qed.
Lemma inv_emit X held s ev : Inv X held s → Inv X held (emit s ev).
Proof. by apply inv_same. Qed.
Lemma inv_weaken X Y held s : (∀ e, e ∈ Y → held e = 0 ∧ refs s e = 0) → (∀ e, e ∈ X → e ∈ Y) → Inv X held s → Inv Y held s.
Proof. intros HY HXY []. split; try done. intros e x He Hn. eapply iv_stored0; [done|]. intros Hx. by apply Hn, HXY. Qed.

(** Changing an entry that keeps its key and its references. *)
Lemma inv_put X held held' s e x x' : Inv X held s → get s e = Some x →
  key x' = key x → flags x' KEY_PRIVATE = flags x KEY_PRIVATE → (∀ d, refs_of d x' = refs_of d x) →
  (∀ d, d ≠ e → held' d = held d) → 0 <= held' e → (e ∈ X → held' e = 0) →
  lock_count x' = lock_count x + (held' e - held e) + (storePendingNClients x' - storePendingNClients x) + (writing x' - writing x) → lock_count x' < 65536 →
  (e ∈ mem_lru s → in_memory x' = true ∧ flags x' ENTRY_SPECIAL = false) → entry_ok (closing = Some e) x' →
  (e ∉ X → ¬ moving e → stored x') →
  (new = Some e → 1 <= held' e) → Inv X held' (put s e x').
Proof.
  intros [] He Hk Hp Hr Hh Hh0 HX Hl Hl' Hlru Hok Hst Hnew.
  assert (Hrefs : ∀ d, refs (put s e x') d = refs s d).
  { intros d. unfold refs, put. cbn. rewrite (msum_put _ _ e x) by done. rewrite Hr. lia. }
  assert (Hlate : ∀ d, late (put s e x') d = late s d) by done.
  split; try done.
  - intros d y k. rewrite get_put. destruct (decide (d = e)) as [->|]; [|by apply iv_key0]. intros [= <-]. rewrite Hk, Hp. by apply iv_key0.
  - intros d y. rewrite get_put. destruct (decide (d = e)) as [->|]; [|by apply iv_keyed0]. intros [= <-]. rewrite Hk, Hp. by apply iv_keyed0.
  - intros d Hd. rewrite Hrefs. destruct (iv_new0 d Hd). destruct (decide (d = e)) as [->|]; [by split; [apply Hnew|]|]. by rewrite Hh.
  - intros k d Hd. destruct (iv_table0 k d Hd) as (y & Hy & Hky). rewrite get_put. destruct (decide (d = e)) as [->|]; [|by exists y].
    exists x'. split; [done|]. rewrite Hk. congruence.
  - intros d Hd. destruct (iv_lru0 d Hd) as (y & Hy & Hiy). rewrite get_put. destruct (decide (d = e)) as [->|]; [|by exists y].
    exists x'. split; [done|]. by apply Hlru.
  - intros d y. rewrite get_put, Hrefs, Hlate. destruct (decide (d = e)) as [->|Hd].
    + intros [= <-]. destruct (iv_lock0 e x He). lia.
    + rewrite Hh by done. apply iv_lock0.
  - intros d y. rewrite get_put. destruct (decide (d = e)) as [->|Hd]; [by intros [= <-]|]. apply iv_entry0.
  - intros d y. rewrite get_put. destruct (decide (d = e)) as [->|Hd]; [intros [= <-]; exact Hst|]. apply iv_stored0.
  - intros d. destruct (decide (d = e)) as [->|]; [done|]. by rewrite Hh.
  - intros d. rewrite get_put, Hrefs, Hlate. destruct (decide (d = e)) as [->|]; [done|]. rewrite Hh by done. apply iv_dead0.
  - intros d Hd. rewrite Hrefs. destruct (iv_freeing0 d Hd). destruct (decide (d = e)) as [->|]; [by split; [apply HX|]|]. by rewrite Hh.
Qed.

(** ** Keys *)

Definition rekeyed (x : StoreEntry) (b : bool) (k : K) : StoreEntry := with_key (with_flag x KEY_PRIVATE b) (Some k).

(** The store after an entry was given a new key. *)
Record rekey (s : store) (e : Z) (x : StoreEntry) (b : bool) (k : K) (c : Z) (s' : store) : Prop := {
  rk_entries : entries s' = <[e := rekeyed x b k]> (entries s);
  rk_table : table s' = (k, e) :: filter (λ p, p.2 ≠ e) (table s);
  rk_counter : key_counter s' = c;
  rk_lru : mem_lru s' = mem_lru s;
  rk_late : LateReleaseStack s' = LateReleaseStack s;
  rk_rebuilding : rebuilding s' = rebuilding s }.

Lemma rekey_get s e x b k c s' d : rekey s e x b k c s' → get s' d = if decide (d = e) then Some (rekeyed x b k) else get s d.
Proof.
  intros []. unfold get. rewrite rk_entries0. destruct (decide (d = e)) as [->|]; [by rewrite lookup_insert_eq|by rewrite lookup_insert_ne].
Qed.
Lemma rekey_refs s e x b k c s' d : get s e = Some x → rekey s e x b k c s' → refs s' d = refs s d.
Proof. intros He []. unfold refs. rewrite rk_entries0, (msum_put _ _ e x) by done. change (refs_of d (rekeyed x b k)) with (refs_of d x). lia. Qed.
Lemma rekey_mems s e x b k c s' : get s e = Some x → rekey s e x b k c s' → mems s' = mems s.
Proof. intros He []. unfold mems. rewrite rk_entries0, (msum_put _ _ e x) by done. change (has_mem (rekeyed x b k)) with (has_mem x). lia. Qed.

Lemma flag_eq (x : StoreEntry) f b : flags (with_flag x f b) f = b.
Proof. cbn. by rewrite decide_True. Qed.
Lemma flag_ne (x : StoreEntry) f g b : g ≠ f → flags (with_flag x f b) g = flags x g.
Proof. intros. cbn. by rewrite decide_False. Qed.

Lemma entry_ok_flag c x f b : f ≠ RELEASE_REQUEST → entry_ok c x → entry_ok c (with_flag x f b).
Proof. intros Hf []. split; try done. intros Hc m Hm. cbn. rewrite decide_False by done. by apply eo_data0. Qed.
Lemma stored_flag x f b : f ≠ RELEASE_REQUEST → stored x → stored (with_flag x f b).
Proof. intros Hf Hs H1 H2. cbn in *. rewrite decide_False in H2 by done. by apply Hs. Qed.

Lemma NoDup_links (t : list (K * Z)) e : NoDup t.*2 → NoDup (filter (λ p, p.2 ≠ e) t).*2.
Proof.
  intros Ht. induction t as [|[k d] t IH]; [done|]. cbn in Ht. apply NoDup_cons in Ht as [Hd Ht]. rewrite filter_cons.
  destruct (decide _); [|by apply IH]. cbn. apply NoDup_cons. split; [|by apply IH]. intros H. apply Hd.
  apply list_elem_of_fmap in H as ([k' d'] & -> & [_ H]%list_elem_of_filter). apply list_elem_of_fmap. by exists (k', d').
Qed.
Lemma NoDup_keys (t : list (K * Z)) e : NoDup t.*1 → NoDup (filter (λ p, p.2 ≠ e) t).*1.
Proof.
  intros Ht. induction t as [|[k d] t IH]; [done|]. cbn in Ht. apply NoDup_cons in Ht as [Hd Ht]. rewrite filter_cons.
  destruct (decide _); [|by apply IH]. cbn. apply NoDup_cons. split; [|by apply IH]. intros H. apply Hd.
  apply list_elem_of_fmap in H as ([k' d'] & -> & [_ H]%list_elem_of_filter). apply list_elem_of_fmap. by exists (k', d').
Qed.

Lemma inv_rekey X held s e x b k c s' : Inv X held s → get s e = Some x → rekey s e x b k c s' → key_counter s <= c →
  (∀ d, d ≠ e → (k, d) ∉ table s) →
  (if b then ∃ i, private_key k i ∧ 0 < i <= c else ∀ i, ¬ private_key k i) → Inv X held s'.
Proof.
  intros I He Hrk Hc Hk Hb. pose proof (λ d, rekey_get _ _ _ _ _ _ _ d Hrk) as G. pose proof (λ d, rekey_refs _ _ _ _ _ _ _ d He Hrk) as Hr.
  assert (Hl : ∀ d, late s' d = late s d) by (intros d; unfold late; by rewrite (rk_late _ _ _ _ _ _ _ Hrk)).
  destruct Hrk as [_ Et Ec Elru _ _]. destruct I. split.
  - intros d y k'. rewrite G, Et, Ec. destruct (decide (d = e)) as [->|Hd].
    + intros [= <-] [= <-]. split; [left|]. cbn. exact Hb.
    + intros Hy Hk'. destruct (iv_key0 d y k' Hy Hk') as (H2 & H3). split.
      * right. by apply list_elem_of_filter.
      * destruct (flags y KEY_PRIVATE); [|done]. destruct H3 as (i & Hi & ?). exists i. split; [done|lia].
  - intros d y. rewrite G. destruct (decide (d = e)) as [->|]; [intros [= <-]; by left|apply iv_keyed0].
  - intros d. rewrite Hr. apply iv_new0.
  - intros k' d. rewrite Et, G. intros [[= -> ->]|[Hne Hin]%list_elem_of_filter]%elem_of_cons.
    + rewrite decide_True by done. by eexists.
    + rewrite decide_False by done. by apply iv_table0.
  - rewrite Et. cbn. apply NoDup_cons. split; [|by apply NoDup_keys]. intros H. apply list_elem_of_fmap in H as ([k' d] & -> & [Hne Hin]%list_elem_of_filter).
    by apply (Hk d Hne).
  - rewrite Et. cbn. apply NoDup_cons. split; [|by apply NoDup_links]. intros H. apply list_elem_of_fmap in H as ([k' d] & -> & [Hne Hin]%list_elem_of_filter).
    done.
  - rewrite Ec. lia.
  - intros d. rewrite Elru, G. intros Hd. destruct (iv_lru0 d Hd) as (y & Hy & Hi & Hsp). destruct (decide (d = e)) as [->|]; [|by exists y].
    assert (y = x) as -> by congruence. eexists. split; [done|]. by split.
  - intros d y. rewrite G, Hr, Hl. destruct (decide (d = e)) as [->|]; [intros [= <-]; exact (iv_lock0 e x He)|apply iv_lock0].
  - intros d y. rewrite G. destruct (decide (d = e)) as [->|]; [|apply iv_entry0]. intros [= <-].
    pose proof (entry_ok_flag _ x KEY_PRIVATE b ltac:(done) (iv_entry0 e x He)) as []. by split.
  - intros d y. rewrite G. destruct (decide (d = e)) as [->|]; [|apply iv_stored0]. intros [= <-] Hn Hcl.
    exact (stored_flag x KEY_PRIVATE b ltac:(done) (iv_stored0 e x He Hn Hcl)).
  - done.
  - intros d. rewrite G, Hr, Hl. destruct (decide (d = e)) as [->|]; [done|]. apply iv_dead0.
  - intros d. rewrite Hr. apply iv_freeing0.
Qed.

(** What an operation on [e] alone leaves as it was. *)
Record only (e : Z) (s s' : store) : Prop := {
  on_others d : d ≠ e → get s' d = get s d;
  on_late : LateReleaseStack s' = LateReleaseStack s;
  on_rebuilding : rebuilding s' = rebuilding s;
  on_refs d : refs s' d = refs s d;
  on_mems : mems s' = mems s;
  on_keys : keys_needed s' <= keys_needed s;
  on_links k d : (k, d) ∈ table s' → (∀ i, ¬ private_key k i) → (k, d) ∈ table s }.

Lemma only_refl e s : only e s s.
Proof. by split. Qed.
Lemma only_trans e s1 s2 s3 : only e s1 s2 → only e s2 s3 → only e s1 s3.
Proof.
  intros [A1 B1 C1 D1 E1 F1 L1] [A2 B2 C2 D2 E2 F2 L2]. split; [|congruence|congruence| |congruence|lia|auto].
  - intros d Hd. by rewrite A2, A1.
  - intros d. by rewrite D2, D1.
Qed.

(** The same entry but for its key, its times and the flags in [F]. *)
Record alike (F : list flag) (x y : StoreEntry) : Prop := {
  al_mem : mem_obj y = mem_obj x;
  al_status : swap_status y = swap_status x;
  al_filen : swap_filen y = swap_filen x;
  al_lock : lock_count y = lock_count x;
  al_memory : in_memory y = in_memory x;
  al_pending : pending y = pending x;
  al_flags g : g ∉ F → flags y g = flags x g }.

Lemma alike_refl F x : alike F x x.
Proof. by split. Qed.
Lemma alike_trans F G x y z : alike F x y → alike G y z → alike (F ++ G) x z.
Proof.
  intros [] []. split; try congruence. intros g Hg. rewrite elem_of_app in Hg. rewrite al_flags1, al_flags0; tauto.
Qed.
Lemma alike_weaken F G x y : (∀ g, g ∈ F → g ∈ G) → alike F x y → alike G x y.
Proof. intros HFG []. split; try done. intros g Hg. apply al_flags0. intros Hg'. by apply Hg, HFG. Qed.
Lemma alike_flag x f b : alike [f] x (with_flag x f b).
Proof. split; try done. intros g Hg. apply flag_ne. intros ->. apply Hg. left. Qed.

Definition INT_MAX : Z := 2147483647.

Lemma counter_next (s : store) : 0 <= key_counter s < INT_MAX → getKeyCounter s = (key_counter s + 1, set_counter s (key_counter s + 1)).
Proof.
  unfold getKeyCounter, INT_MAX. intros Hc. rewrite i32_small by lia. by destruct (Z.ltb_spec (key_counter s + 1) 0); [lia|].
Qed.

Lemma lookup_fresh (s : store) k : (∀ d, (k, d) ∉ table s) → hash_lookup s k = None.
Proof.
  intros Hk. unfold hash_lookup. destruct (find _ (table s)) as [[k' d]|] eqn:F; [|done]. exfalso.
  apply find_some in F as [Hin E]. apply bool_decide_eq_true in E. cbn in E. subst k'. apply (Hk d). by apply list_elem_of_In.
Qed.
Lemma lookup_found X held s k e : Inv X held s → hash_lookup s k = Some e ↔ (k, e) ∈ table s.
Proof.
  intros I. unfold hash_lookup. split.
  - destruct (find _ (table s)) as [[k' d]|] eqn:F; [|done]. intros [= <-]. apply find_some in F as [Hin E].
    apply bool_decide_eq_true in E. cbn in E. subst k'. by apply list_elem_of_In.
  - intros Hin. destruct (find _ (table s)) as [[k' d]|] eqn:F.
    + apply find_some in F as [Hin' E]. apply bool_decide_eq_true in E. cbn in E |- *. subst k'. f_equal.
      apply list_elem_of_In in Hin'. clear -I Hin Hin'. pose proof (iv_keys _ _ _ I) as Hn. induction (table s) as [|[k0 d0] t IH]; [by apply not_elem_of_nil in Hin|].
      cbn in Hn. apply NoDup_cons in Hn as [Hk Hn]. rewrite elem_of_cons in Hin, Hin'. destruct Hin as [Hin|Hin], Hin' as [Hin'|Hin']; [congruence|..|by apply IH].
      * exfalso. injection Hin as -> ->. apply Hk, list_elem_of_fmap. by exists (k0, d).
      * exfalso. injection Hin' as -> ->. apply Hk, list_elem_of_fmap. by exists (k0, e).
    + exfalso. apply list_elem_of_In in Hin. pose proof (find_none _ _ F _ Hin) as H'. cbn in H'. by apply bool_decide_eq_false in H'.
Qed.

Lemma hash_delete_ok X held s e x k : Inv X held s → get s e = Some x → key x = Some k →
  storeHashDelete s e = Some (set_table (put s e (with_key x None)) (filter (λ p, p.2 ≠ e) (table s))).
Proof.
  intros I He Hk. unfold storeHashDelete. rewrite He. cbn [mbind option_bind]. rewrite Hk. cbn [mbind option_bind].
  rewrite bool_decide_eq_true_2; [done|]. by apply (iv_key _ _ _ I e x).
Qed.

Lemma unlinked (t : list (K * Z)) e : (∀ p, p ∈ t → p.2 ≠ e) → filter (λ p, p.2 ≠ e) t = t.
Proof.
  intros Ht. induction t as [|p t IH]; [done|]. rewrite filter_cons, decide_True by (apply Ht; left). f_equal. apply IH. intros q Hq. apply Ht. by right.
Qed.

(** Taking an entry out of the table, if it is there. *)
Lemma store_unlink_ok X held s e x : Inv X held s → get s e = Some x →
  (if bool_decide (is_Some (key x)) then storeHashDelete s e else Some s) =
    Some (set_table (put s e (with_key x None)) (filter (λ p, p.2 ≠ e) (table s))).
Proof.
  intros I He. destruct (key x) as [k|] eqn:Hk; [by rewrite bool_decide_eq_true_2; [apply (hash_delete_ok X held s e x k)|]|].
  rewrite bool_decide_eq_false_2 by (by intros [? ?]). f_equal.
  assert (with_key x None = x) as -> by (destruct x; cbn in Hk; by rewrite Hk).
  unfold put, set_table, set_entries. cbn. rewrite insert_id by done.
  assert (filter (λ p, p.2 ≠ e) (table s) = table s) as ->; [|by destruct s].
  apply unlinked. intros [k d] Hin. cbn. intros ->. destruct (iv_table _ _ _ I k e Hin) as (y & Hy & Hky). congruence.
Qed.

Lemma swap_log_ok (s : store) e x ev : get s e = Some x → flags x KEY_PRIVATE = false → 0 <= swap_filen x →
  ∃ l, storeDirSwapLog s e ev = Some (mkStore (entries s) (table s) (key_counter s) (mem_lru s) (hot_obj_count s) (LateReleaseStack s) (rebuilding s) (squid_curtime s) l).
Proof.
  intros He Hp Hf. unfold storeDirSwapLog. rewrite He. cbn [mbind option_bind]. rewrite Hp. destruct (Z.ltb_spec (swap_filen x) 0); [lia|].
  cbn [orb]. destruct (flags x ENTRY_SPECIAL); [exists (log s); by destruct s|by exists (log s ++ [ev])].
Qed.

Lemma public_pos (s : store) e x : get s e = Some x → flags x KEY_PRIVATE = false → key_counter s < keys_needed s.
Proof.
  intros He Hp. unfold keys_needed. pose proof (msum_ge is_public (entries s) e x is_public_nonneg He) as H.
  unfold is_public in H at 1. rewrite Hp in H. lia.
Qed.

Lemma set_private_ok X held s e x : Inv X held s → get s e = Some x → keys_needed s <= INT_MAX →
  ∃ s' y, storeSetPrivateKey s e = Some s' ∧ Inv X held s' ∧ only e s s' ∧ mem_lru s' = mem_lru s ∧
    get s' e = Some y ∧ alike [KEY_PRIVATE] x y ∧ flags y KEY_PRIVATE = true.
Proof.
  intros I He Hn. unfold storeSetPrivateKey. rewrite He. cbn [mbind option_bind]. destruct (flags x KEY_PRIVATE) eqn:Ep.
  { destruct (iv_keyed _ _ _ I e x He) as [Hs|[_ ?]]; [|congruence]. rewrite bool_decide_eq_true_2 by done. exists s, x. by split_and!. }
  rewrite andb_false_r.
  assert (Hc : key_counter s < INT_MAX) by (pose proof (public_pos s e x He Ep); lia). pose proof (iv_counter _ _ _ I) as Hc0.
  assert (∃ l, (if bool_decide (is_Some (key x)) then
        s ← (if -1 <? swap_filen x then storeDirSwapLog s e (SwapLogDel e) else Some s); storeHashDelete s e else Some s) =
    Some (set_table (put (mkStore (entries s) (table s) (key_counter s) (mem_lru s) (hot_obj_count s) (LateReleaseStack s) (rebuilding s) (squid_curtime s) l)
      e (with_key x None)) (filter (λ p, p.2 ≠ e) (table s)))) as (l & ->).
  { assert (∃ l, (if -1 <? swap_filen x then storeDirSwapLog s e (SwapLogDel e) else Some s) =
      Some (mkStore (entries s) (table s) (key_counter s) (mem_lru s) (hot_obj_count s) (LateReleaseStack s) (rebuilding s) (squid_curtime s) l)) as (l & El).
    { destruct (Z.ltb_spec (-1) (swap_filen x)); [apply swap_log_ok with x; try done; lia|]. exists (log s). by destruct s. }
    set (s1 := mkStore _ _ _ _ _ _ _ _ l) in El. assert (I1 : Inv X held s1) by (by apply (inv_same _ _ s)). destruct (bool_decide (is_Some (key x))) eqn:Hk.
    - rewrite El. cbn [mbind option_bind]. exists l. pose proof (store_unlink_ok X held s1 e x I1 He) as Hu. by rewrite Hk in Hu.
    - exists (log s). pose proof (store_unlink_ok X held s e x I He) as Hu. rewrite Hk in Hu. by destruct s. }
  cbn [mbind option_bind]. set (s1 := mkStore _ _ _ _ _ _ _ _ l).
  rewrite counter_next by (cbn; unfold INT_MAX in *; lia). cbn [key_counter set_table put set_entries s1].
  set (newkey := match mem_obj x with Some m => _ | None => _ end). set (s2 := set_counter _ _).
  assert (Hpk : private_key newkey (key_counter s + 1)) by (unfold newkey; destruct (mem_obj x); by eexists _, _).
  assert (Hfresh : ∀ d, (newkey, d) ∉ table s).
  { intros d Hd. destruct (iv_table _ _ _ I newkey d Hd) as (y & Hy & Hky). destruct (iv_key _ _ _ I d y _ Hy Hky) as (_ & Hp').
    destruct (flags y KEY_PRIVATE); [|by apply (Hp' (key_counter s + 1))].
    destruct Hp' as (i & (u & m & E) & Hi). destruct Hpk as (u' & m' & E'). rewrite E in E'. apply private_inj in E'. lia. }
  rewrite lookup_fresh by (intros d; cbn; rewrite list_elem_of_filter; intros [_ Hd]; by apply (Hfresh d)).
  unfold EBIT_SET, upd, storeHashInsert, upd, get, put. cbn. rewrite !lookup_insert_eq. cbn. rewrite !lookup_insert_eq. cbn.
  set (s3 := set_table _ _).
  assert (Hrk : rekey s e x true newkey (key_counter s + 1) s3).
  { split; try done. cbn. rewrite !insert_insert_eq. done. }
  exists s3, (rekeyed x true newkey). split; [done|]. split; [eapply (inv_rekey X held s e x true newkey); try done; [lia|exists (key_counter s + 1); split; [done|lia]]|].
  split_and!.
  - split.
    + intros d Hd. by rewrite (rekey_get _ _ _ _ _ _ _ d Hrk), decide_False.
    + done.
    + done.
    + intros d. by apply (rekey_refs _ _ _ _ _ _ _ d He Hrk).
    + by apply (rekey_mems _ _ _ _ _ _ _ He Hrk).
    + unfold keys_needed. rewrite (rk_counter _ _ _ _ _ _ _ Hrk), (rk_entries _ _ _ _ _ _ _ Hrk), (msum_put _ _ e x) by done.
      change (is_public (rekeyed x true newkey)) with 0. assert (is_public x = 1) by (unfold is_public; by rewrite Ep). lia.
    + intros k d. rewrite (rk_table _ _ _ _ _ _ _ Hrk). intros [[= -> ->]|[_ ?]%list_elem_of_filter]%elem_of_cons Hp; [by destruct (Hp _ Hpk)|done].
  - done.
  - change (get s3 e = Some (rekeyed x true newkey)). by rewrite (rekey_get _ _ _ _ _ _ _ e Hrk), decide_True.
  - split; try done. intros g Hg. cbn. rewrite decide_False; [done|]. intros ->. apply Hg. left.
  - done.
Qed.

(** ** Changes that keep the key *)

Lemma only_put s e x x' : get s e = Some x → (∀ d, refs_of d x' = refs_of d x) → has_mem x' = has_mem x →
  flags x' KEY_PRIVATE = flags x KEY_PRIVATE → only e s (put s e x').
Proof.
  intros He Hr Hm Hp. split; try done.
  - intros d Hd. by apply get_put_ne.
  - intros d. unfold refs. cbn. rewrite (msum_put _ _ e x) by done. rewrite Hr. lia.
  - unfold mems. cbn. rewrite (msum_put _ _ e x) by done. lia.
  - unfold keys_needed. cbn. rewrite (msum_put _ _ e x) by done. unfold is_public at 2 3. rewrite Hp. lia.
Qed.

Lemma inv_strengthen X held s e x : Inv (e :: X) held s → get s e = Some x → stored x → Inv X held s.
Proof.
  intros [] He Hs. split; try done.
  - intros d y Hd Hn. destruct (decide (d = e)) as [->|]; [by assert (y = x) as -> by congruence|]. apply (iv_stored0 d y Hd). intros [|]%elem_of_cons; done.
  - intros d Hd. apply iv_freeing0. by right.
Qed.

(** The same entry with other flags and times. *)
Record restyled (x x' : StoreEntry) : Prop := {
  rs_key : key x' = key x;
  rs_mem : mem_obj x' = mem_obj x;
  rs_status : swap_status x' = swap_status x;
  rs_filen : swap_filen x' = swap_filen x;
  rs_lock : lock_count x' = lock_count x;
  rs_memory : in_memory x' = in_memory x;
  rs_pending : pending x' = pending x;
  rs_private : flags x' KEY_PRIVATE = flags x KEY_PRIVATE;
  rs_special : flags x' ENTRY_SPECIAL = flags x ENTRY_SPECIAL;
  rs_release : flags x RELEASE_REQUEST = true → flags x' RELEASE_REQUEST = true }.

Lemma clients_mem (x x' : StoreEntry) : mem_obj x' = mem_obj x → storePendingNClients x' = storePendingNClients x.
Proof. intros E. unfold storePendingNClients. by rewrite E. Qed.

Lemma entry_ok_restyled c x x' : restyled x x' → entry_ok c x → entry_ok c x'.
Proof.
  intros [] []. split; rewrite ?rs_mem0, ?rs_status0, ?rs_filen0, ?rs_memory0, ?rs_pending0; try done; [by rewrite (clients_mem x)|].
  intros Hc m Hm Hr. apply eo_data0; [done|done|]. destruct (flags x RELEASE_REQUEST); [|done]. by rewrite rs_release0 in Hr.
Qed.
Lemma stored_restyled x x' : restyled x x' → stored x → stored x'.
Proof.
  intros [] Hs H1 H2 H3. rewrite rs_mem0. rewrite rs_pending0 in H1. rewrite rs_status0 in H3. apply Hs; try done.
  destruct (flags x RELEASE_REQUEST); [|done]. by rewrite rs_release0 in H2.
Qed.
Lemma refs_of_mem (x x' : StoreEntry) d : mem_obj x' = mem_obj x → refs_of d x' = refs_of d x.
Proof. intros E. unfold refs_of. by rewrite E. Qed.
Lemma has_mem_mem (x x' : StoreEntry) : mem_obj x' = mem_obj x → has_mem x' = has_mem x.
Proof. intros E. unfold has_mem. by rewrite E. Qed.
Lemma writing_eq (x x' : StoreEntry) : swap_status x' = swap_status x → writing x' = writing x.
Proof. intros E. unfold writing. by rewrite E. Qed.

Lemma restyle_ok X held s e x x' : Inv X held s → get s e = Some x → restyled x x' →
  Inv X held (put s e x') ∧ only e s (put s e x').
Proof.
  intros I He Hr. pose proof Hr as []. split.
  - eapply (inv_put X held held s e x x'); try done.
    + intros d. by apply refs_of_mem.
    + apply (iv_held _ _ _ I).
    + intros HX. apply (iv_freeing _ _ _ I e HX).
    + rewrite (writing_eq x x'), (clients_mem x x') by done. lia.
    + rewrite rs_lock0. apply (iv_lock _ _ _ I e x He).
    + intros Hl. destruct (iv_lru _ _ _ I e Hl) as (y & Hy & Hi). assert (y = x) as -> by congruence. by rewrite rs_memory0, rs_special0.
    + eapply entry_ok_restyled; [done|]. by apply (iv_entry _ _ _ I e).
    + intros Hn Hcl. eapply stored_restyled; [done|]. by apply (iv_stored _ _ _ I e).
    + intros Hn. by apply (iv_new _ _ _ I e).
  - apply only_put with x; try done; [intros d; by apply refs_of_mem|by apply has_mem_mem].
Qed.

Lemma restyled_flag x f b : f ≠ KEY_PRIVATE → f ≠ ENTRY_SPECIAL → (f = RELEASE_REQUEST → b = true) → restyled x (with_flag x f b).
Proof.
  intros Hf Hs Hr. split; try done; cbn; [by rewrite decide_False|by rewrite decide_False|]. destruct (decide (RELEASE_REQUEST = f)) as [<-|]; [by intros _; apply Hr|done].
Qed.

Lemma upd_eq (s : store) e x f : get s e = Some x → upd s e f = Some (put s e (f x)).
Proof. intros He. unfold upd. by rewrite He. Qed.

Lemma set_flag_ok X held s e x f b : Inv X held s → get s e = Some x → f ≠ KEY_PRIVATE → f ≠ ENTRY_SPECIAL →
  (f = RELEASE_REQUEST → b = true) →
  ∃ s', upd s e (λ x, with_flag x f b) = Some s' ∧ Inv X held s' ∧ only e s s' ∧ mem_lru s' = mem_lru s ∧
    get s' e = Some (with_flag x f b).
Proof.
  intros I He Hf Hs Hr. rewrite (upd_eq s e x) by done. eexists; split; [done|].
  destruct (restyle_ok X held s e x (with_flag x f b) I He (restyled_flag x f b Hf Hs Hr)) as [I' O]. split_and!; try done. apply get_put_eq.
Qed.

Lemma release_request_ok X held s e x : Inv X held s → get s e = Some x → keys_needed s <= INT_MAX →
  ∃ s' y, storeReleaseRequest s e = Some s' ∧ Inv X held s' ∧ only e s s' ∧ mem_lru s' = mem_lru s ∧ get s' e = Some y ∧
    alike [RELEASE_REQUEST; ENTRY_CACHABLE; KEY_PRIVATE] x y ∧ flags y RELEASE_REQUEST = true ∧ (flags x KEY_PRIVATE = true ∨ flags x RELEASE_REQUEST = false → flags y KEY_PRIVATE = true).
Proof.
  intros I He Hn. unfold storeReleaseRequest. rewrite He. cbn [mbind option_bind]. destruct (flags x RELEASE_REQUEST) eqn:Er.
  { exists s, x. split_and!; try done. by intros [|]. }
  destruct (set_flag_ok X held s e x RELEASE_REQUEST true I He) as (s1 & E1 & I1 & O1 & L1 & G1); [done..|].
  unfold EBIT_SET, EBIT_CLR. rewrite E1. cbn [mbind option_bind].
  destruct (set_flag_ok X held s1 e _ ENTRY_CACHABLE false I1 G1) as (s2 & E2 & I2 & O2 & L2 & G2); [done..|]. rewrite E2. cbn [mbind option_bind].
  pose proof (only_trans _ _ _ _ O1 O2) as O12. destruct (set_private_ok X held s2 e _ I2 G2) as (s3 & y & E3 & I3 & O3 & L3 & G3 & A3 & P3).
  { pose proof (on_keys _ _ _ O12). lia. }
  exists s3, y. split; [done|]. split_and!; try done; [by eapply only_trans|congruence| |].
  - exact (alike_trans _ _ _ _ _ (alike_trans _ _ _ _ _ (alike_flag _ _ _) (alike_flag _ _ _)) A3).
  - rewrite (al_flags _ _ _ A3); [done|]. by intros ?%list_elem_of_singleton.
Qed.

Lemma expire_ok X held s e x : Inv X held s → get s e = Some x →
  ∃ s' y, storeExpireNow s e = Some s' ∧ Inv X held s' ∧ only e s s' ∧ mem_lru s' = mem_lru s ∧ get s' e = Some y ∧ alike [] x y ∧
    flags y = flags x.
Proof.
  intros I He. unfold storeExpireNow. rewrite (upd_eq s e x) by done. set (y := with_times _ _ _ _ _).
  destruct (restyle_ok X held s e x y I He) as [I' O]; [by split|]. eexists _, y. split; [done|]. split_and!; try done. apply get_put_eq.
Qed.

(** ** The memory policy *)

Lemma inv_set_lru X held s l h : Inv X held s → (∀ e, e ∈ l → ∃ x, get s e = Some x ∧ in_memory x = true ∧ flags x ENTRY_SPECIAL = false) →
  Inv X held (set_lru s l h).
Proof. intros [] Hl. by split. Qed.

Lemma elem_touch l e d : d ∈ lru_touch l e → d ∈ l.
Proof.
  unfold lru_touch. case_bool_decide as He; [|done]. intros [[_ H]%list_elem_of_filter | ->%list_elem_of_singleton]%elem_of_app; done.
Qed.

Lemma only_lru e s l h : only e s (set_lru s l h).
Proof. by split. Qed.
Lemma only_emit e s ev : only e s (emit s ev).
Proof. by split. Qed.

Lemma touch_ok X held s e : Inv X held s → Inv X held (set_lru s (lru_touch (mem_lru s) e) (hot_obj_count s)).
Proof. intros I. apply inv_set_lru; [done|]. intros d Hd. apply (iv_lru _ _ _ I). by eapply elem_touch. Qed.

Lemma dereferenced_ok X held s e x : Inv X held s → get s e = Some x →
  ∃ s', storeEntryDereferenced s e = Some s' ∧ Inv X held s' ∧ only e s s' ∧ (∀ d, get s' d = get s d) ∧
    (∀ d, d ∈ mem_lru s' → d ∈ mem_lru s).
Proof.
  intros I He. unfold storeEntryDereferenced. rewrite He. cbn [mbind option_bind]. eexists; split; [done|].
  set (s1 := if -1 <? swap_filen x then emit s (UnrefObj e) else s).
  assert (I1 : Inv X held s1) by (unfold s1; destruct (-1 <? swap_filen x); [by apply inv_emit|done]).
  assert (H1 : only e s s1 ∧ (∀ d, get s1 d = get s d) ∧ mem_lru s1 = mem_lru s) by (unfold s1; by destruct (-1 <? swap_filen x)).
  destruct H1 as (O1 & G1 & L1). destruct (mem_obj x); [|split_and!; try done; intros d; by rewrite L1].
  split_and!; [by apply touch_ok|by eapply only_trans; [|apply only_lru]|done|]. cbn. rewrite L1. intros d. apply elem_touch.
Qed.

Lemma referenced_ok X held s e x : Inv X held s → get s e = Some x →
  ∃ s', storeEntryReferenced s e = Some s' ∧ Inv X held s' ∧ only e s s' ∧ (∀ d, get s' d = get s d).
Proof.
  intros I He. unfold storeEntryReferenced. rewrite He. cbn [mbind option_bind]. eexists; split; [done|].
  set (s1 := if -1 <? swap_dirn x then emit s (RefObj e) else s).
  assert (I1 : Inv X held s1) by (unfold s1; destruct (-1 <? swap_dirn x); [by apply inv_emit|done]).
  assert (H1 : only e s s1 ∧ (∀ d, get s1 d = get s d)) by (unfold s1; by destruct (-1 <? swap_dirn x)).
  destruct H1 as (O1 & G1). destruct (mem_obj x); [|done].
  split_and!; [by apply touch_ok|by eapply only_trans; [|apply only_lru]|done].
Qed.

Lemma with_memory_same (x : StoreEntry) b : in_memory x = b → with_memory x b = x.
Proof. intros <-. by destruct x. Qed.

(** Replacing the memory status once the list is right. *)
Lemma memory_put X held s e x b : Inv X held s → get s e = Some x → (b = true → is_Some (mem_obj x) ∧ pending x = false) → (b = false → e ∉ mem_lru s) →
  Inv X held (put s e (with_memory x b)) ∧ only e s (put s e (with_memory x b)).
Proof.
  intros I He Hb Hl. split; [|by apply only_put with x]. apply (inv_put X held held s e x); try done.
  - apply (iv_held _ _ _ I).
  - intros HX. apply (iv_freeing _ _ _ I e HX).
  - change (writing (with_memory x b)) with (writing x). change (storePendingNClients (with_memory x b)) with (storePendingNClients x). cbn. lia.
  - apply (iv_lock _ _ _ I e x He).
  - intros Hin. destruct b; [|by destruct (Hl eq_refl)]. cbn. split; [done|]. destruct (iv_lru _ _ _ I e Hin) as (y & Hy & _ & Hs). congruence.
  - destruct (iv_entry _ _ _ I e x He). split; try done; cbn; [by intros ?; apply Hb|]. intros Hp. destruct b; [|done]. destruct (Hb eq_refl). congruence.
  - intros Hn Hcl. exact (iv_stored _ _ _ I e x He Hn Hcl).
  - intros Hn. by apply (iv_new _ _ _ I e).
Qed.

Lemma leave_memory_ok X held s e x : Inv X held s → get s e = Some x →
  ∃ s', storeSetMemStatus s e false = Some s' ∧ Inv X held s' ∧ only e s s' ∧ get s' e = Some (with_memory x false).
Proof.
  intros I He. unfold storeSetMemStatus. rewrite He. cbn [mbind option_bind]. destruct (in_memory x) eqn:Em; cbn [eqb].
  2: { exists s. rewrite with_memory_same by done. by split_and!. }
  destruct (eo_memory _ _ (iv_entry _ _ _ I e x He) Em) as [m ->]. cbn [mbind option_bind]. set (s1 := if flags x ENTRY_SPECIAL then _ else _).
  assert (I1 : Inv X held s1 ∧ only e s s1 ∧ get s1 e = Some x ∧ e ∉ mem_lru s1).
  { unfold s1. destruct (flags x ENTRY_SPECIAL) eqn:Es; (split; [apply inv_set_lru; [done|]|split_and!; try done]).
    - intros d. apply (iv_lru _ _ _ I).
    - cbn. intros Hin. destruct (iv_lru _ _ _ I e Hin) as (y & Hy & _ & Hs). congruence.
    - intros d [_ Hd]%list_elem_of_filter. by apply (iv_lru _ _ _ I).
    - cbn. rewrite list_elem_of_filter. tauto. }
  destruct I1 as (I1 & O1 & G1 & L1). rewrite (upd_eq s1 e x) by done. destruct (memory_put X held s1 e x false I1 G1) as [I2 O2]; [done|done|].
  eexists; split; [done|]. split_and!; [done|by eapply only_trans|apply get_put_eq].
Qed.

Lemma enter_memory_ok X held s e x m : Inv X held s → get s e = Some x → mem_obj x = Some m → pending x = false → inmem_lo m = 0 →
  ∃ s', storeSetMemStatus s e true = Some s' ∧ Inv X held s' ∧ only e s s' ∧ get s' e = Some (with_memory x true).
Proof.
  intros I He Hm Hpd Hlo. unfold storeSetMemStatus. rewrite He. cbn [mbind option_bind]. destruct (in_memory x) eqn:Em; cbn [eqb].
  { exists s. rewrite with_memory_same by done. by split_and!. }
  rewrite Hm. cbn [mbind option_bind]. rewrite Hlo. cbn [Z.eqb negb].
  assert (Hnl : e ∉ mem_lru s) by (intros Hin; destruct (iv_lru _ _ _ I e Hin) as (y & Hy & Hi & _); congruence).
  destruct (flags x ENTRY_SPECIAL) eqn:Es.
  - cbn [mbind option_bind]. set (s1 := set_lru _ _ _). assert (I1 : Inv X held s1) by (apply inv_set_lru; [done|]; intros d; apply (iv_lru _ _ _ I)).
    rewrite (upd_eq s1 e x) by done. destruct (memory_put X held s1 e x true I1 He) as [I2 O2]; [by rewrite Hm|done|].
    eexists; split; [done|]. split_and!; [done|by eapply only_trans; [apply only_lru|]|apply get_put_eq].
  - rewrite bool_decide_eq_false_2 by done. cbn [mbind option_bind]. set (s1 := set_lru _ _ _).
    rewrite (upd_eq s1 e x) by done. destruct (memory_put X held s e x true I He) as [I2 O2]; [by rewrite Hm|done|].
    eexists; split; [done|].
    assert (E : put s1 e (with_memory x true) = set_lru (put s e (with_memory x true)) (mem_lru s ++ [e]) (i32 (hot_obj_count s + 1))) by done.
    rewrite E. split_and!; [|by eapply only_trans; [|apply only_lru]|apply get_put_eq]. apply inv_set_lru; [done|].
    intros d [Hd| ->%list_elem_of_singleton]%elem_of_app; [by apply (iv_lru _ _ _ I2)|]. exists (with_memory x true). split; [apply get_put_eq|done].
Qed.

(** ** Freeing *)

Definition give (held : Z → Z) (e n : Z) : Z → Z := λ d, held d + if decide (d = e) then n else 0.
Definition give_opt (held : Z → Z) (o : option Z) (n : Z) : Z → Z := λ d, held d + n * opt_count o d.

Lemma give_eq held e n : give held e n e = held e + n.
Proof. unfold give. by rewrite decide_True. Qed.
Lemma give_ne held e n d : d ≠ e → give held e n d = held d.
Proof. intros. unfold give. rewrite decide_False by done. lia. Qed.

Lemma inv_held X held held' s : (∀ d, held' d = held d) → Inv X held s → Inv X held' s.
Proof.
  intros E []. split; try done; intros; rewrite ?E; eauto.
Qed.

(** What an operation that frees the entries [E] may do to the others: those nobody
    refers to are left alone, of those that stay held only the count changes. *)
Record calm (E : list Z) (held held' : Z → Z) (s s' : store) : Prop := {
  cm_mems : mems s' <= mems s;
  cm_keys : keys_needed s' <= keys_needed s;
  cm_refs d : refs s' d <= refs s d;
  cm_rebuilding : rebuilding s' = rebuilding s;
  cm_links k d : (k, d) ∈ table s' → (∀ i, ¬ private_key k i) → (k, d) ∈ table s;
  cm_alone d : d ∉ E → held d = 0 → refs s d = 0 → get s' d = get s d;
  cm_held d x : d ∉ E → 1 <= held' d → get s d = Some x → ∃ c, get s' d = Some (with_lock x c) }.

Lemma with_lock_id (x : StoreEntry) : with_lock x (lock_count x) = x.
Proof. by destruct x. Qed.

Lemma calm_only e held held' s s' : only e s s' → calm [e] held held' s s'.
Proof.
  intros []. split; try done.
  - by rewrite on_mems0.
  - intros d. by rewrite on_refs0.
  - intros d Hd _ _. apply on_others0. intros ->. apply Hd. left.
  - intros d x Hd _ Hx. exists (lock_count x). rewrite with_lock_id, on_others0; [done|]. intros ->. apply Hd. left.
Qed.

Lemma calm_more E F held held' s s' : (∀ d, d ∈ E → d ∈ F) → calm E held held' s s' → calm F held held' s s'.
Proof. intros HF []. split; try done; [intros d Hd; apply cm_alone0|intros d x Hd; apply cm_held0]; intros ?; by apply Hd, HF. Qed.

Lemma calm_trans E h1 h2 h3 h4 s1 s2 s3 : (∀ d, d ∉ E → h1 d = 0 → refs s1 d = 0 → h3 d = 0) → (∀ d, d ∉ E → 1 <= h4 d → 1 <= h2 d) →
  calm E h1 h2 s1 s2 → calm E h3 h4 s2 s3 → calm E h1 h4 s1 s3.
Proof.
  intros H13 H42 [] []. split; try lia.
  - intros d. specialize (cm_refs0 d). specialize (cm_refs1 d). lia.
  - congruence.
  - auto.
  - intros d Hd Hh Hr. rewrite cm_alone1; [by apply cm_alone0|done|by apply H13|]. pose proof (refs_nonneg s2 d). specialize (cm_refs0 d). lia.
  - intros d x Hd Hh Hx. destruct (cm_held0 d x Hd (H42 d Hd Hh) Hx) as [c Hc]. destruct (cm_held1 d _ Hd Hh Hc) as [c' Hc'].
    exists c'. by rewrite Hc'.
Qed.
Lemma calm_then E h s1 s2 s3 : calm E h h s1 s2 → calm E h h s2 s3 → calm E h h s1 s3.
Proof. by apply calm_trans. Qed.
Lemma only_calm e h s1 s2 s3 : only e s1 s2 → calm [e] h h s2 s3 → calm [e] h h s1 s3.
Proof. intros O. by apply calm_then, calm_only. Qed.

(** The call to release a lock, good for stores with fewer than [n] memory objects. *)
Definition unlocks (n : Z) (U : store → Z → option store) : Prop :=
  ∀ X held s e, Inv X held s → new ≠ Some e → 1 <= held e → mems s < n → keys_needed s <= INT_MAX →
  ∃ s', U s e = Some s' ∧ Inv X (give held e (-1)) s' ∧ calm [] held (give held e (-1)) s s'.

Lemma unlock_opt_ok n U X held s o : unlocks n U → Inv X held s → (∀ d, o = Some d → new ≠ Some d ∧ 1 <= held d) → mems s < n → keys_needed s <= INT_MAX →
  ∃ s', unlock_opt U s o = Some s' ∧ Inv X (give_opt held o (-1)) s' ∧ calm [] held (give_opt held o (-1)) s s'.
Proof.
  intros HU I Ho Hn Hk. destruct o as [d|]; cbn.
  - destruct (HU X held s d I (proj1 (Ho d eq_refl)) (proj2 (Ho d eq_refl)) Hn Hk) as (s' & -> & I' & C). exists s'. split; [done|].
    assert (Eq : ∀ f, give_opt held (Some d) (-1) f = give held d (-1) f).
    { intros f. unfold give_opt, give, opt_count. destruct (decide (f = d)) as [->|]; [by rewrite decide_True; [lia|]|]. rewrite decide_False; [lia|congruence]. }
    split; [by apply (inv_held X (give held d (-1)))|]. destruct C. split; try done. intros f x Hf. rewrite Eq. by apply cm_held0.
  - exists s. split; [done|]. assert (Eq : ∀ f, give_opt held None (-1) f = held f) by (intros f; unfold give_opt, opt_count; rewrite decide_False by done; lia).
    split; [by apply (inv_held X held)|]. split; try done. intros f x _ _ Hx. exists (lock_count x). by rewrite with_lock_id.
Qed.

(** Nothing holds an entry whose count is zero. *)
Lemma lock_zero X held s e x : Inv X held s → get s e = Some x → lock_count x = 0 →
  held e = 0 ∧ refs s e = 0 ∧ late s e = 0 ∧ storePendingNClients x = 0 ∧ swap_status x ≠ SWAPOUT_WRITING.
Proof.
  intros I He Hl. destruct (iv_lock _ _ _ I e x He) as [E _]. pose proof (iv_held _ _ _ I e). pose proof (refs_nonneg s e).
  pose proof (writing_nonneg x). pose proof (eo_clients _ _ (iv_entry _ _ _ I e x He)). assert (0 <= late s e) by (unfold late; lia). split_and!; try lia.
  intros Hw. unfold writing in *. rewrite Hw, decide_True in * by done. lia.
Qed.

(** Taking the memory object out: its references become locks that are owed. *)
Lemma inv_free_mem X held s e x m : Inv X held s → get s e = Some x → mem_obj x = Some m → pending x = false → in_memory x = false → lock_count x = 0 →
  Inv (e :: X) (give_opt (give_opt held (ims_entry m) 1) (old_entry m) 1) (put s e (with_mem x None)) ∧
  mems (put s e (with_mem x None)) = mems s - 1 ∧ (∀ d, refs (put s e (with_mem x None)) d = refs s d - refs_of d x) ∧
  keys_needed (put s e (with_mem x None)) = keys_needed s.
Proof.
  intros I He Hm Hp Hi Hl. destruct (lock_zero _ _ _ _ _ I He Hl) as (Hh & Hr & _ & Hc & Hw). set (held1 := give_opt _ _ _). set (s1 := put _ _ _).
  assert (Hh1 : ∀ d, held1 d = held d + refs_of d x) by (intros d; unfold held1, give_opt, refs_of; rewrite Hm; lia).
  assert (Hr1 : ∀ d, refs s1 d = refs s d - refs_of d x).
  { intros d. unfold refs, s1. cbn. rewrite (msum_put _ _ e x) by done. change (refs_of d (with_mem x None)) with 0. lia. }
  assert (Hz : ∀ d, refs s d = 0 → refs_of d x = 0).
  { intros d Hd. pose proof (msum_ge (refs_of d) (entries s) e x (refs_of_nonneg d) He). pose proof (refs_of_nonneg d x). unfold refs in Hd. lia. }
  split.
  2: { split; [|split; [done|]].
       - unfold mems, s1. cbn. rewrite (msum_put _ _ e x) by done. unfold has_mem at 2 3. rewrite Hm. cbn. lia.
       - unfold keys_needed, s1. cbn. rewrite (msum_put _ _ e x) by done. change (is_public (with_mem x None)) with (is_public x). lia. }
  assert (G : ∀ d, get s1 d = if decide (d = e) then Some (with_mem x None) else get s d) by (intros d; apply get_put).
  destruct I. split; try done.
  - intros d y k. rewrite G. destruct (decide (d = e)) as [->|]; [|apply iv_key0]. intros [= <-]. exact (iv_key0 e x k He).
  - intros d y. rewrite G. destruct (decide (d = e)) as [->|]; [|apply iv_keyed0]. intros [= <-]. exact (iv_keyed0 e x He).
  - intros d Hd. rewrite Hh1, Hr1. destruct (iv_new0 d Hd) as [? Hd0]. rewrite (Hz d Hd0). lia.
  - intros k d Hd. destruct (iv_table0 k d Hd) as (y & Hy & Hk). rewrite G. destruct (decide (d = e)) as [->|]; [|by exists y].
    assert (y = x) as -> by congruence. by eexists.
  - intros d Hd. destruct (iv_lru0 d Hd) as (y & Hy & Hiy & Hs). rewrite G. destruct (decide (d = e)) as [->|]; [|by exists y]. congruence.
  - intros d y. rewrite G, Hh1, Hr1. change (late s1 d) with (late s d). destruct (decide (d = e)) as [->|].
    + intros [= <-]. destruct (iv_lock0 e x He). change (lock_count (with_mem x None)) with (lock_count x). change (writing (with_mem x None)) with (writing x).
      change (storePendingNClients (with_mem x None)) with 0. lia.
    + intros Hy. destruct (iv_lock0 d y Hy). lia.
  - intros d y. rewrite G. destruct (decide (d = e)) as [->|].
    + intros [= <-]. split; try done; [by cbn; rewrite Hi|by cbn; rewrite Hp].
    + apply iv_entry0.
  - intros d y. rewrite G. destruct (decide (d = e)) as [->|]; [intros _ Hn; exfalso; apply Hn; left|]. intros Hy Hn. apply (iv_stored0 d y Hy).
    intros Hd. apply Hn. by right.
  - intros d. rewrite Hh1. specialize (iv_held0 d). pose proof (refs_of_nonneg d x). lia.
  - intros d. rewrite G, Hh1, Hr1. change (late s1 d) with (late s d). destruct (decide (d = e)) as [->|]; [done|]. intros Hd.
    destruct (iv_dead0 d Hd) as (H1 & H2 & H3). rewrite (Hz d H2). lia.
  - intros d Hd. rewrite Hh1, Hr1. assert (held d = 0 ∧ refs s d = 0) as [H1 H2].
    { apply elem_of_cons in Hd as [->|Hd]; [done|by apply iv_freeing0]. }
    rewrite (Hz d H2). lia.
Qed.

Lemma opt_count_some o d : o = Some d → opt_count o d = 1.
Proof. intros ->. unfold opt_count. by rewrite decide_True. Qed.

Lemma refs_of_le s e x d : get s e = Some x → refs_of d x <= refs s d.
Proof. intros He. apply (msum_ge (refs_of d) (entries s) e x (refs_of_nonneg d) He). Qed.

(** The entry that is being made is held. *)
Lemma lock_keyed X held s e x : Inv X held s → get s e = Some x → lock_count x = 0 → is_Some (key x).
Proof.
  intros I He Hl. destruct (iv_keyed _ _ _ I e x He) as [|[Hn _]]; [done|]. destruct (lock_zero _ _ _ _ _ I He Hl) as (Hh & _).
  destruct (iv_new _ _ _ I e Hn). lia.
Qed.

Lemma mem_none_lru X held s e x : Inv X held s → get s e = Some x → mem_obj x = None → e ∉ mem_lru s.
Proof.
  intros I He Hm Hin. destruct (iv_lru _ _ _ I e Hin) as (y & Hy & Hi & _). assert (y = x) as -> by congruence.
  destruct (eo_memory _ _ (iv_entry _ _ _ I e x He) Hi) as [m Hm']. congruence.
Qed.

(** Freeing the entry itself. *)
Definition dropped (s : store) (e : Z) (x : StoreEntry) : store :=
  set_entries (set_table (put s e (with_key x None)) (filter (λ p, p.2 ≠ e) (table s))) (delete e (<[e := with_key x None]> (entries s))).

Lemma dropped_get s e x d : get (dropped s e x) d = if decide (d = e) then None else get s d.
Proof.
  unfold get. cbn. rewrite delete_insert_eq. destruct (decide (d = e)) as [->|]; [apply lookup_delete_eq|by rewrite lookup_delete_ne].
Qed.
Lemma dropped_sum (f : StoreEntry → Z) s e x : get s e = Some x → msum f (entries (dropped s e x)) = msum f (entries s) - f x.
Proof. intros He. cbn. rewrite delete_insert_eq, (msum_delete f (entries s) e x He). lia. Qed.

Lemma inv_dropped X held s e x : Inv (e :: X) held s → get s e = Some x → mem_obj x = None → lock_count x = 0 →
  Inv X held (dropped s e x) ∧ calm [e] held held s (dropped s e x).
Proof.
  intros I He Hm Hl. destruct (lock_zero _ _ _ _ _ I He Hl) as (Hh & Hr & Hlt & _ & _). pose proof (mem_none_lru _ _ _ _ _ I He Hm) as Hlru.
  pose proof (dropped_get s e x) as G.
  assert (Hrefs : ∀ d, refs (dropped s e x) d = refs s d).
  { intros d. unfold refs. rewrite (dropped_sum _ s e x He). unfold refs_of at 2. rewrite Hm. lia. }
  assert (Hlate : ∀ d, late (dropped s e x) d = late s d) by done.
  split.
  - destruct I. split; try done.
    + intros d y k. rewrite G. destruct (decide (d = e)) as [->|Hd]; [done|]. intros Hy Hky. destruct (iv_key0 d y k Hy Hky) as (H2 & H3).
      split; [|done]. by apply list_elem_of_filter.
    + intros d y. rewrite G. destruct (decide (d = e)) as [->|Hd]; [done|]. apply iv_keyed0.
    + intros d. rewrite Hrefs. apply iv_new0.
    + intros k d [Hd Hin]%list_elem_of_filter. rewrite G, decide_False by done. by apply iv_table0.
    + by apply NoDup_keys.
    + by apply NoDup_links.
    + intros d Hd. rewrite G. destruct (decide (d = e)) as [->|]; [done|]. by apply iv_lru0.
    + intros d y. rewrite G, Hrefs, Hlate. destruct (decide (d = e)) as [->|]; [done|]. apply iv_lock0.
    + intros d y. rewrite G. destruct (decide (d = e)) as [->|]; [done|]. apply iv_entry0.
    + intros d y. rewrite G. destruct (decide (d = e)) as [->|Hd]; [done|]. intros Hy Hn. apply (iv_stored0 d y Hy). by intros [|]%elem_of_cons.
    + intros d. rewrite G, Hrefs, Hlate. destruct (decide (d = e)) as [->|]; [done|]. apply iv_dead0.
    + intros d Hd. rewrite Hrefs. apply iv_freeing0. by right.
  - split.
    + unfold mems. rewrite (dropped_sum _ s e x He). pose proof (has_mem_nonneg x). lia.
    + unfold keys_needed. rewrite (dropped_sum _ s e x He). pose proof (is_public_nonneg x). cbn. lia.
    + intros d. by rewrite Hrefs.
    + done.
    + intros k d H1 H2. revert H1. cbn. first [done|by intros [_ ?]%list_elem_of_filter].
    + intros d Hd _ _. rewrite G, decide_False; [done|]. intros ->. apply Hd. left.
    + intros d y Hd _ Hy. exists (lock_count y). rewrite with_lock_id, G, decide_False; [done|]. intros ->. apply Hd. left.
Qed.

(** Putting an entry off until the store is rebuilt. *)
Definition put_off (s : store) (e : Z) (x : StoreEntry) : store :=
  set_late (put s e (with_flag (with_lock x 1) RELEASE_REQUEST true)) (e :: LateReleaseStack s).

Lemma late_cons s l e d : LateReleaseStack s = l → late (set_late s (e :: l)) d = (if decide (e = d) then 1 else 0) + late s d.
Proof. intros <-. unfold late. cbn [LateReleaseStack set_late]. rewrite filter_cons. destruct (decide (e = d)); cbn [length]; lia. Qed.

Lemma inv_put_off X held s e x : Inv (e :: X) held s → get s e = Some x → lock_count x = 0 →
  Inv X held (put_off s e x) ∧ calm [e] held held s (put_off s e x).
Proof.
  intros I He Hl. destruct (lock_zero _ _ _ _ _ I He Hl) as (Hh & Hr & Hlt & _ & Hw). set (x' := with_flag (with_lock x 1) RELEASE_REQUEST true).
  assert (G : ∀ d, get (put_off s e x) d = if decide (d = e) then Some x' else get s d) by (intros d; apply get_put).
  destruct (only_put s e x x' He) as [_ _ _ Hrefs Hmems Hkeys]; [done..|].
  change (∀ d, refs (put_off s e x) d = refs s d) in Hrefs.
  assert (Hlate : ∀ d, late (put_off s e x) d = (if decide (e = d) then 1 else 0) + late s d) by (intros d; unfold put_off; by rewrite late_cons).
  split.
  - destruct I. split; try done.
    + intros d y k. rewrite G. destruct (decide (d = e)) as [->|Hd]; [|apply iv_key0]. intros [= <-]. exact (iv_key0 e x k He).
    + intros d y. rewrite G. destruct (decide (d = e)) as [->|Hd]; [|apply iv_keyed0]. intros [= <-]. exact (iv_keyed0 e x He).
    + intros d. rewrite Hrefs. apply iv_new0.
    + intros k d Hd. destruct (iv_table0 k d Hd) as (y & Hy & Hk). rewrite G. destruct (decide (d = e)) as [->|]; [|by exists y].
      exists x'. split; [done|]. cbn. congruence.
    + intros d Hd. destruct (iv_lru0 d Hd) as (y & Hy & Hi). rewrite G. destruct (decide (d = e)) as [->|]; [|by exists y].
      exists x'. assert (y = x) as -> by congruence. done.
    + intros d y. rewrite G, Hrefs, Hlate. destruct (decide (d = e)) as [->|Hd].
      * intros [= <-]. rewrite decide_True by done. change (writing x') with (writing x). change (storePendingNClients x') with (storePendingNClients x). change (lock_count x') with 1. destruct (iv_lock0 e x He). lia.
      * rewrite decide_False by congruence. intros Hy. destruct (iv_lock0 d y Hy). lia.
    + intros d y. rewrite G. destruct (decide (d = e)) as [->|]; [|apply iv_entry0]. intros [= <-]. destruct (iv_entry0 e x He). by split.
    + intros d y. rewrite G. destruct (decide (d = e)) as [->|Hd]; [by intros [= <-]|]. intros Hy Hn. apply (iv_stored0 d y Hy). by intros [|]%elem_of_cons.
    + intros d. rewrite G, Hrefs, Hlate. destruct (decide (d = e)) as [->|]; [done|]. rewrite decide_False by congruence. apply iv_dead0.
    + intros d Hd. rewrite Hrefs. apply iv_freeing0. by right.
  - split.
    + change (mems (put_off s e x) = mems s) in Hmems. lia.
    + exact Hkeys.
    + intros d. by rewrite Hrefs.
    + done.
    + intros k d H1 H2. revert H1. cbn. first [done|by intros [_ ?]%list_elem_of_filter].
    + intros d Hd _ _. rewrite G, decide_False; [done|]. intros ->. apply Hd. left.
    + intros d y Hd _ Hy. exists (lock_count y). rewrite with_lock_id, G, decide_False; [done|]. intros ->. apply Hd. left.
Qed.

Lemma unlocked_fields (x : StoreEntry) : storeEntryLocked x = false → lock_count x = 0 ∧ pending x = false ∧ swap_status x ≠ SWAPOUT_WRITING.
Proof.
  unfold storeEntryLocked. intros [[[H1%negb_false_iff H2%bool_decide_eq_false]%orb_false_iff H3]%orb_false_iff _]%orb_false_iff.
  split_and!; [by apply Z.eqb_eq|done|done].
Qed.

(** A memory object that only the request and the clients' callbacks change in. *)
Lemma forget_request_ok X held s e x m r cb : Inv X held s → get s e = Some x → mem_obj x = Some m →
  Inv X held (put s e (with_mem x (Some (mem_request m r cb)))) ∧ only e s (put s e (with_mem x (Some (mem_request m r cb)))).
Proof.
  intros I He Hm. set (x' := with_mem x _). assert (Hr : ∀ d, refs_of d x' = refs_of d x) by (intros d; unfold refs_of; by rewrite Hm).
  assert (Hc : storePendingNClients x' = storePendingNClients x) by (unfold storePendingNClients; by rewrite Hm). split.
  - apply (inv_put X held held s e x); try done.
    + apply (iv_held _ _ _ I).
    + intros HX. apply (iv_freeing _ _ _ I e HX).
    + rewrite Hc. change (writing x') with (writing x). cbn. lia.
    + apply (iv_lock _ _ _ I e x He).
    + intros Hin. destruct (iv_lru _ _ _ I e Hin) as (y & Hy & Hi). by assert (y = x) as -> by congruence.
    + destruct (iv_entry _ _ _ I e x He). split; try (intros _; by eexists).
      * exact eo_transfer0.
      * intros Hw. split; [by eexists|by apply eo_writing0].
      * intros Hcl m' [= <-]. by apply (eo_sio0 Hcl m).
      * by rewrite Hc.
      * intros m' [= <-]. by apply (eo_hi0 m).
      * intros Hcl m' [= <-]. by apply (eo_data0 Hcl m).
    + intros Hn Hcl H1 H2 H3. destruct (iv_stored _ _ _ I e x He Hn Hcl H1 H2 H3) as (m' & Hm' & Hhi). assert (m' = m) as -> by congruence. by eexists.
    + intros Hn. by apply (iv_new _ _ _ I e).
  - apply only_put with x; try done. unfold has_mem. by rewrite Hm.
Qed.

Section Freeing.
Context (idle : ∀ e, closing ≠ Some e) (n : Z) (U : store → Z → option store) (HU : unlocks n U).

Lemma destroy_mem_ok X held s e x m : Inv X held s → get s e = Some x → mem_obj x = Some m → pending x = false →
  in_memory x = false → lock_count x = 0 → mems s <= n → keys_needed s <= INT_MAX →
  ∃ s', destroy_MemObject U s e = Some s' ∧ Inv (e :: X) held s' ∧ calm [e] held held s s' ∧ get s' e = Some (with_mem x None).
Proof.
  intros I He Hm Hp Hi Hl Hn Hk. destruct (lock_zero _ _ _ _ _ I He Hl) as (Hh & Hr & _ & _ & Hw). unfold destroy_MemObject. rewrite He. cbn [mbind option_bind]. rewrite Hm. cbn [mbind option_bind].
  destruct (sio m) eqn:Es; [by destruct Hw; apply (eo_sio _ _ (iv_entry _ _ _ I e x He) (idle e) m)|].
  destruct (inv_free_mem X held s e x m I He Hm Hp Hi Hl) as (I1 & M1 & R1 & K1). set (s1 := put s e _) in *. set (h1 := give_opt _ _ _) in *.
  assert (Hh1 : ∀ d, h1 d = held d + opt_count (ims_entry m) d + opt_count (old_entry m) d) by (intros d; unfold h1, give_opt; lia).
  assert (Hro : ∀ d, refs_of d x = opt_count (ims_entry m) d + opt_count (old_entry m) d) by (intros d; unfold refs_of; by rewrite Hm).
  pose proof (iv_held _ _ _ I) as Hpos.
  assert (Hold : ∀ d, ims_entry m = Some d ∨ old_entry m = Some d → new ≠ Some d).
  { intros d Hd Hn'. destruct (iv_new _ _ _ I d Hn') as [_ Hr0]. pose proof (refs_of_le s e x d He) as Hle. rewrite Hro, Hr0 in Hle.
    pose proof (opt_count_nonneg (old_entry m) d). pose proof (opt_count_nonneg (ims_entry m) d).
    destruct Hd as [Hd|Hd]; rewrite (opt_count_some _ d Hd) in *; lia. }
  destruct (unlock_opt_ok n U (e :: X) h1 s1 (ims_entry m) HU I1) as (s2 & E2 & I2 & C2); [|lia|lia|].
  { intros d Hd. split; [by apply Hold; left|]. rewrite Hh1, (opt_count_some _ d Hd). specialize (Hpos d). pose proof (opt_count_nonneg (old_entry m) d). lia. }
  rewrite E2. cbn [mbind option_bind]. set (h2 := give_opt h1 _ (-1)) in *.
  assert (Hh2 : ∀ d, h2 d = held d + opt_count (old_entry m) d) by (intros d; unfold h2; unfold give_opt at 1; rewrite Hh1; lia).
  destruct (unlock_opt_ok n U (e :: X) h2 s2 (old_entry m) HU I2) as (s3 & E3 & I3 & C3).
  { intros d Hd. split; [by apply Hold; right|]. rewrite Hh2, (opt_count_some _ d Hd). specialize (Hpos d). lia. }
  { pose proof (cm_mems _ _ _ _ _ C2). lia. }
  { pose proof (cm_keys _ _ _ _ _ C2). lia. }
  rewrite E3. exists s3. split; [done|]. set (h3 := give_opt h2 _ (-1)) in *.
  assert (Hh3 : ∀ d, h3 d = held d) by (intros d; unfold h3; unfold give_opt at 1; rewrite Hh2; lia).
  split; [by apply (inv_held _ h3)|].
  assert (C1 : calm [e] held h1 s s1).
  { split; try lia; [intros d; rewrite R1; pose proof (refs_of_nonneg d x); lia|done|done|..].
    - intros d Hd _ _. apply get_put_ne. intros ->. apply Hd. left.
    - intros d y Hd _ Hy. exists (lock_count y). rewrite with_lock_id. unfold s1. rewrite get_put_ne; [done|]. intros ->. apply Hd. left. }
  assert (C23 : calm [] h1 held s1 s3).
  { eapply (calm_trans [] h1 h2 h2 held); [| |done|].
    - intros d _. rewrite Hh1, Hh2. specialize (Hpos d). pose proof (opt_count_nonneg (old_entry m) d). pose proof (opt_count_nonneg (ims_entry m) d). lia.
    - intros d _. rewrite Hh2. pose proof (opt_count_nonneg (old_entry m) d). lia.
    - destruct C3. split; try done. intros d y Hd Hy. apply cm_held0; [done|]. by rewrite Hh3. }
  split.
  - eapply (calm_trans [e] held h1 h1 held); [| |exact C1|by eapply calm_more; [|exact C23]; intros ? ?%not_elem_of_nil].
    + intros d _ Hd Hrd. rewrite Hh1. pose proof (refs_of_le s e x d He) as Hle. rewrite Hro, Hrd in Hle.
      pose proof (opt_count_nonneg (old_entry m) d). pose proof (opt_count_nonneg (ims_entry m) d). lia.
    + intros d _. rewrite Hh1. pose proof (opt_count_nonneg (old_entry m) d). pose proof (opt_count_nonneg (ims_entry m) d). lia.
  - pose proof (refs_of_le s e x e He) as Hle. pose proof (refs_of_nonneg e x). rewrite (cm_alone _ _ _ _ _ C23 e); [apply get_put_eq|apply not_elem_of_nil|..].
    + rewrite Hh1. rewrite Hro in *. lia.
    + rewrite R1. lia.
Qed.

Lemma strip_ok X held s e x m : Inv X held s → get s e = Some x → mem_obj x = Some m → pending x = false → lock_count x = 0 →
  mems s <= n → keys_needed s <= INT_MAX →
  ∃ s1 s', storeSetMemStatus s e false = Some s1 ∧ destroy_MemObject U s1 e = Some s' ∧ Inv (e :: X) held s' ∧ calm [e] held held s s' ∧
    get s1 e = Some (with_memory x false) ∧ get s' e = Some (with_mem (with_memory x false) None).
Proof.
  intros I He Hm Hp Hl Hn Hk. destruct (lock_zero _ _ _ _ _ I He Hl) as (Hh & Hr & _ & _ & Hw).
  destruct (leave_memory_ok X held s e x I He) as (s1 & E1 & I1 & O1 & G1). pose proof O1 as [].
  destruct (destroy_mem_ok X held s1 e _ m I1 G1) as (s2 & E2 & I2 & C2 & G2); try done; [lia|lia|].
  exists s1, s2. split_and!; try done. by eapply only_calm.
Qed.

Lemma inv_freeing X held s e x : Inv X held s → get s e = Some x → lock_count x = 0 → Inv (e :: X) held s.
Proof.
  intros I He Hl. destruct (lock_zero _ _ _ _ _ I He Hl) as (Hh & Hr & _). apply (inv_weaken X); [|by right|done].
  intros d [->|Hd]%elem_of_cons; [done|by apply (iv_freeing _ _ _ I)].
Qed.

Lemma release_locked_ok X held s e x : Inv X held s → get s e = Some x → storeEntryLocked x = true → keys_needed s <= INT_MAX →
  ∃ s' y, storeRelease U s e = Some s' ∧ Inv X held s' ∧ only e s s' ∧ get s' e = Some y ∧
    alike [RELEASE_REQUEST; ENTRY_CACHABLE; KEY_PRIVATE] x y ∧ flags y RELEASE_REQUEST = true ∧ (flags x KEY_PRIVATE = true → flags y KEY_PRIVATE = true).
Proof.
  intros I He Hl Hk. unfold storeRelease. rewrite He. cbn [mbind option_bind]. rewrite Hl.
  destruct (expire_ok X held s e x I He) as (s1 & x1 & E1 & I1 & O1 & L1 & G1 & A1 & F1). rewrite E1. cbn [mbind option_bind].
  destruct (release_request_ok X held s1 e x1 I1 G1) as (s2 & y & E2 & I2 & O2 & L2 & G2 & A2 & F2 & P2); [pose proof (on_keys _ _ _ O1); lia|].
  exists s2, y. split_and!; try done; [by eapply only_trans|by apply (alike_trans [] _ _ _ _ A1)|]. intros Hp. apply P2. left. by rewrite F1.
Qed.

(** What is left of an entry that nothing locks. *)
Definition gone (s : store) (e : Z) : Prop :=
  match get s e with Some y => flags y RELEASE_REQUEST = true ∧ flags y KEY_PRIVATE = true ∧ e ∈ LateReleaseStack s | None => True end.

Lemma put_off_ok X held s e x : Inv X held s → get s e = Some x → storeEntryLocked x = false → mems s <= n → keys_needed s <= INT_MAX →
  ∃ s', (s ← storeSetPrivateKey s e;
         s ← match mem_obj x with Some _ => s ← storeSetMemStatus s e false; destroy_MemObject U s e | None => Some s end;
         s ← upd s e (λ x, with_lock x (u16 (lock_count x + 1)));
         s ← EBIT_SET s e RELEASE_REQUEST;
         Some (set_late s (e :: LateReleaseStack s))) = Some s' ∧ Inv X held s' ∧ calm [e] held held s s' ∧ gone s' e.
Proof.
  intros I He Hl Hn Hk. destruct (unlocked_fields x Hl) as (Hl0 & Hp & Hw).
  destruct (set_private_ok X held s e x I He Hk) as (s1 & x1 & E1 & I1 & O1 & L1 & G1 & A1 & P1). rewrite E1. cbn [mbind option_bind]. pose proof O1 as [_ _ _ _ O1e O1f].
  assert (∃ s2 x2, match mem_obj x with Some _ => s ← storeSetMemStatus s1 e false; destroy_MemObject U s e | None => Some s1 end = Some s2 ∧
    Inv (e :: X) held s2 ∧ calm [e] held held s1 s2 ∧ get s2 e = Some x2 ∧ lock_count x2 = 0 ∧ flags x2 KEY_PRIVATE = true) as (s2 & x2 & -> & I2 & C2 & G2 & Hl2 & P2).
  { destruct A1. destruct (mem_obj x) as [m|] eqn:Em.
    - destruct (strip_ok X held s1 e x1 m I1 G1) as (s1' & s2 & E2 & E2' & I2 & C2 & _ & G2); [congruence..|lia|lia|].
      rewrite E2. cbn [mbind option_bind]. exists s2. eexists. split_and!; try done. cbn. congruence.
    - exists s1, x1. split_and!; try done; [eapply inv_freeing; [done..|congruence]|apply calm_only, only_refl|congruence]. }
  cbn [mbind option_bind]. rewrite (upd_eq s2 e x2) by done. cbn [mbind option_bind]. unfold EBIT_SET. rewrite (upd_eq _ e _ _ (get_put_eq _ _ _)). cbn [mbind option_bind].
  rewrite Hl2. change (u16 (0 + 1)) with 1.
  assert (Ep : set_late (put (put s2 e (with_lock x2 1)) e (with_flag (with_lock x2 1) RELEASE_REQUEST true)) (e :: LateReleaseStack s2) = put_off s2 e x2).
  { unfold put_off, put, set_entries, set_late. cbn. by rewrite insert_insert_eq. }
  cbn [LateReleaseStack put set_entries]. eexists. split; [done|]. cbn [LateReleaseStack put set_entries] in Ep. rewrite Ep.
  destruct (inv_put_off X held s2 e x2 I2 G2 Hl2) as [I3 C3]. split_and!; [done| |].
  - eapply only_calm; [exact O1|]. by eapply calm_then.
  - unfold gone. unfold put_off. cbn. unfold get. cbn. rewrite lookup_insert_eq. cbn. split_and!; try done. left.
Qed.

Lemma inv_gone X held s e : Inv (e :: X) held s → gone s e → Inv X held s.
Proof.
  intros I Hg. unfold gone in Hg. destruct (get s e) as [y|] eqn:He.
  - apply (inv_strengthen X held s e y); [done..|]. destruct Hg as [Hr _]. intros _ Hr'. congruence.
  - destruct I. split; try done.
    + intros d y Hd Hn. apply (iv_stored0 d y Hd). intros [->|]%elem_of_cons; [congruence|done].
    + intros d Hd. apply iv_freeing0. by right.
Qed.

Lemma destroy_entry_ok X held s e x : Inv (e :: X) held s → get s e = Some x → lock_count x = 0 → pending x = false → in_memory x = false →
  mems s <= n → keys_needed s <= INT_MAX →
  ∃ s', destroy_StoreEntry U s e = Some s' ∧ Inv X held s' ∧ calm [e] held held s s' ∧ get s' e = None.
Proof.
  intros I He Hl Hp Hi Hn Hk. destruct (lock_zero _ _ _ _ _ I He Hl) as (Hh & Hr & _ & _ & Hw). unfold destroy_StoreEntry. rewrite He. cbn [mbind option_bind].
  assert (∃ s1 x1, match mem_obj x with Some _ => destroy_MemObject U s e | None => Some s end = Some s1 ∧ Inv (e :: X) held s1 ∧
    calm [e] held held s s1 ∧ get s1 e = Some x1 ∧ lock_count x1 = 0 ∧ mem_obj x1 = None) as (s1 & x1 & -> & I1 & C1 & G1 & Hl1 & Hm1).
  { destruct (mem_obj x) as [m|] eqn:Em; [|exists s, x; split_and!; try done; apply calm_only, only_refl].
    destruct (destroy_mem_ok (e :: X) held s e x m) as (s1 & E1 & I1 & C1 & G1); try done. exists s1. eexists. split_and!; try done.
    apply (inv_weaken (e :: e :: X)); [intros d Hd; apply (iv_freeing _ _ _ I1); by right| |done]. set_solver. }
  cbn [mbind option_bind]. destruct (lock_keyed _ _ _ _ _ I1 G1 Hl1) as [k Hk1]. rewrite (hash_delete_ok _ _ s1 e x1 k I1 G1 Hk1). cbn [mbind option_bind].
  destruct (inv_dropped X held s1 e x1 I1 G1 Hm1 Hl1) as [I2 C2]. exists (dropped s1 e x1). split; [done|]. split_and!; [done|by eapply calm_then|].
  by rewrite dropped_get, decide_True.
Qed.

(** The events of a release leave the store as it is. *)
Lemma release_log_ok (s : store) e x : get s e = Some x →
  ∃ l, (let s := emit s (LogRelease e) in
        if -1 <? swap_filen x then
          let s := emit s (Unlink e) in
          let s := if bool_decide (swap_status x = SWAPOUT_DONE) && flags x ENTRY_VALIDATED
                   then emit s (SwapSize (swap_dirn x) (swap_file_sz x) (-1)) else s in
          if negb (flags x KEY_PRIVATE) then storeDirSwapLog s e (SwapLogDel e) else Some s
        else Some s) =
    Some (mkStore (entries s) (table s) (key_counter s) (mem_lru s) (hot_obj_count s) (LateReleaseStack s) (rebuilding s) (squid_curtime s) l).
Proof.
  intros He. cbn zeta. destruct (Z.ltb_spec (-1) (swap_filen x)); [|by eexists]. destruct (flags x KEY_PRIVATE) eqn:Ep; cbn [negb]; destruct (_ && _).
  1, 2: by eexists.
  all: edestruct swap_log_ok as [l ->]; [exact He|done|lia|by exists l].
Qed.

Lemma release_free_ok X held s e x : Inv (e :: X) held s → get s e = Some x → storeEntryLocked x = false → mems s <= n → keys_needed s <= INT_MAX →
  ∃ s', storeRelease U s e = Some s' ∧ Inv X held s' ∧ calm [e] held held s s' ∧ gone s' e.
Proof.
  intros I He Hl Hn Hk. unfold storeRelease. rewrite He. cbn [mbind option_bind]. rewrite Hl. destruct (rebuilding s && _).
  { destruct (put_off_ok (e :: X) held s e x I He Hl Hn Hk) as (s' & E & I' & C & G). exists s'. split_and!; try done. by eapply inv_gone. }
  destruct (unlocked_fields x Hl) as (Hl0 & Hp & Hw). destruct (release_log_ok s e x He) as [l El]. cbn zeta in El |- *. rewrite El. cbn [mbind option_bind]. clear El.
  set (s1 := mkStore _ _ _ _ _ _ _ _ l). assert (I1 : Inv (e :: X) held s1) by (by apply (inv_same _ _ s)).
  assert (O1 : only e s s1) by (by split).
  destruct (leave_memory_ok (e :: X) held s1 e x I1 He) as (s2 & E2 & I2 & O2 & G2). rewrite E2. cbn [mbind option_bind].
  pose proof (only_trans _ _ _ _ O1 O2) as O12. pose proof O12 as [].
  destruct (destroy_entry_ok X held s2 e _ I2 G2) as (s3 & E3 & I3 & C3 & G3); try done; [lia|lia|].
  exists s3. split_and!; try done; [by eapply only_calm|]. unfold gone. by rewrite G3.
Qed.

Lemma store_release_ok X held s e x : Inv X held s → get s e = Some x → mems s <= n → keys_needed s <= INT_MAX →
  ∃ s', storeRelease U s e = Some s' ∧ Inv X held s' ∧ calm [e] held held s s' ∧
    if storeEntryLocked x then only e s s' ∧ ∃ y, get s' e = Some y ∧ alike [RELEASE_REQUEST; ENTRY_CACHABLE; KEY_PRIVATE] x y ∧
      flags y RELEASE_REQUEST = true ∧ (flags x KEY_PRIVATE = true → flags y KEY_PRIVATE = true)
    else gone s' e.
Proof.
  intros I He Hn Hk. destruct (storeEntryLocked x) eqn:El.
  - destruct (release_locked_ok X held s e x I He El Hk) as (s' & y & E & I' & O & G & A & F). exists s'. split; [done|]. split; [done|]. split; [by apply calm_only|]. split; [done|by exists y].
  - apply (release_free_ok X held s e x); try done. destruct (unlocked_fields x El) as [Hl _]. by eapply inv_freeing.
Qed.

Lemma purge_ok X held s e x : Inv X held s → get s e = Some x → pending x = false → lock_count x = 0 → mems s <= n → keys_needed s <= INT_MAX →
  ∃ s', storePurgeMem U s e = Some s' ∧ Inv X held s' ∧ calm [e] held held s s' ∧ (swap_status x = SWAPOUT_DONE → is_Some (get s' e)).
Proof.
  intros I He Hp Hl Hn Hk. unfold storePurgeMem. rewrite He. cbn [mbind option_bind]. destruct (mem_obj x) as [m|] eqn:Em.
  2: { exists s. split; [done|]. split; [done|]. split; [apply calm_only, only_refl|]. intros _. by exists x. }
  destruct (strip_ok X held s e x m I He Em Hp Hl Hn Hk) as (s1 & s2 & E1 & E2 & I2 & C2 & _ & G2). rewrite E1. cbn [mbind option_bind]. rewrite E2. cbn [mbind option_bind].
  rewrite G2. cbn [mbind option_bind]. change (swap_status (with_mem (with_memory x false) None)) with (swap_status x). case_bool_decide as Ed.
  - exists s2. split_and!; try done. eapply inv_strengthen; [exact I2|exact G2|]. intros _ _ Hs. cbn in Hs. congruence.
  - pose proof (cm_mems _ _ _ _ _ C2). pose proof (cm_keys _ _ _ _ _ C2). destruct (store_release_ok (e :: X) held s2 e _ I2 G2) as (s3 & E3 & I3 & C3 & G3); [lia..|].
    exists s3. split; [done|]. split_and!; [|by eapply calm_then|done]. destruct (storeEntryLocked _).
    + destruct G3 as (_ & y & Gy & _ & Fy & _). eapply inv_strengthen; [exact I3|exact Gy|]. intros _ Hr. congruence.
    + by eapply inv_gone.
Qed.

Lemma calm_unlocked held s e x c s' : let held' := give held e (-1) in get s e = Some x → 1 <= held e → held' e = 0 →
  calm [e] held' held' (put s e (with_lock x c)) s' → calm [] held held' s s'.
Proof.
  intros held' He Hh Hz [].
  destruct (only_put s e x (with_lock x c) He) as []; [done..|]. split; try lia.
  - intros d. specialize (cm_refs0 d). rewrite on_refs0 in cm_refs0. done.
  - congruence.
  - auto.
  - intros d _ Hd Hr. assert (Hde : d ≠ e) by (intros ->; lia). rewrite cm_alone0, get_put_ne; try done; [by intros ->%list_elem_of_singleton|..].
    + unfold held'. by rewrite give_ne.
    + by rewrite on_refs0.
  - intros d y _ Hd Hy. assert (Hde : d ≠ e) by (intros ->; lia). apply cm_held0; [by intros ->%list_elem_of_singleton|done|]. by rewrite get_put_ne.
Qed.

Lemma keep_ok X held s e x : Inv X held s → get s e = Some x → pending x = false → storeKeepInMemory x = true →
  ∃ s', (s ← storeEntryDereferenced s e; s ← storeSetMemStatus s e true; upd_mem s e (λ m, mem_request m None (abort_callback m))) = Some s' ∧
    Inv X held s' ∧ only e s s'.
Proof.
  intros I He Hpd Hkeep. unfold storeKeepInMemory in Hkeep. destruct (mem_obj x) as [m|] eqn:Em; [|done]. apply andb_true_iff in Hkeep as [_ Hlo%Z.eqb_eq].
  destruct (dereferenced_ok X held s e x I He) as (s1 & E1 & I1 & O1 & G1 & _). rewrite E1. cbn [mbind option_bind].
  destruct (enter_memory_ok X held s1 e x m I1) as (s2 & E2 & I2 & O2 & G2); [by rewrite G1|done..|]. rewrite E2. cbn [mbind option_bind].
  unfold upd_mem. rewrite G2. cbn [mbind option_bind]. change (mem_obj (with_memory x true)) with (mem_obj x). rewrite Em. cbn [mbind option_bind].
  destruct (forget_request_ok X held s2 e _ m None (abort_callback m) I2 G2) as [I3 O3]; [done|].
  eexists. split; [done|]. split; [done|]. eapply only_trans; [exact O1|]. by eapply only_trans.
Qed.

(** A complete entry that is not kept in memory is on disk. *)
Lemma not_kept_done X held s e x : Inv X held s → get s e = Some x → e ∉ X → lock_count x = 0 → pending x = false →
  flags x RELEASE_REQUEST = false → storeKeepInMemory x = false → swap_status x = SWAPOUT_DONE.
Proof.
  intros I He Hn Hl Hp Hr Hkeep. destruct (lock_zero _ _ _ _ _ I He Hl) as (Hh & _ & _ & _ & Hw).
  assert (Hmv : ¬ moving e) by (intros [Hm|Hm]; [by apply (idle e)|destruct (iv_new _ _ _ I e Hm); lia]). destruct (swap_status x) eqn:Es; [|done..].
  destruct (iv_stored _ _ _ I e x He Hn Hmv Hp Hr Es) as (m & Hm & Hhi). destruct (eo_data _ _ (iv_entry _ _ _ I e x He) (idle e) m Hm Hr Es) as (Hlo & _ & Hd).
  unfold storeKeepInMemory in Hkeep. rewrite Hm, Hlo, Hd in Hkeep by done. done.
Qed.

Lemma inv_unlocked X held s e x : Inv X held s → get s e = Some x → new ≠ Some e → 1 <= held e →
  let held' := give held e (-1) in let s' := put s e (with_lock x (u16 (lock_count x - 1))) in
  Inv X held' s' ∧ calm [] held held' s s' ∧ u16 (lock_count x - 1) = lock_count x - 1.
Proof.
  intros I He Hne Hh held' s'. destruct (iv_lock _ _ _ I e x He) as [El Hlt]. pose proof (refs_nonneg s e). pose proof (writing_nonneg x).
  pose proof (eo_clients _ _ (iv_entry _ _ _ I e x He)). assert (0 <= late s e) by (unfold late; lia).
  assert (Eu : u16 (lock_count x - 1) = lock_count x - 1) by (unfold u16; rewrite Z.mod_small; lia). split_and!; [| |done].
  - unfold s'. rewrite Eu. apply (inv_put X held held' s e x); try done; unfold held'.
    + intros d Hd. by apply give_ne.
    + rewrite give_eq. lia.
    + intros HX. destruct (iv_freeing _ _ _ I e HX). lia.
    + rewrite give_eq. change (writing (with_lock x (lock_count x - 1))) with (writing x).
      change (storePendingNClients (with_lock x (lock_count x - 1))) with (storePendingNClients x). cbn. lia.
    + cbn. lia.
    + intros Hin. destruct (iv_lru _ _ _ I e Hin) as (y & Hy & Hi). by assert (y = x) as -> by congruence.
    + destruct (iv_entry _ _ _ I e x He). by split.
    + intros Hn Hcl. exact (iv_stored _ _ _ I e x He Hn Hcl).
  - destruct (only_put s e x (with_lock x (u16 (lock_count x - 1))) He) as []; [done..|]. unfold s'. split; try lia; try done.
    + intros d. by rewrite on_refs0.
    + intros d _ Hd _. apply get_put_ne. intros ->. lia.
    + intros d y _ Hd Hy. destruct (decide (d = e)) as [->|]; [rewrite get_put_eq; by assert (y = x) as -> by congruence; eexists|].
      exists (lock_count y). by rewrite with_lock_id, get_put_ne.
Qed.

Lemma body_ok : unlocks (n + 1) (unlock_body U).
Proof.
  intros X held s e I Hne Hh Hn Hk. destruct (get s e) as [x|] eqn:He; [|destruct (iv_dead _ _ _ I e He); lia].
  assert (HX : e ∉ X) by (intros HX; destruct (iv_freeing _ _ _ I e HX); lia).
  unfold unlock_body. rewrite He. cbn [mbind option_bind]. cbn zeta. destruct (inv_unlocked X held s e x I He Hne Hh) as (I1 & C1 & Eu).
  set (held' := give held e (-1)) in *. rewrite Eu in *. set (x1 := with_lock x (lock_count x - 1)) in *. set (s1 := put s e x1) in *.
  destruct (Z.eqb_spec (lock_count x1) 0) as [Hl|]; cbn [negb]; [|by exists s1].
  assert (G1 : get s1 e = Some x1) by apply get_put_eq. destruct (lock_zero _ _ _ _ _ I1 G1 Hl) as (Hz & _ & _ & Hc & _).
  destruct C1 as [M1 K1 _ _ _ _].
  assert (Fin : ∀ s', calm [e] held' held' s1 s' → calm [] held held' s s') by (intros s'; by apply calm_unlocked).
  destruct (pending x1) eqn:Hp.
  - destruct (set_flag_ok X held' s1 e x1 RELEASE_REQUEST true I1 G1) as (s2 & E2 & I2 & O2 & _ & G2); [done..|].
    unfold EBIT_SET. rewrite E2. cbn [mbind option_bind]. rewrite G2. cbn [mbind option_bind].
    change (storePendingNClients (with_flag x1 RELEASE_REQUEST true)) with (storePendingNClients x1). rewrite Hc. cbn [Z.eqb negb]. rewrite flag_eq.
    destruct (store_release_ok X held' s2 e _ I2 G2) as (s3 & E3 & I3 & C3 & _); [destruct O2; lia..|]. exists s3. split_and!; [done|done|]. apply Fin. by eapply only_calm.
  - cbn [mbind option_bind]. rewrite G1. cbn [mbind option_bind]. rewrite Hc. cbn [Z.eqb negb]. destruct (flags x1 RELEASE_REQUEST) eqn:Er.
    { destruct (store_release_ok X held' s1 e x1 I1 G1) as (s3 & E3 & I3 & C3 & _); [lia..|]. exists s3. split_and!; [done|done|by apply Fin]. }
    destruct (storeKeepInMemory x1) eqn:Ek.
    { destruct (keep_ok X held' s1 e x1 I1 G1 Hp Ek) as (s3 & E3 & I3 & O3). exists s3. split_and!; [done|done|by apply Fin, calm_only]. }
    destruct (purge_ok X held' s1 e x1 I1 G1 Hp Hl) as (s3 & E3 & I3 & C3 & G3); [lia..|]. rewrite E3. cbn [mbind option_bind].
    destruct G3 as [y G3]; [by apply (not_kept_done X held' s1 e)|].
    destruct (dereferenced_ok X held' s3 e y I3 G3) as (s4 & E4 & I4 & O4 & _). exists s4. split_and!; [done|done|]. apply Fin. eapply calm_then; [exact C3|by apply calm_only].
Qed.
End Freeing.

Context (idle : ∀ e, closing ≠ Some e).

Lemma unlock_fuel_ok n : unlocks (Z.of_nat n) (storeUnlockObject n).
Proof.
  induction n as [|n IH].
  - intros X held s e I _ Hh Hn. pose proof (msum_nonneg has_mem (entries s) has_mem_nonneg). unfold mems in Hn. lia.
  - rewrite Nat2Z.inj_succ. exact (body_ok idle (Z.of_nat n) (storeUnlockObject n) IH).
Qed.

Lemma mems_depth (s : store) : mems s < Z.of_nat (depth s).
Proof.
  unfold mems, depth. pose proof (msum_size has_mem (entries s) (λ x : StoreEntry, ltac:(unfold has_mem; destruct (mem_obj x); lia))). lia.
Qed.

(** [depth] is enough fuel. *)
Lemma unlock_ok X held s e : Inv X held s → new ≠ Some e → 1 <= held e → keys_needed s <= INT_MAX →
  ∃ s', unlock s e = Some s' ∧ Inv X (give held e (-1)) s' ∧ calm [] held (give held e (-1)) s s'.
Proof. intros I Hne Hh Hk. by apply (unlock_fuel_ok (depth s)); [..|apply mems_depth|]. Qed.

Lemma release_store_ok X held s e x : Inv X held s → get s e = Some x → keys_needed s <= INT_MAX →
  ∃ s', release s e = Some s' ∧ Inv X held s' ∧ calm [e] held held s s' ∧
    if storeEntryLocked x then only e s s' ∧ ∃ y, get s' e = Some y ∧ alike [RELEASE_REQUEST; ENTRY_CACHABLE; KEY_PRIVATE] x y ∧
      flags y RELEASE_REQUEST = true ∧ (flags x KEY_PRIVATE = true → flags y KEY_PRIVATE = true)
    else gone s' e.
Proof.
  intros I He Hk. pose proof (mems_depth s). apply (store_release_ok idle (Z.of_nat (depth s)) _ (unlock_fuel_ok (depth s))); try done. lia.
Qed.
End Proofs.
