(* ===== verification/StoreSafe.v ===== *)
(** * The store's operations keep its books (src/store.c, src/store_swapout.c, src/store_client.c)

    Every operation of the store goes through in a store whose books are right,
    and leaves them right: no assertion fails, no freed entry is used, and the lock
    counts remain those of the holders. *)
From S2P Require Import Prelude CString Store StoreProof.
Import Store.
#[local] Set Default Proof Using "Type*".

Section Safe.
Context {K R : Type} `{EqDecision K} `{!StoreKeys K R} `{!StoreKeysOk K R}.
Notation store := (@store K R).
Notation StoreEntry := (@StoreEntry K R).
Notation MemObject := (@MemObject R).
Context (new closing : option Z).
Notation Inv := (Inv new closing).

(** Changing an entry in place. *)
Lemma edit_ok X held s e (x x' : StoreEntry) : Inv X held s → get s e = Some x → key x' = key x →
  flags x' KEY_PRIVATE = flags x KEY_PRIVATE → flags x' ENTRY_SPECIAL = flags x ENTRY_SPECIAL → in_memory x' = in_memory x →
  lock_count x' = lock_count x → (∀ d, refs_of d x' = refs_of d x) → storePendingNClients x' = storePendingNClients x →
  writing x' = writing x → has_mem x' = has_mem x → entry_ok (closing = Some e) x' → (e ∉ X → ¬ moving new closing e → stored x') →
  Inv X held (put s e x') ∧ only e s (put s e x').
Proof.
  intros I He Hk Hp Hs Hi Hl Hr Hc Hw Hm Hok Hst. split; [|by apply only_put with x].
  apply (inv_put new closing X held held s e x); try done.
  - apply (iv_held _ _ _ _ _ I).
  - intros HX. apply (iv_freeing _ _ _ _ _ I e HX).
  - rewrite Hl, Hc, Hw. lia.
  - rewrite Hl. apply (iv_lock _ _ _ _ _ I e x He).
  - intros Hin. destruct (iv_lru _ _ _ _ _ I e Hin) as (y & Hy & Hiy). assert (y = x) as -> by congruence. by rewrite Hi, Hs.
  - intros Hn. by apply (iv_new _ _ _ _ _ I e).
Qed.

(** Locking: [h] more holders, the rest for clients and writers. *)
Lemma inv_lock X held s e (x x' : StoreEntry) h : Inv X held s → get s e = Some x → e ∉ X → 0 <= h → key x' = key x →
  flags x' KEY_PRIVATE = flags x KEY_PRIVATE → flags x' ENTRY_SPECIAL = flags x ENTRY_SPECIAL → in_memory x' = in_memory x →
  lock_count x' = lock_count x + h + (storePendingNClients x' - storePendingNClients x) + (writing x' - writing x) →
  lock_count x' < 65536 → (∀ d, refs_of d x' = refs_of d x) → has_mem x' = has_mem x → entry_ok (closing = Some e) x' → (¬ moving new closing e → stored x') →
  Inv X (give held e h) (put s e x') ∧ only e s (put s e x').
Proof.
  intros I He HX Hh Hk Hp Hs Hi Hl Hl' Hr Hm Hok Hst. split; [|by apply only_put with x]. pose proof (iv_held _ _ _ _ _ I e).
  apply (inv_put new closing X held _ s e x); try done; rewrite ?give_eq; try done; try lia.
  - intros d Hd. by apply give_ne.
  - intros Hin. destruct (iv_lru _ _ _ _ _ I e Hin) as (y & Hy & Hiy). assert (y = x) as -> by congruence. by rewrite Hi, Hs.
  - intros Hn. destruct (iv_new _ _ _ _ _ I e Hn). lia.
Qed.

Lemma lock_wrap X held s e (x : StoreEntry) : Inv X held s → get s e = Some x → lock_count x < 65535 → u16 (lock_count x + 1) = lock_count x + 1.
Proof.
  intros I He Hl. destruct (iv_lock _ _ _ _ _ I e x He) as [El _]. pose proof (iv_held _ _ _ _ _ I e). pose proof (refs_nonneg s e).
  pose proof (writing_nonneg x). pose proof (eo_clients _ _ (iv_entry _ _ _ _ _ I e x He)). assert (0 <= late s e) by (unfold late; lia).
  unfold u16. rewrite Z.mod_small; lia.
Qed.

(** The entry after a lock. *)
Definition locked (now : Z) (x : StoreEntry) : StoreEntry :=
  with_times (with_lock x (u16 (lock_count x + 1))) (timestamp x) now (expires x) (lastmod x).

Lemma storeLock_ok X held s e (x : StoreEntry) : Inv X held s → get s e = Some x → e ∉ X → lock_count x < 65535 →
  ∃ s', storeLockObject s e = Some s' ∧ Inv X (give held e 1) s' ∧ only e s s' ∧ get s' e = Some (locked (squid_curtime s) x).
Proof.
  intros I He HX Hl. unfold storeLockObject. rewrite He. cbn [mbind option_bind]. fold (locked (squid_curtime s) x).
  destruct (inv_lock X held s e x (locked (squid_curtime s) x) 1 I He HX) as [I1 O1]; try done.
  - cbn. rewrite (lock_wrap X held s e x) by done. change (storePendingNClients (locked (squid_curtime s) x)) with (storePendingNClients x).
    change (writing (locked (squid_curtime s) x)) with (writing x). lia.
  - cbn. rewrite (lock_wrap X held s e x) by done. lia.
  - destruct (iv_entry _ _ _ _ _ I e x He). by split.
  - exact (iv_stored _ _ _ _ _ I e x He HX).
  - destruct (referenced_ok new closing X _ _ e _ I1 (get_put_eq _ _ _)) as (s2 & E2 & I2 & O2 & G2). exists s2. split_and!; [done|done|by eapply only_trans|].
    rewrite G2. apply get_put_eq.
Qed.

Lemma entry_ok_mem c (x : StoreEntry) m m' : entry_ok c x → mem_obj x = Some m → (¬ c → sio m' = true → swap_status x = SWAPOUT_WRITING) →
  0 <= nclients m' → 0 <= inmem_hi m' → 0 <= inmem_lo m' →
  (¬ c → flags x RELEASE_REQUEST = false → swap_status x = SWAPOUT_NONE → inmem_lo m' = 0 ∧ queue_offset m' = 0 ∧ (0 < inmem_hi m' → has_data m' = true)) →
  entry_ok c (with_mem x (Some m')).
Proof.
  intros [] Hm Hs Hc Hh Hl Hd. split; try (intros _; by eexists); try done; [intros Hw; split; [by eexists|by apply eo_writing]|intros Hcl m0 [= <-]; by apply Hs|intros m0 [= <-]; done|].
  intros Hcl m0 [= <-]. by apply Hd.
Qed.

(** Changing a memory object but for its clients and references. *)
Lemma edit_mem_ok X held s e (x : StoreEntry) m m' : Inv X held s → get s e = Some x → mem_obj x = Some m →
  nclients m' = nclients m → ims_entry m' = ims_entry m → old_entry m' = old_entry m → entry_ok (closing = Some e) (with_mem x (Some m')) →
  (0 < inmem_hi m → 0 < inmem_hi m') →
  Inv X held (put s e (with_mem x (Some m'))) ∧ only e s (put s e (with_mem x (Some m'))).
Proof.
  intros I He Hm Hc Hi Ho Hok Hhi. apply (edit_ok X held s e x); try done.
  - intros d. unfold refs_of. rewrite Hm. cbn. by rewrite Hi, Ho.
  - unfold storePendingNClients. by rewrite Hm.
  - unfold has_mem. by rewrite Hm.
  - intros Hn Hcl H1 H2 H3. destruct (iv_stored _ _ _ _ _ I e x He Hn Hcl H1 H2 H3) as (m0 & Hm0 & ?). assert (m0 = m) as -> by congruence. exists m'. split; [done|by apply Hhi].
Qed.

(** A memory object of which only sizes and times change. *)
Lemma resize_ok X held s e (x : StoreEntry) m sz t : Inv X held s → get s e = Some x → mem_obj x = Some m →
  Inv X held (put s e (with_mem x (Some (mem_size m sz t)))) ∧ only e s (put s e (with_mem x (Some (mem_size m sz t)))).
Proof.
  intros I He Hm. apply (edit_mem_ok X held s e x m); try done. pose proof (iv_entry _ _ _ _ _ I e x He) as Hok. pose proof Hok as [].
  destruct (eo_hi m Hm). apply (entry_ok_mem _ x m); try done; [exact (λ Hcl, eo_sio Hcl m Hm)|..|exact (λ Hcl, eo_data Hcl m Hm)].
  unfold storePendingNClients in eo_clients. by rewrite Hm in eo_clients.
Qed.

Lemma store_append_ok X held s e (x : StoreEntry) n : Inv X held s → get s e = Some x → pending x = true → 0 <= n →
  ∃ s', storeAppend s e n = Some s' ∧ Inv X held s' ∧ only e s s'.
Proof.
  intros I He Hp Hn. unfold storeAppend. rewrite He. cbn [mbind option_bind]. pose proof (iv_entry _ _ _ _ _ I e x He) as Hok. pose proof Hok as [].
  destruct (eo_pending Hp) as [m Hm]. rewrite Hm. cbn [mbind option_bind]. rewrite Hp. destruct (Z.leb_spec 0 n); [|lia]. cbn [negb orb].
  set (m' := if 0 <? n then _ else _). destruct (eo_hi m Hm) as [Hhi Hlo].
  assert (Hm' : nclients m' = nclients m ∧ ims_entry m' = ims_entry m ∧ old_entry m' = old_entry m ∧ sio m' = sio m ∧ inmem_hi m' = inmem_hi m + n ∧
    inmem_lo m' = inmem_lo m ∧ queue_offset m' = queue_offset m ∧ (has_data m = true ∨ 0 < n → has_data m' = true)).
  { unfold m'. destruct (Z.ltb_spec 0 n); [done|]. assert (n = 0) as -> by lia. cbn. rewrite Z.add_0_r. split_and!; try done. intros [|]; [done|lia]. }
  destruct Hm' as (H1 & H2 & H3 & H4 & H5 & H6 & H7 & H8). unfold storePendingNClients in eo_clients. rewrite Hm in eo_clients.
  destruct (edit_mem_ok X held s e x m m') as [I' O']; try done; [|lia|].
  - apply (entry_ok_mem _ x m); try done; rewrite ?H1, ?H4, ?H5, ?H6; try lia; [exact (λ Hcl, eo_sio Hcl m Hm)|].
    intros Hcl Hr Hs. destruct (eo_data Hcl m Hm Hr Hs) as (A & B & C). split_and!; try congruence. intros Hh. apply H8. destruct (Z.eq_dec n 0); [left; apply C|right]; lia.
  - destruct (flags x DELAY_SENDING); eexists; (split; [done|]); split; try done; [by apply inv_emit|]. eapply only_trans; [exact O'|apply only_emit].
Qed.

(** As many clients as locks: their count does not wrap. *)
Lemma clients_i32 X held s e (x : StoreEntry) m d : Inv X held s → get s e = Some x → mem_obj x = Some m → -1 <= d <= 1 → i32 (nclients m + d) = nclients m + d.
Proof.
  intros I He Hm Hd. destruct (iv_lock _ _ _ _ _ I e x He) as [E Hl]. pose proof (iv_held _ _ _ _ _ I e). pose proof (refs_nonneg s e).
  pose proof (writing_nonneg x). assert (Hc : storePendingNClients x = nclients m) by (unfold storePendingNClients; by rewrite Hm).
  pose proof (eo_clients _ _ (iv_entry _ _ _ _ _ I e x He)). assert (0 <= late s e) by (unfold late; lia). apply i32_small. lia.
Qed.

Lemma register_ok X held s e (x : StoreEntry) m : Inv X held s → get s e = Some x → mem_obj x = Some m → e ∉ X → lock_count x < 65535 →
  ∃ s' y, storeClientRegister s e = Some s' ∧ Inv X held s' ∧ only e s s' ∧ get s' e = Some y ∧ storePendingNClients y = nclients m + 1.
Proof.
  intros I He Hm HX Hl. unfold storeClientRegister, upd_mem. rewrite He. cbn [mbind option_bind]. rewrite Hm. cbn [mbind option_bind].
  unfold storeLockObject. rewrite get_put_eq. cbn [mbind option_bind]. set (x1 := with_mem x _). change (with_times _ _ _ _ _) with (locked (squid_curtime s) x1).
  assert (Ep : put (put s e x1) e (locked (squid_curtime s) x1) = put s e (locked (squid_curtime s) x1)) by (unfold put, set_entries; cbn; by rewrite insert_insert_eq).
  change (squid_curtime (put s e x1)) with (squid_curtime s). rewrite Ep. set (x2 := locked _ _) in *.
  assert (Hc : storePendingNClients x = nclients m) by (unfold storePendingNClients; by rewrite Hm). pose proof (iv_entry _ _ _ _ _ I e x He) as Hok. pose proof Hok as [].
  pose proof (clients_i32 X held s e x m 1 I He Hm ltac:(done)) as Hw.
  destruct (inv_lock X held s e x x2 0 I He HX) as [I1 O1]; try done.
  - change (lock_count x2) with (u16 (lock_count x + 1)). rewrite (lock_wrap X held s e x) by done. change (writing x2) with (writing x).
    rewrite Hc. change (storePendingNClients x2) with (i32 (nclients m + 1)). lia.
  - change (lock_count x2) with (u16 (lock_count x + 1)). rewrite (lock_wrap X held s e x) by done. lia.
  - intros d. unfold refs_of. by rewrite Hm.
  - unfold has_mem. by rewrite Hm.
  - assert (Hok1 : entry_ok (closing = Some e) x1).
    { destruct (eo_hi m Hm). apply (entry_ok_mem _ x m); try done; [exact (λ Hcl, eo_sio Hcl m Hm)|cbn; lia|exact (λ Hcl, eo_data Hcl m Hm)]. }
    destruct Hok1. by split.
  - intros Hcl H1 H2 H3. destruct (iv_stored _ _ _ _ _ I e x He HX Hcl H1 H2 H3) as (m0 & Hm0 & ?). assert (m0 = m) as -> by congruence. by eexists.
  - destruct (referenced_ok new closing X _ _ e _ I1 (get_put_eq _ _ _)) as (s2 & E2 & I2 & O2 & G2). exists s2, x2. split_and!; [done| |by eapply only_trans|by rewrite G2, get_put_eq|exact Hw].
    apply (inv_held new closing X (give held e 0)); [|done]. intros d. unfold give. destruct (decide _); lia.
Qed.


(** ** Transfers *)

(** Completing: the entry must be to be released, on disk, or hold data. *)
Definition completable (x : StoreEntry) (m : MemObject) : Prop :=
  flags x RELEASE_REQUEST = true ∨ swap_status x ≠ SWAPOUT_NONE ∨ 0 < inmem_hi m.

Lemma end_transfer_ok X held s e (x : StoreEntry) m sz t : Inv X held s → get s e = Some x → mem_obj x = Some m → completable x m →
  let x' := with_pending (with_mem x (Some (mem_size m sz t))) false in Inv X held (put s e x') ∧ only e s (put s e x').
Proof.
  intros I He Hm Hc x'. pose proof (iv_entry _ _ _ _ _ I e x He) as Hok. pose proof Hok as []. destruct (eo_hi m Hm).
  assert (Hc0 : storePendingNClients x = nclients m) by (unfold storePendingNClients; by rewrite Hm).
  apply (edit_ok X held s e x); try done.
  - intros d. unfold refs_of. by rewrite Hm.
  - unfold has_mem. by rewrite Hm.
  - assert (Hok' : entry_ok (closing = Some e) (with_mem x (Some (mem_size m sz t)))).
    { apply (entry_ok_mem _ x m); try done; [exact (λ Hcl, eo_sio Hcl m Hm)|cbn; lia|exact (λ Hcl, eo_data Hcl m Hm)]. }
    destruct Hok'. by split.
  - intros Hn Hcl _ H2 H3. cbn in H2, H3. exists (mem_size m sz t). split; [done|]. destruct Hc as [Hc|[Hc|Hc]]; [congruence|done|done].
Qed.

Lemma upd_mem_eq (s : store) e (x : StoreEntry) m f : get s e = Some x → mem_obj x = Some m → upd_mem s e f = Some (put s e (with_mem x (Some (f m)))).
Proof. intros He Hm. unfold upd_mem. rewrite He. cbn [mbind option_bind]. by rewrite Hm. Qed.

Lemma bad_length_ok X held s e (x : StoreEntry) m (b : bool) : Inv X held s → get s e = Some x → mem_obj x = Some m → keys_needed s <= INT_MAX →
  ∃ s' y, (if b then s ← EBIT_SET s e ENTRY_BAD_LENGTH; storeReleaseRequest s e else Some s) = Some s' ∧ Inv X held s' ∧ only e s s' ∧
    get s' e = Some y ∧ mem_obj y = Some m.
Proof.
  intros I He Hm Hk. destruct b; [|by exists s, x].
  destruct (set_flag_ok new closing X held s e x ENTRY_BAD_LENGTH true I He) as (s1 & E1 & I1 & O1 & _ & G1); [done..|].
  unfold EBIT_SET. rewrite E1. cbn [mbind option_bind].
  destruct (release_request_ok new closing X held s1 e _ I1 G1) as (s2 & y & E2 & I2 & O2 & _ & G2 & A2 & _); [pose proof (on_keys _ _ _ O1); lia|].
  exists s2, y. split_and!; try done; [by eapply only_trans|]. rewrite (al_mem _ _ _ A2). done.
Qed.

Lemma complete_ok X held s e (x : StoreEntry) m : Inv X held s → get s e = Some x → pending x = true → mem_obj x = Some m → completable x m →
  keys_needed s <= INT_MAX → ∃ s', storeComplete s e = Some s' ∧ Inv X held s' ∧ keys_needed s' <= keys_needed s.
Proof.
  intros I He Hp Hm Hc Hk. unfold storeComplete. rewrite He. cbn [mbind option_bind]. rewrite Hp, Hm. cbn [negb mbind option_bind].
  rewrite (eo_transfer _ _ (iv_entry _ _ _ _ _ I e x He) Hp). set (m1 := mem_size m _ _).
  destruct (end_transfer_ok X held s e x m (inmem_hi m) (refresh_timestamp m) I He Hm Hc) as [I1 O1]. fold m1 in I1, O1. set (s1 := put s e _) in *.
  destruct (bad_length_ok X held s1 e _ m1 (negb (storeEntryValidLength m1)) I1 (get_put_eq _ _ _)) as (s2 & y & E2 & I2 & O2 & G2 & Hy); [done|pose proof (on_keys _ _ _ O1); lia|].
  rewrite E2. cbn [mbind option_bind]. rewrite (upd_mem_eq s2 e y m1) by done. cbn [mbind option_bind].
  destruct (resize_ok X held s2 e y m1 (object_sz m1) 0 I2 G2 Hy) as [I3 O3]. set (s3 := put s2 e _) in *.
  pose proof (only_trans _ _ _ _ (only_trans _ _ _ _ O1 O2) O3) as O. change (old_entry m1) with (old_entry m). destruct (old_entry m) as [o|] eqn:Eo.
  2: { cbn [mbind option_bind]. eexists. split; [done|]. split; [by apply inv_emit|]. apply (on_keys _ _ _ O). }
  assert (Hr : 0 < refs s3 o).
  { rewrite (on_refs _ _ _ O). pose proof (refs_of_le s e x o He) as Hle. unfold refs_of in Hle. rewrite Hm, Eo in Hle. rewrite (opt_count_some _ o eq_refl) in Hle.
    pose proof (opt_count_nonneg (ims_entry m) o). lia. }
  destruct (get s3 o) as [z|] eqn:Ez; [|destruct (iv_dead _ _ _ _ _ I3 o Ez); lia]. cbn [mbind option_bind].
  destruct (mem_obj z) as [mz|] eqn:Emz; cbn [mbind option_bind].
  - rewrite (upd_mem_eq s3 o z mz) by done. cbn [mbind option_bind]. destruct (resize_ok X held s3 o z mz (object_sz mz) 0 I3 Ez Emz) as [I4 O4].
    eexists. split; [done|]. split; [by apply inv_emit|]. etransitivity; [exact (on_keys _ _ _ O4)|exact (on_keys _ _ _ O)].
  - eexists. split; [done|]. split; [by apply inv_emit|]. apply (on_keys _ _ _ O).
Qed.

Lemma file_close_ok X held s e (x : StoreEntry) m : Inv X held s → get s e = Some x → mem_obj x = Some m →
  ∃ s' b, storeSwapOutFileClose s e = Some s' ∧ Inv X held s' ∧ only e s s' ∧
    get s' e = Some (with_mem x (Some (mem_sio m b (swap_hdr_sz m) (queue_offset m)))) ∧ (b = true → sio m = true).
Proof.
  intros I He Hm. unfold storeSwapOutFileClose. rewrite He. cbn [mbind option_bind]. rewrite Hm. cbn [mbind option_bind]. destruct (sio m) eqn:Es.
  - rewrite (upd_mem_eq s e x m) by done. cbn [mbind option_bind]. pose proof (iv_entry _ _ _ _ _ I e x He) as Hok. pose proof Hok as []. destruct (eo_hi m Hm).
    destruct (edit_mem_ok X held s e x m (mem_sio m false (swap_hdr_sz m) (queue_offset m))) as [I1 O1]; try done.
    + apply (entry_ok_mem _ x m); try done; [|exact (λ Hcl, eo_data Hcl m Hm)]. unfold storePendingNClients in eo_clients. by rewrite Hm in eo_clients.
    + eexists _, false. split; [done|]. split_and!; [by apply inv_emit|by eapply only_trans; [|apply only_emit]|apply get_put_eq|done].
  - exists s, false. split_and!; try done. rewrite <- Es. rewrite He. f_equal. destruct x, m. cbn in Hm |- *. by rewrite Hm.
Qed.

(** ** Swapping out *)

Lemma close_unable_ok X held s e (x : StoreEntry) m (able : bool) : Inv X held s → get s e = Some x → mem_obj x = Some m → keys_needed s <= INT_MAX →
  ∃ s' y m', (if negb able then s ← storeReleaseRequest s e; if sio m then storeSwapOutFileClose s e else Some s else Some s) = Some s' ∧
    Inv X held s' ∧ only e s s' ∧ get s' e = Some y ∧ mem_obj y = Some m' ∧ swap_status y = swap_status x ∧ lock_count y = lock_count x ∧
    if able then s' = s else flags y RELEASE_REQUEST = true.
Proof.
  intros I He Hm Hk. destruct able; cbn [negb]; [by exists s, x, m|].
  destruct (release_request_ok new closing X held s e x I He Hk) as (s1 & x1 & E1 & I1 & O1 & _ & G1 & A1 & F1 & _). rewrite E1. cbn [mbind option_bind].
  assert (Hm1 : mem_obj x1 = Some m) by (rewrite (al_mem _ _ _ A1); done). destruct A1. destruct (sio m); [|by exists s1, x1, m].
  destruct (file_close_ok X held s1 e x1 m I1 G1 Hm1) as (s2 & b & E2 & I2 & O2 & G2 & _). eexists s2, _, _. split; [done|]. split_and!; try done. by eapply only_trans.
Qed.

Lemma free_data_ok X held s e (x : StoreEntry) m d lo : Inv X held s → get s e = Some x → mem_obj x = Some m → 0 <= lo →
  flags x RELEASE_REQUEST = true ∨ swap_status x ≠ SWAPOUT_NONE →
  Inv X held (put s e (with_mem x (Some (mem_data m d (inmem_hi m) lo)))) ∧ only e s (put s e (with_mem x (Some (mem_data m d (inmem_hi m) lo)))).
Proof.
  intros I He Hm Hlo Hc. apply (edit_mem_ok X held s e x m); try done. pose proof (iv_entry _ _ _ _ _ I e x He) as Hok. pose proof Hok as []. destruct (eo_hi m Hm).
  apply (entry_ok_mem _ x m); try done; [exact (λ Hcl, eo_sio Hcl m Hm)|..].
  - unfold storePendingNClients in eo_clients. by rewrite Hm in eo_clients.
  - intros _ H1 H2. destruct Hc; congruence.
Qed.

(** The data of an entry that could still be swapped out but is not yet stays. *)
Lemma trim_ok X held s e (x : StoreEntry) m cf lowest offset f : Inv X held s → get s e = Some x → mem_obj x = Some m → closing ≠ Some e →
  (∀ l, 0 <= (f l).2) → keys_needed s <= INT_MAX →
  ∃ s' y, storeSwapOutMaintainMemObject cf lowest offset f s e = Some s' ∧ Inv X held s' ∧ only e s s' ∧ get s' e = Some y ∧ is_Some (mem_obj y) ∧
    lock_count y = lock_count x.
Proof.
  intros I He Hm Hcl Hf Hk. unfold storeSwapOutMaintainMemObject. rewrite He. cbn [mbind option_bind].
  destruct (flags x ENTRY_SPECIAL); [by exists s, x; rewrite Hm|]. destruct (in_memory x); [by exists s, x; rewrite Hm|]. rewrite Hm. cbn [mbind option_bind].
  set (able := storeSwapOutAble cf x m).
  destruct (close_unable_ok X held s e x m able I He Hm Hk) as (s1 & x1 & m1 & E1 & I1 & O1 & G1 & Hm1 & Hs1 & Hl1 & Ha). rewrite E1. cbn [mbind option_bind].
  rewrite G1. cbn [mbind option_bind]. rewrite Hm1. cbn [mbind option_bind]. set (lo := if _ <? inmem_lo m1 then _ else _).
  destruct (Z.eqb_spec (inmem_lo m1) lo) as [|Hlo]; [exists s1, x1; by rewrite Hm1|]. destruct (f lo) as [d lo'] eqn:Ef.
  assert (Hfree : flags x1 RELEASE_REQUEST = true ∨ swap_status x1 ≠ SWAPOUT_NONE).
  { destruct able eqn:Ea; [|by left]. destruct (flags x1 RELEASE_REQUEST) eqn:Er; [by left|]. destruct (swap_status x1) eqn:Es; [|by right..]. exfalso.
    pose proof (iv_entry _ _ _ _ _ I1 e x1 G1) as []. destruct (eo_data Hcl m1 Hm1 Er Es) as (H1 & H2 & _). apply Hlo. unfold lo. rewrite H1, H2.
    destruct (sio m1) eqn:Esio; [by rewrite (eo_sio Hcl m1 Hm1 Esio) in Es|]. cbn [negb andb].
    set (l := if maxInMemObjSize cf <? inmem_hi m1 then _ else _). destruct (Z.eqb_spec l 0) as [->|]; cbn [negb andb]; [done|].
    destruct (Z.ltb_spec (0 - 1) l); [done|]. destruct (Z.ltb_spec l 0); [done|lia]. }
  destruct (free_data_ok X held s1 e x1 m1 d lo' I1 G1 Hm1) as [I2 O2]; [specialize (Hf lo); by rewrite Ef in Hf|done|].
  eexists _, _. split; [done|]. split_and!; [done|by eapply only_trans|apply get_put_eq|done|done].
Qed.

Lemma check_cachable_ok X held s e (x : StoreEntry) m cf busy : Inv X held s → get s e = Some x → mem_obj x = Some m → keys_needed s <= INT_MAX →
  ∃ ok s' y, storeCheckCachable cf busy s e = Some (ok, s') ∧ Inv X held s' ∧ only e s s' ∧ get s' e = Some y ∧
    alike [RELEASE_REQUEST; ENTRY_CACHABLE; KEY_PRIVATE] x y ∧ (flags x RELEASE_REQUEST = true → flags y RELEASE_REQUEST = true) ∧
    (ok = true → s' = s ∧ y = x ∧ flags x RELEASE_REQUEST = false ∧ flags x KEY_PRIVATE = false ∧ flags x ENTRY_CACHABLE = true).
Proof.
  intros I He Hm Hk. unfold storeCheckCachable. rewrite He. cbn [mbind option_bind].
  set (no := s ← storeReleaseRequest s e; s ← EBIT_CLR s e ENTRY_CACHABLE; Some (false, s)).
  set (goal := λ r : option (bool * store), ∃ ok s' y, r = Some (ok, s') ∧ Inv X held s' ∧ only e s s' ∧ get s' e = Some y ∧
    alike [RELEASE_REQUEST; ENTRY_CACHABLE; KEY_PRIVATE] x y ∧ (flags x RELEASE_REQUEST = true → flags y RELEASE_REQUEST = true) ∧
    (ok = true → s' = s ∧ y = x ∧ flags x RELEASE_REQUEST = false ∧ flags x KEY_PRIVATE = false ∧ flags x ENTRY_CACHABLE = true)).
  assert (Hno : goal no).
  { unfold no. destruct (release_request_ok new closing X held s e x I He Hk) as (s1 & y & E1 & I1 & O1 & _ & G1 & A1 & F1 & _). rewrite E1. cbn [mbind option_bind].
    destruct (set_flag_ok new closing X held s1 e y ENTRY_CACHABLE false I1 G1) as (s2 & E2 & I2 & O2 & _ & G2); [done..|]. unfold EBIT_CLR. rewrite E2. cbn [mbind option_bind].
    eexists false, s2, _. split; [done|]. split_and!; try done; [by eapply only_trans|].
    apply (alike_weaken ([RELEASE_REQUEST; ENTRY_CACHABLE; KEY_PRIVATE] ++ [ENTRY_CACHABLE])); [set_solver|]. by eapply alike_trans, alike_flag. }
  assert (Hsame : ∀ ok, (ok = true → flags x RELEASE_REQUEST = false ∧ flags x KEY_PRIVATE = false ∧ flags x ENTRY_CACHABLE = true) → goal (Some (ok, s))).
  { intros ok Hok. exists ok, s, x. split_and!; try done. intros ->. by split_and!; try apply Hok. }
  fold (goal (if negb (pending x) && flags x ENTRY_BAD_LENGTH then no else
    if flags x RELEASE_REQUEST then no else if negb (flags x ENTRY_CACHABLE) then no else
    if flags x ENTRY_NEGCACHED then Some (false, s) else
    m ← mem_obj x; if ((0 <? content_length (reply m)) && (maxObjectSize cf <? content_length (reply m))) || (maxObjectSize cf <? inmem_hi m) then no else
    if storeCheckTooSmall cf x m then no else if flags x KEY_PRIVATE then no else
    if negb (bool_decide (swap_status x = SWAPOUT_NONE)) then Some (true, s) else if busy then no else Some (true, s))).
  destruct (negb (pending x) && _); [done|]. destruct (flags x RELEASE_REQUEST) eqn:Er; [done|]. destruct (flags x ENTRY_CACHABLE) eqn:Ec; cbn [negb]; [|done].
  destruct (flags x ENTRY_NEGCACHED); [by apply Hsame|]. rewrite Hm. cbn [mbind option_bind]. destruct (_ || _); [done|]. destruct (storeCheckTooSmall cf x m); [done|].
  destruct (flags x KEY_PRIVATE) eqn:Ep; [done|]. destruct (negb _); [by apply Hsame|]. destruct busy; [done|by apply Hsame].
Qed.

(** Opening a file takes a lock that [swap_status] accounts for. *)
Lemma swap_start_ok X held s e (x : StoreEntry) m hdr file : Inv X held s → get s e = Some x → mem_obj x = Some m → e ∉ X → swap_status x = SWAPOUT_NONE →
  lock_count x < 65535 → (∀ fn dn, file = Some (fn, dn) → 0 <= fn) →
  ∃ s', storeSwapOutStart s e hdr file = Some s' ∧ Inv X held s' ∧ only e s s'.
Proof.
  intros I He Hm HX Hs Hl Hf. unfold storeSwapOutStart. rewrite He. cbn [mbind option_bind]. rewrite Hm. cbn [mbind option_bind].
  pose proof (iv_entry _ _ _ _ _ I e x He) as Hok. pose proof Hok as []. destruct (eo_hi m Hm) as [Hhi Hlo].
  assert (Hc : storePendingNClients x = nclients m) by (unfold storePendingNClients; by rewrite Hm).
  assert (Hst : ∀ m' : MemObject, inmem_hi m' = inmem_hi m → ¬ moving new closing e → pending x = false → flags x RELEASE_REQUEST = false → ∃ m0, Some m' = Some m0 ∧ 0 < inmem_hi m0).
  { intros m' Hm' Hcl H1 H2. destruct (iv_stored _ _ _ _ _ I e x He HX Hcl H1 H2 Hs) as (m0 & Hm0 & ?). assert (m0 = m) as -> by congruence. exists m'. split; [done|lia]. }
  destruct file as [[fn dn]|].
  - set (x1 := with_swap _ _ _ _ SWAPOUT_WRITING). unfold storeLockObject. rewrite get_put_eq. cbn [mbind option_bind]. set (x2 := with_times _ _ _ _ _).
    change (squid_curtime (put s e x1)) with (squid_curtime s) in x2.
    set (x3 := with_swap x2 (swap_file_sz x2) fn dn (swap_status x2)).
    destruct (inv_lock X held s e x x3 0 I He HX) as [I3 O3]; try done.
    + change (lock_count x3) with (u16 (lock_count x + 1)). rewrite (lock_wrap X held s e x) by done. rewrite Hc. change (storePendingNClients x3) with (nclients m).
      change (writing x3) with 1. unfold writing. rewrite decide_False by congruence. lia.
    + change (lock_count x3) with (u16 (lock_count x + 1)). rewrite (lock_wrap X held s e x) by done. lia.
    + intros d. unfold refs_of. by rewrite Hm.
    + unfold has_mem. by rewrite Hm.
    + split; try (intros _; by eexists); try done.
      * intros _. split; [by eexists|]. by apply (Hf fn dn).
      * change (storePendingNClients x3) with (nclients m). lia.
      * by intros m' [= <-].
    + assert (Ep : ∃ l h lg, storeEntryReferenced (put (put s e x1) e x2) e = Some (mkStore (<[e := x2]> (entries s)) (table s) (key_counter s) l h (LateReleaseStack s) (rebuilding s) (squid_curtime s) lg) ∧
        ∀ d, d ∈ l → d ∈ mem_lru s).
      { unfold storeEntryReferenced. rewrite get_put_eq. cbn [mbind option_bind mem_obj with_times with_lock with_swap with_mem x2 x1]. unfold put, set_entries. cbn. rewrite insert_insert_eq.
        destruct (-1 <? swap_dirn x); eexists _, _, _; (split; [done|]); intros d; apply elem_touch. }
      destruct Ep as (l & h & lg & -> & Hsub). cbn [mbind option_bind]. unfold upd, get. cbn [entries]. rewrite lookup_insert_eq. cbn [mbind option_bind]. fold x3.
      eexists. split; [done|]. unfold put, set_entries. cbn. rewrite insert_insert_eq.
      set (s4 := mkStore _ _ _ _ _ _ _ _ _).
      assert (Es4 : s4 = mkStore (entries (put s e x3)) (table s) (key_counter s) l h (LateReleaseStack s) (rebuilding s) (squid_curtime s) lg) by done.
      split.
      * apply (inv_same new closing X held (set_lru (put s e x3) l h)); try done. apply inv_set_lru; [|intros d Hd; apply (iv_lru _ _ _ _ _ I3); by apply Hsub].
        eapply (inv_held new closing); [|exact I3]. intros d. unfold give. destruct (decide _); lia.
      * destruct O3. by split.
  - set (x1 := with_swap _ _ _ _ _). eexists. split; [done|]. apply (edit_ok X held s e x); try done.
    + intros d. unfold refs_of. by rewrite Hm.
    + unfold writing. cbn. by rewrite Hs.
    + unfold has_mem. by rewrite Hm.
    + split; try (intros _; by eexists); try done.
      * by intros _ m' [= <-].
      * change (storePendingNClients x1) with (nclients m). lia.
      * by intros m' [= <-].
      * intros Hcl m' [= <-] H1 _. by apply (eo_data Hcl m).
    + intros _ Hcl H1 H2 _. by apply Hst.
Qed.

Lemma swap_begin_ok X held s e (x : StoreEntry) m cf busy hdr file : Inv X held s → get s e = Some x → mem_obj x = Some m → e ∉ X → closing ≠ Some e →
  swap_status x = SWAPOUT_NONE → storeSwapOutAble cf x m = true → queue_offset m ≠ inmem_hi m → lock_count x < 65535 →
  (∀ fn dn, file = Some (fn, dn) → 0 <= fn) → keys_needed s <= INT_MAX →
  ∃ s', swap_out_begin cf busy s e hdr file = Some s' ∧ Inv X held s' ∧ only e s s'.
Proof.
  intros I He Hm HX Hcl Hs Ha Hq Hl Hf Hk. unfold swap_out_begin. rewrite He. cbn [mbind option_bind]. rewrite Hm. cbn [mbind option_bind].
  pose proof (iv_entry _ _ _ _ _ I e x He) as []. assert (Hsio : sio m = false) by (destruct (sio m) eqn:E; [|done]; by rewrite (eo_sio Hcl m Hm E) in Hs).
  assert (Hlo : inmem_lo m = 0).
  { destruct (eo_hi m Hm) as [_ H0]. unfold storeSwapOutAble in Ha. destruct (maxObjectSize cf <? inmem_hi m); [done|]. destruct (flags x ENTRY_CACHABLE); [|done]. cbn [negb] in Ha.
    rewrite Hsio in Ha. destruct (Z.eqb_spec (queue_offset m) (inmem_hi m)); [done|]. rewrite andb_false_r in Ha. destruct (Z.ltb_spec 0 (inmem_lo m)); [done|lia]. }
  rewrite Hsio, Hlo. cbn [negb orb Z.eqb].
  destruct (check_cachable_ok X held s e x m cf busy I He Hm Hk) as (ok & s1 & y & E1 & I1 & O1 & G1 & A1 & _ & H1). rewrite E1. cbn [mbind option_bind].
  destruct ok; [|by exists s1]. destruct (H1 eq_refl) as (-> & -> & _). by apply (swap_start_ok X held s e x m).
Qed.

Lemma swap_write_ok X held s e (x : StoreEntry) m len : Inv X held s → get s e = Some x → mem_obj x = Some m → closing ≠ Some e → sio m = true → 0 < len →
  ∃ s', swap_out_write s e len = Some s' ∧ Inv X held s' ∧ only e s s'.
Proof.
  intros I He Hm Hcl Hs Hlen. unfold swap_out_write. rewrite He. cbn [mbind option_bind]. rewrite Hm. cbn [mbind option_bind]. rewrite Hs.
  destruct (Z.ltb_spec 0 len); [|lia]. cbn [negb orb]. rewrite (upd_mem_eq s e x m) by done. eexists. split; [done|]. pose proof (iv_entry _ _ _ _ _ I e x He) as Hok. pose proof Hok as [].
  destruct (eo_hi m Hm). apply (edit_mem_ok X held s e x m); try done. apply (entry_ok_mem _ x m); try done.
  - intros _ _. by apply (eo_sio Hcl m).
  - unfold storePendingNClients in eo_clients. by rewrite Hm in eo_clients.
  - intros _ _ Hn. by rewrite (eo_sio Hcl m Hm Hs) in Hn.
Qed.

Lemma swap_finish_ok X held s e (x : StoreEntry) m : Inv X held s → get s e = Some x → mem_obj x = Some m →
  (sio m = true → pending x = false → inmem_hi m = queue_offset m) →
  ∃ s', swap_out_finish s e = Some s' ∧ Inv X held s' ∧ only e s s'.
Proof.
  intros I He Hm Hq. unfold swap_out_finish. rewrite He. cbn [mbind option_bind]. rewrite Hm. cbn [mbind option_bind].
  destruct (sio m) eqn:Es; cbn [negb]; [|by exists s]. destruct (pending x) eqn:Ep; [by exists s|]. rewrite Hq, Z.eqb_refl by done.
  destruct (file_close_ok X held s e x m I He Hm) as (s' & b & E & I' & O & _). by exists s'.
Qed.
Context (idle : ∀ e, closing ≠ Some e).

Lemma abort_ok X held s e (x : StoreEntry) m : Inv X held s → get s e = Some x → e ∉ X → pending x = true → mem_obj x = Some m → new ≠ Some e →
  lock_count x < 65535 → keys_needed s <= INT_MAX → ∃ s', storeAbort s e = Some s' ∧ Inv X held s' ∧ keys_needed s' <= keys_needed s.
Proof.
  intros I He HX Hp Hm Hne Hl Hk. unfold storeAbort. rewrite He. cbn [mbind option_bind]. rewrite Hm. cbn [mbind option_bind]. rewrite Hp. cbn [negb].
  destruct (storeLock_ok X held s e x I He HX Hl) as (s1 & E1 & I1 & O1 & G1). rewrite E1. cbn [mbind option_bind]. set (h := give held e 1) in *.
  destruct (expire_ok new closing X h s1 e _ I1 G1) as (s2 & x2 & E2 & I2 & O2 & _ & G2 & A2 & _). rewrite E2. cbn [mbind option_bind].
  pose proof (only_trans _ _ _ _ O1 O2) as O12.
  destruct (release_request_ok new closing X h s2 e x2 I2 G2) as (s3 & x3 & E3 & I3 & O3 & _ & G3 & A3 & F3 & _); [pose proof (on_keys _ _ _ O12); lia|]. rewrite E3. cbn [mbind option_bind].
  destruct (set_flag_ok new closing X h s3 e x3 ENTRY_ABORTED true I3 G3) as (s4 & E4 & I4 & O4 & _ & G4); [done..|]. unfold EBIT_SET. rewrite E4. cbn [mbind option_bind].
  destruct (leave_memory_ok new closing X h s4 e _ I4 G4) as (s5 & E5 & I5 & O5 & G5). rewrite E5. cbn [mbind option_bind]. set (x5 := with_memory _ _) in *.
  assert (Hm5 : mem_obj x5 = Some m) by (cbn; rewrite (al_mem _ _ _ A3), (al_mem _ _ _ A2); done).
  rewrite (upd_eq s5 e x5) by done. cbn [mbind option_bind]. rewrite (upd_mem_eq (put s5 e (with_pending x5 false)) e (with_pending x5 false) m) by (by try apply get_put_eq). cbn [mbind option_bind].
  destruct (end_transfer_ok X h s5 e x5 m (inmem_hi m) (refresh_timestamp m) I5 G5 Hm5) as [I6 O6]; [by left|]. set (x6 := with_pending (with_mem _ _) false) in *.
  assert (Ep : put (put s5 e (with_pending x5 false)) e (with_mem (with_pending x5 false) (Some (mem_size m (inmem_hi m) (refresh_timestamp m)))) = put s5 e x6).
  { unfold put, set_entries. cbn. by rewrite insert_insert_eq. }
  rewrite Ep. set (s6 := put s5 e x6) in *. assert (G6 : get s6 e = Some x6) by apply get_put_eq. set (m6 := mem_size m (inmem_hi m) (refresh_timestamp m)) in *.
  assert (∃ s7 x7 m7, (if abort_callback m then s ← upd_mem s6 e (λ m, mem_request m (request m) false); Some (emit s (AbortCallback e)) else Some s6) = Some s7 ∧
    Inv X h s7 ∧ only e s6 s7 ∧ get s7 e = Some x7 ∧ mem_obj x7 = Some m7) as (s7 & x7 & m7 & -> & I7 & O7 & G7 & Hm7).
  { destruct (abort_callback m); [|by exists s6, x6, m6]. rewrite (upd_mem_eq s6 e x6 m6) by done. cbn [mbind option_bind].
    destruct (forget_request_ok new closing X h s6 e x6 m6 (request m6) false I6 G6 eq_refl) as [I7 O7].
    eexists _, _, _. split; [done|]. split_and!; [by apply inv_emit|by eapply only_trans; [|apply only_emit]|apply get_put_eq|done]. }
  cbn [mbind option_bind]. destruct (file_close_ok X h (emit s7 (Handlers e)) e x7 m7) as (s8 & b & E8 & I8 & O8 & _); [by apply inv_emit|done|done|]. rewrite E8. cbn [mbind option_bind].
  assert (K8 : keys_needed s8 <= keys_needed s).
  { pose proof (on_keys _ _ _ O12). pose proof (on_keys _ _ _ O3). pose proof (on_keys _ _ _ O4). pose proof (on_keys _ _ _ O5). pose proof (on_keys _ _ _ O6).
    pose proof (on_keys _ _ _ O7). pose proof (on_keys _ _ _ O8) as H8. change (keys_needed (emit s7 (Handlers e))) with (keys_needed s7) in H8. lia. }
  destruct (unlock_ok new closing idle X h s8 e I8 Hne) as (s9 & E9 & I9 & C9); [unfold h; rewrite give_eq; pose proof (iv_held _ _ _ _ _ I e); lia|lia|].
  exists s9. split; [done|]. split; [|pose proof (cm_keys _ _ _ _ _ C9); lia]. eapply (inv_held new closing); [|exact I9]. intros d. unfold h, give. destruct (decide _); lia.
Qed.

Lemma quick_abort_ok X held s e (x : StoreEntry) qa : Inv X held s → get s e = Some x → is_Some (mem_obj x) → e ∉ X → new ≠ Some e → lock_count x < 65535 →
  keys_needed s <= INT_MAX → ∃ s', CheckQuickAbort qa s e = Some s' ∧ Inv X held s' ∧ keys_needed s' <= keys_needed s.
Proof.
  intros I He [m Hm] HX Hne Hl Hk. unfold CheckQuickAbort. rewrite He. cbn [mbind option_bind]. destruct (0 <? _); [by exists s|].
  destruct (pending x) eqn:Hp; cbn [negb]; [|by exists s]. destruct (flags x ENTRY_SPECIAL); [by exists s|]. rewrite Hm. cbn [mbind option_bind].
  destruct (CheckQuickAbort2 qa x m); [|by exists s]. by apply (abort_ok X held s e x m).
Qed.

(** A client that leaves hands its lock over. *)
Lemma unregister_ok X held s e (x : StoreEntry) m qa cf lowest offset f : Inv X held s → get s e = Some x → mem_obj x = Some m → e ∉ X → new ≠ Some e →
  1 <= nclients m → lock_count x < 65535 → (∀ l, 0 <= (f l).2) → keys_needed s <= INT_MAX →
  ∃ s', storeClientUnregister qa (storeSwapOutMaintainMemObject cf lowest offset f) s e = Some s' ∧ Inv X held s'.
Proof.
  intros I He Hm HX Hne Hn Hl Hf Hk. unfold storeClientUnregister. rewrite (upd_mem_eq s e x m) by done. cbn [mbind option_bind].
  set (x1 := with_mem x _). assert (Hc : storePendingNClients x = nclients m) by (unfold storePendingNClients; by rewrite Hm).
  pose proof (iv_entry _ _ _ _ _ I e x He) as Hok. pose proof Hok as []. pose proof (iv_held _ _ _ _ _ I e) as Hh.
  pose proof (clients_i32 X held s e x m (-1) I He Hm ltac:(done)) as Hw. change (nclients m + -1) with (nclients m - 1) in Hw.
  destruct (inv_lock X held s e x x1 1 I He HX) as [I1 O1]; try done.
  - change (writing x1) with (writing x). change (storePendingNClients x1) with (i32 (nclients m - 1)). change (lock_count x1) with (lock_count x). lia.
  - apply (iv_lock _ _ _ _ _ I e x He).
  - intros d. unfold refs_of. by rewrite Hm.
  - unfold has_mem. by rewrite Hm.
  - destruct (eo_hi m Hm). apply (entry_ok_mem _ x m); try done; [exact (λ Hcl, eo_sio Hcl m Hm)|cbn; lia|exact (λ Hcl, eo_data Hcl m Hm)].
  - intros Hcl H1 H2 H3. destruct (iv_stored _ _ _ _ _ I e x He HX Hcl H1 H2 H3) as (m0 & Hm0 & ?). assert (m0 = m) as -> by congruence. by eexists.
  - set (h := give held e 1) in *. pose proof (on_keys _ _ _ O1) as K1.
    destruct (trim_ok X h (put s e x1) e x1 _ cf lowest offset f I1 (get_put_eq _ _ _) eq_refl (idle e) Hf) as (s2 & y & E2 & I2 & O2 & G2 & My & Ly); [lia|].
    rewrite E2. cbn [mbind option_bind]. rewrite G2. cbn [mbind option_bind]. destruct My as [my My]. rewrite My. cbn [mbind option_bind]. pose proof (on_keys _ _ _ O2) as K2.
    assert (∃ s3, (if nclients my =? 0 then CheckQuickAbort qa s2 e else Some s2) = Some s3 ∧ Inv X h s3 ∧ keys_needed s3 <= keys_needed s2) as (s3 & -> & I3 & K3).
    { destruct (nclients my =? 0); [|by exists s2]. apply (quick_abort_ok X h s2 e y); try done; [by rewrite Ly|lia]. }
    cbn [mbind option_bind]. destruct (unlock_ok new closing idle X h s3 e I3 Hne) as (s4 & E4 & I4 & _); [unfold h; rewrite give_eq; lia|lia|].
    exists s4. split; [done|]. eapply (inv_held new closing); [|exact I4]. intros d. unfold h, give. destruct (decide _); lia.
Qed.
End Safe.

Section Steps.
Context {K R : Type} `{EqDecision K} `{!StoreKeys K R} `{!StoreKeysOk K R}.
Notation store := (@store K R).
Notation StoreEntry := (@StoreEntry K R).
Notation MemObject := (@MemObject R).

Lemma none_idle (e : Z) : None ≠ Some e.
Proof. done. Qed.

(** ** Closing a swap file *)

Lemma inv_closing new X held (s : store) e : Inv new None X held s → Inv new (Some e) X held s.
Proof.
  intros []. split; try done.
  - intros d x Hd. destruct (iv_entry d x Hd). split; try done; intros _; [exact (eo_sio (none_idle d))|exact (eo_data (none_idle d))].
  - intros d x Hd Hn Hmv. apply (iv_stored d x Hd Hn). intros [|]; [done|]. apply Hmv. by right.
Qed.
Lemma inv_closed new X held (s : store) e x : Inv new (Some e) X held s → get s e = Some x → entry_ok False x → (e ∉ X → new ≠ Some e → stored x) → Inv new None X held s.
Proof.
  intros [] He Hok Hst. split; try done.
  - intros d y Hd. destruct (decide (d = e)) as [->|Hne].
    + assert (y = x) as -> by congruence. destruct Hok. split; try done; intros _; [exact (eo_sio (λ H, H))|exact (eo_data (λ H, H))].
    + destruct (iv_entry d y Hd). split; try done; intros _; [apply eo_sio|apply eo_data]; congruence.
  - intros d y Hd Hn Hmv. destruct (decide (d = e)) as [->|Hne].
    + assert (y = x) as -> by congruence. apply Hst; [done|]. intros Hnw. apply Hmv. by right.
    + apply (iv_stored d y Hd Hn). intros [|Hnw]; [congruence|]. apply Hmv. by right.
Qed.

(** The entry leaves SWAPOUT_WRITING: the lock it had for that is now held. *)
Lemma leave_writing_ok new X held s e (x : StoreEntry) m sz fn dn st : Inv new None X held s → get s e = Some x → mem_obj x = Some m → e ∉ X →
  swap_status x = SWAPOUT_WRITING → st ≠ SWAPOUT_WRITING →
  Inv new (Some e) X (give held e 1) (put s e (with_swap x sz fn dn st)) ∧ only e s (put s e (with_swap x sz fn dn st)).
Proof.
  intros I%(inv_closing new X held s e) He Hm HX Hw Hst. set (x' := with_swap _ _ _ _ _). pose proof (iv_entry _ _ _ _ _ I e x He) as Hok.
  apply (inv_lock new (Some e) X held s e x x' 1); try done.
  - change (storePendingNClients x') with (storePendingNClients x). change (lock_count x') with (lock_count x).
    unfold writing. rewrite Hw. cbn. rewrite (decide_False (P := st = SWAPOUT_WRITING)), decide_True by done. lia.
  - apply (iv_lock _ _ _ _ _ I e x He).
  - destruct Hok. by split.
  - intros Hmv. destruct Hmv. by left.
Qed.

(** With the file gone the entry is as it should be. *)
Lemma sio_off_ok X held s e (x : StoreEntry) m : Inv None (Some e) X held s → get s e = Some x → mem_obj x = Some m → swap_status x ≠ SWAPOUT_WRITING →
  flags x RELEASE_REQUEST = true ∨ swap_status x = SWAPOUT_DONE →
  let x' := with_mem x (Some (mem_sio m false (swap_hdr_sz m) (queue_offset m))) in Inv None None X held (put s e x') ∧ only e s (put s e x').
Proof.
  intros I He Hm Hw Hd x'. pose proof (iv_entry _ _ _ _ _ I e x He) as Hok. pose proof Hok as []. destruct (eo_hi m Hm).
  assert (Hn : 0 <= nclients m) by (unfold storePendingNClients in eo_clients; by rewrite Hm in eo_clients).
  assert (Hoff : ∀ c, entry_ok c x').
  { intros c. split; try (intros _; by eexists); try done.
    - by intros _ m' [= <-].
    - by intros m' [= <-].
    - intros _ m' [= <-] H1 H2. cbn in H1, H2. destruct Hd; congruence. }
  destruct (edit_mem_ok None (Some e) X held s e x m (mem_sio m false (swap_hdr_sz m) (queue_offset m)) I He Hm) as [I1 O1]; try done.
  split; [|done]. apply (inv_closed None X held _ e x' I1 (get_put_eq _ _ _)); [apply Hoff|]. intros _ _ H1 H2 H3. cbn in H2, H3. destruct Hd; congruence.
Qed.

Lemma swap_closed_ok X held s e (x : StoreEntry) cf err lowest offset f : Inv None None X held s → get s e = Some x → e ∉ X → swap_status x = SWAPOUT_WRITING →
  (∀ l, 0 <= (f l).2) → keys_needed s <= INT_MAX →
  ∃ s', storeSwapOutFileClosed cf (storeSwapOutMaintainMemObject cf lowest offset f) err s e = Some s' ∧ Inv None None X held s'.
Proof.
  intros I He HX Hw Hf Hk. destruct (eo_writing _ _ (iv_entry _ _ _ _ _ I e x He) Hw) as [[m Hm] Hfn]. unfold storeSwapOutFileClosed. rewrite He. cbn [mbind option_bind].
  rewrite bool_decide_eq_true_2 by done. cbn [negb].
  set (branch := if err then _ else _).
  assert (∃ s1 y, branch = Some s1 ∧ Inv None (Some e) X (give held e 1) s1 ∧ only e s s1 ∧ get s1 e = Some y ∧ mem_obj y = Some m ∧
    (flags y RELEASE_REQUEST = true ∨ swap_status y = SWAPOUT_DONE) ∧ swap_status y ≠ SWAPOUT_WRITING) as (s1 & y & -> & I1 & O1 & G1 & Hm1 & Hd1 & Hs1).
  { unfold branch. destruct err.
    - set (s0 := if 0 <? swap_filen x then emit s (Unlink e) else s).
      assert (I0 : Inv None None X held s0 ∧ only e s s0 ∧ get s0 e = Some x) by (unfold s0; destruct (0 <? swap_filen x); split_and!; try done; by apply inv_emit).
      destruct I0 as (I0 & O0 & G0). destruct (leave_writing_ok None X held s0 e x m (swap_file_sz x) (-1) (-1) SWAPOUT_NONE I0 G0 Hm HX Hw) as [I1 O1]; [done|].
      pose proof (only_trans _ _ _ _ O0 O1) as O01.
      destruct (release_request_ok None (Some e) X _ _ e _ I1 (get_put_eq _ _ _)) as (s2 & y & E2 & I2 & O2 & _ & G2 & A2 & F2 & _); [pose proof (on_keys _ _ _ O01); lia|].
      exists s2, y. split_and!; try done; [by eapply only_trans|by rewrite (al_mem _ _ _ A2)|by left|by rewrite (al_status _ _ _ A2)].
    - rewrite Hm. cbn [mbind option_bind]. set (sz := object_sz m + swap_hdr_sz m).
      destruct (leave_writing_ok None X held s e x m sz (swap_filen x) (swap_dirn x) SWAPOUT_DONE I He Hm HX Hw) as [I1 O1]; [done|]. set (s0 := emit _ _).
      assert (I0 : Inv None (Some e) X (give held e 1) s0) by (by apply inv_emit).
      destruct (check_cachable_ok None (Some e) X _ s0 e (with_swap x sz (swap_filen x) (swap_dirn x) SWAPOUT_DONE) m cf false I0 (get_put_eq _ _ _) Hm) as (ok & s2 & y & E2 & I2 & O2 & G2 & A2 & _ & H2).
      { pose proof (on_keys _ _ _ O1) as HK. change (keys_needed s0) with (keys_needed (put s e (with_swap x sz (swap_filen x) (swap_dirn x) SWAPOUT_DONE))). lia. }
      rewrite E2. cbn [mbind option_bind].
      assert (Hy : mem_obj y = Some m ∧ swap_status y = SWAPOUT_DONE) by (rewrite (al_mem _ _ _ A2), (al_status _ _ _ A2); done). destruct Hy as [Hmy Hsy].
      assert (O02 : only e s s2) by (eapply only_trans; [exact O1|]; eapply only_trans; [apply (only_emit e _ (SwapSize (swap_dirn x) sz 1))|exact O2]).
      destruct ok.
      + destruct (H2 eq_refl) as (-> & -> & _ & Hp & _). destruct (swap_log_ok s0 e _ (SwapLogAdd e) G2 Hp Hfn) as [l ->].
        eexists _, _. split; [done|]. split; [by apply (inv_same _ _ _ _ s0)|]. split; [by destruct O02; split|]. split_and!; [exact G2|done|by right|by rewrite Hsy].
      + exists s2, y. split_and!; try done; [by right|by rewrite Hsy]. }
  cbn [mbind option_bind]. rewrite (upd_mem_eq s1 e y m) by done. cbn [mbind option_bind].
  destruct (sio_off_ok X (give held e 1) s1 e y m I1 G1 Hm1 Hs1 Hd1) as [I2 O2]. set (s2 := put s1 e _) in *. pose proof (only_trans _ _ _ _ O1 O2) as O12.
  destruct (trim_ok None None X (give held e 1) s2 e _ _ cf lowest offset f I2 (get_put_eq _ _ _) eq_refl (none_idle e) Hf) as (s3 & z & E3 & I3 & O3 & _); [pose proof (on_keys _ _ _ O12); lia|].
  rewrite E3. cbn [mbind option_bind]. pose proof (only_trans _ _ _ _ O12 O3) as O13.
  destruct (unlock_ok None None none_idle X (give held e 1) s3 e I3 (none_idle e)) as (s4 & E4 & I4 & _); [rewrite give_eq; pose proof (iv_held _ _ _ _ _ I e); lia|pose proof (on_keys _ _ _ O13); lia|].
  exists s4. split; [done|]. eapply (inv_held None None); [|exact I4]. intros d. unfold give. destruct (decide _); lia.
Qed.

(** ** Public keys *)

Section Public.
Context (new : option Z).
Notation Inv := (Inv new None []).

(** An entry that no public key finds. *)
Definition hidden (x : StoreEntry) : Prop := flags x KEY_PRIVATE = true ∨ key x = None.
(** An entry that was released: freed, or to be freed with its last lock. *)
Definition retired (s : store) (e : Z) : Prop :=
  match get s e with Some y => flags y KEY_PRIVATE = true ∧ flags y RELEASE_REQUEST = true | None => True end.

Lemma hidden_unlinked held s e (x : StoreEntry) k d : Inv held s → get s e = Some x → hidden x → (∀ i, ¬ private_key k i) → (k, d) ∈ table s → d ≠ e.
Proof.
  intros I He Hh Hk Hin ->. destruct (iv_table _ _ _ _ _ I k e Hin) as (y & Hy & Hky). assert (y = x) as -> by congruence.
  destruct Hh as [Hp|]; [|congruence]. destruct (iv_key _ _ _ _ _ I e x k Hy Hky) as [_ Hpk]. rewrite Hp in Hpk. destruct Hpk as (i & Hi & _). by apply (Hk i).
Qed.

(** Releasing the entry that another key finds. *)
Lemma evict_ok held s e (x : StoreEntry) k e2 : Inv held s → get s e = Some x → 1 <= held e → hidden x → (∀ i, ¬ private_key k i) → (k, e2) ∈ table s →
  keys_needed s <= INT_MAX →
  ∃ s1 s2, storeSetPrivateKey s e2 = Some s1 ∧ release s1 e2 = Some s2 ∧ Inv held s2 ∧ (∃ c, get s2 e = Some (with_lock x c)) ∧ retired s2 e2 ∧
    (∀ d, (k, d) ∉ table s2) ∧ keys_needed s2 <= keys_needed s.
Proof.
  intros I He Hh Hhid Hk Hin Hn. pose proof (hidden_unlinked held s e x k e2 I He Hhid Hk Hin) as Hne.
  destruct (iv_table _ _ _ _ _ I k e2 Hin) as (x2 & G2 & _).
  destruct (set_private_ok new None [] held s e2 x2 I G2 Hn) as (s1 & y & E1 & I1 & O1 & _ & G1 & _ & P1). pose proof (on_keys _ _ _ O1).
  destruct (release_store_ok new None none_idle [] held s1 e2 y I1 G1) as (s2 & E2 & I2 & C2 & H2); [lia|]. exists s1, s2. split_and!; try done.
  - apply (cm_held _ _ _ _ _ C2); [by intros ->%list_elem_of_singleton|done|]. by rewrite (on_others _ _ _ O1).
  - unfold retired. destruct (storeEntryLocked y).
    + destruct H2 as (_ & z & -> & _ & Fz & Pz). split; [by apply Pz|done].
    + unfold gone in H2. destruct (get s2 e2); [|done]. by destruct H2 as (? & ? & _).
  - intros d Hd. pose proof (on_links _ _ _ O1 _ _ (cm_links _ _ _ _ _ C2 _ _ Hd Hk) Hk) as Hd0.
    assert (d = e2) as ->. { apply (lookup_found new None [] held s k) in Hd0, Hin; [|done..]. congruence. }
    destruct (iv_table _ _ _ _ _ I2 k e2 Hd) as (z & Gz & Kz). destruct (iv_key _ _ _ _ _ I2 e2 z k Gz Kz) as [_ Hpz].
    assert (Pz : flags z KEY_PRIVATE = true).
    { destruct (storeEntryLocked y).
      - destruct H2 as (_ & z' & Gz' & _ & _ & Pz). assert (z' = z) as -> by congruence. by apply Pz.
      - unfold gone in H2. rewrite Gz in H2. by apply H2. }
    rewrite Pz in Hpz. destruct Hpz as (i & Hi & _). by apply (Hk i).
  - pose proof (cm_keys _ _ _ _ _ C2). lia.
Qed.

(** Giving a hidden entry a free public key. *)
Lemma publish_ok held s e (x : StoreEntry) k : Inv held s → get s e = Some x → (∀ i, ¬ private_key k i) → (∀ d, (k, d) ∉ table s) →
  ∃ s', (s ← (if bool_decide (is_Some (key x)) then storeHashDelete s e else Some s);
         s ← EBIT_CLR s e KEY_PRIVATE;
         s ← storeHashInsert s e k;
         if -1 <? swap_filen x then storeDirSwapLog s e (SwapLogAdd e) else Some s) = Some s' ∧
    Inv held s' ∧ get s' e = Some (rekeyed x false k) ∧ (k, e) ∈ table s' ∧ (∀ d, d ≠ e → get s' d = get s d) ∧ keys_needed s' <= keys_needed s + 1.
Proof.
  intros I He Hk Hfree. rewrite (store_unlink_ok new None [] held s e x I He). cbn [mbind option_bind].
  unfold EBIT_CLR, upd, storeHashInsert, upd, get, put. cbn. rewrite !lookup_insert_eq. cbn. rewrite !lookup_insert_eq. cbn. set (s3 := set_table _ _).
  assert (Hrk : rekey s e x false k (key_counter s) s3) by (split; try done; cbn; by rewrite !insert_insert_eq).
  assert (I3 : Inv held s3) by (by apply (inv_rekey new None [] held s e x false k (key_counter s) s3)).
  pose proof (rekey_get _ _ _ _ _ _ _ e Hrk) as G3. rewrite decide_True in G3 by done.
  assert (Hout : get s3 e = Some (rekeyed x false k) ∧ (k, e) ∈ table s3 ∧ (∀ d, d ≠ e → get s3 d = get s d) ∧ keys_needed s3 <= keys_needed s + 1).
  { split_and!; [done|rewrite (rk_table _ _ _ _ _ _ _ Hrk); left|intros d Hd; by rewrite (rekey_get _ _ _ _ _ _ _ d Hrk), decide_False|].
    unfold keys_needed. rewrite (rk_counter _ _ _ _ _ _ _ Hrk), (rk_entries _ _ _ _ _ _ _ Hrk), (msum_put _ _ e x) by done.
    change (is_public (rekeyed x false k)) with 1. pose proof (is_public_nonneg x). lia. }
  change (∃ s', (if -1 <? swap_filen x then storeDirSwapLog s3 e (SwapLogAdd e) else Some s3) = Some s' ∧
    Inv held s' ∧ get s' e = Some (rekeyed x false k) ∧ (k, e) ∈ table s' ∧ (∀ d, d ≠ e → get s' d = get s d) ∧ keys_needed s' <= keys_needed s + 1).
  destruct (Z.ltb_spec (-1) (swap_filen x)); [|by exists s3].
  destruct (swap_log_ok s3 e (rekeyed x false k) (SwapLogAdd e) G3) as [l ->]; [done|cbn; lia|]. eexists. split; [done|]. split; [by apply (inv_same new None [] held s3)|]. exact Hout.
Qed.

(** What [storeSetPublicKey] achieves once it has the key. *)
Definition published (s : store) (e : Z) (x : StoreEntry) (k : K) (s' : store) : Prop :=
  hash_lookup s' k = Some e ∧ (∃ c, get s' e = Some (rekeyed (with_lock x c) false k)) ∧
  ∀ e2, hash_lookup s k = Some e2 → e2 ≠ e ∧ retired s' e2.

Lemma take_key_ok held s e (x : StoreEntry) k : Inv held s → get s e = Some x → 1 <= held e → hidden x → (∀ i, ¬ private_key k i) → keys_needed s <= INT_MAX →
  ∃ s', take_key s e k = Some s' ∧ Inv held s' ∧ published s e x k s' ∧ keys_needed s' <= keys_needed s + 1.
Proof.
  intros I He Hh Hhid Hk Hn. unfold take_key. destruct (hash_lookup s k) as [e2|] eqn:Hl.
  - pose proof (proj1 (lookup_found new None [] held s k e2 I) Hl) as Hin. pose proof (hidden_unlinked held s e x k e2 I He Hhid Hk Hin) as Hne.
    destruct (evict_ok held s e x k e2 I He Hh Hhid Hk Hin Hn) as (s1 & s2 & E1 & E2 & I2 & (c & G2) & R2 & Hfree & K2).
    rewrite E1. cbn [mbind option_bind]. rewrite E2. cbn [mbind option_bind]. rewrite G2. cbn [mbind option_bind].
    destruct (publish_ok held s2 e _ k I2 G2 Hk Hfree) as (s3 & E3 & I3 & G3 & Hin3 & Hoth & K3). exists s3. split; [exact E3|]. split_and!; [done| |lia].
    split; [by apply (lookup_found new None [] held s3 k e I3)|]. split; [by exists c|]. intros e2'. rewrite Hl. intros [= <-]. split; [done|]. unfold retired. by rewrite Hoth.
  - cbn [mbind option_bind]. rewrite He. cbn [mbind option_bind].
    assert (Hfree : ∀ d, (k, d) ∉ table s) by (intros d Hd; apply (lookup_found new None [] held s k d I) in Hd; congruence).
    destruct (publish_ok held s e x k I He Hk Hfree) as (s3 & E3 & I3 & G3 & Hin3 & _ & K3). exists s3. split; [exact E3|]. split_and!; [done| |done].
    split; [by apply (lookup_found new None [] held s3 k e I3)|]. split; [exists (lock_count x); by rewrite with_lock_id|]. intros e2'. by rewrite Hl.
Qed.

(** An entry that was public too early is hidden first. *)
Lemma hide_ok held s e (x : StoreEntry) : Inv held s → get s e = Some x →
  bool_decide (is_Some (key x)) && negb (flags x KEY_PRIVATE) && negb (flags x KEY_EARLY_PUBLIC) = false → keys_needed s <= INT_MAX →
  ∃ s1 x1, (if bool_decide (is_Some (key x)) && negb (flags x KEY_PRIVATE)
            then s ← EBIT_CLR s e KEY_EARLY_PUBLIC; storeSetPrivateKey s e else Some s) = Some s1 ∧
    Inv held s1 ∧ only e s s1 ∧ get s1 e = Some x1 ∧ hidden x1 ∧ alike [KEY_EARLY_PUBLIC; KEY_PRIVATE] x x1.
Proof.
  intros I He Hpub Hn. destruct (bool_decide (is_Some (key x))) eqn:Ek; cbn [andb] in *.
  2: { exists s, x. split_and!; try done. right. apply bool_decide_eq_false in Ek. destruct (key x); [|done]. destruct Ek. by eexists. }
  destruct (flags x KEY_PRIVATE) eqn:Ep; cbn [negb]; [by exists s, x; split_and!; try done; left|].
  destruct (set_flag_ok new None [] held s e x KEY_EARLY_PUBLIC false I He) as (s1 & E1 & I1 & O1 & _ & G1); [done..|]. unfold EBIT_CLR. rewrite E1. cbn [mbind option_bind].
  destruct (set_private_ok new None [] held s1 e _ I1 G1) as (s2 & y & E2 & I2 & O2 & _ & G2 & A2 & P2); [pose proof (on_keys _ _ _ O1); lia|].
  exists s2, y. split_and!; try done; [by eapply only_trans|by left|]. exact (alike_trans _ _ _ _ _ (alike_flag _ _ _) A2).
Qed.

Lemma public_not_private u m i : ¬ private_key (storeKeyPublic u m) i.
Proof. intros (u' & m' & E). by apply (private_not_public u' m' i u m). Qed.
Lemma request_not_private r i : ¬ private_key (storeKeyPublicByRequest r) i.
Proof. intros (u' & m' & E). by apply (private_not_request u' m' i r). Qed.

Lemma settle_ok held s e (x : StoreEntry) m r : Inv held s → get s e = Some x → 1 <= held e → hidden x → keys_needed s <= INT_MAX →
  ∃ o, settle_variance s e m r = Some o ∧
    match o with
    | None => is_Some (vary_headers m)
    | Some (s', r') => Inv held s' ∧ (∃ c, get s' e = Some (with_lock x c)) ∧ keys_needed s' <= keys_needed s ∧
        (vary_headers m = None → s' = s ∧ r' = r_free_vary r)
    end.
Proof.
  intros I He Hh Hhid Hn. unfold settle_variance.
  assert (Hsame : ∃ c, get s e = Some (with_lock x c)) by (exists (lock_count x); by rewrite with_lock_id).
  destruct (vary_headers m) as [v|] eqn:Ev; [|by eexists]. destruct (r_vary_headers r) as [w|].
  2: { eexists. split; [done|]. destruct (r_make_vary r); [done|by eexists]. }
  case_bool_decide; [by eexists|]. unfold storeGetPublic, storeGet. destruct (hash_lookup s _) as [pe|] eqn:El; [|cbn [mbind option_bind]; by eexists].
  apply (lookup_found new None [] held s _ _ I) in El. pose proof (hidden_unlinked held s e x _ pe I He Hhid (public_not_private _ _) El) as Hne.
  destruct (iv_table _ _ _ _ _ I _ pe El) as (y & Gy & _). destruct (release_store_ok new None none_idle [] held s pe y I Gy Hn) as (s' & E' & I' & C' & _).
  rewrite E'. cbn [mbind option_bind]. eexists. split; [done|]. cbn. split_and!; [done| |apply (cm_keys _ _ _ _ _ C')|done].
  apply (cm_held _ _ _ _ _ C'); [by intros ->%list_elem_of_singleton|done|done].
Qed.

(** The entry after its key was set, or it was given up. *)
Record after_public (x : StoreEntry) (y : StoreEntry) : Prop := {
  ap_mem : is_Some (mem_obj x) → is_Some (mem_obj y);
  ap_key : is_Some (key y);
  ap_memory : in_memory y = in_memory x;
  ap_pending : pending y = pending x;
  ap_status : swap_status y = swap_status x;
  ap_special : flags y ENTRY_SPECIAL = flags x ENTRY_SPECIAL;
  ap_outcome : flags y KEY_PRIVATE = true → flags y RELEASE_REQUEST = true }.

Lemma after_rekeyed x0 (x : StoreEntry) c k : alike [KEY_EARLY_PUBLIC; KEY_PRIVATE] x0 x → after_public x0 (rekeyed (with_lock x c) false k).
Proof.
  intros []. split; try done; [by cbn; rewrite al_mem|]. cbn. apply al_flags. rewrite !elem_of_cons. intros [|[|?%elem_of_nil]]; done.
Qed.

(** The key an entry is made public under, if its reply does not vary. *)
Definition public_key_of (m : MemObject) : K :=
  match request m with Some r => storeKeyPublicByRequest (r_free_vary r) | None => storeKeyPublic (storeLookupUrl m) (method m) end.

Lemma set_public_ok held s e (x : StoreEntry) m : Inv held s → get s e = Some x → mem_obj x = Some m → 1 <= held e → flags x RELEASE_REQUEST = false →
  keys_needed s <= INT_MAX →
  ∃ s' y, storeSetPublicKey s e = Some s' ∧ Inv held s' ∧ get s' e = Some y ∧ (is_Some (key x) ∧ s' = s ∨ after_public x y) ∧
    keys_needed s' <= keys_needed s + 1 ∧
    (hidden x → vary_headers m = None → flags y KEY_PRIVATE = false ∧ flags y RELEASE_REQUEST = false ∧ hash_lookup s' (public_key_of m) = Some e ∧
      ∀ e2, hash_lookup s (public_key_of m) = Some e2 → e2 ≠ e ∧ retired s' e2).
Proof.
  intros I He Hm Hh Hr Hn. unfold storeSetPublicKey. rewrite He. cbn [mbind option_bind]. destruct (_ && _ && _) eqn:Ed.
  { exists s, x. split; [done|]. split_and!; try done; [|lia|].
    - left. split; [|done]. apply andb_true_iff in Ed as [[Ed _]%andb_true_iff _]. by apply bool_decide_eq_true in Ed.
    - intros Hhid. exfalso. apply andb_true_iff in Ed as [[Ek%bool_decide_eq_true Ep]%andb_true_iff _]. destruct Hhid as [Hp|Hp]; rewrite Hp in *; [done|by destruct Ek]. }
  destruct (hide_ok held s e x I He Ed Hn) as (s1 & x1 & E1 & I1 & O1 & G1 & Hhid & A1).
  assert (Hs1 : hidden x → s1 = s ∧ x1 = x).
  { intros Hx. assert (s1 = s) as ->; [|by split; [|congruence]]. destruct Hx as [Hx|Hx]; rewrite Hx in E1; cbn in E1; rewrite ?andb_false_r in E1; congruence. }
  rewrite E1. cbn [mbind option_bind]. rewrite G1. cbn [mbind option_bind]. rewrite (al_mem _ _ _ A1), Hm. cbn [mbind option_bind].
  assert (Hr1 : flags x1 RELEASE_REQUEST = false) by (rewrite (al_flags _ _ _ A1); [done|set_solver]). rewrite Hr1. pose proof (on_keys _ _ _ O1) as K1.
  destruct (request m) as [r|] eqn:Er.
  - destruct (settle_ok held s1 e x1 m r I1 G1 Hh Hhid) as (o & -> & Ho); [lia|]. cbn [mbind option_bind]. destruct o as [[s2 r']|].
    + destruct Ho as (I2 & (c & G2) & K2 & Hv). rewrite (upd_mem_eq s2 e _ m _ G2) by (cbn; by rewrite (al_mem _ _ _ A1)). cbn [mbind option_bind].
      destruct (forget_request_ok new None [] held s2 e _ m (Some r') (abort_callback m) I2 G2) as [I3 O3]; [cbn; by rewrite (al_mem _ _ _ A1)|].
      set (x3 := with_mem _ _) in *. set (s3 := put s2 e x3) in *. set (s4 := match vary_headers m with Some _ => _ | None => _ end).
      assert (I4 : Inv held s4 ∧ get s4 e = Some x3 ∧ keys_needed s4 = keys_needed s3 ∧ ∀ k, hash_lookup s4 k = hash_lookup s3 k).
      { unfold s4. assert (get s3 e = Some x3) by apply get_put_eq. destruct (vary_headers m); [destruct (flags x1 KEY_EARLY_PUBLIC); cbn [negb]|]; split_and!; try done. by apply inv_emit. }
      destruct I4 as (I4 & G4 & K4 & L4). pose proof (on_keys _ _ _ O3).
      destruct (take_key_ok held s4 e x3 (storeKeyPublicByRequest r') I4 G4 Hh Hhid (request_not_private r')) as (s5 & E5 & I5 & (P5 & (c5 & G5) & Ev5) & K5); [lia|].
      exists s5. eexists. split; [exact E5|]. split; [done|]. split; [exact G5|]. split_and!; [|lia|].
      * right. destruct A1. split; try done. cbn. apply al_flags. set_solver.
      * intros Hx Hvn. destruct (Hs1 Hx) as [-> ->]. destruct (Hv Hvn) as [-> ->]. unfold public_key_of. rewrite Er. split_and!; [done|done|done|].
        intros e2 He2. apply Ev5. by rewrite L4.
    + destruct (release_request_ok new None [] held s1 e x1 I1 G1) as (s2 & y & E2 & I2 & O2 & _ & G2 & A2 & F2 & P2); [lia|].
      exists s2, y. split; [exact E2|]. pose proof (on_keys _ _ _ O2). split_and!; try done; [|lia|by intros _ Hvn; rewrite Hvn in Ho; destruct Ho].
      right. pose proof (alike_trans _ _ _ _ _ A1 A2) as []. split; try done; [by rewrite al_mem|..].
      * destruct (iv_keyed _ _ _ _ _ I2 e y G2) as [|[_ Hp]]; [done|]. rewrite P2 in Hp by (by right). done.
      * apply al_flags. set_solver.
  - destruct (take_key_ok held s1 e x1 (storeKeyPublic (storeLookupUrl m) (method m)) I1 G1 Hh Hhid (public_not_private _ _)) as (s2 & E2 & I2 & (P2 & (c & G2) & Ev) & K2); [lia|].
    exists s2. eexists. split; [exact E2|]. split; [done|]. split; [exact G2|]. split_and!; [right; by apply after_rekeyed|lia|].
    intros Hx _. destruct (Hs1 Hx) as [-> ->]. unfold public_key_of. rewrite Er. by split_and!.
Qed.
End Public.

(** ** Creating *)

Lemma inv_make held (s : store) e (x : StoreEntry) m : Inv None None [] held s → get s e = None → key x = None → mem_obj x = Some m →
  ims_entry m = None → old_entry m = None → flags x KEY_PRIVATE = false → lock_count x = 1 → storePendingNClients x = 0 → swap_status x = SWAPOUT_NONE →
  entry_ok False x → Inv (Some e) None [] (give held e 1) (put s e x) ∧ keys_needed (put s e x) = keys_needed s + 1.
Proof.
  intros I He Hk Hm Hi Ho Hp Hl Hc Hs Hok. destruct (iv_dead _ _ _ _ _ I e He) as (Hh & Hr & Hlt).
  assert (Hrefs : ∀ d, refs (put s e x) d = refs s d).
  { intros d. unfold refs. cbn. rewrite msum_insert by done. unfold refs_of at 1. by rewrite Hm, Hi, Ho. }
  assert (Hlate : ∀ d, late (put s e x) d = late s d) by done.
  assert (Hlru : e ∉ mem_lru s) by (intros Hin; destruct (iv_lru _ _ _ _ _ I e Hin) as (y & Hy & _); congruence).
  split.
  - pose proof (get_put s e x) as G. destruct I. split; try done.
    + intros d y k. rewrite G. destruct (decide (d = e)) as [->|]; [|by apply iv_key]. intros [= <-]. congruence.
    + intros d y. rewrite G. destruct (decide (d = e)) as [->|]; [intros [= <-]; by right|]. intros Hy. destruct (iv_keyed d y Hy) as [|[? _]]; [by left|done].
    + intros d [= <-]. rewrite give_eq, Hrefs. lia.
    + intros k d Hin. destruct (iv_table k d Hin) as (y & Hy & Hky). rewrite G. destruct (decide (d = e)) as [->|]; [congruence|by exists y].
    + intros d Hin. rewrite G. destruct (decide (d = e)) as [->|]; [done|]. by apply iv_lru.
    + intros d y. rewrite G, Hrefs, Hlate. destruct (decide (d = e)) as [->|Hd].
      * intros [= <-]. rewrite give_eq, Hl, Hc. unfold writing. rewrite Hs, decide_False by done. lia.
      * rewrite give_ne by done. apply iv_lock.
    + intros d y. rewrite G. destruct (decide (d = e)) as [->|]; [|apply iv_entry]. intros [= <-]. destruct Hok. split; try done; intros _; [exact (eo_sio (λ H, H))|exact (eo_data (λ H, H))].
    + intros d y. rewrite G. destruct (decide (d = e)) as [->|]; [intros _ _ Hmv; destruct Hmv; by right|]. intros Hy Hn _. apply (iv_stored d y Hy Hn). by intros [|].
    + intros d. unfold give. specialize (iv_held d). destruct (decide _); lia.
    + intros d. rewrite G, Hrefs, Hlate. destruct (decide (d = e)) as [->|]; [done|]. rewrite give_ne by done. apply iv_dead.
    + by intros d ?%not_elem_of_nil.
  - unfold keys_needed. cbn. rewrite msum_insert by done. unfold is_public at 1. rewrite Hp. lia.
Qed.

Lemma inv_made held (s : store) e (x : StoreEntry) : Inv (Some e) None [] held s → get s e = Some x → is_Some (key x) → pending x = true → Inv None None [] held s.
Proof.
  intros [] He Hk Hp. split; try done.
  - intros d y Hy. destruct (iv_keyed d y Hy) as [|[[= <-] _]]; [by left|]. left. congruence.
  - intros d y Hy Hn _. destruct (decide (d = e)) as [->|Hne]; [assert (y = x) as -> by congruence; by intros ?; congruence|].
    apply (iv_stored d y Hy Hn). intros [|[= <-]]; done.
Qed.

(** What is known of the entry while it is being made. *)
Record making (y : StoreEntry) : Prop := {
  mk_memory : in_memory y = false;
  mk_status : swap_status y = SWAPOUT_NONE;
  mk_mem : is_Some (mem_obj y);
  mk_key : is_Some (key y) }.

Lemma making_alike F (x y : StoreEntry) : making x → alike F x y → is_Some (key y) → making y.
Proof. intros [] [] Hk. split; [congruence|congruence|by rewrite al_mem|done]. Qed.

Lemma first_key_ok held (s : store) e (x : StoreEntry) m (public : bool) : Inv (Some e) None [] held s → get s e = Some x → mem_obj x = Some m → key x = None →
  vary_headers m = None → 1 <= held e → in_memory x = false → swap_status x = SWAPOUT_NONE → flags x RELEASE_REQUEST = false → keys_needed s <= INT_MAX →
  ∃ s' y, (if public then storeSetPublicKey s e else storeSetPrivateKey s e) = Some s' ∧ Inv (Some e) None [] held s' ∧ get s' e = Some y ∧
    making y ∧ flags y RELEASE_REQUEST = false ∧ keys_needed s' <= keys_needed s + 1 ∧
    (public = true → hash_lookup s' (public_key_of m) = Some e ∧ ∀ e2, hash_lookup s (public_key_of m) = Some e2 → e2 ≠ e ∧ retired s' e2).
Proof.
  intros I He Hm Hk Hv Hh Hi Hs Hr Hn. destruct public.
  - destruct (set_public_ok (Some e) held s e x m I He Hm Hh Hr Hn) as (s' & y & E & I' & G & A & K' & P). destruct (P (or_intror Hk) Hv) as (_ & P1 & P2 & P3).
    exists s', y. split_and!; try done. destruct A as [[[? ?] _]|[]]; [congruence|]. split; [congruence|congruence|apply ap_mem0; by exists m|done].
  - destruct (set_private_ok (Some e) None [] held s e x I He Hn) as (s' & y & E & I' & O & _ & G & A & P). exists s', y. pose proof (on_keys _ _ _ O).
    split_and!; try done; [|by rewrite (al_flags _ _ _ A); [|set_solver]|lia]. destruct A. split; [congruence|congruence|rewrite al_mem; by exists m|].
    destruct (iv_keyed _ _ _ _ _ I' e y G) as [|[_ ?]]; [done|congruence].
Qed.

Lemma mark_cachable_ok held (s : store) e (y : StoreEntry) (cachable : bool) : Inv (Some e) None [] held s → get s e = Some y → making y →
  flags y RELEASE_REQUEST = false → keys_needed s <= INT_MAX →
  ∃ s' z, (if cachable then s ← EBIT_SET s e ENTRY_CACHABLE; EBIT_CLR s e RELEASE_REQUEST
           else s ← EBIT_CLR s e ENTRY_CACHABLE; storeReleaseRequest s e) = Some s' ∧
    Inv (Some e) None [] held s' ∧ only e s s' ∧ get s' e = Some z ∧ making z.
Proof.
  intros I He Hmk Hr Hn. unfold EBIT_SET, EBIT_CLR. destruct cachable.
  - destruct (set_flag_ok (Some e) None [] held s e y ENTRY_CACHABLE true I He) as (s1 & E1 & I1 & O1 & _ & G1); [done..|]. rewrite E1. cbn [mbind option_bind].
    set (y1 := with_flag y ENTRY_CACHABLE true) in *. rewrite (upd_eq s1 e y1) by done.
    destruct (restyle_ok (Some e) None [] held s1 e y1 (with_flag y1 RELEASE_REQUEST false) I1 G1) as [I2 O2].
    { split; try done. intros Hr1. change (flags y1 RELEASE_REQUEST) with (flags y RELEASE_REQUEST) in Hr1. congruence. }
    eexists _, _. split; [done|]. split_and!; [done|by eapply only_trans|apply get_put_eq|]. destruct Hmk. by split.
  - destruct (set_flag_ok (Some e) None [] held s e y ENTRY_CACHABLE false I He) as (s1 & E1 & I1 & O1 & _ & G1); [done..|]. rewrite E1. cbn [mbind option_bind].
    destruct (release_request_ok (Some e) None [] held s1 e _ I1 G1) as (s2 & z & E2 & I2 & O2 & _ & G2 & A2 & F2 & P2); [pose proof (on_keys _ _ _ O1); lia|].
    exists s2, z. split_and!; try done; [by eapply only_trans|]. eapply making_alike; [|exact A2|]; [by destruct Hmk; split|].
    destruct (iv_keyed _ _ _ _ _ I2 e z G2) as [|[_ Hp]]; [done|]. rewrite P2 in Hp; [done|]. right. done.
Qed.

(** The last part of [storeCreateEntry]. *)
Lemma finish_making_ok held (s : store) e (y : StoreEntry) : Inv (Some e) None [] held s → get s e = Some y → making y →
  ∃ s' z, (s ← upd s e (λ x, with_pending x true);
         s ← storeSetMemStatus s e false;
         s ← upd s e (λ x, with_swap x (swap_file_sz x) (-1) (-1) SWAPOUT_NONE);
         s ← upd s e (λ x, with_times x (-1) (squid_curtime s) (expires x) (lastmod x));
         EBIT_SET s e ENTRY_VALIDATED) = Some s' ∧ Inv None None [] held s' ∧ only e s s' ∧ get s' e = Some z ∧ pending z = true ∧
    key z = key y ∧ mem_obj z = mem_obj y.
Proof.
  intros I He []. rewrite (upd_eq s e y) by done. cbn [mbind option_bind]. pose proof (iv_entry _ _ _ _ _ I e y He) as Hok. destruct mk_mem0 as [m Hm].
  destruct (edit_ok (Some e) None [] held s e y (with_pending y true) I He) as [I1 O1]; try done.
  { destruct Hok. by split. }
  set (y1 := with_pending y true) in *. set (s1 := put s e y1) in *. assert (G1 : get s1 e = Some y1) by apply get_put_eq.
  apply (inv_made held s1 e y1) in I1; [|done..].
  destruct (leave_memory_ok None None [] held s1 e y1 I1 G1) as (s2 & E2 & I2 & O2 & G2). rewrite E2. cbn [mbind option_bind]. set (y2 := with_memory y1 false) in *.
  rewrite (upd_eq s2 e y2) by done. cbn [mbind option_bind].
  destruct (edit_ok None None [] held s2 e y2 (with_swap y2 (swap_file_sz y2) (-1) (-1) SWAPOUT_NONE) I2 G2) as [I3 O3]; try done.
  { unfold writing. cbn. by rewrite mk_status0. }
  { destruct (iv_entry _ _ _ _ _ I2 e y2 G2). split; try done.
    - intros Hc m' Hm' Hsio. specialize (eo_sio Hc m' Hm' Hsio). cbn in eo_sio. congruence.
    - intros Hc m' Hm' Hr _. by apply (eo_data Hc m' Hm' Hr). }
  set (y3 := with_swap y2 _ _ _ _) in *. set (s3 := put s2 e y3) in *. assert (G3 : get s3 e = Some y3) by apply get_put_eq. rewrite (upd_eq s3 e y3) by done. cbn [mbind option_bind].
  set (y4 := with_times y3 _ _ _ _). destruct (restyle_ok None None [] held s3 e y3 y4 I3 G3) as [I4 O4]; [by split|]. set (s4 := put s3 e y4) in *.
  destruct (set_flag_ok None None [] held s4 e y4 ENTRY_VALIDATED true I4 (get_put_eq _ _ _)) as (s5 & E5 & I5 & O5 & _ & G5); [done..|].
  exists s5. eexists. split; [exact E5|]. split_and!; [done| |exact G5|done|done|done].
  eapply only_trans; [exact O1|]. eapply only_trans; [exact O2|]. eapply only_trans; [exact O3|]. by eapply only_trans.
Qed.
End Steps.
