(* ===== verification/StoreProtocol.v ===== *)
(** * The store as a protocol (src/store.c, src/store_swapout.c, src/store_client.c)

    The operations of the store as steps, with the locks their callers hold: any
    sequence of them goes through, keeps the table exact and the lock counts right.
    The rest shows what making an entry public does, and what the code does where
    its callers must not rely on it. *)
From S2P Require Import Prelude CString Store StoreProof StoreSafe.
Import Store.
#[local] Set Default Proof Using "Type*".

Section Protocol.
Context {K R : Type} `{EqDecision K} `{!StoreKeys K R} `{!StoreKeysOk K R}.
Notation store := (@store K R).
Notation StoreEntry := (@StoreEntry K R).
Notation MemObject := (@MemObject R).
Notation Inv := (Inv None None []).

(** ** More operations *)











(** ** The protocol *)

Inductive action :=
  | Lock (e : Z) | Unlock (e : Z)
  | Create (e : Z) (video npk hier cachable : bool) (u : list Z) (m : Z)
  | Restore (e dirn : Z) (k : K) (fn sz exp ts lref lmod : Z) (fl : flag → bool)
  | CreateMem (e : Z) (u : list Z) | SetOld (e o : Z) | SetIms (e o : Z)
  | SetPublic (e : Z) | MakePublic (e : Z) | MakePrivate (e : Z) | ReleaseRequest (e : Z) | Expire (e : Z) | Release (e : Z)
  | Times (e date age exp last_modified : Z)
  | Register (e : Z) | Unregister (qa : quick_abort) (cf : limits) (lowest offset : Z) (free_upto : Z → bool * Z) (e : Z)
  | Append (e n : Z) | Buffer (e : Z) | Flush (e : Z) | Complete (e : Z) | Abort (e : Z)
  | Trim (cf : limits) (lowest offset : Z) (free_upto : Z → bool * Z) (e : Z)
  | SwapBegin (cf : limits) (busy : bool) (e hdr : Z) (file : option (Z * Z)) | SwapWrite (e len : Z) | SwapFinish (e : Z)
  | SwapClosed (cf : limits) (err : bool) (lowest offset : Z) (free_upto : Z → bool * Z) (e : Z)
  | LateRelease | Purge (e : Z).

Definition act (s : store) (a : action) : option store :=
  match a with
  | Lock e => storeLockObject s e
  | Unlock e => unlock s e
  | Create e v npk hier c u m => storeCreateEntry (λ _, Some v) npk s e u hier c m
  | Restore e dirn k fn sz exp ts lref lmod fl => storeUfsDirAddDiskRestore s e dirn k fn sz exp ts lref lmod fl
  | CreateMem e u => storeCreateMemObject s e u
  | SetOld e o => set_old_entry s e o
  | SetIms e o => set_ims_entry s e o
  | SetPublic e => storeSetPublicKey s e
  | MakePublic e => httpMakePublic s e
  | MakePrivate e => httpMakePrivate s e
  | ReleaseRequest e => storeReleaseRequest s e
  | Expire e => storeExpireNow s e
  | Release e => release s e
  | Times e date age exp lm => upd s e (storeTimestampsSet (squid_curtime s) date age exp lm)
  | Register e => storeClientRegister s e
  | Unregister qa cf lowest offset f e => storeClientUnregister qa (storeSwapOutMaintainMemObject cf lowest offset f) s e
  | Append e n => storeAppend s e n
  | Buffer e => storeBuffer s e
  | Flush e => storeBufferFlush s e
  | Complete e => storeComplete s e
  | Abort e => storeAbort s e
  | Trim cf lowest offset f e => storeSwapOutMaintainMemObject cf lowest offset f s e
  | SwapBegin cf busy e hdr file => swap_out_begin cf busy s e hdr file
  | SwapWrite e len => swap_out_write s e len
  | SwapFinish e => swap_out_finish s e
  | SwapClosed cf err lowest offset f e => storeSwapOutFileClosed cf (storeSwapOutMaintainMemObject cf lowest offset f) err s e
  | LateRelease => storeLateRelease s
  | Purge e => purge_one s e
  end.











Definition empty_store (rebuilding : bool) (now : Z) : store := mkStore ∅ [] 0 [] 0 [] rebuilding now [].







End Protocol.

(** ** Examples *)

Inductive demo_key := Pub (u : list Z) (m : Z) | Req (r : Z) | Priv (u : list Z) (m i : Z).
#[export] Instance demo_key_eq_dec : EqDecision demo_key.
Proof. solve_decision. Defined.

(** A request is the number of its URL; none varies. *)
#[export] Instance demo_keys : StoreKeys demo_key Z :=
  {| storeKeyPublic := Pub; storeKeyPublicByRequest := Req; storeKeyPrivate := Priv; r_cachable _ := true; r_vary_headers _ := None; r_free_vary r := r; r_make_vary _ := None |}.
#[export] Instance demo_keys_ok : StoreKeysOk demo_key Z.
Proof. split; cbn; congruence. Qed.

Fixpoint run (s : store (K := demo_key) (R := Z)) (l : list (action (K := demo_key))) : option (store (K := demo_key) (R := Z)) :=
  match l with [] => Some s | a :: l => s ← act s a; run s l end.
Definition demo (l : list (action (K := demo_key))) : store (K := demo_key) (R := Z) := default (empty_store false 0) (run (empty_store false 100) l).

Definition create (e : Z) (video : bool) : action (K := demo_key) := Create e video true true true [104; 47] 1.

Definition cf0 : limits := mkLimits 1000 0 1000.
(** The flags and the lock count of an entry. *)
Definition entry_of (s : store (K := demo_key) (R := Z)) (e : Z) : option (bool * bool * Z) :=
  (λ x, (flags x KEY_PRIVATE, flags x RELEASE_REQUEST, lock_count x)) <$> get s e.





(** An entry that is complete but empty is freed by [storePurgeMem] when its last
    lock goes, and [storeEntryDereferenced] is given it still. *)
Example empty_entry_used_after_free : run (empty_store false 100) [create 1 false; Complete 1; Unlock 1] = None.
Proof. by vm_compute. Qed.

(** An entry whose last lock goes during the transfer is marked for release so that
    [storeReleaseRequest] takes it to be released already: it stays public. *)
Example abandoned_entry_stays_public :
  let s := demo [create 1 true; Unlock 1] in entry_of s 1 = Some (false, true, 0) ∧ hash_lookup s (Pub [104; 47] 1) = Some 1.
Proof. by vm_compute. Qed.

(** The entry a refresh creates for a video takes the key from the object that is
    being refreshed, which is to be released whatever the reply is. *)
Example video_refresh_drops_object :
  let s := demo [create 1 true; Append 1 10; Complete 1; create 2 true; SetOld 2 1] in
  entry_of s 1 = Some (true, true, 2) ∧ hash_lookup s (Pub [104; 47] 1) = Some 2.
Proof. by vm_compute. Qed.

(** A file with the number 0 that could not be written is not unlinked. *)
Definition unlinked_by (fn : Z) : bool :=
  existsb (λ ev, match ev with Unlink _ => true | _ => false end)
    (log (demo [create 1 true; Append 1 10; SwapBegin cf0 false 1 8 (Some (fn, 0)); SwapClosed cf0 true 0 0 (λ l, (false, l)) 1])).
Example file_zero_not_unlinked : unlinked_by 0 = false ∧ unlinked_by 1 = true.
Proof. by vm_compute. Qed.
